(** * dastd: the marshaling subsystem, its JSON tokenizer and multinum

    A shallow embedding of the binary codec ([marshal_enc_bin],
    [marshal_dec_bin]), of the JSON decoder's structure handling
    ([marshal_dec_json]), of the JSON encoder's [encode_f64]
    ([marshal_enc_json]), of the JSON tokenizer ([json_tokenizer_base]) and of
    the number container ([multinum]), with the properties the repository's
    specification states about them.

    Conventions.  Bytes are [Byte.byte]; fixed-width integers are [Z] with the
    wrap-around of every narrowing cast written out; [size_t] quantities
    (offsets, counters) are [Z] or [nat] without wrap-around, since they are
    bounded by the length of an in-memory stream.  A C++ exception or a failed
    [assert] ends a computation with [Thrown]. *)

From Stdlib Require Import ZArith List Lia Bool String Ascii.
From coqutil Require Import Byte Word.LittleEndianList.
Import ListNotations.
Local Open Scope Z_scope.

(** ** Computations that read and update an object and may throw *)

Inductive failure : Type :=
| exception_marshal     (* DASTD_THROW(exception_marshal, ...) *)
| assertion_failed      (* assert(...) evaluated to false *)
| undefined_behaviour   (* out-of-bounds read of a caller-supplied array *)
| out_of_fuel           (* the bound given to a modelled loop was too small *)
| type_mismatch.        (* user code handed a value of another type than declared *)

Inductive outcome (A : Type) : Type :=
| Done (a : A)
| Thrown (f : failure).
Arguments Done {A} a.
Arguments Thrown {A} f.

Definition sem (S A : Type) : Type := S -> outcome (A * S).

Definition ret {S A} (a : A) : sem S A := fun s => Done (a, s).

Definition bind {S A B} (c : sem S A) (k : A -> sem S B) : sem S B :=
  fun s => match c s with
           | Done (a, s') => k a s'
           | Thrown f => Thrown f
           end.

Definition throw {S A} (f : failure) : sem S A := fun _ => Thrown f.
Definition get {S} : sem S S := fun s => Done (s, s).
Definition put {S} (s : S) : sem S unit := fun _ => Done (tt, s).
Definition assert {S} (b : bool) : sem S unit :=
  if b then ret tt else throw assertion_failed.
Definition throw_if {S} (b : bool) : sem S unit :=
  if b then throw exception_marshal else ret tt.

Declare Scope sem_scope.
Delimit Scope sem_scope with sem.
Notation "x <- c1 ;; c2" := (bind c1 (fun x => c2))
  (at level 61, c1 at next level, right associativity) : sem_scope.
Notation "' pat <- c1 ;; c2" := (bind c1 (fun x => match x with pat => c2 end))
  (at level 61, pat pattern, c1 at next level, right associativity) : sem_scope.
Notation "c1 ;; c2" := (bind c1 (fun _ => c2))
  (at level 61, right associativity) : sem_scope.
Local Open Scope sem_scope.

(** ** marshal.hpp, marshal_enc.hpp, marshal_dec.hpp, marshal_bin.hpp *)

Definition cast_u32 (z : Z) : Z := z mod 2 ^ 32.
Definition cast_u64 (z : Z) : Z := z mod 2 ^ 64.

(** [(T)z] for a signed [T] of [w] bits. *)
Definition cast_signed (w : Z) (z : Z) : Z :=
  (z + 2 ^ (w - 1)) mod 2 ^ w - 2 ^ (w - 1).

Definition marshal_label_id_t := Z.
Definition marshal_label_id_INVALID : marshal_label_id_t := 0.
Definition marshal_array_SIZE_UNKNOWN : Z := 2 ^ 64 - 1.   (* ((size_t)-1) *)

(** [m_label_text] is a [const char*]: [None] is [nullptr]. *)
Record marshal_label : Type := {
  m_label_text : option string;
  m_label_id : marshal_label_id_t
}.

(** [marshal_label()] *)
Definition marshal_label_empty : marshal_label :=
  {| m_label_text := None; m_label_id := marshal_label_id_INVALID |}.

Inductive marshal_optional_field : Type :=
| MANDATORY | OPTIONAL_PRESENT | OPTIONAL_MISSING.

Definition marshal_label_info_t := Z.
Definition marshal_label_info_optional_flag : Z := 0x100000000.

Definition marshal_label_info_calc (label_id : marshal_label_id_t) (optional : bool)
  : marshal_label_info_t :=
  Z.lor (if optional then marshal_label_info_optional_flag else 0) label_id.

Definition marshal_label_info_is_optional (label_info : marshal_label_info_t) : bool :=
  Z.land label_info marshal_label_info_optional_flag =? marshal_label_info_optional_flag.

Definition marshal_label_info_to_id (label_info : marshal_label_info_t) : marshal_label_id_t :=
  cast_u32 (Z.land label_info 0xFFFFFFFF).

Inductive marshal_bin_element_type : Type :=
| STRUCT | FIELD | FIELD_MISSING | ARRAY | ARRAY_ELEMENT
| DICTIONARY | DICTIONARY_ELEMENT | TYPED.

Definition element_type_eqb (a b : marshal_bin_element_type) : bool :=
  match a, b with
  | STRUCT, STRUCT | FIELD, FIELD | FIELD_MISSING, FIELD_MISSING
  | ARRAY, ARRAY | ARRAY_ELEMENT, ARRAY_ELEMENT | DICTIONARY, DICTIONARY
  | DICTIONARY_ELEMENT, DICTIONARY_ELEMENT | TYPED, TYPED => true
  | _, _ => false
  end.

(** ** endian_aware.hpp *)

(** The two build variants ([memcpy] on a little-endian host, [invert_bytes]
    on a big-endian one) produce the same bytes: least significant first. *)
Definition native_to_little_endian (size : nat) (source : Z) : list byte :=
  le_split size source.

Definition little_endian_to_native (is_signed : bool) (size : nat) (source : list byte) : Z :=
  let u := le_combine (firstn size source) in
  if is_signed then cast_signed (8 * Z.of_nat size) u else u.

(** ** float.hpp *)

(** A [double] is represented by its IEEE-754 binary64 bit pattern, a [Z] in
    [0, 2^64). *)
Definition f64 := Z.

(** Modelled from the spec: float.hpp, which declares pack_f64 and unpack_f64,
    is not among the sources; the wire form of an f64 is its IEEE-754 binary64
    pattern, so both are the identity on patterns. *)
Definition pack_f64 (value : f64) : Z := cast_u64 value.
Definition unpack_f64 (bits : Z) : f64 := cast_u64 bits.

(** ** utf8.hpp *)

Definition DASTD_BINGET (var fstbit len : Z) : Z :=
  Z.land (Z.shiftr var fstbit) (Z.shiftl 1 len - 1).

Definition DASTD_BINSET (var fstbit len value : Z) : Z :=
  Z.lor (Z.land var (Z.lnot (Z.shiftl (Z.shiftl 1 len - 1) fstbit)))
        (Z.shiftl value fstbit).

Definition CHAR32_INVALID : Z := 2 ^ 32 - 1.

Definition count_utf8_following_chars (ch : byte) : Z :=
  let c := byte.unsigned ch in
  if Z.land c 0xE0 =? 0xC0 then 1
  else if Z.land c 0xF0 =? 0xE0 then 2
  else if Z.land c 0xF8 =? 0xF0 then 3
  else 0.

(** The bytes stored in [utf8] before the terminating zero; their number is
    the function's result. *)
Definition write_utf8_asciiz (code_point : Z) : list byte :=
  if code_point <? 0x0080 then [byte.of_Z code_point]
  else if code_point <? 0x0800 then
    [byte.of_Z (Z.lor 0xC0 (DASTD_BINGET code_point 6 5));
     byte.of_Z (Z.lor 0x80 (DASTD_BINGET code_point 0 6))]
  else if code_point <? 0x10000 then
    [byte.of_Z (Z.lor 0xE0 (DASTD_BINGET code_point 12 4));
     byte.of_Z (Z.lor 0x80 (DASTD_BINGET code_point 6 6));
     byte.of_Z (Z.lor 0x80 (DASTD_BINGET code_point 0 6))]
  else if code_point <? 0x10FFFF then
    [byte.of_Z (Z.lor 0xF0 (DASTD_BINGET code_point 18 3));
     byte.of_Z (Z.lor 0x80 (DASTD_BINGET code_point 12 6));
     byte.of_Z (Z.lor 0x80 (DASTD_BINGET code_point 6 6));
     byte.of_Z (Z.lor 0x80 (DASTD_BINGET code_point 0 6))]
  else [].

Fixpoint calc_utf8_length (str : list Z) : Z :=
  match str with
  | [] => 0
  | c :: rest => Z.of_nat (List.length (write_utf8_asciiz c)) + calc_utf8_length rest
  end.

(** [read_utf8_asciiz(p_chars, code_point)]: the pair (characters read,
    code point).  [p_chars] is a zero-filled buffer, so a missing byte reads
    as zero. *)
Definition read_utf8_asciiz (p_chars : list byte) : Z * Z :=
  let UTF8 n := byte.unsigned (nth n p_chars Byte.x00) in
  let is_next n := Z.land (UTF8 n) 0xC0 =? 0x80 in
  if UTF8 0%nat =? 0 then (0, CHAR32_INVALID)
  else if Z.land (UTF8 0%nat) 0x80 =? 0 then (1, UTF8 0%nat)
  else if Z.land (UTF8 0%nat) 0xE0 =? 0xC0 then
    if negb (is_next 1%nat) then (0, CHAR32_INVALID)
    else
      let cp := DASTD_BINSET 0 6 5 (DASTD_BINGET (UTF8 0%nat) 0 5) in
      let cp := DASTD_BINSET cp 0 6 (DASTD_BINGET (UTF8 1%nat) 0 6) in
      (2, cp)
  else if Z.land (UTF8 0%nat) 0xF0 =? 0xE0 then
    if negb (is_next 1%nat) || negb (is_next 2%nat) then (0, CHAR32_INVALID)
    else
      let cp := DASTD_BINSET 0 12 4 (DASTD_BINGET (UTF8 0%nat) 0 4) in
      let cp := DASTD_BINSET cp 6 6 (DASTD_BINGET (UTF8 1%nat) 0 6) in
      let cp := DASTD_BINSET cp 0 6 (DASTD_BINGET (UTF8 2%nat) 0 6) in
      (3, cp)
  else if Z.land (UTF8 0%nat) 0xF8 =? 0xF0 then
    if negb (is_next 1%nat) || negb (is_next 2%nat) || negb (is_next 3%nat)
    then (0, CHAR32_INVALID)
    else
      let cp := DASTD_BINSET 0 18 3 (DASTD_BINGET (UTF8 0%nat) 0 3) in
      let cp := DASTD_BINSET cp 12 6 (DASTD_BINGET (UTF8 1%nat) 0 6) in
      let cp := DASTD_BINSET cp 6 6 (DASTD_BINGET (UTF8 2%nat) 0 6) in
      let cp := DASTD_BINSET cp 0 6 (DASTD_BINGET (UTF8 3%nat) 0 6) in
      (4, cp)
  else (1, UTF8 0%nat).

(** ** marshal_enc_bin.hpp *)

Module EncBin.

Record stack_element : Type := {
  m_element_type : marshal_bin_element_type;
  m_pos : nat;              (* STREAMPOS: position where the element starts *)
  m_extensible : bool
}.

(** The encoder over an in-memory random-access stream
    ([marshal_enc_bin_ostream] on a string stream): the bytes written so far
    and the put position. *)
Record marshal_enc_bin : Type := {
  m_output : list byte;
  m_curr_pos : nat;
  m_stack : list stack_element
}.

Definition enc (A : Type) : Type := sem marshal_enc_bin A.

Definition initial : marshal_enc_bin :=
  {| m_output := []; m_curr_pos := 0%nat; m_stack := [] |}.

(** [write_bytes]: overwrite or append at the put position. *)
Definition write_bytes (source : list byte) : enc unit :=
  fun e =>
    Done (tt, {| m_output := firstn (m_curr_pos e) (m_output e) ++ source
                               ++ skipn (m_curr_pos e + List.length source) (m_output e);
                 m_curr_pos := (m_curr_pos e + List.length source)%nat;
                 m_stack := m_stack e |}).

Definition get_curr_pos : enc nat := fun e => Done (m_curr_pos e, e).

Definition set_curr_pos (pos : nat) : enc unit :=
  fun e => Done (tt, {| m_output := m_output e; m_curr_pos := pos; m_stack := m_stack e |}).

Definition pos_diff (p1 p2 : nat) : Z := Z.of_nat p2 - Z.of_nat p1.

Definition stack_top : enc (option stack_element) :=
  fun e => Done (hd_error (m_stack e), e).

Definition stack_emplace (element_type : marshal_bin_element_type) (pos : nat)
           (extensible : bool) : enc unit :=
  fun e => Done (tt, {| m_output := m_output e; m_curr_pos := m_curr_pos e;
                        m_stack := {| m_element_type := element_type; m_pos := pos;
                                      m_extensible := extensible |} :: m_stack e |}).

Definition stack_pop : enc unit :=
  fun e => Done (tt, {| m_output := m_output e; m_curr_pos := m_curr_pos e;
                        m_stack := tl (m_stack e) |}).

Definition top_is (t : marshal_bin_element_type) (top : option stack_element) : bool :=
  match top with
  | Some f => element_type_eqb (m_element_type f) t
  | None => false
  end.

Definition encode_bool (value : bool) : enc unit :=
  write_bytes [byte.of_Z (if value then 1 else 0)].

Definition encode_u8 (value : Z) : enc unit := write_bytes [byte.of_Z value].
Definition encode_i8 (value : Z) : enc unit := write_bytes [byte.of_Z value].
Definition encode_u16 (value : Z) : enc unit := write_bytes (native_to_little_endian 2 value).
Definition encode_i16 (value : Z) : enc unit := write_bytes (native_to_little_endian 2 value).
Definition encode_u32 (value : Z) : enc unit := write_bytes (native_to_little_endian 4 value).
Definition encode_i32 (value : Z) : enc unit := write_bytes (native_to_little_endian 4 value).
Definition encode_u64 (value : Z) : enc unit := write_bytes (native_to_little_endian 8 value).
Definition encode_i64 (value : Z) : enc unit := write_bytes (native_to_little_endian 8 value).

Definition encode_f64 (value : f64) : enc unit :=
  write_bytes (native_to_little_endian 8 (pack_f64 value)).

Definition encode_size_indicator (size : Z) : enc unit := encode_u32 (cast_u32 size).

Definition encode_string_utf8 (value : list byte) : enc unit :=
  encode_u32 (cast_u32 (Z.of_nat (List.length value)));;
  write_bytes value.

Fixpoint write_each_utf8 (value : list Z) : enc unit :=
  match value with
  | [] => ret tt
  | c :: rest => write_bytes (write_utf8_asciiz c);; write_each_utf8 rest
  end.

Definition encode_u32string (value : list Z) : enc unit :=
  let len := calc_utf8_length value in
  encode_u32 (cast_u32 len);;
  write_each_utf8 value.

Definition internal_encode_binary (data : list byte) : enc unit := write_bytes data.

Definition internal_encode_varsize_binary (data : list byte) : enc unit :=
  assert (Z.of_nat (List.length data) <=? 2 ^ 32 - 1);;
  encode_u32 (cast_u32 (Z.of_nat (List.length data)));;
  write_bytes data.

(** The guard shared by [encode_struct_begin], [encode_array_begin] and
    [encode_typed_begin]. *)
Definition not_in_struct_or_array (top : option stack_element) : bool :=
  match top with
  | None => true
  | Some f => negb (element_type_eqb (m_element_type f) STRUCT)
              && negb (element_type_eqb (m_element_type f) ARRAY)
  end.

Definition encode_struct_begin (extensible : bool) : enc unit :=
  top <- stack_top;;
  assert (not_in_struct_or_array top);;
  pos <- get_curr_pos;;
  stack_emplace STRUCT pos extensible;;
  if extensible then encode_size_indicator 0 else ret tt.

(** The back-patching of the size indicator, shared verbatim by
    [encode_struct_end] and [encode_typed_end]. *)
Definition patch_size_indicator (top : stack_element) : enc unit :=
  if m_extensible top then
    currpos <- get_curr_pos;;
    let size := pos_diff (m_pos top) currpos in
    set_curr_pos (m_pos top);;
    encode_size_indicator (size - 4);;
    set_curr_pos currpos
  else ret tt.

Definition encode_struct_end : enc unit :=
  top <- stack_top;;
  match top with
  | None => throw assertion_failed
  | Some f =>
      assert (element_type_eqb (m_element_type f) STRUCT);;
      patch_size_indicator f;;
      stack_pop
  end.

Definition encode_struct_field_begin (label : marshal_label) (opt : marshal_optional_field)
  : enc unit :=
  top <- stack_top;;
  assert (top_is STRUCT top);;
  match opt with
  | MANDATORY => pos <- get_curr_pos;; stack_emplace FIELD pos false
  | OPTIONAL_MISSING =>
      encode_bool false;;
      pos <- get_curr_pos;; stack_emplace FIELD_MISSING pos false
  | OPTIONAL_PRESENT =>
      encode_bool true;;
      pos <- get_curr_pos;; stack_emplace FIELD pos false
  end.

Definition encode_struct_field_end : enc unit :=
  top <- stack_top;;
  assert (top_is FIELD top || top_is FIELD_MISSING top);;
  stack_pop.

Definition encode_array_begin (count : Z) : enc unit :=
  top <- stack_top;;
  assert (not_in_struct_or_array top);;
  encode_size_indicator count;;
  pos <- get_curr_pos;; stack_emplace ARRAY pos false.

Definition encode_array_end : enc unit :=
  top <- stack_top;;
  assert (top_is ARRAY top);;
  stack_pop.

Definition encode_array_element_begin : enc unit :=
  top <- stack_top;;
  assert (top_is ARRAY top);;
  pos <- get_curr_pos;; stack_emplace ARRAY_ELEMENT pos false.

Definition encode_array_element_end : enc unit :=
  top <- stack_top;;
  assert (top_is ARRAY_ELEMENT top);;
  stack_pop.

Definition encode_dictionary_begin (count : Z) : enc unit :=
  top <- stack_top;;
  assert (match top with
          | None => true
          | Some f => negb (element_type_eqb (m_element_type f) STRUCT)
                      && negb (element_type_eqb (m_element_type f) DICTIONARY)
          end);;
  encode_size_indicator count;;
  pos <- get_curr_pos;; stack_emplace DICTIONARY pos false.

Definition encode_dictionary_end : enc unit :=
  top <- stack_top;;
  assert (top_is DICTIONARY top);;
  stack_pop.

Definition encode_dictionary_element_begin (key : list byte) : enc unit :=
  top <- stack_top;;
  assert (top_is DICTIONARY top);;
  pos <- get_curr_pos;; stack_emplace DICTIONARY_ELEMENT pos false;;
  encode_string_utf8 key.

Definition encode_dictionary_element_end : enc unit :=
  top <- stack_top;;
  assert (top_is DICTIONARY_ELEMENT top);;
  stack_pop.

Definition encode_typed_begin (label : marshal_label) (extensible : bool) : enc unit :=
  top <- stack_top;;
  assert (not_in_struct_or_array top);;
  encode_u32 (m_label_id label);;
  pos <- get_curr_pos;;
  stack_emplace TYPED pos extensible;;
  if extensible then encode_size_indicator 0 else ret tt.

Definition encode_typed_end : enc unit :=
  top <- stack_top;;
  match top with
  | None => throw assertion_failed
  | Some f =>
      assert (element_type_eqb (m_element_type f) TYPED);;
      patch_size_indicator f;;
      stack_pop
  end.

End EncBin.

(** ** marshal_dec_bin.hpp, marshal_dec_bin__inline.hpp *)

Module DecBin.

Record stack_element : Type := {
  m_element_type : marshal_bin_element_type;
  m_extensible : bool;
  m_end_offset : Z;
  m_field_infos : list marshal_label_info_t;
  m_fields_count : Z;
  m_field_pos : Z
}.

(** The four constructors of [stack_element] that the decoder uses. *)
Definition stack_element_1 (element_type : marshal_bin_element_type) : stack_element :=
  {| m_element_type := element_type; m_extensible := false; m_end_offset := 0;
     m_field_infos := []; m_fields_count := 0; m_field_pos := 0 |}.

Definition stack_element_2 (element_type : marshal_bin_element_type) (fields_count : Z)
  : stack_element :=
  {| m_element_type := element_type; m_extensible := false; m_end_offset := 0;
     m_field_infos := []; m_fields_count := fields_count; m_field_pos := 0 |}.

Definition stack_element_3 (element_type : marshal_bin_element_type) (extensible : bool)
           (end_offset : Z) : stack_element :=
  {| m_element_type := element_type; m_extensible := extensible;
     m_end_offset := end_offset;
     m_field_infos := []; m_fields_count := 0; m_field_pos := 0 |}.

Definition stack_element_5 (element_type : marshal_bin_element_type) (extensible : bool)
           (end_offset : Z) (field_infos : list marshal_label_info_t) (fields_count : Z)
  : stack_element :=
  {| m_element_type := element_type; m_extensible := extensible;
     m_end_offset := end_offset;
     m_field_infos := field_infos; m_fields_count := fields_count; m_field_pos := 0 |}.

Definition next_field (f : stack_element) : stack_element :=
  {| m_element_type := m_element_type f; m_extensible := m_extensible f;
     m_end_offset := m_end_offset f; m_field_infos := m_field_infos f;
     m_fields_count := m_fields_count f; m_field_pos := m_field_pos f + 1 |}.

(** The decoder over an in-memory source: the bytes not yet read, the number
    of bytes read so far and the stack. *)
Record marshal_dec_bin : Type := {
  m_input : list byte;
  m_offset : Z;
  m_stack : list stack_element
}.

Definition dec (A : Type) : Type := sem marshal_dec_bin A.

Definition initial (input : list byte) : marshal_dec_bin :=
  {| m_input := input; m_offset := 0; m_stack := [] |}.

(** [read_bytes_impl]: all [length] bytes or an exception. *)
Definition read_bytes_impl (length : nat) : dec (list byte) :=
  fun d =>
    if (length <=? List.length (m_input d))%nat then
      Done (firstn length (m_input d),
            {| m_input := skipn length (m_input d); m_offset := m_offset d;
               m_stack := m_stack d |})
    else Thrown exception_marshal.

Definition add_offset (length : nat) : dec unit :=
  fun d => Done (tt, {| m_input := m_input d; m_offset := m_offset d + Z.of_nat length;
                        m_stack := m_stack d |}).

Definition read_bytes (length : nat) : dec (list byte) :=
  bs <- read_bytes_impl length;;
  add_offset length;;
  ret bs.

(** The default [skip_bytes_impl] reads one byte at a time. *)
Fixpoint skip_bytes_impl (length : nat) : dec unit :=
  match length with
  | O => ret tt
  | S length' => read_bytes_impl 1;; skip_bytes_impl length'
  end.

Definition skip_bytes (length : nat) : dec unit :=
  skip_bytes_impl length;;
  add_offset length.

Definition get_offset : dec Z := fun d => Done (m_offset d, d).

Definition stack_top : dec (option stack_element) :=
  fun d => Done (hd_error (m_stack d), d).

Definition stack_emplace (f : stack_element) : dec unit :=
  fun d => Done (tt, {| m_input := m_input d; m_offset := m_offset d;
                        m_stack := f :: m_stack d |}).

Definition stack_pop : dec unit :=
  fun d => Done (tt, {| m_input := m_input d; m_offset := m_offset d;
                        m_stack := tl (m_stack d) |}).

(** Assignment through the reference [cur_stack = m_stack.top()]. *)
Definition stack_set_top (f : stack_element) : dec unit :=
  fun d => Done (tt, {| m_input := m_input d; m_offset := m_offset d;
                        m_stack := f :: tl (m_stack d) |}).

Definition decode_bool : dec bool :=
  bs <- read_bytes 1;;
  ret (negb (byte.unsigned (nth 0 bs Byte.x00) =? 0)).

Definition decode_integral (is_signed : bool) (size : nat) : dec Z :=
  encoded <- read_bytes size;;
  ret (little_endian_to_native is_signed size encoded).

Definition decode_u8 : dec Z := decode_integral false 1.
Definition decode_i8 : dec Z := decode_integral true 1.
Definition decode_u16 : dec Z := decode_integral false 2.
Definition decode_i16 : dec Z := decode_integral true 2.
Definition decode_u32 : dec Z := decode_integral false 4.
Definition decode_i32 : dec Z := decode_integral true 4.
Definition decode_u64 : dec Z := decode_integral false 8.
Definition decode_i64 : dec Z := decode_integral true 8.

Definition decode_f64 : dec f64 :=
  value <- decode_integral true 8;;
  ret (unpack_f64 value).

Definition decode_size_indicator : dec Z := decode_u32.

Definition decode_string_utf8 : dec (list byte) :=
  length <- decode_u32;;
  read_bytes (Z.to_nat length).

(** The body of the [for (i=0; i<length; i++)] loop of [decode_u32string];
    every iteration advances [i], so [length] iterations are enough. *)
Fixpoint decode_u32string_loop (fuel : nat) (length i : Z) (value : list Z)
  : dec (list Z) :=
  if i <? length then
    match fuel with
    | O => throw out_of_fuel
    | S fuel' =>
        chs <- read_bytes 1;;
        let ch := nth 0 chs Byte.x00 in
        let extra_chars := count_utf8_following_chars ch in
        if extra_chars =? 0 then
          decode_u32string_loop fuel' length (i + 1) (value ++ [byte.unsigned ch])
        else
          throw_if (extra_chars >? length - i);;
          more <- read_bytes (Z.to_nat extra_chars);;
          let '(debug_size, ch32) := read_utf8_asciiz (ch :: more) in
          assert (debug_size =? extra_chars + 1);;
          (* i += extra_chars+1, then the loop's own i++ *)
          decode_u32string_loop fuel' length (i + (extra_chars + 1) + 1) (value ++ [ch32])
    end
  else ret value.

Definition decode_u32string : dec (list Z) :=
  length <- decode_u32;;
  decode_u32string_loop (Z.to_nat length) length 0 [].

Definition internal_decode_binary (length : nat) : dec (list byte) := read_bytes length.

Definition internal_decode_varsize_binary : dec (list byte) :=
  length <- decode_u32;;
  read_bytes (Z.to_nat length).

(** The guard shared by the four [decode_*_begin] of composite values. *)
Definition check_not_in_container : dec unit :=
  top <- stack_top;;
  match top with
  | None => ret tt
  | Some f =>
      throw_if (element_type_eqb (m_element_type f) STRUCT);;
      throw_if (element_type_eqb (m_element_type f) ARRAY);;
      throw_if (element_type_eqb (m_element_type f) DICTIONARY)
  end.

Definition decode_struct_begin (extensible : bool)
           (field_infos : list marshal_label_info_t) (fields_infos_count : Z) : dec unit :=
  check_not_in_container;;
  length <- (if extensible then decode_size_indicator else ret 0);;
  offset <- get_offset;;
  stack_emplace (stack_element_5 STRUCT extensible (offset + length)
                                 field_infos fields_infos_count).

Definition decode_struct_end : dec unit :=
  top <- stack_top;;
  match top with
  | None => throw exception_marshal
  | Some cur_stack =>
      throw_if (negb (element_type_eqb (m_element_type cur_stack) STRUCT));;
      offset <- get_offset;;
      (if m_extensible cur_stack then
         if offset <? m_end_offset cur_stack
         then skip_bytes (Z.to_nat (m_end_offset cur_stack - offset))
         else throw_if (offset >? m_end_offset cur_stack)
       else ret tt);;
      stack_pop
  end.

(** [decode_struct_field_begin(optional_present)]: [want_present] tells
    whether the pointer is non-null; the result is the label id and what was
    stored through the pointer, if anything. *)
Definition decode_struct_field_begin (want_present : bool)
  : dec (marshal_label_id_t * option bool) :=
  top <- stack_top;;
  match top with
  | None => throw exception_marshal
  | Some cur_stack =>
      throw_if (negb (element_type_eqb (m_element_type cur_stack) STRUCT));;
      if m_field_pos cur_stack >=? m_fields_count cur_stack then
        ret (marshal_label_id_INVALID, None)
      else
        offset <- get_offset;;
        if m_extensible cur_stack && (m_end_offset cur_stack =? offset) then
          ret (marshal_label_id_INVALID, None)
        else
          throw_if (m_extensible cur_stack && (m_end_offset cur_stack <? offset));;
          match nth_error (m_field_infos cur_stack) (Z.to_nat (m_field_pos cur_stack)) with
          | None => throw undefined_behaviour
          | Some label_info =>
              let label_id := marshal_label_info_to_id label_info in
              let is_optional := marshal_label_info_is_optional label_info in
              stack_set_top (next_field cur_stack);;
              stack_emplace (stack_element_1 FIELD);;
              if is_optional then
                assert want_present;;
                present <- decode_bool;;
                ret (label_id, Some present)
              else if want_present then ret (label_id, Some true)
              else ret (label_id, None)
          end
  end.

Definition decode_struct_field_end : dec unit :=
  top <- stack_top;;
  match top with
  | None => throw exception_marshal
  | Some cur_stack =>
      throw_if (negb (element_type_eqb (m_element_type cur_stack) FIELD));;
      stack_pop
  end.

Definition decode_array_begin : dec Z :=
  check_not_in_container;;
  no_of_elements <- decode_size_indicator;;
  stack_emplace (stack_element_2 ARRAY no_of_elements);;
  ret 0.

(** [decode_array_end] and [decode_dictionary_end] differ in the frame kind
    only. *)
Definition decode_sequence_end (kind : marshal_bin_element_type) : dec unit :=
  top <- stack_top;;
  match top with
  | None => throw exception_marshal
  | Some cur_stack =>
      throw_if (negb (element_type_eqb (m_element_type cur_stack) kind));;
      throw_if (negb (m_field_pos cur_stack =? m_fields_count cur_stack));;
      stack_pop
  end.

Definition decode_array_end : dec unit := decode_sequence_end ARRAY.

Definition decode_array_element_begin : dec bool :=
  top <- stack_top;;
  match top with
  | None => throw exception_marshal
  | Some cur_stack =>
      throw_if (negb (element_type_eqb (m_element_type cur_stack) ARRAY));;
      if m_field_pos cur_stack >=? m_fields_count cur_stack then ret false
      else
        stack_set_top (next_field cur_stack);;
        stack_emplace (stack_element_1 ARRAY_ELEMENT);;
        ret true
  end.

Definition decode_element_end (kind : marshal_bin_element_type) : dec unit :=
  top <- stack_top;;
  match top with
  | None => throw exception_marshal
  | Some cur_stack =>
      throw_if (negb (element_type_eqb (m_element_type cur_stack) kind));;
      stack_pop
  end.

Definition decode_array_element_end : dec unit := decode_element_end ARRAY_ELEMENT.

Definition decode_dictionary_begin : dec Z :=
  check_not_in_container;;
  no_of_elements <- decode_size_indicator;;
  stack_emplace (stack_element_2 DICTIONARY no_of_elements);;
  ret 0.

Definition decode_dictionary_end : dec unit := decode_sequence_end DICTIONARY.

(** The result is [Some key] for [true] and [None] for [false]. *)
Definition decode_dictionary_element_begin : dec (option (list byte)) :=
  top <- stack_top;;
  match top with
  | None => throw exception_marshal
  | Some cur_stack =>
      throw_if (negb (element_type_eqb (m_element_type cur_stack) DICTIONARY));;
      if m_field_pos cur_stack >=? m_fields_count cur_stack then ret None
      else
        stack_set_top (next_field cur_stack);;
        key <- decode_string_utf8;;
        stack_emplace (stack_element_1 DICTIONARY_ELEMENT);;
        ret (Some key)
  end.

Definition decode_dictionary_element_end : dec unit :=
  decode_element_end DICTIONARY_ELEMENT.

Definition decode_typed_begin (extensible : bool) : dec marshal_label_id_t :=
  check_not_in_container;;
  type_id <- decode_u32;;
  length <- (if extensible then decode_size_indicator else ret 0);;
  offset <- get_offset;;
  stack_emplace (stack_element_3 TYPED extensible (offset + length));;
  ret type_id.

Definition decode_typed_end_skip : dec unit :=
  top <- stack_top;;
  match top with
  | None => throw exception_marshal
  | Some cur_stack =>
      throw_if (negb (element_type_eqb (m_element_type cur_stack) TYPED));;
      throw_if (negb (m_extensible cur_stack));;
      offset <- get_offset;;
      (if offset <? m_end_offset cur_stack
       then skip_bytes (Z.to_nat (m_end_offset cur_stack - offset))
       else throw_if (offset >? m_end_offset cur_stack));;
      stack_pop
  end.

Definition decode_typed_end : dec unit :=
  top <- stack_top;;
  match top with
  | None => throw exception_marshal
  | Some cur_stack =>
      throw_if (negb (element_type_eqb (m_element_type cur_stack) TYPED));;
      offset <- get_offset;;
      (if m_extensible cur_stack
       then throw_if (negb (m_end_offset cur_stack =? offset))
       else ret tt);;
      stack_pop
  end.

End DecBin.

(** ** User code driving the codec

    The repository holds the codec; the code that walks a user's data and
    calls the codec is the user's.  It is modelled after the usage examples of
    marshal.hpp: a [schema] fixes the sequence of calls, a [value] is the data
    handed to the encoder or collected from the decoder. *)

Inductive int_type : Type := U8 | I8 | U16 | I16 | U32 | I32 | U64 | I64.

Inductive schema : Type :=
| S_bool
| S_int (t : int_type)
| S_f64
| S_string_utf8
| S_u32string
| S_binary (length : nat)
| S_varsize_binary
| S_struct (extensible : bool) (fields : field_list)
| S_array (element : schema)
| S_dictionary (element : schema)
| S_typed (extensible : bool) (types : type_list)
with field_list : Type :=
| F_nil
| F_cons (label : marshal_label) (optional : bool) (s : schema) (rest : field_list)
with type_list : Type :=
| T_nil
| T_cons (label : marshal_label) (s : schema) (rest : type_list).

Inductive value : Type :=
| V_bool (b : bool)
| V_int (z : Z)
| V_f64 (d : f64)
| V_string_utf8 (s : list byte)
| V_u32string (s : list Z)
| V_binary (data : list byte)
| V_struct (fields : field_values)
| V_array (elements : value_list)
| V_dictionary (entries : entry_list)
| V_typed (label : marshal_label) (v : value)
| V_null
with field_values : Type :=
| FV_nil
| FV_missing (rest : field_values)
| FV_present (v : value) (rest : field_values)
with value_list : Type :=
| VL_nil
| VL_cons (v : value) (rest : value_list)
with entry_list : Type :=
| E_nil
| E_cons (key : list byte) (v : value) (rest : entry_list).

Scheme schema_mut := Induction for schema Sort Prop
  with field_list_mut := Induction for field_list Sort Prop
  with type_list_mut := Induction for type_list Sort Prop.
Combined Scheme schema_mutind from schema_mut, field_list_mut, type_list_mut.

Fixpoint F_app (a b : field_list) : field_list :=
  match a with
  | F_nil => b
  | F_cons l o s rest => F_cons l o s (F_app rest b)
  end.


Fixpoint F_length (fs : field_list) : nat :=
  match fs with
  | F_nil => 0
  | F_cons _ _ _ rest => S (F_length rest)
  end.

Fixpoint VL_length (vs : value_list) : nat :=
  match vs with
  | VL_nil => 0
  | VL_cons _ rest => S (VL_length rest)
  end.

Fixpoint E_length (es : entry_list) : nat :=
  match es with
  | E_nil => 0
  | E_cons _ _ rest => S (E_length rest)
  end.

(** The [marshal_label_info_t] array a decoding routine declares for a
    structure. *)
Fixpoint field_infos (fs : field_list) : list marshal_label_info_t :=
  match fs with
  | F_nil => []
  | F_cons l o _ rest => marshal_label_info_calc (m_label_id l) o :: field_infos rest
  end.

Definition int_size (t : int_type) : nat :=
  match t with
  | U8 | I8 => 1 | U16 | I16 => 2 | U32 | I32 => 4 | U64 | I64 => 8
  end%nat.

Definition int_signed (t : int_type) : bool :=
  match t with
  | I8 | I16 | I32 | I64 => true
  | _ => false
  end.

Module Driver.
Import EncBin.

Definition encode_int (t : int_type) (z : Z) : enc unit :=
  match t with
  | U8 => encode_u8 z | I8 => encode_i8 z
  | U16 => encode_u16 z | I16 => encode_i16 z
  | U32 => encode_u32 z | I32 => encode_i32 z
  | U64 => encode_u64 z | I64 => encode_i64 z
  end.

Fixpoint encode_value (s : schema) (v : value) {struct s} : enc unit :=
  match s, v with
  | S_bool, V_bool b => encode_bool b
  | S_int t, V_int z => encode_int t z
  | S_f64, V_f64 d => encode_f64 d
  | S_string_utf8, V_string_utf8 str => encode_string_utf8 str
  | S_u32string, V_u32string str => encode_u32string str
  | S_binary _, V_binary data => internal_encode_binary data
  | S_varsize_binary, V_binary data => internal_encode_varsize_binary data
  | S_struct extensible fs, V_struct fvs =>
      encode_struct_begin extensible;;
      encode_fields fs fvs;;
      encode_struct_end
  | S_array e, V_array vs =>
      encode_array_begin (Z.of_nat (VL_length vs));;
      (fix elements (vs : value_list) : enc unit :=
         match vs with
         | VL_nil => ret tt
         | VL_cons v rest =>
             encode_array_element_begin;;
             encode_value e v;;
             encode_array_element_end;;
             elements rest
         end) vs;;
      encode_array_end
  | S_dictionary e, V_dictionary es =>
      encode_dictionary_begin (Z.of_nat (E_length es));;
      (fix entries (es : entry_list) : enc unit :=
         match es with
         | E_nil => ret tt
         | E_cons key v rest =>
             encode_dictionary_element_begin key;;
             encode_value e v;;
             encode_dictionary_element_end;;
             entries rest
         end) es;;
      encode_dictionary_end
  | S_typed extensible ts, V_typed label v =>
      encode_typed_begin label extensible;;
      encode_as_type ts (m_label_id label) v;;
      encode_typed_end
  | S_typed extensible ts, V_null =>
      encode_typed_begin marshal_label_empty extensible;;
      encode_typed_end
  | _, _ => throw type_mismatch
  end
with encode_fields (fs : field_list) (fvs : field_values) {struct fs} : enc unit :=
  match fs, fvs with
  | F_nil, FV_nil => ret tt
  | F_cons label false s rest, FV_present v fvs' =>
      encode_struct_field_begin label MANDATORY;;
      encode_value s v;;
      encode_struct_field_end;;
      encode_fields rest fvs'
  | F_cons label true s rest, FV_present v fvs' =>
      encode_struct_field_begin label OPTIONAL_PRESENT;;
      encode_value s v;;
      encode_struct_field_end;;
      encode_fields rest fvs'
  | F_cons label true s rest, FV_missing fvs' =>
      encode_struct_field_begin label OPTIONAL_MISSING;;
      encode_struct_field_end;;
      encode_fields rest fvs'
  | _, _ => throw type_mismatch
  end
with encode_as_type (ts : type_list) (id : marshal_label_id_t) (v : value) {struct ts}
  : enc unit :=
  match ts with
  | T_nil => throw type_mismatch
  | T_cons label s rest =>
      if m_label_id label =? id then encode_value s v
      else encode_as_type rest id v
  end.

Import DecBin.

Definition decode_int (t : int_type) : dec Z :=
  match t with
  | U8 => decode_u8 | I8 => decode_i8
  | U16 => decode_u16 | I16 => decode_i16
  | U32 => decode_u32 | I32 => decode_i32
  | U64 => decode_u64 | I64 => decode_i64
  end.

(** A [while (decoder.decode_*_element_begin())] loop stops once the
    frame's counter has reached the announced count: the difference of the
    two, plus the closing call, bounds its iterations. *)
Definition elements_left (d : marshal_dec_bin) : nat :=
  match hd_error (DecBin.m_stack d) with
  | Some f => S (Z.to_nat (m_fields_count f - m_field_pos f))
  | None => 1
  end.

Fixpoint decode_value (s : schema) {struct s} : dec value :=
  match s with
  | S_bool => b <- decode_bool;; ret (V_bool b)
  | S_int t => z <- decode_int t;; ret (V_int z)
  | S_f64 => x <- decode_f64;; ret (V_f64 x)
  | S_string_utf8 => str <- decode_string_utf8;; ret (V_string_utf8 str)
  | S_u32string => str <- decode_u32string;; ret (V_u32string str)
  | S_binary length => data <- internal_decode_binary length;; ret (V_binary data)
  | S_varsize_binary => data <- internal_decode_varsize_binary;; ret (V_binary data)
  | S_struct extensible fs =>
      decode_struct_begin extensible (field_infos fs) (Z.of_nat (F_length fs));;
      fvs <- decode_fields fs;;
      decode_struct_end;;
      ret (V_struct fvs)
  | S_array e =>
      decode_array_begin;;
      vs <- (fun d =>
               (fix elements (fuel : nat) : dec value_list :=
                  match fuel with
                  | O => throw out_of_fuel
                  | S fuel' =>
                      more <- decode_array_element_begin;;
                      if more : bool then
                        v <- decode_value e;;
                        decode_array_element_end;;
                        rest <- elements fuel';;
                        ret (VL_cons v rest)
                      else ret VL_nil
                  end) (elements_left d) d);;
      decode_array_end;;
      ret (V_array vs)
  | S_dictionary e =>
      decode_dictionary_begin;;
      es <- (fun d =>
               (fix entries (fuel : nat) : dec entry_list :=
                  match fuel with
                  | O => throw out_of_fuel
                  | S fuel' =>
                      more <- decode_dictionary_element_begin;;
                      match more with
                      | Some key =>
                          v <- decode_value e;;
                          decode_dictionary_element_end;;
                          rest <- entries fuel';;
                          ret (E_cons key v rest)
                      | None => ret E_nil
                      end
                  end) (elements_left d) d);;
      decode_dictionary_end;;
      ret (V_dictionary es)
  | S_typed extensible ts =>
      type_id <- decode_typed_begin extensible;;
      if type_id =? marshal_label_id_INVALID then
        decode_typed_end;; ret V_null
      else
        found <- decode_as_type ts type_id;;
        match found with
        | Some v => decode_typed_end;; ret v
        | None =>
            if extensible then decode_typed_end_skip;; ret V_null
            else throw exception_marshal
        end
  end
with decode_fields (fs : field_list) {struct fs} : dec field_values :=
  match fs with
  | F_nil =>
      '(label_id, _) <- decode_struct_field_begin true;;
      if label_id =? marshal_label_id_INVALID then ret FV_nil
      else throw exception_marshal
  | F_cons label _ s rest =>
      '(label_id, field_is_present) <- decode_struct_field_begin true;;
      if label_id =? marshal_label_id_INVALID then ret FV_nil
      else if negb (label_id =? m_label_id label) then throw exception_marshal
      else
        match field_is_present with
        | Some false =>
            decode_struct_field_end;;
            fvs <- decode_fields rest;;
            ret (FV_missing fvs)
        | _ =>
            v <- decode_value s;;
            decode_struct_field_end;;
            fvs <- decode_fields rest;;
            ret (FV_present v fvs)
        end
  end
with decode_as_type (ts : type_list) (type_id : marshal_label_id_t) {struct ts}
  : dec (option value) :=
  match ts with
  | T_nil => ret None
  | T_cons label s rest =>
      if m_label_id label =? type_id then
        v <- decode_value s;; ret (Some (V_typed label v))
      else decode_as_type rest type_id
  end.

(** [encode_bin(v, S)]: the bytes a fresh encoder has produced. *)
Definition encode_bin (s : schema) (v : value) : outcome (list byte) :=
  match encode_value s v EncBin.initial with
  | Done (_, e) => Done (EncBin.m_output e)
  | Thrown f => Thrown f
  end.

(** [decode_bin(bytes, S)]: the value a fresh decoder returns, together with
    the decoder it leaves. *)
Definition decode_bin (bytes : list byte) (s : schema) : outcome (value * marshal_dec_bin) :=
  decode_value s (DecBin.initial bytes).

End Driver.

(** ** The wire form of a value, and the values a schema admits *)

Definition size_indicator (size : nat) : list byte :=
  le_split 4 (Z.of_nat size).

Fixpoint utf8_bytes (str : list Z) : list byte :=
  match str with
  | [] => []
  | c :: rest => write_utf8_asciiz c ++ utf8_bytes rest
  end.

(** The bytes section 4.5 of the specification prescribes for a value. *)
Fixpoint wire (s : schema) (v : value) {struct s} : list byte :=
  match s, v with
  | S_bool, V_bool b => [byte.of_Z (if b then 1 else 0)]
  | S_int t, V_int z => le_split (int_size t) z
  | S_f64, V_f64 d => le_split 8 (pack_f64 d)
  | S_string_utf8, V_string_utf8 str => size_indicator (List.length str) ++ str
  | S_u32string, V_u32string str =>
      le_split 4 (calc_utf8_length str) ++ utf8_bytes str
  | S_binary _, V_binary data => data
  | S_varsize_binary, V_binary data => size_indicator (List.length data) ++ data
  | S_struct extensible fs, V_struct fvs =>
      let payload := wire_fields fs fvs in
      (if extensible then size_indicator (List.length payload) else []) ++ payload
  | S_array e, V_array vs =>
      size_indicator (VL_length vs)
      ++ (fix elements (vs : value_list) : list byte :=
            match vs with
            | VL_nil => []
            | VL_cons v rest => wire e v ++ elements rest
            end) vs
  | S_dictionary e, V_dictionary es =>
      size_indicator (E_length es)
      ++ (fix entries (es : entry_list) : list byte :=
            match es with
            | E_nil => []
            | E_cons key v rest =>
                (size_indicator (List.length key) ++ key) ++ wire e v ++ entries rest
            end) es
  | S_typed extensible ts, V_typed label v =>
      let payload := wire_as_type ts (m_label_id label) v in
      le_split 4 (m_label_id label)
      ++ (if extensible then size_indicator (List.length payload) else []) ++ payload
  | S_typed extensible ts, V_null =>
      le_split 4 marshal_label_id_INVALID
      ++ (if extensible then size_indicator 0 else [])
  | _, _ => []
  end
with wire_fields (fs : field_list) (fvs : field_values) {struct fs} : list byte :=
  match fs, fvs with
  | F_cons _ false s rest, FV_present v fvs' => wire s v ++ wire_fields rest fvs'
  | F_cons _ true s rest, FV_present v fvs' =>
      [Byte.x01] ++ wire s v ++ wire_fields rest fvs'
  | F_cons _ true s rest, FV_missing fvs' => [Byte.x00] ++ wire_fields rest fvs'
  | _, _ => []
  end
with wire_as_type (ts : type_list) (id : marshal_label_id_t) (v : value) {struct ts}
  : list byte :=
  match ts with
  | T_nil => []
  | T_cons label s rest =>
      if m_label_id label =? id then wire s v else wire_as_type rest id v
  end.

Definition wire_elements (e : schema) : value_list -> list byte :=
  fix elements (vs : value_list) : list byte :=
    match vs with
    | VL_nil => []
    | VL_cons v rest => wire e v ++ elements rest
    end.

Definition wire_entries (e : schema) : entry_list -> list byte :=
  fix entries (es : entry_list) : list byte :=
    match es with
    | E_nil => []
    | E_cons key v rest =>
        (size_indicator (List.length key) ++ key) ++ wire e v ++ entries rest
    end.

Definition int_min (t : int_type) : Z :=
  if int_signed t then - 2 ^ (8 * Z.of_nat (int_size t) - 1) else 0.

Definition int_max (t : int_type) : Z :=
  if int_signed t then 2 ^ (8 * Z.of_nat (int_size t) - 1) - 1
  else 2 ^ (8 * Z.of_nat (int_size t)) - 1.

Definition fits_u32 (n : nat) : Prop := Z.of_nat n < 2 ^ 32.

Definition valid_label (l : marshal_label) : Prop := 0 < m_label_id l < 2 ^ 32.

Definition seven_bit (c : Z) : Prop := 0 <= c < 0x80.

(** [admits s v]: [v] is a value of schema [s] that the 32-bit length and
    count fields of the wire can describe.  Three conditions go beyond typing:
    a u32string holds 7-bit characters only (see [decode_u32string_loop]); a
    mandatory field of an extensible structure occupies at least one byte
    (the decoder takes the end of the payload for the end of the fields); a
    label id is not the invalid id. *)
Fixpoint admits (s : schema) (v : value) {struct s} : Prop :=
  match s, v with
  | S_bool, V_bool _ => True
  | S_int t, V_int z => int_min t <= z <= int_max t
  | S_f64, V_f64 d => 0 <= d < 2 ^ 64
  | S_string_utf8, V_string_utf8 str => fits_u32 (List.length str)
  | S_u32string, V_u32string str =>
      Forall seven_bit str /\ fits_u32 (List.length str)
  | S_binary length, V_binary data => List.length data = length
  | S_varsize_binary, V_binary data => fits_u32 (List.length data)
  | S_struct extensible fs, V_struct fvs =>
      admits_fields extensible fs fvs
      /\ (extensible = true -> fits_u32 (List.length (wire_fields fs fvs)))
  | S_array e, V_array vs =>
      fits_u32 (VL_length vs)
      /\ (fix all (vs : value_list) : Prop :=
            match vs with
            | VL_nil => True
            | VL_cons v rest => admits e v /\ all rest
            end) vs
  | S_dictionary e, V_dictionary es =>
      fits_u32 (E_length es)
      /\ (fix all (es : entry_list) : Prop :=
            match es with
            | E_nil => True
            | E_cons key v rest => fits_u32 (List.length key) /\ admits e v /\ all rest
            end) es
  | S_typed extensible ts, V_typed label v =>
      valid_label label
      /\ admits_as_type ts label v
      /\ (extensible = true ->
          fits_u32 (List.length (wire_as_type ts (m_label_id label) v)))
  | S_typed _ _, V_null => True
  | _, _ => False
  end
with admits_fields (extensible : bool) (fs : field_list) (fvs : field_values) {struct fs}
  : Prop :=
  match fs, fvs with
  | F_nil, FV_nil => True
  | F_cons label false s rest, FV_present v fvs' =>
      valid_label label /\ admits s v
      /\ (extensible = true -> wire s v <> [])
      /\ admits_fields extensible rest fvs'
  | F_cons label true s rest, FV_present v fvs' =>
      valid_label label /\ admits s v /\ admits_fields extensible rest fvs'
  | F_cons label true s rest, FV_missing fvs' =>
      valid_label label /\ admits_fields extensible rest fvs'
  | _, _ => False
  end
with admits_as_type (ts : type_list) (label : marshal_label) (v : value) {struct ts}
  : Prop :=
  match ts with
  | T_nil => False
  | T_cons label' s rest =>
      if m_label_id label' =? m_label_id label then label' = label /\ admits s v
      else admits_as_type rest label v
  end.

Definition admits_elements (e : schema) : value_list -> Prop :=
  fix all (vs : value_list) : Prop :=
    match vs with
    | VL_nil => True
    | VL_cons v rest => admits e v /\ all rest
    end.

Definition admits_entries (e : schema) : entry_list -> Prop :=
  fix all (es : entry_list) : Prop :=
    match es with
    | E_nil => True
    | E_cons key v rest => fits_u32 (List.length key) /\ admits e v /\ all rest
    end.


(** ** Shapes of encoder states used in the statements *)

Module EncBinAt.
Import EncBin.

(** An encoder positioned at the end of its output. *)
Definition at_end (out : list byte) (stk : list stack_element) : marshal_enc_bin :=
  {| m_output := out; m_curr_pos := List.length out; m_stack := stk |}.

Definition frame (t : marshal_bin_element_type) (pos : nat) (extensible : bool)
  : stack_element :=
  {| m_element_type := t; m_pos := pos; m_extensible := extensible |}.

(** A value may start at the root or inside a field, an element or a typed
    frame. *)
Definition value_allowed (stk : list stack_element) : Prop :=
  match stk with
  | [] => True
  | f :: _ => m_element_type f = FIELD \/ m_element_type f = ARRAY_ELEMENT
              \/ m_element_type f = DICTIONARY_ELEMENT \/ m_element_type f = TYPED
  end.

End EncBinAt.

Module DriverLoops.
Import EncBin Driver.

(** The element loops of [encode_value], named. *)
Definition encode_elements (e : schema) : value_list -> enc unit :=
  fix elements (vs : value_list) : enc unit :=
    match vs with
    | VL_nil => ret tt
    | VL_cons v rest =>
        encode_array_element_begin;;
        encode_value e v;;
        encode_array_element_end;;
        elements rest
    end.

Definition encode_entries (e : schema) : entry_list -> enc unit :=
  fix entries (es : entry_list) : enc unit :=
    match es with
    | E_nil => ret tt
    | E_cons key v rest =>
        encode_dictionary_element_begin key;;
        encode_value e v;;
        encode_dictionary_element_end;;
        entries rest
    end.

End DriverLoops.

(** ** Shapes of decoder states used in the statements *)

Module DecBinAt.
Import DecBin.

(** A decoder with [input] still to read, [offset] bytes read and stack
    [stk]. *)
Definition at_input (input : list byte) (offset : Z) (stk : list stack_element)
  : marshal_dec_bin :=
  {| m_input := input; m_offset := offset; m_stack := stk |}.

(** A value may start at the root or inside a field, an element or a typed
    frame. *)
Definition value_allowed (stk : list stack_element) : Prop :=
  match stk with
  | [] => True
  | f :: _ => m_element_type f = FIELD \/ m_element_type f = ARRAY_ELEMENT
              \/ m_element_type f = DICTIONARY_ELEMENT \/ m_element_type f = TYPED
  end.

(** The frame of a structure whose next field is number [pos]. *)
Definition struct_frame (extensible : bool) (end_offset : Z)
           (infos : list marshal_label_info_t) (count pos : Z) : stack_element :=
  {| m_element_type := STRUCT; m_extensible := extensible; m_end_offset := end_offset;
     m_field_infos := infos; m_fields_count := count; m_field_pos := pos |}.

(** The frame of an array or dictionary of which [pos] elements are read. *)
Definition sequence_frame (kind : marshal_bin_element_type) (count pos : Z)
  : stack_element :=
  {| m_element_type := kind; m_extensible := false; m_end_offset := 0;
     m_field_infos := []; m_fields_count := count; m_field_pos := pos |}.

End DecBinAt.

Module DecoderLoops.
Import DecBin Driver.

(** The element loops of [decode_value], named. *)
Definition decode_elements (e : schema) : nat -> dec value_list :=
  fix elements (fuel : nat) : dec value_list :=
    match fuel with
    | O => throw out_of_fuel
    | S fuel' =>
        more <- decode_array_element_begin;;
        if more : bool then
          v <- decode_value e;;
          decode_array_element_end;;
          rest <- elements fuel';;
          ret (VL_cons v rest)
        else ret VL_nil
    end.

Definition decode_entries (e : schema) : nat -> dec entry_list :=
  fix entries (fuel : nat) : dec entry_list :=
    match fuel with
    | O => throw out_of_fuel
    | S fuel' =>
        more <- decode_dictionary_element_begin;;
        match more with
        | Some key =>
            v <- decode_value e;;
            decode_dictionary_element_end;;
            rest <- entries fuel';;
            ret (E_cons key v rest)
        | None => ret E_nil
        end
    end.

End DecoderLoops.

(** ** hash_crc32.hpp and the labels used in the examples *)

(** Modelled from the spec: hash_crc32.hpp is not among the sources; a label
    id is the CRC-32 of the label's ASCII name (the reflected CRC-32 with
    polynomial 0xEDB88320, for which marshal.hpp documents
    [const_hash("myField") == 0x07363313]). *)
Fixpoint crc32_bits (n : nat) (crc : Z) : Z :=
  match n with
  | O => crc
  | S n' => crc32_bits n' (if Z.testbit crc 0
                           then Z.lxor (Z.shiftr crc 1) 0xEDB88320
                           else Z.shiftr crc 1)
  end.

Fixpoint crc32_update (crc : Z) (text : string) : Z :=
  match text with
  | EmptyString => crc
  | String c rest => crc32_update (crc32_bits 8 (Z.lxor crc (Z.of_nat (nat_of_ascii c)))) rest
  end.

Definition crc32 (text : string) : Z := Z.lxor (crc32_update 0xFFFFFFFF text) 0xFFFFFFFF.

(** [marshal_label::hash(const std::string&)] *)
Definition marshal_label_hash (label_text : string) : marshal_label_id_t := crc32 label_text.

(** [marshal_label(const char* label_text)] for a non-null text *)
Definition marshal_label_of (label_text : string) : marshal_label :=
  {| m_label_text := Some label_text; m_label_id := marshal_label_hash label_text |}.

(** The bytes of an ASCII text. *)
Fixpoint bytes_of_string (text : string) : list byte :=
  match text with
  | EmptyString => []
  | String c rest => byte.of_Z (Z.of_nat (nat_of_ascii c)) :: bytes_of_string rest
  end.

(** The bytes with the given values. *)
Definition bytes_of_Zs (zs : list Z) : list byte := map byte.of_Z zs.

(** ** IEEE-754 binary64 values *)

Module F64.

Inductive class : Type :=
| NaN
| Inf (negative : bool)
| Finite (negative : bool) (mantissa : Z) (exponent : Z).
  (* the value is (-1)^negative * mantissa * 2^exponent *)

Definition classify (bits : f64) : class :=
  let negative := Z.testbit bits 63 in
  let e := Z.land (Z.shiftr bits 52) 0x7FF in
  let m := Z.land bits (2 ^ 52 - 1) in
  if e =? 0x7FF then (if m =? 0 then Inf negative else NaN)
  else if e =? 0 then Finite negative m (-1074)
  else Finite negative (m + 2 ^ 52) (e - 1075).

Definition signed_mantissa (negative : bool) (m : Z) : Z := if negative then - m else m.

(** [std::ceil(d) == d] *)
Definition is_whole (d : f64) : bool :=
  match classify d with
  | NaN => false
  | Inf _ => true
  | Finite _ m e => if 0 <=? e then true else m mod 2 ^ (- e) =? 0
  end.

(** [d >= (double)z] and [d <= (double)z] for an integer [z] that a double
    represents exactly. *)
Definition geb_Z (d : f64) (z : Z) : bool :=
  match classify d with
  | NaN => false
  | Inf negative => negb negative
  | Finite negative m e =>
      if 0 <=? e then z <=? signed_mantissa negative m * 2 ^ e
      else z * 2 ^ (- e) <=? signed_mantissa negative m
  end.

Definition leb_Z (d : f64) (z : Z) : bool :=
  match classify d with
  | NaN => false
  | Inf negative => negative
  | Finite negative m e =>
      if 0 <=? e then signed_mantissa negative m * 2 ^ e <=? z
      else signed_mantissa negative m <=? z * 2 ^ (- e)
  end.

(** [(int64_t)d] for a finite [d] whose truncation an int64 holds. *)
Definition to_int64 (d : f64) : Z :=
  match classify d with
  | Finite negative m e =>
      if 0 <=? e then signed_mantissa negative m * 2 ^ e
      else signed_mantissa negative (m / 2 ^ (- e))
  | _ => 0
  end.

(** The whole number a double holds, if it holds one. *)
Definition whole_value (d : f64) : option Z :=
  match classify d with
  | Finite negative m e =>
      if 0 <=? e then Some (signed_mantissa negative m * 2 ^ e)
      else if m mod 2 ^ (- e) =? 0 then Some (signed_mantissa negative (m / 2 ^ (- e)))
      else None
  | _ => None
  end.

(** The pattern of [2^k] for a normal exponent. *)
Definition pow2 (k : Z) : f64 := Z.shiftl (k + 1023) 52.

End F64.

(** ** multinum.hpp *)

Module Multinum.

Inductive level_t : Type := INVALID | DOUBLE_ONLY | INT64 | UINT64.

Definition level_rank (l : level_t) : Z :=
  match l with INVALID => 0 | DOUBLE_ONLY => 1 | INT64 => 2 | UINT64 => 3 end.

(** [m_value_integral] is a union of [uint64_t u64] and [int64_t i64]: its 64
    bits are kept as the unsigned value. *)
Record multinum : Type := {
  m_value_double : f64;
  m_value_integral : Z;
  m_level : level_t
}.

Definition u64 (m : multinum) : Z := cast_u64 (m_value_integral m).
Definition i64 (m : multinum) : Z := cast_signed 64 (m_value_integral m).

(** [multinum()], and the object after [clear()] *)
Definition clear : multinum :=
  {| m_value_double := 0; m_value_integral := 0; m_level := INVALID |}.

Definition valid (m : multinum) : bool := level_rank DOUBLE_ONLY <=? level_rank (m_level m).

Definition INT32_MIN : Z := - 2 ^ 31.
Definition INT32_MAX : Z := 2 ^ 31 - 1.

(** [set_double(d)] on an object whose integral container holds [integral] *)
Definition set_double (integral : Z) (d : f64) : multinum :=
  if F64.is_whole d && (F64.geb_Z d INT32_MIN && F64.leb_Z d INT32_MAX)
  then {| m_value_double := d; m_value_integral := cast_u64 (F64.to_int64 d);
          m_level := INT64 |}
  else {| m_value_double := d; m_value_integral := integral; m_level := DOUBLE_ONLY |}.

(** [set<double>(val)] *)
Definition set_f64 (m : multinum) (val : f64) : multinum :=
  set_double (m_value_integral m) val.

(** [multinum(double v)] *)
Definition of_f64 (v : f64) : multinum := set_f64 clear v.

(** An integral [NUMTYPE] of [get<NUMTYPE>]: its signedness and its width in
    bits (8, 16, 32 or 64). *)
Record numtype : Type := { is_signed : bool; bits : Z }.

Definition numtype_lowest (T : numtype) : Z :=
  if is_signed T then - 2 ^ (bits T - 1) else 0.

Definition numtype_max (T : numtype) : Z :=
  if is_signed T then 2 ^ (bits T - 1) - 1 else 2 ^ bits T - 1.

(** [(NUMTYPE)z] *)
Definition cast (T : numtype) (z : Z) : Z :=
  if is_signed T then cast_signed (bits T) z else z mod 2 ^ bits T.

Definition invalid : Z * bool := (0, false).

(** [get<NUMTYPE>(min_value, max_value)] for an integral [NUMTYPE] *)
Definition get (T : numtype) (m : multinum) (min_value max_value : Z) : Z * bool :=
  match m_level m with
  | UINT64 =>
      if is_signed T || (bits T <? 64) then invalid
      else if (u64 m <? min_value) || (u64 m >? max_value) then invalid
      else (cast T (u64 m), true)
  | INT64 =>
      if negb (is_signed T) && (64 <=? bits T) then
        if i64 m <? cast_signed 64 min_value then invalid
        else if cast_u64 (i64 m) >? max_value then invalid
        else (cast T (i64 m), true)
      else
        if (i64 m <? cast_signed 64 min_value) || (i64 m >? cast_signed 64 max_value)
        then invalid
        else (cast T (i64 m), true)
  | _ => invalid
  end.

(** [get<double>()] with the default bounds, the lowest and the largest
    finite double: the value is refused when it is an infinity, and accepted
    when it is a NaN, for which both comparisons are false. *)
Definition get_f64 (m : multinum) : f64 * bool :=
  if level_rank (m_level m) <? level_rank DOUBLE_ONLY then (0, false)
  else match F64.classify (m_value_double m) with
       | F64.Inf _ => (0, false)
       | _ => (m_value_double m, true)
       end.

Definition int64_t : numtype := {| is_signed := true; bits := 64 |}.
Definition uint64_t : numtype := {| is_signed := false; bits := 64 |}.
Definition int32_t : numtype := {| is_signed := true; bits := 32 |}.
Definition uint32_t : numtype := {| is_signed := false; bits := 32 |}.
Definition int16_t : numtype := {| is_signed := true; bits := 16 |}.
Definition uint16_t : numtype := {| is_signed := false; bits := 16 |}.
Definition int8_t : numtype := {| is_signed := true; bits := 8 |}.
Definition uint8_t : numtype := {| is_signed := false; bits := 8 |}.

End Multinum.

(** ** utf16.hpp *)

Inductive utf16_char_type : Type := utf16_NONE | utf16_FIRST | utf16_SECOND.

Definition detect_utf16_char (ch : Z) : utf16_char_type :=
  if Z.land ch 0xFC00 =? 0xD800 then utf16_FIRST
  else if Z.land ch 0xFC00 =? 0xDC00 then utf16_SECOND
  else utf16_NONE.

(** [read_utf16_asciiz(utf16string, code_point)]: the pair (characters read,
    code point); a missing character reads as the terminating zero. *)
Definition read_utf16_asciiz (utf16string : list Z) : Z * Z :=
  let c0 := nth 0 utf16string 0 in
  let c1 := nth 1 utf16string 0 in
  match detect_utf16_char c0 with
  | utf16_NONE => (1, c0)
  | utf16_FIRST =>
      match detect_utf16_char c1 with
      | utf16_SECOND =>
          let cp := DASTD_BINSET 0 10 10 (DASTD_BINGET c0 0 10) in
          let cp := DASTD_BINSET cp 0 10 (DASTD_BINGET c1 0 10) in
          (2, cast_u32 (cp + 0x10000))
      | _ => (1, c0)
      end
  | utf16_SECOND => (1, c0)
  end.

(** ** json_tokenizer.hpp *)

Module JsonTokenizer.

Inductive json_tokenizer_ret : Type :=
| C_ERROR | C_NEED_MORE_CHARS | C_NOTHING_MORE | C_SPACE
| C_BRACE_OPEN | C_BRACE_CLOSE | C_BRACKET_OPEN | C_BRACKET_CLOSE
| C_COMMA | C_COLON | C_TRUE | C_FALSE | C_NULL
| C_STRING | C_NUMBER | C_STRING_AND_NUMBER.

Inductive state_t : Type :=
| IDLING | REACHED_EOF | IN_STRING | IN_NUMBER | IN_KEYWORD | IN_COMMENT
| ABORTED_DUE_TO_ERROR.

Inductive sub_state_t : Type :=
| NORMAL
| IN_STRING_AFTER_BACKSLASH
| IN_STRING_READING_HEX_CHARS
| IN_COMMENT_SLASHSTAR_DISCARD_FIRST_STAR
| IN_COMMENT_SLASHSTAR_INSIDE
| IN_COMMENT_SLASHSTAR_MATCHED_POTENTIAL_CLOSING_STAR
| IN_COMMENT_SLASHSLASH.

Definition ret_eqb (a b : json_tokenizer_ret) : bool :=
  match a, b with
  | C_ERROR, C_ERROR | C_NEED_MORE_CHARS, C_NEED_MORE_CHARS
  | C_NOTHING_MORE, C_NOTHING_MORE | C_SPACE, C_SPACE
  | C_BRACE_OPEN, C_BRACE_OPEN | C_BRACE_CLOSE, C_BRACE_CLOSE
  | C_BRACKET_OPEN, C_BRACKET_OPEN | C_BRACKET_CLOSE, C_BRACKET_CLOSE
  | C_COMMA, C_COMMA | C_COLON, C_COLON | C_TRUE, C_TRUE | C_FALSE, C_FALSE
  | C_NULL, C_NULL | C_STRING, C_STRING | C_NUMBER, C_NUMBER
  | C_STRING_AND_NUMBER, C_STRING_AND_NUMBER => true
  | _, _ => false
  end.

(** A character of the input, already cast to an unsigned code unit;
    [CH32_EOF] is [UINT_LEAST32_MAX]. *)
Definition CH32_EOF : Z := 2 ^ 32 - 1.
Definition NUMBERS_IN_STRINGS : Z := 1.

Definition chr (c : ascii) : Z := Z.of_nat (nat_of_ascii c).

(** The double quote and the backslash. *)
Definition QUOTE : Z := 34.
Definition BACKSLASH : Z := 92.

Record json_tokenizer_base : Type := {
  m_raw_token : list Z;
  m_string : list Z;
  m_string_can_converted_to_number : bool;
  m_multinum : Multinum.multinum;
  m_flags : Z;
  m_escaped_char : Z;
  m_escaped_char_remaining : Z;
  m_state : state_t;
  m_sub_state : sub_state_t;
  m_numeric_parser_state : Z;
  m_prev_char : Z;
  m_last_process_ret : json_tokenizer_ret
}.

Definition tok (A : Type) : Type := sem json_tokenizer_base A.

Definition set_raw_token (v : list Z) : tok unit := fun t => Done (tt,
  {| m_raw_token := v; m_string := m_string t;
     m_string_can_converted_to_number := m_string_can_converted_to_number t;
     m_multinum := m_multinum t; m_flags := m_flags t;
     m_escaped_char := m_escaped_char t;
     m_escaped_char_remaining := m_escaped_char_remaining t;
     m_state := m_state t; m_sub_state := m_sub_state t;
     m_numeric_parser_state := m_numeric_parser_state t;
     m_prev_char := m_prev_char t; m_last_process_ret := m_last_process_ret t |}).

Definition set_string (v : list Z) : tok unit := fun t => Done (tt,
  {| m_raw_token := m_raw_token t; m_string := v;
     m_string_can_converted_to_number := m_string_can_converted_to_number t;
     m_multinum := m_multinum t; m_flags := m_flags t;
     m_escaped_char := m_escaped_char t;
     m_escaped_char_remaining := m_escaped_char_remaining t;
     m_state := m_state t; m_sub_state := m_sub_state t;
     m_numeric_parser_state := m_numeric_parser_state t;
     m_prev_char := m_prev_char t; m_last_process_ret := m_last_process_ret t |}).

Definition set_string_can_converted_to_number (v : bool) : tok unit := fun t => Done (tt,
  {| m_raw_token := m_raw_token t; m_string := m_string t;
     m_string_can_converted_to_number := v;
     m_multinum := m_multinum t; m_flags := m_flags t;
     m_escaped_char := m_escaped_char t;
     m_escaped_char_remaining := m_escaped_char_remaining t;
     m_state := m_state t; m_sub_state := m_sub_state t;
     m_numeric_parser_state := m_numeric_parser_state t;
     m_prev_char := m_prev_char t; m_last_process_ret := m_last_process_ret t |}).

Definition set_multinum (v : Multinum.multinum) : tok unit := fun t => Done (tt,
  {| m_raw_token := m_raw_token t; m_string := m_string t;
     m_string_can_converted_to_number := m_string_can_converted_to_number t;
     m_multinum := v; m_flags := m_flags t;
     m_escaped_char := m_escaped_char t;
     m_escaped_char_remaining := m_escaped_char_remaining t;
     m_state := m_state t; m_sub_state := m_sub_state t;
     m_numeric_parser_state := m_numeric_parser_state t;
     m_prev_char := m_prev_char t; m_last_process_ret := m_last_process_ret t |}).

Definition set_escaped (ch remaining : Z) : tok unit := fun t => Done (tt,
  {| m_raw_token := m_raw_token t; m_string := m_string t;
     m_string_can_converted_to_number := m_string_can_converted_to_number t;
     m_multinum := m_multinum t; m_flags := m_flags t;
     m_escaped_char := ch;
     m_escaped_char_remaining := remaining;
     m_state := m_state t; m_sub_state := m_sub_state t;
     m_numeric_parser_state := m_numeric_parser_state t;
     m_prev_char := m_prev_char t; m_last_process_ret := m_last_process_ret t |}).

Definition set_state (v : state_t) : tok unit := fun t => Done (tt,
  {| m_raw_token := m_raw_token t; m_string := m_string t;
     m_string_can_converted_to_number := m_string_can_converted_to_number t;
     m_multinum := m_multinum t; m_flags := m_flags t;
     m_escaped_char := m_escaped_char t;
     m_escaped_char_remaining := m_escaped_char_remaining t;
     m_state := v; m_sub_state := m_sub_state t;
     m_numeric_parser_state := m_numeric_parser_state t;
     m_prev_char := m_prev_char t; m_last_process_ret := m_last_process_ret t |}).

Definition set_sub_state (v : sub_state_t) : tok unit := fun t => Done (tt,
  {| m_raw_token := m_raw_token t; m_string := m_string t;
     m_string_can_converted_to_number := m_string_can_converted_to_number t;
     m_multinum := m_multinum t; m_flags := m_flags t;
     m_escaped_char := m_escaped_char t;
     m_escaped_char_remaining := m_escaped_char_remaining t;
     m_state := m_state t; m_sub_state := v;
     m_numeric_parser_state := m_numeric_parser_state t;
     m_prev_char := m_prev_char t; m_last_process_ret := m_last_process_ret t |}).

Definition set_numeric_parser_state (v : Z) : tok unit := fun t => Done (tt,
  {| m_raw_token := m_raw_token t; m_string := m_string t;
     m_string_can_converted_to_number := m_string_can_converted_to_number t;
     m_multinum := m_multinum t; m_flags := m_flags t;
     m_escaped_char := m_escaped_char t;
     m_escaped_char_remaining := m_escaped_char_remaining t;
     m_state := m_state t; m_sub_state := m_sub_state t;
     m_numeric_parser_state := v;
     m_prev_char := m_prev_char t; m_last_process_ret := m_last_process_ret t |}).

Definition set_prev_char (v : Z) : tok unit := fun t => Done (tt,
  {| m_raw_token := m_raw_token t; m_string := m_string t;
     m_string_can_converted_to_number := m_string_can_converted_to_number t;
     m_multinum := m_multinum t; m_flags := m_flags t;
     m_escaped_char := m_escaped_char t;
     m_escaped_char_remaining := m_escaped_char_remaining t;
     m_state := m_state t; m_sub_state := m_sub_state t;
     m_numeric_parser_state := m_numeric_parser_state t;
     m_prev_char := v; m_last_process_ret := m_last_process_ret t |}).

Definition set_last_process_ret (v : json_tokenizer_ret) : tok unit := fun t => Done (tt,
  {| m_raw_token := m_raw_token t; m_string := m_string t;
     m_string_can_converted_to_number := m_string_can_converted_to_number t;
     m_multinum := m_multinum t; m_flags := m_flags t;
     m_escaped_char := m_escaped_char t;
     m_escaped_char_remaining := m_escaped_char_remaining t;
     m_state := m_state t; m_sub_state := m_sub_state t;
     m_numeric_parser_state := m_numeric_parser_state t;
     m_prev_char := m_prev_char t; m_last_process_ret := v |}).

Definition in_range (lo hi ch : Z) : bool := (lo <=? ch) && (ch <=? hi).

Definition is_valid_keyword_char (ch32 : Z) : bool :=
  in_range (chr "a") (chr "z") ch32 || in_range (chr "A") (chr "Z") ch32
  || in_range (chr "0") (chr "9") ch32
  || (ch32 =? chr "_") || (ch32 =? chr "-") || (ch32 =? chr ".").

Definition is_valid_number_char (ch32 : Z) : bool :=
  in_range (chr "0") (chr "9") ch32 || (ch32 =? chr "E") || (ch32 =? chr "e")
  || (ch32 =? chr "+") || (ch32 =? chr "-") || (ch32 =? chr ".").

Definition json_tokenizer_numeric_ch (ch32 : Z) : nat :=
  if ch32 =? chr "-" then 1
  else if ch32 =? chr "+" then 2
  else if ch32 =? chr "." then 3
  else if (ch32 =? chr "e") || (ch32 =? chr "E") then 4
  else if in_range (chr "0") (chr "9") ch32 then 5
  else 0.

(** The entries [_] (not supported) and [X] (terminate) of [state_map]. *)
Definition NOT_SUPPORTED : Z := 255.
Definition TERMINATE : Z := 254.

Definition state_map : list (list Z) :=
  let u := NOT_SUPPORTED in
  let X := TERMINATE in
  (*  ?  -  +  .  E  0-9 *)
  [ [u; 1; u; u; u; 2];
    [u; u; u; u; u; 2];
    [X; u; u; 3; 5; 2];
    [u; u; u; u; u; 4];
    [X; u; u; u; 5; 4];
    [u; 6; 6; u; u; 7];
    [u; u; u; u; u; 7];
    [X; u; u; u; u; 7] ].

Definition state_map_at (state : Z) (event : nat) : tok Z :=
  match nth_error state_map (Z.to_nat state) with
  | Some row =>
      match nth_error row event with
      | Some next => ret next
      | None => throw undefined_behaviour
      end
  | None => throw undefined_behaviour
  end.

(** The code points of an ASCII text: the string a [compare_utf8] compares
    with. *)
Fixpoint code_points (text : string) : list Z :=
  match text with
  | EmptyString => []
  | String c rest => chr c :: code_points rest
  end.

Definition compare_utf8_equal (s : list Z) (text : string) : bool :=
  if list_eq_dec Z.eq_dec s (code_points text) then true else false.

Section Tokenizer.

(** [multinum::parse] of the characters of a lexeme.  It runs [std::stod] and
    [strtointegral]; the tokenizer only hands it the lexeme and asks whether
    the result is valid, so it is a parameter here. *)
Variable parse : list Z -> Multinum.multinum.

Definition clear : tok unit :=
  set_raw_token [];;
  set_string [];;
  set_multinum Multinum.clear;;
  t <- get;;
  set_string_can_converted_to_number
    (Z.land (m_flags t) NUMBERS_IN_STRINGS =? NUMBERS_IN_STRINGS).

(** [json_tokenizer_base(first_char, flags)] *)
Definition json_tokenizer_base_new (first_char flags : Z) : json_tokenizer_base :=
  {| m_raw_token := []; m_string := [];
     m_string_can_converted_to_number :=
       (Z.land flags NUMBERS_IN_STRINGS =? NUMBERS_IN_STRINGS);
     m_multinum := Multinum.clear; m_flags := flags;
     m_escaped_char := 0; m_escaped_char_remaining := 0;
     m_state := IDLING; m_sub_state := NORMAL;
     m_numeric_parser_state := 0;
     m_prev_char := first_char; m_last_process_ret := C_NEED_MORE_CHARS |}.

Definition string_push_back (ch32 : Z) : tok unit :=
  t <- get;; set_string (m_string t ++ [ch32]).

Definition add_char_to_string (ch32 : Z) : tok unit :=
  t <- get;;
  let prev := last (m_string t) 0 in
  let merged :=
    if (0 <? Z.of_nat (List.length (m_string t))) && (ch32 <? 0x10000)
       && match detect_utf16_char (ch32 mod 2 ^ 16) with utf16_SECOND => true | _ => false end
       && (prev <? 0x10000)
       && match detect_utf16_char (prev mod 2 ^ 16) with utf16_FIRST => true | _ => false end
    then
      let '(read, codepoint) := read_utf16_asciiz [prev mod 2 ^ 16; ch32 mod 2 ^ 16; 0] in
      if read =? 2 then Some codepoint else None
    else None in
  match merged with
  | Some codepoint => set_string (removelast (m_string t) ++ [codepoint])
  | None =>
      string_push_back ch32;;
      if m_string_can_converted_to_number t then
        if (ch32 =? chr " ") || in_range (chr "0") (chr "9") ch32
           || in_range (chr "A") (chr "F") ch32 || in_range (chr "a") (chr "f") ch32
           || (ch32 =? chr ".") || (ch32 =? chr "X") || (ch32 =? chr "+")
           || (ch32 =? chr "-")
        then ret tt
        else set_string_can_converted_to_number false
      else ret tt
  end.

Definition abort : tok json_tokenizer_ret :=
  set_state ABORTED_DUE_TO_ERROR;; ret C_ERROR.

Definition process_char_string (ch32_curr : Z) : tok json_tokenizer_ret :=
  if ch32_curr =? CH32_EOF then abort
  else
    t <- get;;
    match m_sub_state t with
    | NORMAL =>
        if ch32_curr =? QUOTE then
          set_state IDLING;;
          if m_string_can_converted_to_number t then
            set_multinum (parse (m_string t));;
            if Multinum.valid (parse (m_string t)) then ret C_STRING_AND_NUMBER
            else ret C_STRING
          else ret C_STRING
        else if ch32_curr =? BACKSLASH then
          set_sub_state IN_STRING_AFTER_BACKSLASH;; ret C_NEED_MORE_CHARS
        else
          add_char_to_string ch32_curr;; ret C_NEED_MORE_CHARS
    | IN_STRING_AFTER_BACKSLASH =>
        if ch32_curr =? chr "u" then
          set_escaped 0 4;;
          set_sub_state IN_STRING_READING_HEX_CHARS;;
          ret C_NEED_MORE_CHARS
        else
          add_char_to_string
            (if ch32_curr =? chr "b" then 8
             else if ch32_curr =? chr "f" then 12
             else if ch32_curr =? chr "n" then 10
             else if ch32_curr =? chr "r" then 13
             else if ch32_curr =? chr "t" then 9
             else ch32_curr);;
          set_sub_state NORMAL;;
          ret C_NEED_MORE_CHARS
    | IN_STRING_READING_HEX_CHARS =>
        assert (0 <? m_escaped_char_remaining t);;
        let digit :=
          if in_range (chr "0") (chr "9") ch32_curr then Some (ch32_curr - chr "0")
          else if in_range (chr "A") (chr "F") ch32_curr then Some (ch32_curr - chr "A" + 10)
          else if in_range (chr "a") (chr "f") ch32_curr then Some (ch32_curr - chr "a" + 10)
          else None in
        match digit with
        | None => abort
        | Some digit =>
            let escaped := cast_u32 (Z.lor (Z.shiftl (m_escaped_char t) 4) digit) in
            let remaining := m_escaped_char_remaining t - 1 in
            set_escaped escaped remaining;;
            (if remaining =? 0 then
               add_char_to_string escaped;; set_sub_state NORMAL
             else ret tt);;
            ret C_NEED_MORE_CHARS
        end
    | _ => throw assertion_failed
    end.

Definition process_char_comment (ch32_curr : Z) : tok json_tokenizer_ret :=
  t <- get;;
  match m_sub_state t with
  | IN_COMMENT_SLASHSTAR_DISCARD_FIRST_STAR =>
      assert (ch32_curr =? chr "*");;
      set_sub_state IN_COMMENT_SLASHSTAR_INSIDE;;
      ret C_NEED_MORE_CHARS
  | IN_COMMENT_SLASHSTAR_INSIDE =>
      if ch32_curr =? CH32_EOF then abort
      else
        (if ch32_curr =? chr "*"
         then set_sub_state IN_COMMENT_SLASHSTAR_MATCHED_POTENTIAL_CLOSING_STAR
         else ret tt);;
        ret C_NEED_MORE_CHARS
  | IN_COMMENT_SLASHSTAR_MATCHED_POTENTIAL_CLOSING_STAR =>
      if ch32_curr =? CH32_EOF then abort
      else if ch32_curr =? chr "/" then
        set_sub_state NORMAL;; set_state IDLING;; ret C_SPACE
      else ret C_NEED_MORE_CHARS
  | IN_COMMENT_SLASHSLASH =>
      if (ch32_curr =? 13) || (ch32_curr =? 10) || (ch32_curr =? CH32_EOF) then
        set_state IDLING;; ret C_SPACE
      else ret C_NEED_MORE_CHARS
  | _ => throw assertion_failed
  end.

Definition process_char_keyword (ch32_curr ch32_next : Z) : tok json_tokenizer_ret :=
  assert (is_valid_keyword_char ch32_curr);;
  string_push_back ch32_curr;;
  if is_valid_keyword_char ch32_next then ret C_NEED_MORE_CHARS
  else
    set_state IDLING;;
    t <- get;;
    if compare_utf8_equal (m_string t) "null" then ret C_NULL
    else if compare_utf8_equal (m_string t) "true" then ret C_TRUE
    else if compare_utf8_equal (m_string t) "false" then ret C_FALSE
    else ret C_STRING.

Definition process_char_number (ch32_curr ch32_next : Z) : tok json_tokenizer_ret :=
  let ev_curr := json_tokenizer_numeric_ch ch32_curr in
  let ev_next := json_tokenizer_numeric_ch ch32_next in
  t <- get;;
  assert (m_numeric_parser_state t <? 8);;
  state <- state_map_at (m_numeric_parser_state t) ev_curr;;
  set_numeric_parser_state state;;
  assert (negb (state =? NOT_SUPPORTED));;
  assert (negb (state =? TERMINATE));;
  string_push_back ch32_curr;;
  future_state <- state_map_at state ev_next;;
  if future_state =? NOT_SUPPORTED then abort
  else if future_state =? TERMINATE then
    set_state IDLING;;
    t' <- get;;
    set_multinum (parse (m_string t'));;
    if negb (Multinum.valid (parse (m_string t'))) then abort
    else ret C_NUMBER
  else ret C_NEED_MORE_CHARS.

Definition process_char_internal (ch32_curr ch32_next : Z) : tok json_tokenizer_ret :=
  t <- get;;
  match m_state t with
  | IDLING =>
      set_string [];;
      if ch32_curr =? chr "{" then ret C_BRACE_OPEN
      else if ch32_curr =? chr "}" then ret C_BRACE_CLOSE
      else if ch32_curr =? chr "[" then ret C_BRACKET_OPEN
      else if ch32_curr =? chr "]" then ret C_BRACKET_CLOSE
      else if ch32_curr =? chr "," then ret C_COMMA
      else if ch32_curr =? chr ":" then ret C_COLON
      else if (ch32_curr =? chr " ") || (ch32_curr =? 13) || (ch32_curr =? 10)
              || (ch32_curr =? 9) then ret C_SPACE
      else if ch32_curr =? chr "#" then
        set_state IN_COMMENT;; set_sub_state IN_COMMENT_SLASHSLASH;;
        ret C_NEED_MORE_CHARS
      else if ch32_curr =? chr "/" then
        if ch32_next =? chr "*" then
          set_state IN_COMMENT;;
          set_sub_state IN_COMMENT_SLASHSTAR_DISCARD_FIRST_STAR;;
          ret C_NEED_MORE_CHARS
        else if ch32_next =? chr "/" then
          set_state IN_COMMENT;; set_sub_state IN_COMMENT_SLASHSLASH;;
          ret C_NEED_MORE_CHARS
        else abort
      else if ch32_curr =? QUOTE then
        set_state IN_STRING;; set_sub_state NORMAL;; ret C_NEED_MORE_CHARS
      else if in_range (chr "0") (chr "9") ch32_curr || (ch32_curr =? chr "-") then
        set_state IN_NUMBER;; set_sub_state NORMAL;; set_numeric_parser_state 0;;
        process_char_number ch32_curr ch32_next
      else if is_valid_keyword_char ch32_curr then
        set_state IN_KEYWORD;; set_sub_state NORMAL;;
        process_char_keyword ch32_curr ch32_next
      else abort
  | IN_STRING => process_char_string ch32_curr
  | IN_COMMENT => process_char_comment ch32_curr
  | IN_KEYWORD => process_char_keyword ch32_curr ch32_next
  | IN_NUMBER => process_char_number ch32_curr ch32_next
  | REACHED_EOF => ret C_NOTHING_MORE
  | ABORTED_DUE_TO_ERROR => ret C_ERROR
  end.

Definition raw_token_push_back (ch : Z) : tok unit :=
  t <- get;; set_raw_token (m_raw_token t ++ [ch]).

Definition internal_process_char (ch : Z) : tok json_tokenizer_ret :=
  t <- get;;
  match m_state t with
  | REACHED_EOF => set_last_process_ret C_NOTHING_MORE
  | _ =>
      (match m_state t with IDLING => clear | _ => ret tt end);;
      r <- process_char_internal (m_prev_char t) ch;;
      set_last_process_ret r;;
      raw_token_push_back (m_prev_char t);;
      set_prev_char ch
  end;;
  t' <- get;;
  ret (m_last_process_ret t').

Definition internal_process_eof : tok json_tokenizer_ret :=
  t <- get;;
  match m_state t with
  | REACHED_EOF => set_last_process_ret C_NOTHING_MORE
  | _ =>
      (match m_state t with IDLING => clear | _ => ret tt end);;
      r <- process_char_internal (m_prev_char t) CH32_EOF;;
      set_last_process_ret r;;
      raw_token_push_back (m_prev_char t);;
      set_state REACHED_EOF
  end;;
  t' <- get;;
  ret (m_last_process_ret t').

(** [json_tokenizer]: the variant fed one character at a time. *)
Definition json_tokenizer_new (first_char flags : Z) : json_tokenizer_base :=
  json_tokenizer_base_new first_char flags.
Definition process_char (ch : Z) : tok json_tokenizer_ret := internal_process_char ch.
Definition process_eof : tok json_tokenizer_ret := internal_process_eof.

(** [json_tokenizer_sourced]: the tokenizer and the characters its source
    still holds. *)
Record json_tokenizer_sourced : Type := {
  base : json_tokenizer_base;
  m_source : list Z
}.

Definition stok (A : Type) : Type := sem json_tokenizer_sourced A.

(** Run a method of the base class on the base part. *)
Definition on_base {A} (c : tok A) : stok A :=
  fun s => match c (base s) with
           | Done (a, b) => Done (a, {| base := b; m_source := m_source s |})
           | Thrown f => Thrown f
           end.

Definition tentative_read_char : stok (option Z) :=
  fun s => Done (hd_error (m_source s), {| base := base s; m_source := tl (m_source s) |}).

Definition tentative_peek_char : stok (option Z) :=
  fun s => Done (hd_error (m_source s), s).

(** [json_tokenizer_sourced(source, flags)] *)
Definition json_tokenizer_sourced_new (source : list Z) (flags : Z)
  : outcome json_tokenizer_sourced :=
  match source with
  | ch :: _ =>
      (* set_first_char(ch) *)
      Done {| base := json_tokenizer_base_new ch flags; m_source := source |}
  | [] =>
      match internal_process_eof (json_tokenizer_base_new 0 flags) with
      | Done (_, b) => Done {| base := b; m_source := source |}
      | Thrown f => Thrown f
      end
  end.

(** One turn of the [for(;;)] loop of [fetch_token], and the loop.  A turn
    takes a character from the source while there is one; two more turns end
    the loop once the source is empty. *)
Fixpoint fetch_token_loop (fuel : nat) : stok json_tokenizer_ret :=
  match fuel with
  | O => throw out_of_fuel
  | S fuel' =>
      tentative_read_char;;
      next <- tentative_peek_char;;
      r <- match next with
           | Some ch => on_base (internal_process_char ch)
           | None => on_base internal_process_eof
           end;;
      if negb (ret_eqb r C_NEED_MORE_CHARS) && negb (ret_eqb r C_SPACE) then ret r
      else fetch_token_loop fuel'
  end.

Definition fetch_token : stok json_tokenizer_ret :=
  fun s => fetch_token_loop (List.length (m_source s) + 2) s.

End Tokenizer.

End JsonTokenizer.

(** The text [/x]: a slash followed by neither a star nor a slash. *)
Definition slash_x : list Z := [JsonTokenizer.chr "/"; JsonTokenizer.chr "x"].

(** ** char32string.hpp *)

Fixpoint string_of_bytes (bytes : list byte) : string :=
  match bytes with
  | [] => EmptyString
  | b :: rest => String (ascii_of_byte b) (string_of_bytes rest)
  end.

(** [char32string::get_utf8()]: every character is written by
    [write_utf8_asciiz] into a buffer of [calc_utf8_length] bytes. *)
Definition get_utf8 (str : list Z) : string := string_of_bytes (utf8_bytes str).

(** ** marshal_json.hpp and marshal_dec_json.hpp *)

Module DecJson.

Import JsonTokenizer.

Inductive marshal_json_element_type : Type :=
| STRUCT | FIELD | ARRAY | ARRAY_ELEMENT | DICTIONARY | DICTIONARY_ELEMENT | TYPED.

Inductive marshal_json_polymorphic_encoding : Type :=
| TYPEID_AS_FIELD_NAME | TYPEID_AS_STRUCT_FIELD.

Record stack_element : Type := {
  m_element_type : marshal_json_element_type;
  m_items_count : Z
}.

Definition stack_element_new (element_type : marshal_json_element_type) : stack_element :=
  {| m_element_type := element_type; m_items_count := 0 |}.

Record marshal_dec_json : Type := {
  m_stack : list stack_element;
  m_fields_map : list (marshal_label_id_t * list Z);
  m_tokenizer : json_tokenizer_sourced;
  m_resubmit_prev_token : bool;
  m_polymorphic_encoding : marshal_json_polymorphic_encoding;
  m_typed_field : string;
  m_is_typed : bool
}.

Definition dec (A : Type) : Type := sem marshal_dec_json A.

Definition set_stack (v : list stack_element) : dec unit := fun d => Done (tt,
  {| m_stack := v; m_fields_map := m_fields_map d; m_tokenizer := m_tokenizer d;
     m_resubmit_prev_token := m_resubmit_prev_token d;
     m_polymorphic_encoding := m_polymorphic_encoding d;
     m_typed_field := m_typed_field d; m_is_typed := m_is_typed d |}).

Definition set_fields_map (v : list (marshal_label_id_t * list Z)) : dec unit :=
  fun d => Done (tt,
  {| m_stack := m_stack d; m_fields_map := v; m_tokenizer := m_tokenizer d;
     m_resubmit_prev_token := m_resubmit_prev_token d;
     m_polymorphic_encoding := m_polymorphic_encoding d;
     m_typed_field := m_typed_field d; m_is_typed := m_is_typed d |}).

Definition set_resubmit_prev_token (v : bool) : dec unit := fun d => Done (tt,
  {| m_stack := m_stack d; m_fields_map := m_fields_map d; m_tokenizer := m_tokenizer d;
     m_resubmit_prev_token := v;
     m_polymorphic_encoding := m_polymorphic_encoding d;
     m_typed_field := m_typed_field d; m_is_typed := m_is_typed d |}).

Definition set_is_typed (v : bool) : dec unit := fun d => Done (tt,
  {| m_stack := m_stack d; m_fields_map := m_fields_map d; m_tokenizer := m_tokenizer d;
     m_resubmit_prev_token := m_resubmit_prev_token d;
     m_polymorphic_encoding := m_polymorphic_encoding d;
     m_typed_field := m_typed_field d; m_is_typed := v |}).

(** Run a method of the tokenizer on the decoder's [m_tokenizer]. *)
Definition on_tokenizer {A} (c : stok A) : dec A :=
  fun d => match c (m_tokenizer d) with
           | Done (a, t) => Done (a,
               {| m_stack := m_stack d; m_fields_map := m_fields_map d;
                  m_tokenizer := t;
                  m_resubmit_prev_token := m_resubmit_prev_token d;
                  m_polymorphic_encoding := m_polymorphic_encoding d;
                  m_typed_field := m_typed_field d; m_is_typed := m_is_typed d |})
           | Thrown f => Thrown f
           end.

Definition get_last_process_ret : dec json_tokenizer_ret :=
  d <- get;; ret (m_last_process_ret (base (m_tokenizer d))).

Definition get_string : dec (list Z) :=
  d <- get;; ret (m_string (base (m_tokenizer d))).

Definition get_multinum : dec Multinum.multinum :=
  d <- get;; ret (m_multinum (base (m_tokenizer d))).

Definition fields_map_contains (label_id : marshal_label_id_t)
  (map : list (marshal_label_id_t * list Z)) : bool :=
  existsb (fun e => fst e =? label_id) map.

(** The stacks on which [decode_struct_begin] opens a struct: the root, or
    anything but a STRUCT, an ARRAY or a DICTIONARY on top. *)
Definition struct_allowed (stk : list stack_element) : Prop :=
  match stk with
  | [] => True
  | top :: _ =>
      match m_element_type top with
      | STRUCT | ARRAY | DICTIONARY => False
      | _ => True
      end
  end.

Section Decoder.

Variable parse : list Z -> Multinum.multinum.

(** [marshal_dec_json(source)] with the default polymorphic encoding and
    typed field. *)
Definition marshal_dec_json_new (source : list Z) : outcome marshal_dec_json :=
  match json_tokenizer_sourced_new parse source 0 with
  | Done t => Done
      {| m_stack := []; m_fields_map := []; m_tokenizer := t;
         m_resubmit_prev_token := false;
         m_polymorphic_encoding := TYPEID_AS_FIELD_NAME;
         m_typed_field := "$type"; m_is_typed := false |}
  | Thrown f => Thrown f
  end.

Definition resubmit_prev_token : dec unit :=
  d <- get;;
  assert (negb (m_resubmit_prev_token d));;
  set_resubmit_prev_token true.

Definition fetch_token : dec unit :=
  d <- get;;
  if m_resubmit_prev_token d then set_resubmit_prev_token false
  else (on_tokenizer (JsonTokenizer.fetch_token parse);; ret tt).

Definition assert_not_typed : dec unit :=
  d <- get;; assert (negb (m_is_typed d)).

Definition decode_bool : dec bool :=
  assert_not_typed;;
  fetch_token;;
  r <- get_last_process_ret;;
  match r with
  | C_TRUE => ret true
  | C_FALSE => ret false
  | _ => throw exception_marshal
  end.

Definition decode_integral (T : Multinum.numtype) : dec Z :=
  assert_not_typed;;
  fetch_token;;
  m <- get_multinum;;
  let pair := Multinum.get T m (Multinum.numtype_lowest T) (Multinum.numtype_max T) in
  if negb (snd pair) then throw exception_marshal
  else ret (fst pair).

Definition decode_u32 : dec Z := decode_integral Multinum.uint32_t.

Definition decode_u32string : dec (list Z) :=
  assert_not_typed;;
  fetch_token;;
  r <- get_last_process_ret;;
  if negb (ret_eqb r C_STRING) then throw exception_marshal
  else get_string.

(** [decode_struct_begin(extensible, field_infos, fields_infos_count)]: the
    three parameters are unused. *)
Definition decode_struct_begin (extensible : bool)
  (field_infos : list marshal_label_info_t) : dec unit :=
  d <- get;;
  if negb (m_is_typed d) then
    match m_stack d with
    | top :: _ =>
        match m_element_type top with
        | STRUCT | ARRAY | DICTIONARY => throw exception_marshal
        | _ => ret tt
        end
    | [] => ret tt
    end;;
    fetch_token;;
    r <- get_last_process_ret;;
    throw_if (negb (ret_eqb r C_BRACE_OPEN));;
    set_stack (stack_element_new STRUCT :: m_stack d)
  else set_is_typed false.

(** [decode_struct_field_begin(optional_present)]: [receiver] tells whether
    the caller passed a non-null [optional_present]; the second result is
    what is stored through it. *)
Definition decode_struct_field_begin (receiver : bool)
  : dec (marshal_label_id_t * option bool) :=
  assert_not_typed;;
  d <- get;;
  match m_stack d with
  | [] => throw exception_marshal
  | cur_stack :: below =>
      match m_element_type cur_stack with
      | STRUCT =>
          fetch_token;;
          r <- get_last_process_ret;;
          if ret_eqb r C_BRACE_CLOSE then
            resubmit_prev_token;;
            ret (marshal_label_id_INVALID, None)
          else
            (if 0 <? m_items_count cur_stack then
               throw_if (negb (ret_eqb r C_COMMA));;
               fetch_token
             else ret tt);;
            let cur_stack' :=
              {| m_element_type := m_element_type cur_stack;
                 m_items_count := cast_u64 (m_items_count cur_stack + 1) |} in
            set_stack (cur_stack' :: below);;
            r <- get_last_process_ret;;
            name <- get_string;;
            throw_if (negb (ret_eqb r C_STRING) || (Z.of_nat (List.length name) =? 0));;
            let label_id := marshal_label_hash (get_utf8 name) in
            d' <- get;;
            (if negb (fields_map_contains label_id (m_fields_map d'))
             then set_fields_map (m_fields_map d' ++ [(label_id, name)])
             else ret tt);;
            fetch_token;;
            r <- get_last_process_ret;;
            throw_if (negb (ret_eqb r C_COLON));;
            set_stack (stack_element_new FIELD :: cur_stack' :: below);;
            if receiver then
              fetch_token;;
              r <- get_last_process_ret;;
              if ret_eqb r C_NULL then ret (label_id, Some false)
              else
                resubmit_prev_token;;
                ret (label_id, Some true)
            else ret (label_id, None)
      | _ => throw exception_marshal
      end
  end.

Definition decode_struct_field_end : dec unit :=
  assert_not_typed;;
  d <- get;;
  match m_stack d with
  | [] => throw exception_marshal
  | top :: below =>
      match m_element_type top with
      | FIELD => set_stack below
      | _ => throw exception_marshal
      end
  end.

(** [skip_substructure()]: [stk] is its local stack of opening characters,
    [true] for a bracket and [false] for a brace.  Every turn of the loop
    fetches a token, and a tokenizer out of input answers [C_NOTHING_MORE]
    or [C_ERROR], which end the loop. *)
Fixpoint skip_substructure_loop (fuel : nat) (stk : list bool) : dec unit :=
  match fuel with
  | O => throw out_of_fuel
  | S fuel' =>
      fetch_token;;
      r <- get_last_process_ret;;
      match r with
      | C_BRACKET_OPEN => skip_substructure_loop fuel' (true :: stk)
      | C_BRACE_OPEN => skip_substructure_loop fuel' (false :: stk)
      | C_BRACKET_CLOSE =>
          match stk with
          | true :: stk' => skip_substructure_loop fuel' stk'
          | _ => ret tt
          end
      | C_BRACE_CLOSE =>
          match stk with
          | false :: stk' => skip_substructure_loop fuel' stk'
          | _ => ret tt
          end
      | C_NOTHING_MORE | C_ERROR => ret tt
      | _ => skip_substructure_loop fuel' stk
      end
  end.

Definition skip_substructure : dec unit :=
  d <- get;;
  skip_substructure_loop (List.length (m_source (m_tokenizer d)) + 3) [].

Definition decode_struct_end : dec unit :=
  assert_not_typed;;
  d <- get;;
  match m_stack d with
  | [] => throw exception_marshal
  | cur_stack :: below =>
      match m_element_type cur_stack with
      | STRUCT =>
          skip_substructure;;
          r <- get_last_process_ret;;
          throw_if (negb (ret_eqb r C_BRACE_CLOSE));;
          set_stack below
      | _ => throw exception_marshal
      end
  end.

End Decoder.

End DecJson.

(** [multinum::parse] rests on [std::stod] and is a parameter of the
    tokenizer above.  The tokenizer calls it at the end of a number, and at
    the end of a string when [NUMBERS_IN_STRINGS] is set; the runs on texts
    that hold neither take the instance that recognises nothing. *)
Definition parse_no_number (str : list Z) : Multinum.multinum := Multinum.clear.

(** The text [{"id":null}], and the field infos that declare [id] a
    mandatory field. *)
Definition id_null_text : list Z :=
  [JsonTokenizer.chr "{"; JsonTokenizer.QUOTE] ++ JsonTokenizer.code_points "id"
  ++ [JsonTokenizer.QUOTE; JsonTokenizer.chr ":"] ++ JsonTokenizer.code_points "null"
  ++ [JsonTokenizer.chr "}"].

Definition id_mandatory : list marshal_label_info_t :=
  [marshal_label_info_calc (marshal_label_hash "id") false].

(** The text [{"a":true,"id":null}], and the field infos that declare [a]
    and [id] mandatory fields. *)
Definition a_true_id_null_text : list Z :=
  [JsonTokenizer.chr "{"; JsonTokenizer.QUOTE] ++ JsonTokenizer.code_points "a"
  ++ [JsonTokenizer.QUOTE; JsonTokenizer.chr ":"] ++ JsonTokenizer.code_points "true"
  ++ [JsonTokenizer.chr ","; JsonTokenizer.QUOTE] ++ JsonTokenizer.code_points "id"
  ++ [JsonTokenizer.QUOTE; JsonTokenizer.chr ":"] ++ JsonTokenizer.code_points "null"
  ++ [JsonTokenizer.chr "}"].

Definition a_id_mandatory : list marshal_label_info_t :=
  [marshal_label_info_calc (marshal_label_hash "a") false;
   marshal_label_info_calc (marshal_label_hash "id") false].

(** ** marshal_enc_json.hpp: the terminals written on the output stream *)

Module EncJson.

(** [std::numeric_limits<double>::max_digits10] *)
Definition max_digits10 : nat := 17.

Definition digit (d : Z) : ascii := ascii_of_nat (48 + Z.to_nat d).

(** The [n] low decimal digits of [z], in front of [acc]. *)
Fixpoint decimal_digits (n : nat) (z : Z) (acc : string) : string :=
  match n with
  | O => acc
  | S n' => decimal_digits n' (z / 10) (String (digit (z mod 10)) acc)
  end.

Fixpoint decimal_fuel (fuel : nat) (z : Z) (acc : string) : string :=
  match fuel with
  | O => acc
  | S fuel' =>
      let acc' := String (digit (z mod 10)) acc in
      if z / 10 =? 0 then acc' else decimal_fuel fuel' (z / 10) acc'
  end.

(** The decimal digits of a natural number, without leading zeros. *)
Definition decimal (z : Z) : string := decimal_fuel (S (Z.to_nat (Z.log2 z))) z "".

(** [num / den] rounded to the nearest integer, a tie to the even one. *)
Definition round_half_even (num den : Z) : Z :=
  let q := num / den in
  let r := num mod den in
  if 2 * r <? den then q
  else if den <? 2 * r then q + 1
  else if Z.even q then q else q + 1.

(** [out << std::fixed << std::setprecision(precision) << value] of the C++
    library, which converts as [printf] does with the format [%.*f]: the
    exact value rounded to [precision] digits after the point, all the
    digits of the integral part before it. *)
Definition ostream_fixed (precision : nat) (value : f64) : string :=
  match F64.classify value with
  | F64.NaN => if Z.testbit value 63 then "-nan" else "nan"
  | F64.Inf negative => if negative then "-inf" else "inf"
  | F64.Finite negative m e =>
      let unit := 10 ^ Z.of_nat precision in
      let scaled :=
        if 0 <=? e then m * 2 ^ e * unit
        else round_half_even (m * unit) (2 ^ (- e)) in
      ((if negative then "-" else "")
       ++ decimal (scaled / unit)
       ++ (match precision with
           | O => ""
           | S _ => "." ++ decimal_digits precision (scaled mod unit) ""
           end))%string
  end.

Record stack_element : Type := {
  m_element_type : DecJson.marshal_json_element_type;
  m_items_count : Z
}.

Record marshal_enc_json : Type := {
  m_stack : list stack_element;
  m_polymorphic_encoding : DecJson.marshal_json_polymorphic_encoding;
  m_typed_field : string;
  m_is_typed : bool;
  m_type_id : marshal_label;
  m_out : string
}.

Definition enc (A : Type) : Type := sem marshal_enc_json A.

(** [marshal_enc_json(out)] on an empty stream, with the default polymorphic
    encoding and typed field. *)
Definition marshal_enc_json_new : marshal_enc_json :=
  {| m_stack := []; m_polymorphic_encoding := DecJson.TYPEID_AS_FIELD_NAME;
     m_typed_field := "$type"; m_is_typed := false;
     m_type_id := marshal_label_empty; m_out := "" |}.

(** [m_out << text] *)
Definition out_write (text : string) : enc unit := fun e => Done (tt,
  {| m_stack := m_stack e; m_polymorphic_encoding := m_polymorphic_encoding e;
     m_typed_field := m_typed_field e; m_is_typed := m_is_typed e;
     m_type_id := m_type_id e; m_out := (m_out e ++ text)%string |}).

Definition encode_f64 (value : f64) : enc unit :=
  e <- get;;
  assert (negb (m_is_typed e));;
  out_write (ostream_fixed max_digits10 value).

(** The text an encoder has written when a run ends. *)
Definition written {A} (run : outcome (A * marshal_enc_json)) : option string :=
  match run with
  | Done (_, e) => Some (m_out e)
  | Thrown _ => None
  end.

End EncJson.


(** ** What the decoder does on the wire of an admitted value *)

Module DecoderStatements.

Import DecBin Driver DecBinAt DecoderLoops.

(** Reading the field list [fs] of a structure whose frame is on top of the
    stack; [pre] are the descriptions of the fields already read, [extra]
    the bytes of the frame behind the fields of [fs]. *)
Definition fields_statement (fs : field_list) : Prop :=
  forall ext fvs, admits_fields ext fs fvs ->
  forall pre eo extra rest off stk,
    (ext = true ->
     eo = off + Z.of_nat (List.length (wire_fields fs fvs)) + Z.of_nat (List.length extra)) ->
    decode_fields fs
      (at_input (wire_fields fs fvs ++ extra ++ rest) off
         (struct_frame ext eo (pre ++ field_infos fs)
            (Z.of_nat (List.length pre + F_length fs)) (Z.of_nat (List.length pre)) :: stk))
    = Done (fvs,
            at_input (extra ++ rest) (off + Z.of_nat (List.length (wire_fields fs fvs)))
              (struct_frame ext eo (pre ++ field_infos fs)
                 (Z.of_nat (List.length pre + F_length fs))
                 (Z.of_nat (List.length pre + F_length fs)) :: stk)).

Definition value_statement (s : schema) : Prop :=
  forall v, admits s v -> forall rest off stk, value_allowed stk ->
    decode_value s (at_input (wire s v ++ rest) off stk)
    = Done (v, at_input rest (off + Z.of_nat (List.length (wire s v))) stk).

Definition types_statement (ts : type_list) : Prop :=
  forall l v, admits_as_type ts l v -> forall rest off stk, value_allowed stk ->
    decode_as_type ts (m_label_id l)
      (at_input (wire_as_type ts (m_label_id l) v ++ rest) off stk)
    = Done (Some (V_typed l v),
            at_input rest
              (off + Z.of_nat (List.length (wire_as_type ts (m_label_id l) v))) stk).

End DecoderStatements.

(** ** strtointegral.hpp *)

(** [strtointegral_t<NUMTYPE, char>] for the two instances [multinum] uses,
    [int64_t] ([signed = true]) and [uint64_t].  A character is its code.
    The arithmetic of [add_char] is that of the instance: modulo [2^64] for
    [uint64_t]; for [int64_t] a result outside the type is a signed overflow,
    which C++ leaves undefined. *)
Module StrToIntegral.

Definition chr (c : ascii) : Z := JsonTokenizer.chr c.

Definition NOT_A_INTEGRAL_CHAR : Z := 36.
Definition detect_base : Z := 0.
Definition end_of_string : Z := 0.
Definition state_initial : Z := 0.

Inductive result_type : Type :=
| NOT_PROCESSED | VALID | INVALID_CHAR | VALUE_OUT_OF_RANGE.

Definition char_to_integral (ch : Z) : Z :=
  if (chr "0" <=? ch) && (ch <=? chr "9") then ch - chr "0"
  else if (chr "A" <=? ch) && (ch <=? chr "Z") then ch - chr "A" + 10
  else if (chr "a" <=? ch) && (ch <=? chr "z") then ch - chr "a" + 10
  else NOT_A_INTEGRAL_CHAR.

Record conversion_state : Type := {
  m_negative : bool;
  m_state : Z
}.

Record strtointegral_t : Type := {
  m_data : Z;
  m_result : result_type;
  m_valid_length : Z;
  m_base : Z
}.

Definition conv (A : Type) : Type := sem strtointegral_t A.

Definition set_data (v : Z) : conv unit := fun s => Done (tt,
  {| m_data := v; m_result := m_result s; m_valid_length := m_valid_length s;
     m_base := m_base s |}).

Definition set_result (v : result_type) : conv unit := fun s => Done (tt,
  {| m_data := m_data s; m_result := v; m_valid_length := m_valid_length s;
     m_base := m_base s |}).

Definition set_valid_length (v : Z) : conv unit := fun s => Done (tt,
  {| m_data := m_data s; m_result := m_result s; m_valid_length := v;
     m_base := m_base s |}).

Definition set_base (v : Z) : conv unit := fun s => Done (tt,
  {| m_data := m_data s; m_result := m_result s; m_valid_length := m_valid_length s;
     m_base := v |}).

(** [clear()] *)
Definition cleared : strtointegral_t :=
  {| m_data := 0; m_result := NOT_PROCESSED; m_valid_length := 0; m_base := detect_base |}.

Definition lowest (signed : bool) : Z := if signed then - 2 ^ 63 else 0.
Definition highest (signed : bool) : Z := if signed then 2 ^ 63 - 1 else 2 ^ 64 - 1.

Definition add_char (signed : bool) (ch : Z) (state : conversion_state) : conv bool :=
  sit <- get;;
  let number := char_to_integral ch in
  if ch =? NOT_A_INTEGRAL_CHAR then set_result INVALID_CHAR;; ret false
  else if number >=? m_base sit then set_result INVALID_CHAR;; ret false
  else
    tmp_data <-
      (if signed then
         let exact := m_data sit * m_base sit
                      + (if m_negative state then - number else number) in
         if (lowest true <=? exact) && (exact <=? highest true) then ret exact
         else throw undefined_behaviour
       else
         assert (negb (m_negative state));;
         ret (cast_u64 (m_data sit * m_base sit + number)));;
    if m_negative state then
      if tmp_data >? m_data sit then set_result VALUE_OUT_OF_RANGE;; ret false
      else set_data tmp_data;; ret true
    else
      if tmp_data <? m_data sit then set_result VALUE_OUT_OF_RANGE;; ret false
      else set_data tmp_data;; ret true.

(** [isspace] in the "C" locale. *)
Definition isspace (ch : Z) : bool := (ch =? 32) || ((9 <=? ch) && (ch <=? 13)).

Definition with_state (state : conversion_state) (v : Z) : conversion_state :=
  {| m_negative := m_negative state; m_state := v |}.

Definition with_negative (state : conversion_state) (v : Z) : conversion_state :=
  {| m_negative := true; m_state := v |}.

(** [convert_step(ch, min_value, max_value, state)]: the pair of its result
    and of [state] as it leaves it. *)
Definition convert_step (signed : bool) (ch min_value max_value : Z)
  (state : conversion_state) : conv (bool * conversion_state) :=
  sit <- get;;
  let state :=
    if m_state state =? state_initial
    then with_state state (if m_base sit =? detect_base then 1 else 4)
    else state in
  let ch := if (0 <? ch) && (ch <=? 127) && isspace ch then chr " " else ch in
  '(valid, state) <-
    (if m_state state =? 1 then
       if ch =? chr " " then ret (true, state)
       else if ch =? chr "+" then ret (true, with_state state 2)
       else if ch =? chr "-" then
         if signed then ret (true, with_negative state 2)
         else set_result INVALID_CHAR;; ret (true, with_state state 2)
       else if ch =? chr "0" then ret (true, with_state state 3)
       else
         set_base 10;;
         valid <- add_char signed ch (with_state state 6);;
         ret (valid, with_state state 6)
     else if m_state state =? 2 then
       if ch =? chr "0" then ret (true, with_state state 3)
       else
         set_base 10;;
         valid <- add_char signed ch (with_state state 6);;
         ret (valid, with_state state 6)
     else if m_state state =? 3 then
       if (ch =? chr "X") || (ch =? chr "x") then
         set_base 16;; ret (true, with_state state 5)
       else if (ch =? chr "B") || (ch =? chr "b") then
         set_base 2;; ret (true, with_state state 5)
       else if ch =? end_of_string then
         set_result VALID;; ret (true, state)
       else
         set_base 8;;
         valid <- add_char signed ch (with_state state 6);;
         ret (valid, with_state state 6)
     else if m_state state =? 4 then
       if ch =? chr " " then ret (true, state)
       else if ch =? chr "+" then ret (true, with_state state 5)
       else if ch =? chr "-" then
         if signed then ret (true, with_negative state 5)
         else set_result INVALID_CHAR;; ret (false, with_state state 5)
       else
         valid <- add_char signed ch (with_state state 6);;
         ret (valid, with_state state 6)
     else if m_state state =? 5 then
       valid <- add_char signed ch (with_state state 6);;
       ret (valid, with_state state 6)
     else if m_state state =? 6 then
       if ch =? end_of_string then
         sit' <- get;;
         if m_data sit' <? min_value then set_result VALUE_OUT_OF_RANGE;; ret (false, state)
         else if m_data sit' >? max_value then
           set_result VALUE_OUT_OF_RANGE;; ret (false, state)
         else set_result VALID;; ret (true, state)
       else
         valid <- add_char signed ch state;;
         ret (valid, state)
     else throw assertion_failed);;
  (if negb (ch =? end_of_string) && valid then
     sit' <- get;; set_valid_length (m_valid_length sit' + 1)
   else ret tt);;
  ret (valid, state).

(** The loop of [convert(str, base, min_value, max_value)] and the final
    step on [end_of_string]. *)
Fixpoint convert_loop (signed : bool) (str : list Z) (min_value max_value : Z)
  (state : conversion_state) : conv unit :=
  match str with
  | [] => convert_step signed end_of_string min_value max_value state;; ret tt
  | ch :: rest =>
      '(valid, state') <- convert_step signed ch min_value max_value state;;
      if valid : bool then convert_loop signed rest min_value max_value state'
      else ret tt
  end.

Definition convert (signed : bool) (str : list Z) (base min_value max_value : Z)
  : outcome strtointegral_t :=
  match (set_base base;;
         convert_loop signed str min_value max_value
           {| m_negative := false; m_state := state_initial |}) cleared with
  | Done (_, sit) => Done sit
  | Thrown f => Thrown f
  end.

(** [data(data_on_fail)] *)
Definition data (sit : strtointegral_t) (data_on_fail : Z) : Z * bool :=
  match m_result sit with
  | VALID => (m_data sit, true)
  | _ => (data_on_fail, false)
  end.

(** [strtointegral<NUMTYPE,char>(str)] with the default [data_on_fail = 0],
    base detection and the bounds of the type. *)
Definition strtointegral (signed : bool) (str : list Z) : outcome (Z * bool) :=
  match convert signed str detect_base (lowest signed) (highest signed) with
  | Done sit => Done (data sit 0)
  | Thrown f => Thrown f
  end.

(** The value of a sequence of digits in a base, most significant first,
    continuing from [acc]. *)
Fixpoint digits_value (base : Z) (acc : Z) (ds : list Z) : Z :=
  match ds with
  | [] => acc
  | d :: rest => digits_value base (acc * base + d) rest
  end.

Definition is_digit (d : Z) : Prop := 0 <= d <= 9.

(** The characters of decimal digits. *)
Definition digit_chars (ds : list Z) : list Z := map (fun d => chr "0" + d) ds.

End StrToIntegral.

(** ** bit_manip.hpp *)

(** [get_bits_from_word(value, bit_num_LSb0, bits_count)] on a word whose
    shifts stay within its width. *)
Definition get_bits_from_word (value bit_num_LSb0 bits_count : Z) : Z :=
  Z.land (Z.shiftr value (bit_num_LSb0 - (bits_count - 1)))
         (Z.shiftl 1 bits_count - 1).

(** ** base64.hpp *)

(** The two streams of [base64_encode] and [base64_decode] are the lists of
    the bytes read and written. *)
Module Base64.

Definition base64_enc_chars : list Z :=
  JsonTokenizer.code_points
    "ABCDEFGHIJKLMNOPQRSTUVWXYZabcdefghijklmnopqrstuvwxyz0123456789+/".

Definition base64_BAD : Z := 0xFF.
Definition base64_min : Z := 43.
Definition base64_max : Z := 122.

Definition base64_dec_chars : list Z :=
  [62; base64_BAD; base64_BAD; base64_BAD; 63; 52; 53; 54;
   55; 56; 57; 58; 59; 60; 61; base64_BAD;
   base64_BAD; base64_BAD; base64_BAD; base64_BAD; base64_BAD; base64_BAD; 0; 1;
   2; 3; 4; 5; 6; 7; 8; 9;
   10; 11; 12; 13; 14; 15; 16; 17;
   18; 19; 20; 21; 22; 23; 24; 25;
   base64_BAD; base64_BAD; base64_BAD; base64_BAD; base64_BAD; base64_BAD; 26; 27;
   28; 29; 30; 31; 32; 33; 34; 35;
   36; 37; 38; 39; 40; 41; 42; 43;
   44; 45; 46; 47; 48; 49; 50; 51].

(** The character [=]. *)
Definition PAD : Z := 61.

(** [base64_enc_chars[val6bit]], the character written for a 6-bit value. *)
Definition enc_char (val6bit : Z) : byte :=
  byte.of_Z (nth (Z.to_nat val6bit) base64_enc_chars 0).

(** One turn of the loop of [base64_encode] on the [bytes_read] bytes of
    [block], one to three. *)
Definition encode_block (block : list byte) : list byte :=
  let at_ n := byte.unsigned (nth n block Byte.x00) in
  let bytes_read := List.length block in
  let word := Z.lor (Z.lor (Z.shiftl (at_ 0%nat) 16) (Z.shiftl (at_ 1%nat) 8))
                    (at_ 2%nat) in
  map (fun i =>
         let val6bit := get_bits_from_word word (23 - Z.of_nat i * 6) 6 in
         enc_char val6bit)
      (seq 0 (bytes_read + 1))
  ++ repeat (byte.of_Z PAD) (3 - bytes_read).

Fixpoint base64_encode (input : list byte) : list byte :=
  match input with
  | [] => []
  | b0 :: b1 :: b2 :: rest => encode_block [b0; b1; b2] ++ base64_encode rest
  | block => encode_block block
  end.

(** [conv[i]] of [base64_decode]. *)
Definition conv_char (ch : byte) : Z :=
  let c := byte.unsigned ch in
  if (c <? base64_min) || (c >? base64_max) then base64_BAD
  else nth (Z.to_nat (c - base64_min)) base64_dec_chars base64_BAD.

(** [base64_decode]: the result and the bytes written.  [count] is 4 until a
    block ends with [=], which makes it 3 or 2 and ends the loop. *)
Fixpoint base64_decode_loop (count : Z) (input : list byte) : bool * list byte :=
  match input with
  | [] => (true, [])
  | c0 :: c1 :: c2 :: c3 :: rest =>
      let count :=
        if byte.unsigned c3 =? PAD
        then (if byte.unsigned c2 =? PAD then 2 else 3)
        else count in
      let conv := map conv_char (firstn (Z.to_nat count) [c0; c1; c2; c3]) in
      if existsb (fun c => c =? base64_BAD) conv then (false, [])
      else
        let conv_at n := nth n conv 0 in
        if count =? 4 then
          let binary :=
            Z.lor (Z.lor (Z.lor (Z.shiftl (conv_at 0%nat) 18)
                                (Z.shiftl (conv_at 1%nat) 12))
                         (Z.shiftl (conv_at 2%nat) 6))
                  (conv_at 3%nat) in
          let written :=
            map (fun i => byte.of_Z (get_bits_from_word binary (23 - Z.of_nat i * 8) 8))
                (seq 0 3) in
          let '(ok, more) := base64_decode_loop count rest in
          (ok, written ++ more)
        else if count =? 3 then
          let binary :=
            Z.lor (Z.lor (Z.shiftl (conv_at 0%nat) 10) (Z.shiftl (conv_at 1%nat) 4))
                  (Z.shiftr (conv_at 2%nat) 2) in
          let written :=
            map (fun i => byte.of_Z (get_bits_from_word binary (15 - Z.of_nat i * 8) 8))
                (seq 0 2) in
          (match rest with [] => true | _ => false end, written)
        else
          let binary := Z.lor (Z.shiftl (conv_at 0%nat) 2) (Z.shiftr (conv_at 1%nat) 4) in
          (match rest with [] => true | _ => false end, [byte.of_Z binary])
  | _ => (false, [])
  end.

Definition base64_decode (input : list byte) : bool * list byte :=
  base64_decode_loop 4 input.

End Base64.

(** ** Bytes of a UTF-8 sequence

    The bytes [write_utf8_asciiz] builds, named for the statements about
    them. *)

(** A continuation byte carrying the six bits [v]. *)
Definition next_byte (v : Z) : byte := byte.of_Z (Z.lor 0x80 v).

(** The first byte of a sequence, carrying the bits [v] under [marker]. *)
Definition lead_byte (marker v : Z) : byte := byte.of_Z (Z.lor marker v).

(** What the tests of [read_utf8_asciiz] make of a first byte that announces
    [following] more bytes and carries [len] bits. *)
Definition lead_ok (marker len following : Z) (v : Z) : bool :=
  let c := byte.unsigned (lead_byte marker v) in
  negb (c =? 0) && negb (Z.land c 0x80 =? 0)
  && Bool.eqb (Z.land c 0xE0 =? 0xC0) (following =? 1)
  && Bool.eqb (Z.land c 0xF0 =? 0xE0) (following =? 2)
  && Bool.eqb (Z.land c 0xF8 =? 0xF0) (following =? 3)
  && (DASTD_BINGET c 0 len =? v).


(** ** Sequences of calls of the tokenizer *)

(** A call of the tokenizer fed one character at a time: [process_char(ch)]
    or [process_eof()]. *)
Inductive tokenizer_call : Type :=
| Call_char (ch : Z)
| Call_eof.

Section TokenizerCalls.
Import JsonTokenizer.

Variable parse : list Z -> Multinum.multinum.

Definition run_call (c : tokenizer_call) : tok json_tokenizer_ret :=
  match c with
  | Call_char ch => process_char parse ch
  | Call_eof => process_eof parse
  end.

(** The calls one after the other, and what each of them returned. *)
Fixpoint run_calls (cs : list tokenizer_call) : tok (list json_tokenizer_ret) :=
  match cs with
  | [] => ret []
  | c :: rest =>
      r <- run_call c;;
      rs <- run_calls rest;;
      ret (r :: rs)
  end.

End TokenizerCalls.

(** ** fmt.hpp *)

(** [fmt<NUMTYPE>] for an unsigned [NUMTYPE]. *)
Module Fmt.

Definition conv_set_uc : string := "0123456789ABCDEFGHIJKLMNOPQRSTUVXYZ".
Definition conv_set_lc : string := "0123456789abcdefghijklmnopqrstuvxyz".

(** [m_conv_set[i]]; the character after the last one is the terminating
    zero. *)
Definition conv_char (conv_set : string) (i : Z) : ascii :=
  match String.get (Z.to_nat i) conv_set with
  | Some c => c
  | None => "000"%char
  end.

(** The loop [while (num > 0)]: the digits, the least significant first.  A
    number of 64 bits has at most 64 digits. *)
Fixpoint digits_loop (fuel : nat) (conv_set : string) (num base : Z) : list ascii :=
  match fuel with
  | O => []
  | S fuel' =>
      if num >? 0
      then conv_char conv_set (num mod base) :: digits_loop fuel' conv_set (num / base) base
      else []
  end.

Definition buf_size : Z := 66.

(** [o << fmt(value, base, zero_pad, lower_case)]: the constructor's two
    assertions, then [print]. *)
Definition fmt (value base m_zero_pad : Z) (lower_case : bool) : outcome string :=
  if negb ((2 <=? base) && (base <? 36)) then Thrown assertion_failed
  else if negb (Z.abs m_zero_pad <? buf_size) then Thrown assertion_failed
  else
    let m_conv_set := if lower_case then conv_set_lc else conv_set_uc in
    let pad := if m_zero_pad <? 0 then " "%char else "0"%char in
    let zero_pad := Z.abs m_zero_pad in
    let num := value in
    if num =? 0 then
      if zero_pad >? 0
      then Done (string_of_list_ascii (repeat pad (Z.to_nat (zero_pad - 1)) ++ ["0"%char]))
      else Done "0"%string
    else
      let digits := digits_loop 64 m_conv_set num base in
      let padded :=
        digits ++ repeat pad (Z.to_nat (zero_pad - Z.of_nat (List.length digits))) in
      (* reverse_string(buf_start) *)
      Done (string_of_list_ascii (rev padded)).

End Fmt.

(** ** json_encoder.hpp *)

Module JsonEncoder.

(** The texts of one character. *)
Definition text_of (ch : ascii) : string := String ch EmptyString.

(** A backslash followed by [ch]. *)
Definition escape (ch : ascii) : string := String "092"%char (text_of ch).

(** [json_encode_char(s, code_point)]: what is written on [s]. *)
Definition json_encode_char (code_point : Z) : outcome string :=
  if code_point =? 0x22 then Done (escape "034"%char)
  else if code_point =? 0x5C then Done (escape "092"%char)
  else if code_point =? 0x08 then Done (escape "b"%char)
  else if code_point =? 0x0C then Done (escape "f"%char)
  else if code_point =? 0x0A then Done (escape "n"%char)
  else if code_point =? 0x0D then Done (escape "r"%char)
  else if code_point =? 0x09 then Done (escape "t"%char)
  else if (32 <=? code_point) && (code_point <=? 126)
  then Done (text_of (ascii_of_nat (Z.to_nat code_point)))
  else if (code_point <=? 0xD7FF) || ((0xE000 <=? code_point) && (code_point <=? 0xFFFF))
  then
    match Fmt.fmt code_point 16 4 false with
    | Done digits => Done (escape "u"%char ++ digits)%string
    | Thrown f => Thrown f
    end
  else if (0x010000 <=? code_point) && (code_point <=? 0x10FFFF) then
    let code_point := code_point - 0x10000 in
    match Fmt.fmt (0xD800 + Z.land (Z.shiftr code_point 10) 0x3FF) 16 4 false,
          Fmt.fmt (0xDC00 + Z.land code_point 0x3FF) 16 4 false with
    | Done high, Done low =>
        Done (escape "u"%char ++ high ++ escape "u"%char ++ low)%string
    | Thrown f, _ => Thrown f
    | _, Thrown f => Thrown f
    end
  else Thrown assertion_failed.

(** [json_encode_string(s, string)] *)
Fixpoint json_encode_string (str : list Z) : outcome string :=
  match str with
  | [] => Done EmptyString
  | ch32 :: rest =>
      match json_encode_char ch32, json_encode_string rest with
      | Done text, Done more => Done (text ++ more)%string
      | Thrown f, _ => Thrown f
      | _, Thrown f => Thrown f
      end
  end.

End JsonEncoder.

(** ** marshal_enc_json.hpp: strings and binary data *)

Module EncJsonText.
Import EncJson.

(** The double quote written before and after a string. *)
Definition out_quote : enc unit := out_write (JsonEncoder.text_of "034"%char).

Definition encode_u32string (value : list Z) : enc unit :=
  e <- get;;
  assert (negb (m_is_typed e));;
  out_quote;;
  match JsonEncoder.json_encode_string value with
  | Done text => out_write text
  | Thrown f => throw f
  end;;
  out_quote.

(** [internal_encode_binary] and [internal_encode_varsize_binary] have the
    same body. *)
Definition internal_encode_binary (data : list byte) : enc unit :=
  e <- get;;
  assert (negb (m_is_typed e));;
  out_quote;;
  out_write (string_of_bytes (Base64.base64_encode data));;
  out_quote.

Definition internal_encode_varsize_binary (data : list byte) : enc unit :=
  internal_encode_binary data.

End EncJsonText.

(** ** marshal_dec_json.hpp: binary data *)

Module DecJsonText.
Import JsonTokenizer DecJson.

Section Decoder.

Variable parse : list Z -> Multinum.multinum.

(** The bytes of [m_tokenizer.get_string().get_utf8()]. *)
Definition get_string_utf8 : dec (list byte) :=
  str <- get_string;; ret (utf8_bytes str).

Definition internal_decode_varsize_binary : dec (list byte) :=
  assert_not_typed;;
  fetch_token parse;;
  r <- get_last_process_ret;;
  if negb (ret_eqb r C_STRING) then throw exception_marshal
  else
    bytes <- get_string_utf8;;
    let '(ok, out) := Base64.base64_decode bytes in
    if negb ok then throw exception_marshal
    else ret out.

Definition internal_decode_binary (length : nat) : dec (list byte) :=
  assert_not_typed;;
  fetch_token parse;;
  r <- get_last_process_ret;;
  if negb (ret_eqb r C_STRING) then throw exception_marshal
  else
    bytes <- get_string_utf8;;
    let '(ok, out) := Base64.base64_decode bytes in
    if negb ok then throw exception_marshal
    else if negb (List.length out =? length)%nat then throw exception_marshal
    else ret out.

End Decoder.

End DecJsonText.

(** ** The tokenizer inside a string literal *)

Module StringStates.
Import JsonTokenizer.

(** The tokenizer a method leaves behind. *)
Definition after {A} (c : tok A) (b : json_tokenizer_base) : json_tokenizer_base :=
  match c b with
  | Done (_, b') => b'
  | Thrown _ => b
  end.

(** What [internal_process_char(next)] does around [process_char_internal]
    when that returned [r] on the character [curr]. *)
Definition advanced (r : json_tokenizer_ret) (curr next : Z) (b : json_tokenizer_base)
  : json_tokenizer_base :=
  after (set_last_process_ret r;; raw_token_push_back curr;; set_prev_char next) b.

(** The same for [internal_process_eof()]. *)
Definition finished (r : json_tokenizer_ret) (curr : Z) (b : json_tokenizer_base)
  : json_tokenizer_base :=
  after (set_last_process_ret r;; raw_token_push_back curr;; set_state REACHED_EOF) b.

(** The sourced tokenizer inside a string literal, in the sub-state [sub]:
    the characters [acc] are read, the source holds [src], of which the first
    character is the one buffered in [m_prev_char]; when [numbers] is false
    the string is not a candidate for a number. *)
Definition inside (sub : sub_state_t) (acc src : list Z) (numbers : bool)
  (t : json_tokenizer_sourced) : Prop :=
  m_state (base t) = IN_STRING /\ m_sub_state (base t) = sub
  /\ m_string (base t) = acc /\ m_source t = src /\ m_prev_char (base t) = hd 0 src
  /\ (numbers = false -> m_string_can_converted_to_number (base t) = false).

(** The same while the digits of a [u] escape are read: [escaped] is the
    value of the digits read, [remaining] the number of digits to come. *)
Definition inside_escape (escaped remaining : Z) (acc src : list Z) (numbers : bool)
  (t : json_tokenizer_sourced) : Prop :=
  inside IN_STRING_READING_HEX_CHARS acc src numbers t
  /\ m_escaped_char (base t) = escaped
  /\ m_escaped_char_remaining (base t) = remaining.

(** Whether the flags given to the constructor ask for numbers inside
    strings. *)
Definition numbers_in_strings (flags : Z) : bool :=
  Z.land flags NUMBERS_IN_STRINGS =? NUMBERS_IN_STRINGS.

(** A character that stands for itself in a string literal, below the
    surrogates. *)
Definition plain_char (c : Z) : Prop :=
  0 <= c < 0xD800 /\ c <> QUOTE /\ c <> BACKSLASH.

(** A 16-bit unit that is a low surrogate. *)
Definition low_surrogate (ch32 : Z) : bool :=
  (ch32 <? 0x10000)
  && match detect_utf16_char (ch32 mod 2 ^ 16) with utf16_SECOND => true | _ => false end.

(** A Unicode scalar value: a code point that is not a surrogate. *)
Definition scalar (c : Z) : Prop := 0 <= c <= 0x10FFFF /\ ~ (0xD800 <= c <= 0xDFFF).

(** The value of the hexadecimal digit [ch], if it is one. *)
Definition hex_digit (ch : Z) : option Z :=
  if in_range (chr "0") (chr "9") ch then Some (ch - chr "0")
  else if in_range (chr "A") (chr "F") ch then Some (ch - chr "A" + 10)
  else if in_range (chr "a") (chr "f") ch then Some (ch - chr "a" + 10)
  else None.

(** The character that stands for [ch] after a backslash. *)
Definition unescaped (ch : Z) : Z :=
  if ch =? chr "b" then 8
  else if ch =? chr "f" then 12
  else if ch =? chr "n" then 10
  else if ch =? chr "r" then 13
  else if ch =? chr "t" then 9
  else ch.

(** The forms in which [json_encode_char] writes a code point [c]: the
    character itself, a backslash and a letter, a [u] escape of four
    hexadecimal digits, or two of them for a surrogate pair. *)
Inductive encoding_shape (c : Z) : list Z -> Prop :=
| shape_plain :
    c <> CH32_EOF -> c <> QUOTE -> c <> BACKSLASH -> low_surrogate c = false ->
    encoding_shape c [c]
| shape_escaped (e : Z) :
    e <> CH32_EOF -> e <> chr "u" -> unescaped e = c -> low_surrogate c = false ->
    encoding_shape c [BACKSLASH; e]
| shape_u (h3 h2 h1 h0 d3 d2 d1 d0 : Z) :
    hex_digit h3 = Some d3 -> hex_digit h2 = Some d2 ->
    hex_digit h1 = Some d1 -> hex_digit h0 = Some d0 ->
    c = ((d3 * 16 + d2) * 16 + d1) * 16 + d0 -> low_surrogate c = false ->
    encoding_shape c [BACKSLASH; chr "u"; h3; h2; h1; h0]
| shape_pair (h3 h2 h1 h0 d3 d2 d1 d0 l3 l2 l1 l0 e3 e2 e1 e0 high low : Z) :
    hex_digit h3 = Some d3 -> hex_digit h2 = Some d2 ->
    hex_digit h1 = Some d1 -> hex_digit h0 = Some d0 ->
    hex_digit l3 = Some e3 -> hex_digit l2 = Some e2 ->
    hex_digit l1 = Some e1 -> hex_digit l0 = Some e0 ->
    0xD800 + high = ((d3 * 16 + d2) * 16 + d1) * 16 + d0 -> 0 <= high < 1024 ->
    0xDC00 + low = ((e3 * 16 + e2) * 16 + e1) * 16 + e0 -> 0 <= low < 1024 ->
    c = 0x10000 + high * 1024 + low ->
    encoding_shape c [BACKSLASH; chr "u"; h3; h2; h1; h0;
                      BACKSLASH; chr "u"; l3; l2; l1; l0].

(** A text made of the encodings of the characters of a string. *)
Inductive encoded_as : list Z -> list Z -> Prop :=
| encoded_nil : encoded_as [] []
| encoded_cons (c : Z) (cs : list Z) (str text : list Z) :
    encoding_shape c cs -> encoded_as str text -> encoded_as (c :: str) (cs ++ text).

End StringStates.
(** ** time.hpp *)

Module Time.

Definition dastd_time_MICROSEC : Z := 256.
Definition dastd_time_SEC : Z := dastd_time_MICROSEC * 1000000.
Definition dastd_time_MIN : Z := dastd_time_SEC * 60.
Definition dastd_time_HOUR : Z := dastd_time_MIN * 60.
Definition dastd_time_DAY : Z := dastd_time_HOUR * 24.

Definition dastd_time_TZ_MIN : Z := -95.
Definition dastd_time_TZ_MAX : Z := 95.

Definition dastd_time_MIN_PCTIME : Z := 0x0000016E * dastd_time_DAY.
Definition dastd_time_MAX_PCTIME : Z :=
  (0x0005914E + 365) * dastd_time_DAY - dastd_time_MICROSEC + dastd_time_TZ_MAX.

Definition dastd_time_YEAR_ZERO : Z := 1600.
Definition dastd_time_YEAR_LAST : Z := 2599.
Definition dastd_time_NO_YEARS : Z := dastd_time_YEAR_LAST + 1 - dastd_time_YEAR_ZERO.

Definition dastd_time_EPOCH_DAY : Z := 0x00020FE4.
Definition dastd_time_DAY_OF_WEEK_0 : Z := 6.

(** [(int32_t)((int8_t)(datetime & 0xFF))] *)
Definition dastd_time_TZ (datetime : Z) : Z := cast_signed 8 (Z.land datetime 0xFF).

Definition dastd_time_INVALID : Z := 0.

(** [(int64_t)(dastd_time_MIN * 15 * tz)]: the product is taken on
    [uint64_t], to which the [int32_t] [tz] is converted. *)
Definition dastd_time_TZ_usec (tz : Z) : Z :=
  cast_signed 64 (cast_u64 (dastd_time_MIN * 15 * cast_u64 tz)).

(** The first day number of each year from 1600 on; the most significant bit
    is set when the year is leap. *)
Definition dastd_time_days : list Z := [
  (* YEAR 1600 *) 0x80000000; 0x0000016E; 0x000002DB; 0x00000448; 0x800005B5; 0x00000723; 0x00000890; 0x000009FD; 0x80000B6A; 0x00000CD8;
  (* YEAR 1610 *) 0x00000E45; 0x00000FB2; 0x8000111F; 0x0000128D; 0x000013FA; 0x00001567; 0x800016D4; 0x00001842; 0x000019AF; 0x00001B1C;
  (* YEAR 1620 *) 0x80001C89; 0x00001DF7; 0x00001F64; 0x000020D1; 0x8000223E; 0x000023AC; 0x00002519; 0x00002686; 0x800027F3; 0x00002961;
  (* YEAR 1630 *) 0x00002ACE; 0x00002C3B; 0x80002DA8; 0x00002F16; 0x00003083; 0x000031F0; 0x8000335D; 0x000034CB; 0x00003638; 0x000037A5;
  (* YEAR 1640 *) 0x80003912; 0x00003A80; 0x00003BED; 0x00003D5A; 0x80003EC7; 0x00004035; 0x000041A2; 0x0000430F; 0x8000447C; 0x000045EA;
  (* YEAR 1650 *) 0x00004757; 0x000048C4; 0x80004A31; 0x00004B9F; 0x00004D0C; 0x00004E79; 0x80004FE6; 0x00005154; 0x000052C1; 0x0000542E;
  (* YEAR 1660 *) 0x8000559B; 0x00005709; 0x00005876; 0x000059E3; 0x80005B50; 0x00005CBE; 0x00005E2B; 0x00005F98; 0x80006105; 0x00006273;
  (* YEAR 1670 *) 0x000063E0; 0x0000654D; 0x800066BA; 0x00006828; 0x00006995; 0x00006B02; 0x80006C6F; 0x00006DDD; 0x00006F4A; 0x000070B7;
  (* YEAR 1680 *) 0x80007224; 0x00007392; 0x000074FF; 0x0000766C; 0x800077D9; 0x00007947; 0x00007AB4; 0x00007C21; 0x80007D8E; 0x00007EFC;
  (* YEAR 1690 *) 0x00008069; 0x000081D6; 0x80008343; 0x000084B1; 0x0000861E; 0x0000878B; 0x800088F8; 0x00008A66; 0x00008BD3; 0x00008D40;
  (* YEAR 1700 *) 0x00008EAD; 0x0000901A; 0x00009187; 0x000092F4; 0x80009461; 0x000095CF; 0x0000973C; 0x000098A9; 0x80009A16; 0x00009B84;
  (* YEAR 1710 *) 0x00009CF1; 0x00009E5E; 0x80009FCB; 0x0000A139; 0x0000A2A6; 0x0000A413; 0x8000A580; 0x0000A6EE; 0x0000A85B; 0x0000A9C8;
  (* YEAR 1720 *) 0x8000AB35; 0x0000ACA3; 0x0000AE10; 0x0000AF7D; 0x8000B0EA; 0x0000B258; 0x0000B3C5; 0x0000B532; 0x8000B69F; 0x0000B80D;
  (* YEAR 1730 *) 0x0000B97A; 0x0000BAE7; 0x8000BC54; 0x0000BDC2; 0x0000BF2F; 0x0000C09C; 0x8000C209; 0x0000C377; 0x0000C4E4; 0x0000C651;
  (* YEAR 1740 *) 0x8000C7BE; 0x0000C92C; 0x0000CA99; 0x0000CC06; 0x8000CD73; 0x0000CEE1; 0x0000D04E; 0x0000D1BB; 0x8000D328; 0x0000D496;
  (* YEAR 1750 *) 0x0000D603; 0x0000D770; 0x8000D8DD; 0x0000DA4B; 0x0000DBB8; 0x0000DD25; 0x8000DE92; 0x0000E000; 0x0000E16D; 0x0000E2DA;
  (* YEAR 1760 *) 0x8000E447; 0x0000E5B5; 0x0000E722; 0x0000E88F; 0x8000E9FC; 0x0000EB6A; 0x0000ECD7; 0x0000EE44; 0x8000EFB1; 0x0000F11F;
  (* YEAR 1770 *) 0x0000F28C; 0x0000F3F9; 0x8000F566; 0x0000F6D4; 0x0000F841; 0x0000F9AE; 0x8000FB1B; 0x0000FC89; 0x0000FDF6; 0x0000FF63;
  (* YEAR 1780 *) 0x800100D0; 0x0001023E; 0x000103AB; 0x00010518; 0x80010685; 0x000107F3; 0x00010960; 0x00010ACD; 0x80010C3A; 0x00010DA8;
  (* YEAR 1790 *) 0x00010F15; 0x00011082; 0x800111EF; 0x0001135D; 0x000114CA; 0x00011637; 0x800117A4; 0x00011912; 0x00011A7F; 0x00011BEC;
  (* YEAR 1800 *) 0x00011D59; 0x00011EC6; 0x00012033; 0x000121A0; 0x8001230D; 0x0001247B; 0x000125E8; 0x00012755; 0x800128C2; 0x00012A30;
  (* YEAR 1810 *) 0x00012B9D; 0x00012D0A; 0x80012E77; 0x00012FE5; 0x00013152; 0x000132BF; 0x8001342C; 0x0001359A; 0x00013707; 0x00013874;
  (* YEAR 1820 *) 0x800139E1; 0x00013B4F; 0x00013CBC; 0x00013E29; 0x80013F96; 0x00014104; 0x00014271; 0x000143DE; 0x8001454B; 0x000146B9;
  (* YEAR 1830 *) 0x00014826; 0x00014993; 0x80014B00; 0x00014C6E; 0x00014DDB; 0x00014F48; 0x800150B5; 0x00015223; 0x00015390; 0x000154FD;
  (* YEAR 1840 *) 0x8001566A; 0x000157D8; 0x00015945; 0x00015AB2; 0x80015C1F; 0x00015D8D; 0x00015EFA; 0x00016067; 0x800161D4; 0x00016342;
  (* YEAR 1850 *) 0x000164AF; 0x0001661C; 0x80016789; 0x000168F7; 0x00016A64; 0x00016BD1; 0x80016D3E; 0x00016EAC; 0x00017019; 0x00017186;
  (* YEAR 1860 *) 0x800172F3; 0x00017461; 0x000175CE; 0x0001773B; 0x800178A8; 0x00017A16; 0x00017B83; 0x00017CF0; 0x80017E5D; 0x00017FCB;
  (* YEAR 1870 *) 0x00018138; 0x000182A5; 0x80018412; 0x00018580; 0x000186ED; 0x0001885A; 0x800189C7; 0x00018B35; 0x00018CA2; 0x00018E0F;
  (* YEAR 1880 *) 0x80018F7C; 0x000190EA; 0x00019257; 0x000193C4; 0x80019531; 0x0001969F; 0x0001980C; 0x00019979; 0x80019AE6; 0x00019C54;
  (* YEAR 1890 *) 0x00019DC1; 0x00019F2E; 0x8001A09B; 0x0001A209; 0x0001A376; 0x0001A4E3; 0x8001A650; 0x0001A7BE; 0x0001A92B; 0x0001AA98;
  (* YEAR 1900 *) 0x0001AC05; 0x0001AD72; 0x0001AEDF; 0x0001B04C; 0x8001B1B9; 0x0001B327; 0x0001B494; 0x0001B601; 0x8001B76E; 0x0001B8DC;
  (* YEAR 1910 *) 0x0001BA49; 0x0001BBB6; 0x8001BD23; 0x0001BE91; 0x0001BFFE; 0x0001C16B; 0x8001C2D8; 0x0001C446; 0x0001C5B3; 0x0001C720;
  (* YEAR 1920 *) 0x8001C88D; 0x0001C9FB; 0x0001CB68; 0x0001CCD5; 0x8001CE42; 0x0001CFB0; 0x0001D11D; 0x0001D28A; 0x8001D3F7; 0x0001D565;
  (* YEAR 1930 *) 0x0001D6D2; 0x0001D83F; 0x8001D9AC; 0x0001DB1A; 0x0001DC87; 0x0001DDF4; 0x8001DF61; 0x0001E0CF; 0x0001E23C; 0x0001E3A9;
  (* YEAR 1940 *) 0x8001E516; 0x0001E684; 0x0001E7F1; 0x0001E95E; 0x8001EACB; 0x0001EC39; 0x0001EDA6; 0x0001EF13; 0x8001F080; 0x0001F1EE;
  (* YEAR 1950 *) 0x0001F35B; 0x0001F4C8; 0x8001F635; 0x0001F7A3; 0x0001F910; 0x0001FA7D; 0x8001FBEA; 0x0001FD58; 0x0001FEC5; 0x00020032;
  (* YEAR 1960 *) 0x8002019F; 0x0002030D; 0x0002047A; 0x000205E7; 0x80020754; 0x000208C2; 0x00020A2F; 0x00020B9C; 0x80020D09; 0x00020E77;
  (* YEAR 1970 *) 0x00020FE4; 0x00021151; 0x800212BE; 0x0002142C; 0x00021599; 0x00021706; 0x80021873; 0x000219E1; 0x00021B4E; 0x00021CBB;
  (* YEAR 1980 *) 0x80021E28; 0x00021F96; 0x00022103; 0x00022270; 0x800223DD; 0x0002254B; 0x000226B8; 0x00022825; 0x80022992; 0x00022B00;
  (* YEAR 1990 *) 0x00022C6D; 0x00022DDA; 0x80022F47; 0x000230B5; 0x00023222; 0x0002338F; 0x800234FC; 0x0002366A; 0x000237D7; 0x00023944;
  (* YEAR 2000 *) 0x80023AB1; 0x00023C1F; 0x00023D8C; 0x00023EF9; 0x80024066; 0x000241D4; 0x00024341; 0x000244AE; 0x8002461B; 0x00024789;
  (* YEAR 2010 *) 0x000248F6; 0x00024A63; 0x80024BD0; 0x00024D3E; 0x00024EAB; 0x00025018; 0x80025185; 0x000252F3; 0x00025460; 0x000255CD;
  (* YEAR 2020 *) 0x8002573A; 0x000258A8; 0x00025A15; 0x00025B82; 0x80025CEF; 0x00025E5D; 0x00025FCA; 0x00026137; 0x800262A4; 0x00026412;
  (* YEAR 2030 *) 0x0002657F; 0x000266EC; 0x80026859; 0x000269C7; 0x00026B34; 0x00026CA1; 0x80026E0E; 0x00026F7C; 0x000270E9; 0x00027256;
  (* YEAR 2040 *) 0x800273C3; 0x00027531; 0x0002769E; 0x0002780B; 0x80027978; 0x00027AE6; 0x00027C53; 0x00027DC0; 0x80027F2D; 0x0002809B;
  (* YEAR 2050 *) 0x00028208; 0x00028375; 0x800284E2; 0x00028650; 0x000287BD; 0x0002892A; 0x80028A97; 0x00028C05; 0x00028D72; 0x00028EDF;
  (* YEAR 2060 *) 0x8002904C; 0x000291BA; 0x00029327; 0x00029494; 0x80029601; 0x0002976F; 0x000298DC; 0x00029A49; 0x80029BB6; 0x00029D24;
  (* YEAR 2070 *) 0x00029E91; 0x00029FFE; 0x8002A16B; 0x0002A2D9; 0x0002A446; 0x0002A5B3; 0x8002A720; 0x0002A88E; 0x0002A9FB; 0x0002AB68;
  (* YEAR 2080 *) 0x8002ACD5; 0x0002AE43; 0x0002AFB0; 0x0002B11D; 0x8002B28A; 0x0002B3F8; 0x0002B565; 0x0002B6D2; 0x8002B83F; 0x0002B9AD;
  (* YEAR 2090 *) 0x0002BB1A; 0x0002BC87; 0x8002BDF4; 0x0002BF62; 0x0002C0CF; 0x0002C23C; 0x8002C3A9; 0x0002C517; 0x0002C684; 0x0002C7F1;
  (* YEAR 2100 *) 0x0002C95E; 0x0002CACB; 0x0002CC38; 0x0002CDA5; 0x8002CF12; 0x0002D080; 0x0002D1ED; 0x0002D35A; 0x8002D4C7; 0x0002D635;
  (* YEAR 2110 *) 0x0002D7A2; 0x0002D90F; 0x8002DA7C; 0x0002DBEA; 0x0002DD57; 0x0002DEC4; 0x8002E031; 0x0002E19F; 0x0002E30C; 0x0002E479;
  (* YEAR 2120 *) 0x8002E5E6; 0x0002E754; 0x0002E8C1; 0x0002EA2E; 0x8002EB9B; 0x0002ED09; 0x0002EE76; 0x0002EFE3; 0x8002F150; 0x0002F2BE;
  (* YEAR 2130 *) 0x0002F42B; 0x0002F598; 0x8002F705; 0x0002F873; 0x0002F9E0; 0x0002FB4D; 0x8002FCBA; 0x0002FE28; 0x0002FF95; 0x00030102;
  (* YEAR 2140 *) 0x8003026F; 0x000303DD; 0x0003054A; 0x000306B7; 0x80030824; 0x00030992; 0x00030AFF; 0x00030C6C; 0x80030DD9; 0x00030F47;
  (* YEAR 2150 *) 0x000310B4; 0x00031221; 0x8003138E; 0x000314FC; 0x00031669; 0x000317D6; 0x80031943; 0x00031AB1; 0x00031C1E; 0x00031D8B;
  (* YEAR 2160 *) 0x80031EF8; 0x00032066; 0x000321D3; 0x00032340; 0x800324AD; 0x0003261B; 0x00032788; 0x000328F5; 0x80032A62; 0x00032BD0;
  (* YEAR 2170 *) 0x00032D3D; 0x00032EAA; 0x80033017; 0x00033185; 0x000332F2; 0x0003345F; 0x800335CC; 0x0003373A; 0x000338A7; 0x00033A14;
  (* YEAR 2180 *) 0x80033B81; 0x00033CEF; 0x00033E5C; 0x00033FC9; 0x80034136; 0x000342A4; 0x00034411; 0x0003457E; 0x800346EB; 0x00034859;
  (* YEAR 2190 *) 0x000349C6; 0x00034B33; 0x80034CA0; 0x00034E0E; 0x00034F7B; 0x000350E8; 0x80035255; 0x000353C3; 0x00035530; 0x0003569D;
  (* YEAR 2200 *) 0x0003580A; 0x00035977; 0x00035AE4; 0x00035C51; 0x80035DBE; 0x00035F2C; 0x00036099; 0x00036206; 0x80036373; 0x000364E1;
  (* YEAR 2210 *) 0x0003664E; 0x000367BB; 0x80036928; 0x00036A96; 0x00036C03; 0x00036D70; 0x80036EDD; 0x0003704B; 0x000371B8; 0x00037325;
  (* YEAR 2220 *) 0x80037492; 0x00037600; 0x0003776D; 0x000378DA; 0x80037A47; 0x00037BB5; 0x00037D22; 0x00037E8F; 0x80037FFC; 0x0003816A;
  (* YEAR 2230 *) 0x000382D7; 0x00038444; 0x800385B1; 0x0003871F; 0x0003888C; 0x000389F9; 0x80038B66; 0x00038CD4; 0x00038E41; 0x00038FAE;
  (* YEAR 2240 *) 0x8003911B; 0x00039289; 0x000393F6; 0x00039563; 0x800396D0; 0x0003983E; 0x000399AB; 0x00039B18; 0x80039C85; 0x00039DF3;
  (* YEAR 2250 *) 0x00039F60; 0x0003A0CD; 0x8003A23A; 0x0003A3A8; 0x0003A515; 0x0003A682; 0x8003A7EF; 0x0003A95D; 0x0003AACA; 0x0003AC37;
  (* YEAR 2260 *) 0x8003ADA4; 0x0003AF12; 0x0003B07F; 0x0003B1EC; 0x8003B359; 0x0003B4C7; 0x0003B634; 0x0003B7A1; 0x8003B90E; 0x0003BA7C;
  (* YEAR 2270 *) 0x0003BBE9; 0x0003BD56; 0x8003BEC3; 0x0003C031; 0x0003C19E; 0x0003C30B; 0x8003C478; 0x0003C5E6; 0x0003C753; 0x0003C8C0;
  (* YEAR 2280 *) 0x8003CA2D; 0x0003CB9B; 0x0003CD08; 0x0003CE75; 0x8003CFE2; 0x0003D150; 0x0003D2BD; 0x0003D42A; 0x8003D597; 0x0003D705;
  (* YEAR 2290 *) 0x0003D872; 0x0003D9DF; 0x8003DB4C; 0x0003DCBA; 0x0003DE27; 0x0003DF94; 0x8003E101; 0x0003E26F; 0x0003E3DC; 0x0003E549;
  (* YEAR 2300 *) 0x0003E6B6; 0x0003E823; 0x0003E990; 0x0003EAFD; 0x8003EC6A; 0x0003EDD8; 0x0003EF45; 0x0003F0B2; 0x8003F21F; 0x0003F38D;
  (* YEAR 2310 *) 0x0003F4FA; 0x0003F667; 0x8003F7D4; 0x0003F942; 0x0003FAAF; 0x0003FC1C; 0x8003FD89; 0x0003FEF7; 0x00040064; 0x000401D1;
  (* YEAR 2320 *) 0x8004033E; 0x000404AC; 0x00040619; 0x00040786; 0x800408F3; 0x00040A61; 0x00040BCE; 0x00040D3B; 0x80040EA8; 0x00041016;
  (* YEAR 2330 *) 0x00041183; 0x000412F0; 0x8004145D; 0x000415CB; 0x00041738; 0x000418A5; 0x80041A12; 0x00041B80; 0x00041CED; 0x00041E5A;
  (* YEAR 2340 *) 0x80041FC7; 0x00042135; 0x000422A2; 0x0004240F; 0x8004257C; 0x000426EA; 0x00042857; 0x000429C4; 0x80042B31; 0x00042C9F;
  (* YEAR 2350 *) 0x00042E0C; 0x00042F79; 0x800430E6; 0x00043254; 0x000433C1; 0x0004352E; 0x8004369B; 0x00043809; 0x00043976; 0x00043AE3;
  (* YEAR 2360 *) 0x80043C50; 0x00043DBE; 0x00043F2B; 0x00044098; 0x80044205; 0x00044373; 0x000444E0; 0x0004464D; 0x800447BA; 0x00044928;
  (* YEAR 2370 *) 0x00044A95; 0x00044C02; 0x80044D6F; 0x00044EDD; 0x0004504A; 0x000451B7; 0x80045324; 0x00045492; 0x000455FF; 0x0004576C;
  (* YEAR 2380 *) 0x800458D9; 0x00045A47; 0x00045BB4; 0x00045D21; 0x80045E8E; 0x00045FFC; 0x00046169; 0x000462D6; 0x80046443; 0x000465B1;
  (* YEAR 2390 *) 0x0004671E; 0x0004688B; 0x800469F8; 0x00046B66; 0x00046CD3; 0x00046E40; 0x80046FAD; 0x0004711B; 0x00047288; 0x000473F5;
  (* YEAR 2400 *) 0x80047562; 0x000476D0; 0x0004783D; 0x000479AA; 0x80047B17; 0x00047C85; 0x00047DF2; 0x00047F5F; 0x800480CC; 0x0004823A;
  (* YEAR 2410 *) 0x000483A7; 0x00048514; 0x80048681; 0x000487EF; 0x0004895C; 0x00048AC9; 0x80048C36; 0x00048DA4; 0x00048F11; 0x0004907E;
  (* YEAR 2420 *) 0x800491EB; 0x00049359; 0x000494C6; 0x00049633; 0x800497A0; 0x0004990E; 0x00049A7B; 0x00049BE8; 0x80049D55; 0x00049EC3;
  (* YEAR 2430 *) 0x0004A030; 0x0004A19D; 0x8004A30A; 0x0004A478; 0x0004A5E5; 0x0004A752; 0x8004A8BF; 0x0004AA2D; 0x0004AB9A; 0x0004AD07;
  (* YEAR 2440 *) 0x8004AE74; 0x0004AFE2; 0x0004B14F; 0x0004B2BC; 0x8004B429; 0x0004B597; 0x0004B704; 0x0004B871; 0x8004B9DE; 0x0004BB4C;
  (* YEAR 2450 *) 0x0004BCB9; 0x0004BE26; 0x8004BF93; 0x0004C101; 0x0004C26E; 0x0004C3DB; 0x8004C548; 0x0004C6B6; 0x0004C823; 0x0004C990;
  (* YEAR 2460 *) 0x8004CAFD; 0x0004CC6B; 0x0004CDD8; 0x0004CF45; 0x8004D0B2; 0x0004D220; 0x0004D38D; 0x0004D4FA; 0x8004D667; 0x0004D7D5;
  (* YEAR 2470 *) 0x0004D942; 0x0004DAAF; 0x8004DC1C; 0x0004DD8A; 0x0004DEF7; 0x0004E064; 0x8004E1D1; 0x0004E33F; 0x0004E4AC; 0x0004E619;
  (* YEAR 2480 *) 0x8004E786; 0x0004E8F4; 0x0004EA61; 0x0004EBCE; 0x8004ED3B; 0x0004EEA9; 0x0004F016; 0x0004F183; 0x8004F2F0; 0x0004F45E;
  (* YEAR 2490 *) 0x0004F5CB; 0x0004F738; 0x8004F8A5; 0x0004FA13; 0x0004FB80; 0x0004FCED; 0x8004FE5A; 0x0004FFC8; 0x00050135; 0x000502A2;
  (* YEAR 2500 *) 0x0005040F; 0x0005057C; 0x000506E9; 0x00050856; 0x800509C3; 0x00050B31; 0x00050C9E; 0x00050E0B; 0x80050F78; 0x000510E6;
  (* YEAR 2510 *) 0x00051253; 0x000513C0; 0x8005152D; 0x0005169B; 0x00051808; 0x00051975; 0x80051AE2; 0x00051C50; 0x00051DBD; 0x00051F2A;
  (* YEAR 2520 *) 0x80052097; 0x00052205; 0x00052372; 0x000524DF; 0x8005264C; 0x000527BA; 0x00052927; 0x00052A94; 0x80052C01; 0x00052D6F;
  (* YEAR 2530 *) 0x00052EDC; 0x00053049; 0x800531B6; 0x00053324; 0x00053491; 0x000535FE; 0x8005376B; 0x000538D9; 0x00053A46; 0x00053BB3;
  (* YEAR 2540 *) 0x80053D20; 0x00053E8E; 0x00053FFB; 0x00054168; 0x800542D5; 0x00054443; 0x000545B0; 0x0005471D; 0x8005488A; 0x000549F8;
  (* YEAR 2550 *) 0x00054B65; 0x00054CD2; 0x80054E3F; 0x00054FAD; 0x0005511A; 0x00055287; 0x800553F4; 0x00055562; 0x000556CF; 0x0005583C;
  (* YEAR 2560 *) 0x800559A9; 0x00055B17; 0x00055C84; 0x00055DF1; 0x80055F5E; 0x000560CC; 0x00056239; 0x000563A6; 0x80056513; 0x00056681;
  (* YEAR 2570 *) 0x000567EE; 0x0005695B; 0x80056AC8; 0x00056C36; 0x00056DA3; 0x00056F10; 0x8005707D; 0x000571EB; 0x00057358; 0x000574C5;
  (* YEAR 2580 *) 0x80057632; 0x000577A0; 0x0005790D; 0x00057A7A; 0x80057BE7; 0x00057D55; 0x00057EC2; 0x0005802F; 0x8005819C; 0x0005830A;
  (* YEAR 2590 *) 0x00058477; 0x000585E4; 0x80058751; 0x000588BF; 0x00058A2C; 0x00058B99; 0x80058D06; 0x00058E74; 0x00058FE1; 0x0005914E
].

Definition time_mon : list Z := [0; 31; 59; 90; 120; 151; 181; 212; 243; 273; 304; 334].
Definition time_mon_leap : list Z := [0; 31; 60; 91; 121; 152; 182; 213; 244; 274; 305; 335].
Definition time_mon_days : list Z := [31; 28; 31; 30; 31; 30; 31; 31; 30; 31; 30; 31].

(** [struct timezone] holds the one field [m_tz], an [int32_t]. *)
Definition timezone := Z.

Record decomposed_time : Type := {
  m_year : Z;
  m_month : Z;
  m_day : Z;
  m_hours : Z;
  m_mins : Z;
  m_secs : Z;
  m_microsecs : Z;
  m_tz : timezone;
  m_day_of_year : Z;
  m_day_of_week : Z
}.

(** [decomposed_time::clear()] *)
Definition decomposed_clear : decomposed_time :=
  {| m_year := 0; m_month := 0; m_day := 0; m_hours := 0; m_mins := 0; m_secs := 0;
     m_microsecs := 0; m_tz := 0; m_day_of_year := 0; m_day_of_week := 0 |}.

(** [decomposed_time(year, month, day, hours, mins, secs, tz)] *)
Definition decomposed_time_new (year month day hours mins secs : Z) (tz : timezone)
  : decomposed_time :=
  {| m_year := year; m_month := month; m_day := day; m_hours := hours; m_mins := mins;
     m_secs := secs; m_microsecs := 0; m_tz := tz; m_day_of_year := 0; m_day_of_week := 0 |}.

(** [class time]: the one field is the [uint64_t] [m_date_time]. *)
Record time : Type := { m_date_time : Z }.

Definition TIME_NOT_SET : Z := 0.
Definition clear : time := {| m_date_time := TIME_NOT_SET |}.

Definition is_valid (t : time) : bool :=
  if m_date_time t <? dastd_time_MIN_PCTIME then false
  else if m_date_time t >? dastd_time_MAX_PCTIME then false
  else true.

(** [std::upper_bound(first, last, value, comp) - first]: the index of the
    first element [e] with [comp(value, e)], the length when there is none. *)
Fixpoint upper_bound (comp : Z -> Z -> bool) (range : list Z) (value : Z) : Z :=
  match range with
  | [] => 0
  | e :: rest => if comp value e then 0 else 1 + upper_bound comp rest value
  end.

(** The comparison [decompose] hands to [upper_bound] for the years. *)
Definition less_without_leap_bit (a b : Z) : bool :=
  Z.land a 0x7FFFFFFF <? Z.land b 0x7FFFFFFF.

Definition decompose (t : time) : outcome decomposed_time :=
  if negb (is_valid t) then Done decomposed_clear
  else
    let day_no := cast_u32 (m_date_time t / dastd_time_DAY) in
    let position := cast_u64 (upper_bound less_without_leap_bit dastd_time_days day_no - 1) in
    let year := cast_u32 (dastd_time_YEAR_ZERO + position) in
    if negb (position <? dastd_time_NO_YEARS) then Thrown assertion_failed
    else
      let entry := nth (Z.to_nat position) dastd_time_days 0 in
      let day_zero := Z.land entry 0x7FFFFFFF in
      if negb (day_zero <=? day_no) then Thrown assertion_failed
      else
        let day_in_year := cast_u32 (day_no - day_zero) in
        let leap := negb (Z.land entry 0x80000000 =? 0) in
        let year_days := if leap then 366 else 365 in
        if negb (cast_u32 (day_zero + year_days) >? day_no) then Thrown assertion_failed
        else if negb (day_in_year <? year_days) then Thrown assertion_failed
        else
          let months := if leap then time_mon_leap else time_mon in
          let position := cast_u64 (upper_bound Z.ltb months day_in_year - 1) in
          if negb (position <? 12) then Thrown assertion_failed
          else
            let microsecs := m_date_time t / dastd_time_MICROSEC in
            let seconds := microsecs / 1000000 in
            let minutes := seconds / 60 in
            let hours := minutes / 60 in
            Done {| m_year := year;
                    m_month := cast_u32 (position + 1);
                    m_day := cast_u32 (day_in_year - nth (Z.to_nat position) months 0 + 1);
                    m_hours := cast_u32 (hours mod 24);
                    m_mins := cast_u32 (minutes mod 60);
                    m_secs := cast_u32 (seconds mod 60);
                    m_microsecs := cast_u32 (microsecs mod 1000000);
                    m_tz := dastd_time_TZ (m_date_time t);
                    m_day_of_year := day_in_year;
                    m_day_of_week := cast_u32 (day_no + dastd_time_DAY_OF_WEEK_0) mod 7 |}.

(** [compose]: the result of the call and the object it leaves. *)
Definition compose (decomposed : decomposed_time) : bool * time :=
  if (m_year decomposed <=? dastd_time_YEAR_ZERO)
     || (m_year decomposed >? dastd_time_YEAR_LAST)
     || (m_month decomposed <? 1) || (m_month decomposed >? 12)
     || (m_day decomposed <? 1)
     || (m_hours decomposed >=? 24) || (m_mins decomposed >=? 60)
     || (m_secs decomposed >=? 60)
     || (m_microsecs decomposed >=? 1000000)
     || (m_tz decomposed <? dastd_time_TZ_MIN) || (m_tz decomposed >? dastd_time_TZ_MAX)
  then (false, clear)
  else
    let entry := nth (Z.to_nat (m_year decomposed - dastd_time_YEAR_ZERO)) dastd_time_days 0 in
    let day0 := Z.land entry 0x7FFFFFFF in
    let is_leap := negb (Z.land entry 0x80000000 =? 0) in
    if (m_day decomposed >? nth (Z.to_nat (m_month decomposed - 1)) time_mon_days 0)
       && (negb (m_month decomposed =? 2) || negb (m_day decomposed =? 29) || negb is_leap)
    then (false, clear)
    else
      (true,
       {| m_date_time :=
            Z.lor
              (cast_u64
                 ((day0
                   + nth (Z.to_nat (m_month decomposed - 1))
                       (if is_leap then time_mon_leap else time_mon) 0
                   + cast_u32 (m_day decomposed - 1)) * dastd_time_DAY
                  + m_hours decomposed * dastd_time_HOUR
                  + m_mins decomposed * dastd_time_MIN
                  + m_secs decomposed * dastd_time_SEC
                  + m_microsecs decomposed * dastd_time_MICROSEC))
              (cast_signed 8 (m_tz decomposed) mod 2 ^ 8) |}).

Definition set (year month day hours mins secs : Z) (tz : timezone) : bool * time :=
  compose (decomposed_time_new year month day hours mins secs tz).

(** [time(year, month, day, hours, mins, secs, tz)] *)
Definition time_new (year month day hours mins secs : Z) (tz : timezone) : time :=
  let '(ok, t) := set year month day hours mins secs tz in
  if ok then t else clear.

Definition get_timezone (t : time) : timezone :=
  if negb (is_valid t) then 0 else dastd_time_TZ (m_date_time t).

(** [m_date_time & ~0xFF] *)
Definition without_tz (date_time : Z) : Z := Z.land date_time (2 ^ 64 - 256).

Definition set_timezone (tz : timezone) (t : time) : time :=
  if negb (is_valid t) then t
  else
    let oldTZ := dastd_time_TZ (m_date_time t) in
    let usec := without_tz (m_date_time t) in
    let t1 := dastd_time_TZ_usec oldTZ in
    let t2 := dastd_time_TZ_usec tz in
    let usec := cast_u64 (usec - t1 + t2) in
    {| m_date_time := Z.lor usec (cast_signed 8 tz mod 2 ^ 8) |}.

(** [epoch64_t] is [int64_t]; the product is taken on [uint64_t]. *)
Definition set_from_epochUTC (epoch : Z) : time :=
  {| m_date_time :=
       cast_u64 (cast_u64 epoch * dastd_time_SEC + dastd_time_EPOCH_DAY * dastd_time_DAY) |}.

Definition set_from_epochUTC_micros (micros : Z) : time :=
  {| m_date_time :=
       cast_u64 (micros * dastd_time_MICROSEC + dastd_time_EPOCH_DAY * dastd_time_DAY) |}.

Definition get_epoch64 (t : time) : Z :=
  if negb (is_valid t) then 0
  else
    cast_signed 64
      (cast_u64 (without_tz (m_date_time t) - dastd_time_EPOCH_DAY * dastd_time_DAY)
       / dastd_time_SEC).

Definition get_epoch32 (t : time) : Z := cast_signed 32 (get_epoch64 t).

Definition make_epoch64 (year month day hours mins secs : Z) (tz : timezone) : Z :=
  let '(ok, t) := set year month day hours mins secs tz in
  if ok then get_epoch64 t else 0.

(** [DASTD_NUMCMP(a, b)] *)
Definition DASTD_NUMCMP (a b : Z) : Z :=
  if a <? b then -1 else if a =? b then 0 else 1.

Definition compare (t other : time) : Z :=
  let t1 := if negb (is_valid t) then dastd_time_INVALID else m_date_time t in
  let t2 := if negb (is_valid other) then dastd_time_INVALID else m_date_time other in
  DASTD_NUMCMP t1 t2.

Definition round_to_nearest_second (t : time) : time :=
  let us := Z.shiftr (m_date_time t) 8 in
  let add_sec := us mod 1000000 >=? 500000 in
  let us := cast_u64 ((us / 1000000 + (if add_sec then 1 else 0)) * 1000000) in
  {| m_date_time := Z.lor (cast_u64 (Z.shiftl us 8)) (Z.land (m_date_time t) 0xFF) |}.

(** The seven setters share their body: decompose, replace one field,
    compose; [valid_argument] is their second assertion. *)
Definition set_field (valid_argument : bool)
  (update : decomposed_time -> decomposed_time) (t : time) : outcome time :=
  if negb (is_valid t) then Thrown assertion_failed
  else if negb valid_argument then Thrown assertion_failed
  else
    match decompose t with
    | Thrown f => Thrown f
    | Done decomposed =>
        let '(_, t') := compose (update decomposed) in
        if negb (is_valid t') then Thrown assertion_failed else Done t'
    end.

Definition with_year (year : Z) (d : decomposed_time) : decomposed_time :=
  {| m_year := year; m_month := m_month d; m_day := m_day d; m_hours := m_hours d;
     m_mins := m_mins d; m_secs := m_secs d; m_microsecs := m_microsecs d; m_tz := m_tz d;
     m_day_of_year := m_day_of_year d; m_day_of_week := m_day_of_week d |}.

Definition with_month (month : Z) (d : decomposed_time) : decomposed_time :=
  {| m_year := m_year d; m_month := month; m_day := m_day d; m_hours := m_hours d;
     m_mins := m_mins d; m_secs := m_secs d; m_microsecs := m_microsecs d; m_tz := m_tz d;
     m_day_of_year := m_day_of_year d; m_day_of_week := m_day_of_week d |}.

Definition with_day (day : Z) (d : decomposed_time) : decomposed_time :=
  {| m_year := m_year d; m_month := m_month d; m_day := day; m_hours := m_hours d;
     m_mins := m_mins d; m_secs := m_secs d; m_microsecs := m_microsecs d; m_tz := m_tz d;
     m_day_of_year := m_day_of_year d; m_day_of_week := m_day_of_week d |}.

Definition set_year (year : Z) : time -> outcome time :=
  set_field ((year >=? dastd_time_YEAR_ZERO + 1) && (year <=? dastd_time_YEAR_LAST))
            (with_year year).

Definition set_month (month : Z) : time -> outcome time :=
  set_field ((month >=? 1) && (month <=? 12)) (with_month month).

Definition set_day (day : Z) : time -> outcome time :=
  set_field ((day >=? 1) && (day <=? 31)) (with_day day).

(** *** The Gregorian calendar, for reference *)

Definition gregorian_leap (year : Z) : bool :=
  ((year mod 4 =? 0) && negb (year mod 100 =? 0)) || (year mod 400 =? 0).

Definition gregorian_month_days (year month : Z) : Z :=
  if month =? 2 then (if gregorian_leap year then 29 else 28)
  else if (month =? 4) || (month =? 6) || (month =? 9) || (month =? 11) then 30
  else 31.

(** The days from January 1st, 1600 to January 1st of [year]. *)
Definition gregorian_days_before_year (year : Z) : Z :=
  365 * (year - 1600)
  + ((year - 1) / 4 - 399) - ((year - 1) / 100 - 15) + ((year - 1) / 400 - 3).

(** The days from January 1st of [year] to the first of [month]. *)
Fixpoint gregorian_days_before_month_loop (year : Z) (months : nat) : Z :=
  match months with
  | O => 0
  | S n => gregorian_days_before_month_loop year n + gregorian_month_days year (Z.of_nat (S n))
  end.

Definition gregorian_days_before_month (year month : Z) : Z :=
  gregorian_days_before_month_loop year (Z.to_nat (month - 1)).

(** The days from January 1st, 1970 to a date. *)
Definition gregorian_days_from_1970 (year month day : Z) : Z :=
  gregorian_days_before_year year - gregorian_days_before_year 1970
  + gregorian_days_before_month year month + (day - 1).

(** A date and time of day that exist, in the years [compose] covers. *)
Definition gregorian_valid (d : decomposed_time) : Prop :=
  1601 <= m_year d <= 2599
  /\ 1 <= m_month d <= 12
  /\ 1 <= m_day d <= gregorian_month_days (m_year d) (m_month d)
  /\ 0 <= m_hours d < 24 /\ 0 <= m_mins d < 60 /\ 0 <= m_secs d < 60
  /\ 0 <= m_microsecs d < 1000000
  /\ -95 <= m_tz d <= 95.

(** *** The table read by year, and what is checked of it row by row *)

Definition year_entry (year : Z) : Z :=
  nth (Z.to_nat (year - dastd_time_YEAR_ZERO)) dastd_time_days 0.

Definition year_day_zero (year : Z) : Z := Z.land (year_entry year) 0x7FFFFFFF.

Definition year_is_leap (year : Z) : bool :=
  negb (Z.land (year_entry year) 0x80000000 =? 0).

Definition year_days (year : Z) : Z := if gregorian_leap year then 366 else 365.

Definition table_row_ok (k : nat) : bool :=
  let year := 1600 + Z.of_nat k in
  (year_day_zero year =? gregorian_days_before_year year)
  && Bool.eqb (year_is_leap year) (gregorian_leap year)
  && (gregorian_days_before_year (year + 1)
      =? gregorian_days_before_year year + year_days year).

(** The day of the year, from 0, of a date. *)
Definition day_in_year_of (year month day : Z) : Z :=
  nth (Z.to_nat (month - 1)) (if gregorian_leap year then time_mon_leap else time_mon) 0
  + (day - 1).

(** The value [compose] builds without the timezone byte, in microseconds. *)
Definition wall_microsecs (d : decomposed_time) : Z :=
  (((gregorian_days_before_year (m_year d) + day_in_year_of (m_year d) (m_month d) (m_day d))
    * 24 + m_hours d) * 60 + m_mins d) * 60 * 1000000
  + m_secs d * 1000000 + m_microsecs d.

(** The one composed value that [is_valid] refuses: the last microsecond of
    2599 in a timezone west of Greenwich. *)
Definition past_the_end (d : decomposed_time) : bool :=
  (m_year d =? 2599) && (m_month d =? 12) && (m_day d =? 31) && (m_hours d =? 23)
  && (m_mins d =? 59) && (m_secs d =? 59) && (m_microsecs d =? 999999) && (m_tz d <? 0).

(** The fields a caller sets, out of the ten of [decomposed_time]. *)
Definition same_date_time (a b : decomposed_time) : Prop :=
  m_year a = m_year b /\ m_month a = m_month b /\ m_day a = m_day b
  /\ m_hours a = m_hours b /\ m_mins a = m_mins b /\ m_secs a = m_secs b
  /\ m_microsecs a = m_microsecs b /\ m_tz a = m_tz b.

End Time.

(** ** bit_manip.hpp *)

Module BitManip.
Local Open Scope sem_scope.

(** [convert_LSb0_to_MSb0(src_octet, src_LSb0)] *)
Definition convert_LSb0_to_MSb0 (src_octet src_LSb0 : Z) : outcome Z :=
  if src_LSb0 <=? 7 then Done (src_octet * 8 + (7 - src_LSb0))
  else Thrown assertion_failed.

(** [(1 << (7 - (pos & 7)))] *)
Definition bit_in_octet (pos : Z) : Z := Z.shiftl 1 (7 - Z.land pos 7).

(** The buffer behind a [void*] is the list of its bytes; an access outside
    of it is undefined behaviour. *)
Definition get_bit_MSb0 (src : list byte) (src_MSb0 : Z) : outcome bool :=
  match nth_error src (Z.to_nat (Z.shiftr src_MSb0 3)) with
  | Some octet =>
      Done (negb (Z.land (byte.unsigned octet) (bit_in_octet src_MSb0) =? 0))
  | None => Thrown undefined_behaviour
  end.

(** [buffer[index] = octet] *)
Fixpoint store (buffer : list byte) (index : nat) (octet : byte) : list byte :=
  match buffer, index with
  | [], _ => []
  | _ :: rest, O => octet :: rest
  | first :: rest, S index' => first :: store rest index' octet
  end.

(** The writers act on the destination buffer. *)
Definition set_bit_MSb0 (dst_MSb0 : Z) (bitval : bool) : sem (list byte) unit :=
  fun dst =>
    let index := Z.to_nat (Z.shiftr dst_MSb0 3) in
    match nth_error dst index with
    | Some octet =>
        let updated :=
          if bitval then Z.lor (byte.unsigned octet) (bit_in_octet dst_MSb0)
          else Z.land (byte.unsigned octet) (Z.lnot (bit_in_octet dst_MSb0)) in
        Done (tt, store dst index (byte.of_Z updated))
    | None => Thrown undefined_behaviour
    end.

(** [for (i = i0; i < i0 + remaining; i++)] of [copy_bits_MSb0]; the source
    is another buffer than the target. *)
Fixpoint copy_bits_MSb0_loop (remaining : nat) (i : Z) (tgt_MSb0 : Z)
  (src : list byte) (src_MSb0 : Z) : sem (list byte) unit :=
  match remaining with
  | O => ret tt
  | S remaining' =>
      fun tgt =>
        match get_bit_MSb0 src (src_MSb0 + i) with
        | Done bitval =>
            (set_bit_MSb0 (tgt_MSb0 + i) bitval;;
             copy_bits_MSb0_loop remaining' (i + 1) tgt_MSb0 src src_MSb0) tgt
        | Thrown f => Thrown f
        end
  end.

Definition copy_bits_MSb0 (tgt_MSb0 : Z) (src : list byte) (src_MSb0 : Z)
  (bits_count : Z) : sem (list byte) unit :=
  copy_bits_MSb0_loop (Z.to_nat bits_count) 0 tgt_MSb0 src src_MSb0.

Definition get_bit_LSb0 (src : list byte) (src_octet src_LSb0 : Z) : outcome bool :=
  match convert_LSb0_to_MSb0 src_octet src_LSb0 with
  | Done src_MSb0 => get_bit_MSb0 src src_MSb0
  | Thrown f => Thrown f
  end.

Definition set_bit_LSb0 (dst_octet dst_LSb0 : Z) (bitval : bool) : sem (list byte) unit :=
  match convert_LSb0_to_MSb0 dst_octet dst_LSb0 with
  | Done dst_MSb0 => set_bit_MSb0 dst_MSb0 bitval
  | Thrown f => throw f
  end.

(** [get_integral_MSb0<bool>] *)
Definition get_integral_MSb0_bool (src : list byte) (src_MSb0 bits_count : Z)
  : outcome bool :=
  if negb (bits_count =? 1) then Thrown assertion_failed
  else get_bit_MSb0 src src_MSb0.

(** The loop of [get_integral_MSb0<TYPE>] for an unsigned [TYPE] of [w] bits. *)
Fixpoint get_integral_MSb0_loop (w : Z) (remaining : nat) (i : Z) (tgt : Z)
  (src : list byte) (src_MSb0 : Z) : outcome Z :=
  match remaining with
  | O => Done tgt
  | S remaining' =>
      let tgt := Z.shiftl tgt 1 mod 2 ^ w in
      match get_bit_MSb0 src (src_MSb0 + i) with
      | Done bitval =>
          get_integral_MSb0_loop w remaining' (i + 1)
            (if bitval then Z.lor tgt 1 else tgt) src src_MSb0
      | Thrown f => Thrown f
      end
  end.

Definition get_integral_MSb0 (w : Z) (src : list byte) (src_MSb0 bits_count : Z)
  : outcome Z :=
  if negb (bits_count <=? w) then Thrown assertion_failed
  else get_integral_MSb0_loop w (Z.to_nat bits_count) 0 0 src src_MSb0.

(** [set_integral_MSb0<bool>] *)
Definition set_integral_MSb0_bool (dst_MSb0 : Z) (src : bool) : sem (list byte) unit :=
  set_bit_MSb0 dst_MSb0 src.

Fixpoint set_integral_MSb0_loop (remaining : nat) (i : Z) (dst_MSb0 : Z) (src : Z)
  (bits_count : Z) : sem (list byte) unit :=
  match remaining with
  | O => ret tt
  | S remaining' =>
      set_bit_MSb0 (dst_MSb0 + i)
        (Z.land (Z.shiftr src (bits_count - 1 - i)) 1 =? 1);;
      set_integral_MSb0_loop remaining' (i + 1) dst_MSb0 src bits_count
  end.

(** [set_integral_MSb0<TYPE>] for an unsigned [TYPE] of [w] bits. *)
Definition set_integral_MSb0 (w : Z) (dst_MSb0 : Z) (src : Z) (bits_count : Z)
  : sem (list byte) unit :=
  if negb (bits_count <=? w) then throw assertion_failed
  else set_integral_MSb0_loop (Z.to_nat bits_count) 0 dst_MSb0 src bits_count.

Definition get_integral_LSb0 (w : Z) (src : list byte) (src_octet src_LSb0 bits_count : Z)
  : outcome Z :=
  match convert_LSb0_to_MSb0 src_octet src_LSb0 with
  | Done src_MSb0 => get_integral_MSb0 w src src_MSb0 bits_count
  | Thrown f => Thrown f
  end.

(** The bit of a buffer a position names: bit [7 - pos mod 8] of the byte
    [pos / 8]. *)
Definition bit_at (buffer : list byte) (pos : Z) : bool :=
  Z.testbit (byte.unsigned (nth (Z.to_nat (pos / 8)) buffer Byte.x00)) (7 - pos mod 8).

End BitManip.

(** * Properties *)
(** ** Little-endian integers *)

Lemma le_split_wrap (n : nat) (z : Z) :
  le_split n (z mod 2 ^ (Z.of_nat n * 8)) = le_split n z.
Proof.
  apply le_combine_inj.
  - now rewrite !length_le_split.
  - rewrite !le_combine_split. apply Z.mod_mod.
    apply Z.pow_nonzero; lia.
Qed.

Lemma le_split_cast_u32 (z : Z) : le_split 4 (cast_u32 z) = le_split 4 z.
Proof. exact (le_split_wrap 4 z). Qed.

Lemma le_split_cast_u64 (z : Z) : le_split 8 (cast_u64 z) = le_split 8 z.
Proof. exact (le_split_wrap 8 z). Qed.

Lemma cast_signed_id (w z : Z) :
  0 < w -> - 2 ^ (w - 1) <= z < 2 ^ (w - 1) -> cast_signed w (z mod 2 ^ w) = z.
Proof.
  intros Hw Hz. unfold cast_signed.
  assert (Hp : 2 ^ w = 2 * 2 ^ (w - 1)).
  { replace w with (Z.succ (w - 1)) at 1 by lia. apply Z.pow_succ_r. lia. }
  rewrite Zplus_mod_idemp_l.
  rewrite Z.mod_small; lia.
Qed.

Lemma little_endian_roundtrip (t : int_type) (z : Z) :
  int_min t <= z <= int_max t ->
  little_endian_to_native (int_signed t) (int_size t)
    (native_to_little_endian (int_size t) z) = z.
Proof.
  intros Hz. unfold little_endian_to_native, native_to_little_endian.
  rewrite firstn_all2 by (rewrite length_le_split; lia).
  rewrite le_combine_split.
  unfold int_min, int_max in Hz.
  destruct t; cbn [int_signed int_size] in *;
    first [ apply Z.mod_small; cbn in *; lia
          | apply cast_signed_id; cbn in *; lia ].
Qed.

(** ** The encoder writes the wire form *)

Lemma bind_Done {S A B} (c : sem S A) (k : A -> sem S B) (s s' : S) (a : A) :
  c s = Done (a, s') -> bind c k s = k a s'.
Proof. intros H. unfold bind. now rewrite H. Qed.

Module EncBinFacts.
Import EncBin Driver EncBinAt DriverLoops.

Lemma write_bytes_at_end (src out : list byte) (stk : list stack_element) :
  write_bytes src (at_end out stk) = Done (tt, at_end (out ++ src) stk).
Proof.
  unfold write_bytes, at_end; cbn [m_output m_curr_pos m_stack].
  rewrite firstn_all, skipn_all2 by lia.
  now rewrite app_nil_r, length_app.
Qed.

(** Back-patching: the four bytes at [length out] are replaced. *)
Lemma write_bytes_patch (out old new payload : list byte) (stk : list stack_element) :
  List.length old = List.length new ->
  write_bytes new {| m_output := out ++ old ++ payload;
                     m_curr_pos := List.length out; m_stack := stk |}
  = Done (tt, {| m_output := out ++ new ++ payload;
                 m_curr_pos := (List.length out + List.length new)%nat;
                 m_stack := stk |}).
Proof.
  intros Hlen. unfold write_bytes; cbn [m_output m_curr_pos m_stack].
  rewrite firstn_app, firstn_all, Nat.sub_diag, firstn_O, app_nil_r.
  rewrite skipn_app, skipn_all2 by lia.
  replace (List.length out + List.length new - List.length out)%nat
    with (List.length old) by lia.
  rewrite skipn_app, skipn_all, Nat.sub_diag, skipn_O.
  reflexivity.
Qed.

Lemma value_allowed_guards (stk : list stack_element) :
  value_allowed stk ->
  not_in_struct_or_array (hd_error stk) = true
  /\ match hd_error stk with
     | None => true
     | Some f => negb (element_type_eqb (m_element_type f) STRUCT)
                 && negb (element_type_eqb (m_element_type f) DICTIONARY)
     end = true.
Proof.
  destruct stk as [|f stk]; cbn; [auto|].
  intros [H|[H|[H|H]]]; rewrite H; auto.
Qed.

Ltac enc_cbn :=
  cbn [stack_top get_curr_pos set_curr_pos stack_emplace stack_pop assert at_end frame
         tl m_output m_curr_pos m_stack m_element_type m_pos m_extensible
         top_is element_type_eqb negb andb orb ret fst snd].

Ltac enc_simpl :=
  enc_cbn;
  change (@hd_error stack_element (?f :: ?l)) with (Some f) in *;
  enc_cbn.

Lemma encode_patch (out payload : list byte) (stk : list stack_element)
      (t : marshal_bin_element_type) (extensible : bool) :
  patch_size_indicator (frame t (List.length out) extensible)
    (at_end (out ++ (if extensible then size_indicator 0 else []) ++ payload)
            (frame t (List.length out) extensible :: stk))
  = Done (tt, at_end (out ++ (if extensible then size_indicator (List.length payload)
                              else []) ++ payload)
                     (frame t (List.length out) extensible :: stk)).
Proof.
  unfold patch_size_indicator. destruct extensible; cbn [m_extensible frame]; [|reflexivity].
  unfold bind, at_end, get_curr_pos, set_curr_pos, encode_size_indicator, encode_u32,
    native_to_little_endian.
  cbn [m_output m_curr_pos m_stack m_pos frame].
  rewrite (write_bytes_patch out (size_indicator 0)) by (unfold size_indicator; now rewrite !length_le_split).
  cbn [m_output m_stack].
  unfold pos_diff. rewrite le_split_cast_u32.
  replace (Z.of_nat (List.length (out ++ size_indicator 0 ++ payload))
           - Z.of_nat (List.length out) - 4)
    with (Z.of_nat (List.length payload))
    by (unfold size_indicator; rewrite !length_app, length_le_split; lia).
  fold (size_indicator (List.length payload)).
  do 3 f_equal.
  unfold size_indicator; rewrite !length_app, !length_le_split; reflexivity.
Qed.

Lemma run_write (src out : list byte) (stk : list stack_element) {B}
      (k : unit -> enc B) :
  bind (write_bytes src) k (at_end out stk) = k tt (at_end (out ++ src) stk).
Proof. apply bind_Done, write_bytes_at_end. Qed.

Lemma encode_u32_at_end (z : Z) out stk :
  encode_u32 z (at_end out stk) = Done (tt, at_end (out ++ le_split 4 z) stk).
Proof. apply write_bytes_at_end. Qed.

Lemma encode_size_indicator_at_end (n : nat) out stk :
  encode_size_indicator (Z.of_nat n) (at_end out stk)
  = Done (tt, at_end (out ++ size_indicator n) stk).
Proof.
  unfold encode_size_indicator. rewrite encode_u32_at_end.
  now rewrite le_split_cast_u32.
Qed.

Lemma encode_int_at_end (t : int_type) (z : Z) out stk :
  encode_int t z (at_end out stk) = Done (tt, at_end (out ++ le_split (int_size t) z) stk).
Proof. destruct t; apply write_bytes_at_end. Qed.

Lemma encode_string_utf8_at_end (str : list byte) out stk :
  encode_string_utf8 str (at_end out stk)
  = Done (tt, at_end (out ++ size_indicator (List.length str) ++ str) stk).
Proof.
  unfold encode_string_utf8.
  erewrite bind_Done by apply encode_u32_at_end.
  rewrite write_bytes_at_end, le_split_cast_u32, <- app_assoc. reflexivity.
Qed.

Lemma write_each_utf8_at_end (str : list Z) out stk :
  write_each_utf8 str (at_end out stk) = Done (tt, at_end (out ++ utf8_bytes str) stk).
Proof.
  revert out; induction str as [|c str IH]; intros out; cbn [write_each_utf8 utf8_bytes].
  - now rewrite app_nil_r.
  - rewrite run_write, IH, <- app_assoc. reflexivity.
Qed.

Lemma encode_u32string_at_end (str : list Z) out stk :
  encode_u32string str (at_end out stk)
  = Done (tt, at_end (out ++ le_split 4 (calc_utf8_length str) ++ utf8_bytes str) stk).
Proof.
  unfold encode_u32string.
  erewrite bind_Done by apply encode_u32_at_end.
  rewrite write_each_utf8_at_end, le_split_cast_u32, <- app_assoc. reflexivity.
Qed.

Lemma encode_varsize_binary_at_end (data : list byte) out stk :
  fits_u32 (List.length data) ->
  internal_encode_varsize_binary data (at_end out stk)
  = Done (tt, at_end (out ++ size_indicator (List.length data) ++ data) stk).
Proof.
  intros Hfit. unfold internal_encode_varsize_binary.
  replace (Z.of_nat (List.length data) <=? 2 ^ 32 - 1) with true
    by (symmetry; apply Z.leb_le; unfold fits_u32 in Hfit; lia).
  cbn [assert]. erewrite bind_Done by reflexivity.
  apply encode_string_utf8_at_end.
Qed.

Lemma encode_begin_at_end (extensible : bool) (t : marshal_bin_element_type) out stk :
  (pos <- get_curr_pos;;
   stack_emplace t pos extensible;;
   if extensible then encode_size_indicator 0 else ret tt) (at_end out stk)
  = Done (tt, at_end (out ++ (if extensible then size_indicator 0 else []))
                     (frame t (List.length out) extensible :: stk)).
Proof.
  unfold bind; enc_simpl. destruct extensible.
  - apply (encode_size_indicator_at_end 0).
  - now rewrite app_nil_r.
Qed.

Lemma encode_struct_begin_at_end (extensible : bool) out stk :
  value_allowed stk ->
  encode_struct_begin extensible (at_end out stk)
  = Done (tt, at_end (out ++ (if extensible then size_indicator 0 else []))
                     (frame STRUCT (List.length out) extensible :: stk)).
Proof.
  intros [Hg _]%value_allowed_guards. unfold encode_struct_begin.
  unfold bind at 1 2; enc_simpl. rewrite Hg; enc_simpl.
  apply encode_begin_at_end.
Qed.

Lemma encode_end_at_end (t : marshal_bin_element_type) (extensible : bool)
      (out payload : list byte) stk :
  (patch_size_indicator (frame t (List.length out) extensible);; stack_pop)
    (at_end (out ++ (if extensible then size_indicator 0 else []) ++ payload)
            (frame t (List.length out) extensible :: stk))
  = Done (tt, at_end (out ++ (if extensible then size_indicator (List.length payload)
                              else []) ++ payload) stk).
Proof. erewrite bind_Done by apply encode_patch. reflexivity. Qed.

Lemma encode_struct_end_at_end (extensible : bool) (out payload : list byte) stk :
  encode_struct_end
    (at_end (out ++ (if extensible then size_indicator 0 else []) ++ payload)
            (frame STRUCT (List.length out) extensible :: stk))
  = Done (tt, at_end (out ++ (if extensible then size_indicator (List.length payload)
                              else []) ++ payload) stk).
Proof.
  unfold encode_struct_end. unfold bind at 1 2; enc_simpl.
  apply encode_end_at_end.
Qed.

Lemma encode_typed_begin_at_end (label : marshal_label) (extensible : bool) out stk :
  value_allowed stk ->
  encode_typed_begin label extensible (at_end out stk)
  = Done (tt, at_end ((out ++ le_split 4 (m_label_id label))
                        ++ (if extensible then size_indicator 0 else []))
                     (frame TYPED (List.length (out ++ le_split 4 (m_label_id label)))
                            extensible :: stk)).
Proof.
  intros [Hg _]%value_allowed_guards. unfold encode_typed_begin.
  unfold bind at 1 2; enc_simpl. rewrite Hg; enc_simpl.
  erewrite bind_Done by apply encode_u32_at_end.
  apply encode_begin_at_end.
Qed.

Lemma encode_typed_end_at_end (extensible : bool) (out payload : list byte) stk :
  encode_typed_end
    (at_end (out ++ (if extensible then size_indicator 0 else []) ++ payload)
            (frame TYPED (List.length out) extensible :: stk))
  = Done (tt, at_end (out ++ (if extensible then size_indicator (List.length payload)
                              else []) ++ payload) stk).
Proof.
  unfold encode_typed_end. unfold bind at 1 2; enc_simpl.
  apply encode_end_at_end.
Qed.

Lemma encode_struct_field_begin_at_end (label : marshal_label)
      (opt : marshal_optional_field) out f stk :
  m_element_type f = STRUCT ->
  encode_struct_field_begin label opt (at_end out (f :: stk))
  = Done (tt, let out' := out ++ match opt with
                                 | MANDATORY => []
                                 | OPTIONAL_PRESENT => [Byte.x01]
                                 | OPTIONAL_MISSING => [Byte.x00]
                                 end in
              at_end out' (frame match opt with
                                 | OPTIONAL_MISSING => FIELD_MISSING
                                 | _ => FIELD
                                 end (List.length out') false :: f :: stk)).
Proof.
  intros Hf. unfold encode_struct_field_begin.
  unfold bind at 1 2; enc_simpl. unfold top_is. rewrite Hf; enc_simpl.
  destruct opt; cbv zeta.
  - rewrite app_nil_r. reflexivity.
  - unfold encode_bool. rewrite run_write. reflexivity.
  - unfold encode_bool. rewrite run_write. reflexivity.
Qed.

Lemma encode_struct_field_end_at_end (t : marshal_bin_element_type) pos out stk :
  t = FIELD \/ t = FIELD_MISSING ->
  encode_struct_field_end (at_end out (frame t pos false :: stk))
  = Done (tt, at_end out stk).
Proof. intros [-> | ->]; reflexivity. Qed.

Lemma encode_array_begin_at_end (n : nat) out stk :
  value_allowed stk ->
  encode_array_begin (Z.of_nat n) (at_end out stk)
  = Done (tt, at_end (out ++ size_indicator n)
                     (frame ARRAY (List.length (out ++ size_indicator n)) false :: stk)).
Proof.
  intros [Hg _]%value_allowed_guards. unfold encode_array_begin.
  unfold bind at 1 2; enc_simpl. rewrite Hg; enc_simpl.
  erewrite bind_Done by apply encode_size_indicator_at_end. reflexivity.
Qed.

Lemma encode_dictionary_begin_at_end (n : nat) out stk :
  value_allowed stk ->
  encode_dictionary_begin (Z.of_nat n) (at_end out stk)
  = Done (tt, at_end (out ++ size_indicator n)
                     (frame DICTIONARY (List.length (out ++ size_indicator n)) false :: stk)).
Proof.
  intros [_ Hg]%value_allowed_guards. unfold encode_dictionary_begin.
  unfold bind at 1 2; enc_simpl. rewrite Hg; enc_simpl.
  erewrite bind_Done by apply encode_size_indicator_at_end. reflexivity.
Qed.

Lemma encode_dictionary_element_begin_at_end (key : list byte) pos out stk :
  encode_dictionary_element_begin key (at_end out (frame DICTIONARY pos false :: stk))
  = Done (tt, at_end (out ++ size_indicator (List.length key) ++ key)
                     (frame DICTIONARY_ELEMENT (List.length out) false
                        :: frame DICTIONARY pos false :: stk)).
Proof.
  unfold encode_dictionary_element_begin.
  unfold bind at 1 2 3 4; enc_simpl.
  apply (encode_string_utf8_at_end key out).
Qed.


Lemma encode_array_element_begin_at_end pos out stk :
  encode_array_element_begin (at_end out (frame ARRAY pos false :: stk))
  = Done (tt, at_end out (frame ARRAY_ELEMENT (List.length out) false
                            :: frame ARRAY pos false :: stk)).
Proof. reflexivity. Qed.

Lemma encode_array_element_end_at_end pos out stk :
  encode_array_element_end (at_end out (frame ARRAY_ELEMENT pos false :: stk))
  = Done (tt, at_end out stk).
Proof. reflexivity. Qed.

Lemma encode_array_end_at_end pos out stk :
  encode_array_end (at_end out (frame ARRAY pos false :: stk)) = Done (tt, at_end out stk).
Proof. reflexivity. Qed.

Lemma encode_dictionary_element_end_at_end pos out stk :
  encode_dictionary_element_end (at_end out (frame DICTIONARY_ELEMENT pos false :: stk))
  = Done (tt, at_end out stk).
Proof. reflexivity. Qed.

Lemma encode_dictionary_end_at_end pos out stk :
  encode_dictionary_end (at_end out (frame DICTIONARY pos false :: stk))
  = Done (tt, at_end out stk).
Proof. reflexivity. Qed.

Lemma value_allowed_frame (t : marshal_bin_element_type) pos ext stk :
  t = FIELD \/ t = ARRAY_ELEMENT \/ t = DICTIONARY_ELEMENT \/ t = TYPED ->
  value_allowed (frame t pos ext :: stk).
Proof. intros H; exact H. Qed.

Ltac run L := erewrite bind_Done by (apply L; auto using value_allowed_frame).

Section Sequences.
Variable e : schema.
Hypothesis encode_element :
  forall v, admits e v -> forall out stk, value_allowed stk ->
    encode_value e v (at_end out stk) = Done (tt, at_end (out ++ wire e v) stk).

Lemma encode_elements_wire (vs : value_list) :
  admits_elements e vs -> forall out pos stk,
  encode_elements e vs (at_end out (frame ARRAY pos false :: stk))
  = Done (tt, at_end (out ++ wire_elements e vs) (frame ARRAY pos false :: stk)).
Proof.
  induction vs as [|v rest IH]; intros Hall out pos stk;
    cbn [encode_elements wire_elements].
  - now rewrite app_nil_r.
  - destruct Hall as [Hv Hrest]. fold (encode_elements e).
    run encode_array_element_begin_at_end.
    run encode_element.
    run encode_array_element_end_at_end.
    rewrite IH by assumption. now rewrite <- app_assoc.
Qed.

Lemma encode_entries_wire (es : entry_list) :
  admits_entries e es -> forall out pos stk,
  encode_entries e es (at_end out (frame DICTIONARY pos false :: stk))
  = Done (tt, at_end (out ++ wire_entries e es) (frame DICTIONARY pos false :: stk)).
Proof.
  induction es as [|key v rest IH]; intros Hall out pos stk;
    cbn [encode_entries wire_entries].
  - now rewrite app_nil_r.
  - destruct Hall as [Hk [Hv Hrest]]. fold (encode_entries e).
    run encode_dictionary_element_begin_at_end.
    run encode_element.
    run encode_dictionary_element_end_at_end.
    rewrite IH by assumption. now rewrite <- !app_assoc.
Qed.
End Sequences.

(** Every value a schema admits is encoded, without a failed assertion, as
    its wire form appended to the output; the stack is left as it was. *)
Lemma encode_value_wire :
  (forall s v, admits s v -> forall out stk, value_allowed stk ->
     encode_value s v (at_end out stk) = Done (tt, at_end (out ++ wire s v) stk))
  /\ (forall fs ext fvs, admits_fields ext fs fvs -> forall out f stk,
     m_element_type f = STRUCT ->
     encode_fields fs fvs (at_end out (f :: stk))
     = Done (tt, at_end (out ++ wire_fields fs fvs) (f :: stk)))
  /\ (forall ts l v, admits_as_type ts l v -> forall out stk, value_allowed stk ->
     encode_as_type ts (m_label_id l) v (at_end out stk)
     = Done (tt, at_end (out ++ wire_as_type ts (m_label_id l) v) stk)).
Proof.
  apply schema_mutind.
  - (* bool *)
    intros [] Hv out stk Hs; try contradiction. apply write_bytes_at_end.
  - intros t [] Hv out stk Hs; try contradiction. apply encode_int_at_end.
  - intros [] Hv out stk Hs; try contradiction. apply write_bytes_at_end.
  - intros [] Hv out stk Hs; try contradiction. apply encode_string_utf8_at_end.
  - intros [] Hv out stk Hs; try contradiction. apply encode_u32string_at_end.
  - intros n [] Hv out stk Hs; try contradiction. apply write_bytes_at_end.
  - intros [] Hv out stk Hs; try contradiction.
    now apply encode_varsize_binary_at_end.
  - (* struct *)
    intros ext fs IH [] Hv out stk Hs; try contradiction.
    destruct Hv as [Hf _]. cbn [encode_value wire].
    run encode_struct_begin_at_end.
    erewrite bind_Done by (apply (IH ext); [exact Hf | reflexivity]).
    rewrite <- app_assoc. apply encode_struct_end_at_end.
  - (* array *)
    intros e IH [] Hv out stk Hs; try contradiction.
    destruct Hv as [_ Hall]. cbn [encode_value wire].
    run encode_array_begin_at_end.
    change (bind (encode_elements e elements) (fun _ => encode_array_end)
              (at_end (out ++ size_indicator (VL_length elements))
                 (frame ARRAY (List.length (out ++ size_indicator (VL_length elements)))
                    false :: stk))
            = Done (tt, at_end (out ++ size_indicator (VL_length elements)
                                    ++ wire_elements e elements) stk)).
    run encode_elements_wire. rewrite <- app_assoc. apply encode_array_end_at_end.
  - (* dictionary *)
    intros e IH [] Hv out stk Hs; try contradiction.
    destruct Hv as [_ Hall]. cbn [encode_value wire].
    run encode_dictionary_begin_at_end.
    change (bind (encode_entries e entries) (fun _ => encode_dictionary_end)
              (at_end (out ++ size_indicator (E_length entries))
                 (frame DICTIONARY (List.length (out ++ size_indicator (E_length entries)))
                    false :: stk))
            = Done (tt, at_end (out ++ size_indicator (E_length entries)
                                    ++ wire_entries e entries) stk)).
    run encode_entries_wire. rewrite <- app_assoc. apply encode_dictionary_end_at_end.
  - (* typed *)
    intros ext ts IH [] Hv out stk Hs; try contradiction.
    + destruct Hv as [Hl [Ht _]]. cbn [encode_value wire].
      run encode_typed_begin_at_end.
      run IH.
      rewrite <- (app_assoc (out ++ _)).
      rewrite encode_typed_end_at_end. now rewrite <- app_assoc.
    + cbn [encode_value wire].
      run encode_typed_begin_at_end.
      rewrite <- (app_nil_r (_ ++ if ext then _ else _)), <- (app_assoc (out ++ _)).
      rewrite encode_typed_end_at_end.
      destruct ext; cbn [List.length]; now rewrite ?app_nil_r, <- ?app_assoc.
  - (* no field *)
    intros ext [] Hv out f stk Hf; try contradiction.
    cbn [encode_fields wire_fields]. now rewrite app_nil_r.
  - (* a field *)
    intros label optional s IHs rest IHr ext fvs Hv out f stk Hf.
    destruct optional, fvs; try contradiction; cbn [encode_fields wire_fields].
    + destruct Hv as [_ Hrest].
      run encode_struct_field_begin_at_end. cbv zeta.
      erewrite bind_Done by (apply encode_struct_field_end_at_end; auto).
      erewrite IHr by eauto. now rewrite <- app_assoc.
    + destruct Hv as [_ [Hv Hrest]].
      run encode_struct_field_begin_at_end. cbv zeta.
      run IHs.
      erewrite bind_Done by (apply encode_struct_field_end_at_end; auto).
      erewrite IHr by eauto. now rewrite <- !app_assoc.
    + destruct Hv as [_ [Hv [_ Hrest]]].
      run encode_struct_field_begin_at_end. cbv zeta.
      run IHs.
      erewrite bind_Done by (apply encode_struct_field_end_at_end; auto).
      erewrite IHr by eauto. now rewrite <- !app_assoc.
  - (* no type *)
    intros l v [].
  - (* a type *)
    intros label s IHs rest IHr l v Hv out stk Hs.
    cbn [encode_as_type wire_as_type admits_as_type] in *.
    destruct (m_label_id label =? m_label_id l).
    + destruct Hv as [_ Hv]. now apply IHs.
    + now apply IHr.
Qed.
End EncBinFacts.

(** ** The decoder reads the wire form back *)

Module DecBinFacts.
Import DecBin Driver DecBinAt DecoderLoops.
Import DecoderStatements.

Lemma at_input_eq input o1 o2 stk : o1 = o2 -> at_input input o1 stk = at_input input o2 stk.
Proof. now intros ->. Qed.

Lemma read_bytes_app (bs rest : list byte) off stk :
  read_bytes (List.length bs) (at_input (bs ++ rest) off stk)
  = Done (bs, at_input rest (off + Z.of_nat (List.length bs)) stk).
Proof.
  unfold read_bytes, bind, read_bytes_impl, add_offset, at_input;
    cbn [m_input m_offset m_stack].
  rewrite length_app.
  replace (List.length bs <=? List.length bs + List.length rest)%nat with true
    by (symmetry; apply Nat.leb_le; lia).
  rewrite firstn_app, firstn_all, Nat.sub_diag, firstn_O, app_nil_r.
  rewrite skipn_app, skipn_all, Nat.sub_diag, skipn_O. reflexivity.
Qed.

Lemma skip_bytes_impl_app (bs rest : list byte) off stk :
  skip_bytes_impl (List.length bs) (at_input (bs ++ rest) off stk)
  = Done (tt, at_input rest off stk).
Proof.
  revert off; induction bs as [|b bs IH]; intros off; [reflexivity|].
  cbn [List.length skip_bytes_impl]. unfold bind.
  unfold read_bytes_impl at 1, at_input at 1; cbn [m_input m_offset m_stack].
  cbn [List.length app Nat.leb firstn skipn]. apply IH.
Qed.

Lemma skip_bytes_app (bs rest : list byte) off stk :
  skip_bytes (List.length bs) (at_input (bs ++ rest) off stk)
  = Done (tt, at_input rest (off + Z.of_nat (List.length bs)) stk).
Proof.
  unfold skip_bytes. erewrite bind_Done by apply skip_bytes_impl_app. reflexivity.
Qed.

Lemma decode_integral_wire (sg : bool) (n : nat) (z : Z) rest off stk :
  decode_integral sg n (at_input (le_split n z ++ rest) off stk)
  = Done (little_endian_to_native sg n (le_split n z),
          at_input rest (off + Z.of_nat n) stk).
Proof.
  unfold decode_integral.
  erewrite bind_Done
    by (rewrite <- (length_le_split n z) at 1; apply read_bytes_app).
  unfold ret. now rewrite length_le_split.
Qed.

Lemma decode_u32_wire (z : Z) rest off stk :
  0 <= z < 2 ^ 32 ->
  decode_u32 (at_input (le_split 4 z ++ rest) off stk)
  = Done (z, at_input rest (off + 4) stk).
Proof.
  intros Hz. unfold decode_u32. rewrite decode_integral_wire.
  unfold little_endian_to_native.
  rewrite firstn_all2 by (rewrite length_le_split; lia).
  rewrite le_combine_split, Z.mod_small by (cbn; lia).
  reflexivity.
Qed.

Lemma decode_size_indicator_wire (n : nat) rest off stk :
  fits_u32 n ->
  decode_size_indicator (at_input (size_indicator n ++ rest) off stk)
  = Done (Z.of_nat n, at_input rest (off + 4) stk).
Proof. intros Hn. apply decode_u32_wire. unfold fits_u32 in Hn. lia. Qed.

Lemma decode_int_wire (t : int_type) (z : Z) rest off stk :
  int_min t <= z <= int_max t ->
  decode_int t (at_input (le_split (int_size t) z ++ rest) off stk)
  = Done (z, at_input rest (off + Z.of_nat (int_size t)) stk).
Proof.
  intros Hz.
  assert (H : decode_int t = decode_integral (int_signed t) (int_size t))
    by (destruct t; reflexivity).
  rewrite H, decode_integral_wire.
  pose proof (little_endian_roundtrip t z Hz) as R.
  unfold native_to_little_endian in R. now rewrite R.
Qed.

Lemma decode_bool_wire (b : bool) rest off stk :
  decode_bool (at_input (byte.of_Z (if b then 1 else 0) :: rest) off stk)
  = Done (b, at_input rest (off + 1) stk).
Proof. destruct b; reflexivity. Qed.

Lemma decode_f64_wire (d : f64) rest off stk :
  0 <= d < 2 ^ 64 ->
  decode_f64 (at_input (le_split 8 (pack_f64 d) ++ rest) off stk)
  = Done (d, at_input rest (off + 8) stk).
Proof.
  intros Hd. unfold decode_f64.
  erewrite bind_Done by apply decode_integral_wire.
  unfold ret, little_endian_to_native, unpack_f64, pack_f64, cast_u64, cast_signed.
  rewrite firstn_all2 by (rewrite length_le_split; lia).
  rewrite le_combine_split.
  do 2 f_equal.
  change (Z.of_nat 8 * 8) with 64. change (8 * Z.of_nat 8) with 64.
  rewrite !(Z.mod_small d) by lia.
  rewrite Zminus_mod_idemp_l.
  replace (d + 2 ^ (64 - 1) - 2 ^ (64 - 1)) with d by lia.
  apply Z.mod_small; lia.
Qed.

Lemma decode_string_utf8_wire (str : list byte) rest off stk :
  fits_u32 (List.length str) ->
  decode_string_utf8 (at_input ((size_indicator (List.length str) ++ str) ++ rest) off stk)
  = Done (str, at_input rest (off + 4 + Z.of_nat (List.length str)) stk).
Proof.
  intros Hn. unfold decode_string_utf8. rewrite <- !app_assoc.
  erewrite bind_Done by (apply decode_size_indicator_wire; exact Hn).
  rewrite Nat2Z.id. apply read_bytes_app.
Qed.

(** *** Strings of 7-bit characters *)

Lemma seven_bit_cases (P : Z -> bool) :
  forallb P (map Z.of_nat (seq 0 128)) = true ->
  forall c, seven_bit c -> P c = true.
Proof.
  intros H c Hc. rewrite forallb_forall in H. apply H.
  apply in_map_iff. exists (Z.to_nat c). split; [unfold seven_bit in Hc; lia|].
  apply in_seq. unfold seven_bit in Hc. lia.
Qed.

Lemma write_utf8_asciiz_seven_bit (c : Z) :
  seven_bit c -> write_utf8_asciiz c = [byte.of_Z c].
Proof.
  intros Hc. unfold write_utf8_asciiz, seven_bit in *.
  replace (c <? 128) with true by (symmetry; apply Z.ltb_lt; lia). reflexivity.
Qed.

Lemma count_utf8_following_chars_seven_bit (c : Z) :
  seven_bit c -> count_utf8_following_chars (byte.of_Z c) = 0.
Proof.
  intros Hc. apply Z.eqb_eq.
  revert c Hc. apply seven_bit_cases. vm_compute. reflexivity.
Qed.

Lemma unsigned_seven_bit (c : Z) : seven_bit c -> byte.unsigned (byte.of_Z c) = c.
Proof.
  intros Hc. rewrite byte.unsigned_of_Z. unfold byte.wrap, seven_bit in *.
  apply Z.mod_small. lia.
Qed.

Lemma utf8_bytes_seven_bit (str : list Z) :
  Forall seven_bit str -> utf8_bytes str = map byte.of_Z str.
Proof.
  induction 1 as [|c str Hc _ IH]; cbn [utf8_bytes map]; [reflexivity|].
  now rewrite write_utf8_asciiz_seven_bit, IH.
Qed.

Lemma calc_utf8_length_seven_bit (str : list Z) :
  Forall seven_bit str -> calc_utf8_length str = Z.of_nat (List.length str).
Proof.
  induction 1 as [|c str Hc _ IH]; cbn [calc_utf8_length List.length]; [reflexivity|].
  rewrite write_utf8_asciiz_seven_bit, IH by assumption. cbn [List.length]. lia.
Qed.

Lemma decode_u32string_loop_seven_bit (str : list Z) :
  Forall seven_bit str ->
  forall fuel length i value rest off stk,
    (List.length str <= fuel)%nat ->
    length = i + Z.of_nat (List.length str) ->
    decode_u32string_loop fuel length i value
      (at_input (map byte.of_Z str ++ rest) off stk)
    = Done (value ++ str, at_input rest (off + Z.of_nat (List.length str)) stk).
Proof.
  induction 1 as [|c str Hc _ IH]; intros fuel length i value rest off stk Hfuel Hlen.
  - cbn [List.length map app] in *.
    replace (decode_u32string_loop fuel length i value)
      with (@ret marshal_dec_bin _ value).
    + unfold ret. now rewrite app_nil_r, Z.add_0_r.
    + destruct fuel; cbn [decode_u32string_loop];
        replace (i <? length) with false by (symmetry; apply Z.ltb_ge; lia);
        reflexivity.
  - destruct fuel as [|fuel]; [cbn in Hfuel; lia|].
    cbn [decode_u32string_loop].
    replace (i <? length) with true
      by (symmetry; apply Z.ltb_lt; cbn [List.length] in Hlen; lia).
    cbn [map app].
    erewrite bind_Done by (apply (read_bytes_app [byte.of_Z c])).
    cbn [nth]. rewrite count_utf8_following_chars_seven_bit by assumption.
    cbn [Z.eqb]. rewrite unsigned_seven_bit by assumption.
    rewrite IH; cbn [List.length] in *; try lia.
    rewrite <- app_assoc. cbn [app]. do 2 f_equal. apply at_input_eq. lia.
Qed.

Lemma decode_u32string_wire (str : list Z) rest off stk :
  Forall seven_bit str -> fits_u32 (List.length str) ->
  decode_u32string
    (at_input ((le_split 4 (calc_utf8_length str) ++ utf8_bytes str) ++ rest) off stk)
  = Done (str, at_input rest (off + 4 + Z.of_nat (List.length str)) stk).
Proof.
  intros Hs Hn. unfold decode_u32string.
  rewrite calc_utf8_length_seven_bit, utf8_bytes_seven_bit, <- app_assoc by assumption.
  erewrite bind_Done by (apply decode_size_indicator_wire; exact Hn).
  rewrite decode_u32string_loop_seven_bit with (value := []); auto.
  rewrite Nat2Z.id. lia.
Qed.

(** *** Field descriptions *)

Lemma land_below_flag (id : Z) :
  0 <= id < 2 ^ 32 -> Z.land id marshal_label_info_optional_flag = 0.
Proof.
  intros Hid.
  rewrite <- (Z.mod_small id (2 ^ 32)) by lia.
  rewrite <- Z.land_ones, <- Z.land_assoc by lia.
  change (Z.land (Z.ones 32) marshal_label_info_optional_flag) with 0.
  apply Z.land_0_r.
Qed.

Lemma marshal_label_info_to_id_calc (id : Z) (optional : bool) :
  0 <= id < 2 ^ 32 ->
  marshal_label_info_to_id (marshal_label_info_calc id optional) = id.
Proof.
  intros Hid. unfold marshal_label_info_to_id, marshal_label_info_calc, cast_u32.
  change 0xFFFFFFFF with (Z.ones 32).
  rewrite Z.land_lor_distr_l, (Z.land_ones id) by lia.
  replace (Z.land (if optional then marshal_label_info_optional_flag else 0) (Z.ones 32))
    with 0 by (destruct optional; reflexivity).
  rewrite Z.lor_0_l, Z.mod_mod by lia. apply Z.mod_small; lia.
Qed.

Lemma marshal_label_info_is_optional_calc (id : Z) (optional : bool) :
  0 <= id < 2 ^ 32 ->
  marshal_label_info_is_optional (marshal_label_info_calc id optional) = optional.
Proof.
  intros Hid. unfold marshal_label_info_is_optional, marshal_label_info_calc.
  rewrite Z.land_lor_distr_l, (land_below_flag id Hid), Z.lor_0_r.
  destruct optional; reflexivity.
Qed.

(** *** The structural operations on the states of a well-formed run *)

Ltac dec_cbn :=
  cbn [stack_top get_offset stack_emplace stack_pop stack_set_top at_input
         tl m_input m_offset m_stack m_element_type m_extensible m_end_offset
         m_field_infos m_fields_count m_field_pos struct_frame sequence_frame
         stack_element_1 stack_element_2 stack_element_3 stack_element_5 next_field
         element_type_eqb negb andb orb ret fst snd throw_if].

Ltac dec_simpl :=
  dec_cbn;
  change (@hd_error stack_element (?f :: ?l)) with (Some f) in *;
  dec_cbn.

Lemma check_not_in_container_ok input off stk :
  value_allowed stk ->
  check_not_in_container (at_input input off stk) = Done (tt, at_input input off stk).
Proof.
  intros Hs. unfold check_not_in_container, bind, stack_top; cbn [at_input m_stack].
  destruct stk as [|f stk]; cbn [hd_error]; [reflexivity|].
  cbn [value_allowed] in Hs.
  destruct Hs as [H|[H|[H|H]]]; rewrite H; reflexivity.
Qed.

Lemma decode_struct_begin_wire (extensible : bool) (n : nat) infos count rest off stk :
  value_allowed stk -> (extensible = true -> fits_u32 n) ->
  decode_struct_begin extensible infos count
    (at_input ((if extensible then size_indicator n else []) ++ rest) off stk)
  = Done (tt, let off' := off + (if extensible then 4 else 0) in
              at_input rest off'
                (struct_frame extensible (off' + (if extensible then Z.of_nat n else 0))
                              infos count 0 :: stk)).
Proof.
  intros Hs Hn. unfold decode_struct_begin.
  erewrite bind_Done by (apply check_not_in_container_ok; exact Hs).
  destruct extensible.
  - erewrite bind_Done by (apply decode_size_indicator_wire; exact (Hn eq_refl)).
    reflexivity.
  - cbn [app]. unfold bind; dec_simpl. cbv zeta. rewrite !Z.add_0_r. reflexivity.
Qed.

Lemma decode_struct_end_wire (extensible : bool) eo infos count pos
      (extra rest : list byte) off stk :
  (extensible = true -> eo = off + Z.of_nat (List.length extra)) ->
  (extensible = false -> extra = []) ->
  decode_struct_end
    (at_input (extra ++ rest) off (struct_frame extensible eo infos count pos :: stk))
  = Done (tt, at_input rest (off + Z.of_nat (List.length extra)) stk).
Proof.
  intros He Hn. unfold decode_struct_end.
  unfold bind at 1; dec_simpl. unfold bind at 1; dec_simpl.
  unfold bind at 1; dec_simpl.
  destruct extensible.
  - rewrite (He eq_refl).
    destruct extra as [|b extra].
    + cbn [List.length app Z.of_nat]. rewrite Z.add_0_r, Z.ltb_irrefl.
      replace (off >? off) with false by (rewrite Z.gtb_ltb; symmetry; apply Z.ltb_irrefl).
      reflexivity.
    + replace (off <? off + Z.of_nat (List.length (b :: extra))) with true
        by (symmetry; apply Z.ltb_lt; cbn [List.length]; lia).
      replace (off + Z.of_nat (List.length (b :: extra)) - off)
        with (Z.of_nat (List.length (b :: extra))) by lia.
      rewrite Nat2Z.id.
      erewrite bind_Done by apply skip_bytes_app. reflexivity.
  - rewrite (Hn eq_refl). cbn [List.length app Z.of_nat]. now rewrite Z.add_0_r.
Qed.

Lemma decode_struct_field_begin_end_of_fields extensible eo infos count input off stk :
  decode_struct_field_begin true
    (at_input input off (struct_frame extensible eo infos count count :: stk))
  = Done ((marshal_label_id_INVALID, None),
          at_input input off (struct_frame extensible eo infos count count :: stk)).
Proof.
  unfold decode_struct_field_begin. unfold bind at 1 2; dec_simpl.
  replace (count >=? count) with true by (rewrite Z.geb_leb; symmetry; apply Z.leb_le; lia).
  reflexivity.
Qed.

Lemma decode_struct_field_begin_mandatory extensible eo infos count pos id input off stk :
  0 <= pos < count -> 0 <= id < 2 ^ 32 ->
  nth_error infos (Z.to_nat pos) = Some (marshal_label_info_calc id false) ->
  (extensible = true -> off < eo) ->
  decode_struct_field_begin true
    (at_input input off (struct_frame extensible eo infos count pos :: stk))
  = Done ((id, Some true),
          at_input input off
            (stack_element_1 FIELD
               :: struct_frame extensible eo infos count (pos + 1) :: stk)).
Proof.
  intros Hpos Hid Hnth Hext. unfold decode_struct_field_begin.
  unfold bind at 1 2; dec_simpl.
  replace (pos >=? count) with false by (rewrite Z.geb_leb; symmetry; apply Z.leb_gt; lia).
  unfold bind at 1; dec_simpl.
  replace (extensible && (eo =? off)) with false
    by (destruct extensible; [cbn [andb]; symmetry; apply Z.eqb_neq;
                              specialize (Hext eq_refl); lia | reflexivity]).
  replace (extensible && (eo <? off)) with false
    by (destruct extensible; [cbn [andb]; symmetry; apply Z.ltb_ge;
                              specialize (Hext eq_refl); lia | reflexivity]).
  unfold bind at 1; dec_simpl. rewrite Hnth.
  rewrite marshal_label_info_to_id_calc, marshal_label_info_is_optional_calc by assumption.
  reflexivity.
Qed.

Lemma decode_struct_field_begin_optional extensible eo infos count pos id
      (present : bool) rest off stk :
  0 <= pos < count -> 0 <= id < 2 ^ 32 ->
  nth_error infos (Z.to_nat pos) = Some (marshal_label_info_calc id true) ->
  (extensible = true -> off < eo) ->
  decode_struct_field_begin true
    (at_input (byte.of_Z (if present then 1 else 0) :: rest) off
              (struct_frame extensible eo infos count pos :: stk))
  = Done ((id, Some present),
          at_input rest (off + 1)
            (stack_element_1 FIELD
               :: struct_frame extensible eo infos count (pos + 1) :: stk)).
Proof.
  intros Hpos Hid Hnth Hext. unfold decode_struct_field_begin.
  unfold bind at 1 2; dec_simpl.
  replace (pos >=? count) with false by (rewrite Z.geb_leb; symmetry; apply Z.leb_gt; lia).
  unfold bind at 1; dec_simpl.
  replace (extensible && (eo =? off)) with false
    by (destruct extensible; [cbn [andb]; symmetry; apply Z.eqb_neq;
                              specialize (Hext eq_refl); lia | reflexivity]).
  replace (extensible && (eo <? off)) with false
    by (destruct extensible; [cbn [andb]; symmetry; apply Z.ltb_ge;
                              specialize (Hext eq_refl); lia | reflexivity]).
  unfold bind at 1; dec_simpl. rewrite Hnth.
  rewrite marshal_label_info_to_id_calc, marshal_label_info_is_optional_calc by assumption.
  unfold bind at 1 2 3; dec_simpl. cbn [assert ret].
  erewrite bind_Done by apply decode_bool_wire. reflexivity.
Qed.

Lemma decode_struct_field_end_ok input off stk :
  decode_struct_field_end (at_input input off (stack_element_1 FIELD :: stk))
  = Done (tt, at_input input off stk).
Proof. reflexivity. Qed.

Lemma decode_array_begin_wire (n : nat) rest off stk :
  value_allowed stk -> fits_u32 n ->
  decode_array_begin (at_input (size_indicator n ++ rest) off stk)
  = Done (0, at_input rest (off + 4) (sequence_frame ARRAY (Z.of_nat n) 0 :: stk)).
Proof.
  intros Hs Hn. unfold decode_array_begin.
  erewrite bind_Done by (apply check_not_in_container_ok; exact Hs).
  erewrite bind_Done by (apply decode_size_indicator_wire; exact Hn). reflexivity.
Qed.

Lemma decode_dictionary_begin_wire (n : nat) rest off stk :
  value_allowed stk -> fits_u32 n ->
  decode_dictionary_begin (at_input (size_indicator n ++ rest) off stk)
  = Done (0, at_input rest (off + 4) (sequence_frame DICTIONARY (Z.of_nat n) 0 :: stk)).
Proof.
  intros Hs Hn. unfold decode_dictionary_begin.
  erewrite bind_Done by (apply check_not_in_container_ok; exact Hs).
  erewrite bind_Done by (apply decode_size_indicator_wire; exact Hn). reflexivity.
Qed.

Lemma decode_array_element_begin_more count pos input off stk :
  pos < count ->
  decode_array_element_begin
    (at_input input off (sequence_frame ARRAY count pos :: stk))
  = Done (true, at_input input off
                  (stack_element_1 ARRAY_ELEMENT
                     :: sequence_frame ARRAY count (pos + 1) :: stk)).
Proof.
  intros Hpos. unfold decode_array_element_begin. unfold bind at 1 2; dec_simpl.
  replace (pos >=? count) with false by (rewrite Z.geb_leb; symmetry; apply Z.leb_gt; lia).
  reflexivity.
Qed.

Lemma decode_array_element_begin_done count input off stk :
  decode_array_element_begin
    (at_input input off (sequence_frame ARRAY count count :: stk))
  = Done (false, at_input input off (sequence_frame ARRAY count count :: stk)).
Proof.
  unfold decode_array_element_begin. unfold bind at 1 2; dec_simpl.
  replace (count >=? count) with true by (rewrite Z.geb_leb; symmetry; apply Z.leb_le; lia).
  reflexivity.
Qed.

Lemma decode_element_end_ok kind input off stk :
  decode_element_end kind (at_input input off (stack_element_1 kind :: stk))
  = Done (tt, at_input input off stk).
Proof. destruct kind; reflexivity. Qed.

Lemma decode_sequence_end_ok kind count input off stk :
  decode_sequence_end kind (at_input input off (sequence_frame kind count count :: stk))
  = Done (tt, at_input input off stk).
Proof.
  unfold decode_sequence_end. unfold bind at 1; dec_simpl.
  replace (element_type_eqb kind kind) with true by (destruct kind; reflexivity).
  unfold bind at 1; dec_simpl. rewrite Z.eqb_refl. reflexivity.
Qed.

Lemma decode_dictionary_element_begin_more count pos (key : list byte) rest off stk :
  pos < count -> fits_u32 (List.length key) ->
  decode_dictionary_element_begin
    (at_input ((size_indicator (List.length key) ++ key) ++ rest) off
              (sequence_frame DICTIONARY count pos :: stk))
  = Done (Some key, at_input rest (off + 4 + Z.of_nat (List.length key))
                      (stack_element_1 DICTIONARY_ELEMENT
                         :: sequence_frame DICTIONARY count (pos + 1) :: stk)).
Proof.
  intros Hpos Hk. unfold decode_dictionary_element_begin. unfold bind at 1 2; dec_simpl.
  replace (pos >=? count) with false by (rewrite Z.geb_leb; symmetry; apply Z.leb_gt; lia).
  unfold bind at 1; dec_simpl.
  erewrite bind_Done by (apply decode_string_utf8_wire; exact Hk). reflexivity.
Qed.

Lemma decode_dictionary_element_begin_done count input off stk :
  decode_dictionary_element_begin
    (at_input input off (sequence_frame DICTIONARY count count :: stk))
  = Done (None, at_input input off (sequence_frame DICTIONARY count count :: stk)).
Proof.
  unfold decode_dictionary_element_begin. unfold bind at 1 2; dec_simpl.
  replace (count >=? count) with true by (rewrite Z.geb_leb; symmetry; apply Z.leb_le; lia).
  reflexivity.
Qed.

Lemma decode_typed_begin_wire (extensible : bool) (id : Z) (n : nat) rest off stk :
  value_allowed stk -> 0 <= id < 2 ^ 32 -> (extensible = true -> fits_u32 n) ->
  decode_typed_begin extensible
    (at_input ((le_split 4 id ++ (if extensible then size_indicator n else [])) ++ rest)
              off stk)
  = Done (id, let off' := off + 4 + (if extensible then 4 else 0) in
              at_input rest off'
                (stack_element_3 TYPED extensible
                   (off' + (if extensible then Z.of_nat n else 0)) :: stk)).
Proof.
  intros Hs Hid Hn. unfold decode_typed_begin. rewrite <- app_assoc.
  erewrite bind_Done by (apply check_not_in_container_ok; exact Hs).
  erewrite bind_Done by (apply decode_u32_wire; exact Hid).
  destruct extensible.
  - erewrite bind_Done by (apply decode_size_indicator_wire; exact (Hn eq_refl)).
    reflexivity.
  - cbn [app]. unfold bind; dec_simpl. cbv zeta. rewrite !Z.add_0_r. reflexivity.
Qed.

Lemma decode_typed_end_ok (extensible : bool) eo input off stk :
  (extensible = true -> eo = off) ->
  decode_typed_end (at_input input off (stack_element_3 TYPED extensible eo :: stk))
  = Done (tt, at_input input off stk).
Proof.
  intros He. unfold decode_typed_end. unfold bind at 1 2 3 4; dec_simpl.
  destruct extensible; [|reflexivity].
  rewrite (He eq_refl), Z.eqb_refl. reflexivity.
Qed.

Lemma value_allowed_plain (kind : marshal_bin_element_type) stk :
  kind = FIELD \/ kind = ARRAY_ELEMENT \/ kind = DICTIONARY_ELEMENT \/ kind = TYPED ->
  value_allowed (stack_element_1 kind :: stk).
Proof. intros H; exact H. Qed.

Lemma value_allowed_typed ext eo stk : value_allowed (stack_element_3 TYPED ext eo :: stk).
Proof. cbn. auto. Qed.

Ltac side :=
  first [ assumption | lia
        | solve [auto using value_allowed_plain, value_allowed_typed] ].

Ltac run L := erewrite bind_Done by (apply L; side).

Lemma Done_at_input {A} (a : A) input o1 o2 stk :
  o1 = o2 -> Done (a, at_input input o1 stk) = Done (a, at_input input o2 stk).
Proof. now intros ->. Qed.

Section Sequences.
Variable e : schema.
Hypothesis decode_element :
  forall v, admits e v -> forall rest off stk, value_allowed stk ->
    decode_value e (at_input (wire e v ++ rest) off stk)
    = Done (v, at_input rest (off + Z.of_nat (List.length (wire e v))) stk).

Lemma decode_elements_wire (vs : value_list) :
  admits_elements e vs -> forall fuel pos count rest off stk,
  (VL_length vs < fuel)%nat -> count = pos + Z.of_nat (VL_length vs) ->
  decode_elements e fuel
    (at_input (wire_elements e vs ++ rest) off (sequence_frame ARRAY count pos :: stk))
  = Done (vs, at_input rest (off + Z.of_nat (List.length (wire_elements e vs)))
                (sequence_frame ARRAY count count :: stk)).
Proof.
  induction vs as [|v vs IH]; intros Hall fuel pos count rest off stk Hfuel Hcount;
    (destruct fuel as [|fuel]; [cbn in Hfuel; lia|]);
    cbn [VL_length wire_elements admits_elements] in *;
    cbn [decode_elements]; fold (decode_elements e).
  - replace pos with count by lia.
    run decode_array_element_begin_done.
    cbn [app List.length Z.of_nat]. now rewrite Z.add_0_r.
  - destruct Hall as [Hv Hrest].
    run decode_array_element_begin_more.
    rewrite <- app_assoc.
    run decode_element.
    run decode_element_end_ok.
    erewrite bind_Done by (apply IH; [assumption | lia | lia]).
    unfold ret. apply Done_at_input. rewrite length_app. lia.
Qed.

Lemma decode_entries_wire (es : entry_list) :
  admits_entries e es -> forall fuel pos count rest off stk,
  (E_length es < fuel)%nat -> count = pos + Z.of_nat (E_length es) ->
  decode_entries e fuel
    (at_input (wire_entries e es ++ rest) off (sequence_frame DICTIONARY count pos :: stk))
  = Done (es, at_input rest (off + Z.of_nat (List.length (wire_entries e es)))
                (sequence_frame DICTIONARY count count :: stk)).
Proof.
  induction es as [|key v es IH]; intros Hall fuel pos count rest off stk Hfuel Hcount;
    (destruct fuel as [|fuel]; [cbn in Hfuel; lia|]);
    cbn [E_length wire_entries admits_entries] in *;
    cbn [decode_entries]; fold (decode_entries e).
  - replace pos with count by lia.
    run decode_dictionary_element_begin_done.
    cbn [app List.length Z.of_nat]. now rewrite Z.add_0_r.
  - destruct Hall as [Hk [Hv Hrest]].
    rewrite <- (app_assoc (_ ++ key)).
    run decode_dictionary_element_begin_more.
    rewrite <- app_assoc.
    run decode_element.
    run decode_element_end_ok.
    erewrite bind_Done by (apply IH; [assumption | lia | lia]).
    unfold ret. apply Done_at_input.
    unfold size_indicator. rewrite !length_app, length_le_split. lia.
Qed.
End Sequences.

Ltac lengths :=
  cbn [wire_fields app];
  repeat first [rewrite length_app | rewrite length_cons | rewrite length_nil];
  lia.

Lemma struct_frame_eq ext eo infos infos' count count' pos pos' :
  infos = infos' -> count = count' -> pos = pos' ->
  struct_frame ext eo infos count pos = struct_frame ext eo infos' count' pos'.
Proof. now intros -> -> ->. Qed.

Lemma nth_error_middle {A} (pre post : list A) (x : A) :
  nth_error (pre ++ x :: post) (Z.to_nat (Z.of_nat (List.length pre))) = Some x.
Proof.
  rewrite Nat2Z.id, nth_error_app2, Nat.sub_diag by lia. reflexivity.
Qed.

Lemma decode_field_step (label : marshal_label) (optional : bool) (s : schema)
      (rest_fs : field_list) :
  value_statement s -> fields_statement rest_fs ->
  fields_statement (F_cons label optional s rest_fs).
Proof.
  intros IHs IHr ext fvs Hv pre eo extra rest off stk Heo.
  set (info := marshal_label_info_calc (m_label_id label) optional).
  assert (Hinfos : pre ++ field_infos (F_cons label optional s rest_fs)
                   = (pre ++ [info]) ++ field_infos rest_fs)
    by (cbn [field_infos]; now rewrite <- app_assoc).
  assert (Hcount : Z.of_nat (List.length pre + F_length (F_cons label optional s rest_fs))
                   = Z.of_nat (List.length (pre ++ [info]) + F_length rest_fs))
    by (rewrite length_app; cbn [F_length List.length]; lia).
  assert (Hpos : Z.of_nat (List.length pre) + 1 = Z.of_nat (List.length (pre ++ [info])))
    by (rewrite length_app; cbn [List.length]; lia).
  assert (Hnth : nth_error (pre ++ field_infos (F_cons label optional s rest_fs))
                   (Z.to_nat (Z.of_nat (List.length pre))) = Some info)
    by apply nth_error_middle.
  assert (Hlt : 0 <= Z.of_nat (List.length pre)
                < Z.of_nat (List.length pre + F_length (F_cons label optional s rest_fs)))
    by (cbn [F_length]; lia).
  destruct optional, fvs; try contradiction; cbn [decode_fields wire_fields];
    cbn [wire_fields] in Heo.
  - (* optional, missing *)
    destruct Hv as [Hl Hrest]. unfold valid_label in Hl.
    cbn [app].
    erewrite bind_Done
      by (apply (decode_struct_field_begin_optional _ _ _ _ _ (m_label_id label) false);
          [exact Hlt | lia | exact Hnth
          | intros E; rewrite (Heo E); lengths]).
    cbv beta iota.
    replace (m_label_id label =? marshal_label_id_INVALID) with false
      by (symmetry; apply Z.eqb_neq; unfold marshal_label_id_INVALID; lia).
    rewrite Z.eqb_refl. cbn [negb].
    run decode_struct_field_end_ok.
    rewrite Hinfos, Hcount, Hpos.
    erewrite bind_Done
      by (apply (IHr ext); [exact Hrest
                           | intros E; rewrite (Heo E); lengths]).
    unfold ret. apply Done_at_input. lengths.
  - (* optional, present *)
    destruct Hv as [Hl [Hv Hrest]]. unfold valid_label in Hl.
    cbn [app].
    erewrite bind_Done
      by (apply (decode_struct_field_begin_optional _ _ _ _ _ (m_label_id label) true);
          [exact Hlt | lia | exact Hnth
          | intros E; rewrite (Heo E); lengths]).
    cbv beta iota.
    replace (m_label_id label =? marshal_label_id_INVALID) with false
      by (symmetry; apply Z.eqb_neq; unfold marshal_label_id_INVALID; lia).
    rewrite Z.eqb_refl. cbn [negb].
    rewrite <- app_assoc.
    run IHs.
    run decode_struct_field_end_ok.
    rewrite Hinfos, Hcount, Hpos.
    erewrite bind_Done
      by (apply (IHr ext); [exact Hrest
                           | intros E; rewrite (Heo E); lengths]).
    unfold ret. apply Done_at_input. lengths.
  - (* mandatory *)
    destruct Hv as [Hl [Hv [Hne Hrest]]]. unfold valid_label in Hl.
    erewrite bind_Done
      by (apply (decode_struct_field_begin_mandatory _ _ _ _ _ (m_label_id label));
          [exact Hlt | lia | exact Hnth
          | intros E; rewrite (Heo E); specialize (Hne E);
            rewrite length_app; destruct (wire s v); [congruence | cbn [List.length]; lia]]).
    cbv beta iota.
    replace (m_label_id label =? marshal_label_id_INVALID) with false
      by (symmetry; apply Z.eqb_neq; unfold marshal_label_id_INVALID; lia).
    rewrite Z.eqb_refl. cbn [negb].
    rewrite <- app_assoc.
    run IHs.
    run decode_struct_field_end_ok.
    rewrite Hinfos, Hcount, Hpos.
    erewrite bind_Done
      by (apply (IHr ext); [exact Hrest
                           | intros E; rewrite (Heo E); lengths]).
    unfold ret. apply Done_at_input. lengths.
Qed.

(** Every value a schema admits is read back from its wire form: the
    decoder returns the value, has consumed exactly the wire form, and
    leaves the stack as it was. *)
Lemma decode_value_wire :
  (forall s, value_statement s) /\ (forall fs, fields_statement fs)
  /\ (forall ts, types_statement ts).
Proof.
  apply schema_mutind; unfold value_statement.
  - intros [] Hv rest off stk Hs; try contradiction.
    cbn [decode_value wire app]. run decode_bool_wire. reflexivity.
  - intros t [] Hv rest off stk Hs; try contradiction.
    cbn [decode_value wire]. run decode_int_wire.
    unfold ret. now rewrite length_le_split.
  - intros [] Hv rest off stk Hs; try contradiction.
    cbn [decode_value wire]. run decode_f64_wire.
    unfold ret. now rewrite length_le_split.
  - intros [] Hv rest off stk Hs; try contradiction.
    cbn [decode_value wire]. run decode_string_utf8_wire.
    unfold ret, size_indicator. apply Done_at_input.
    rewrite length_app, length_le_split. lia.
  - intros [] Hv rest off stk Hs; try contradiction. destruct Hv as [Hc Hn].
    cbn [decode_value wire]. run decode_u32string_wire.
    unfold ret. apply Done_at_input.
    rewrite length_app, length_le_split, utf8_bytes_seven_bit, length_map by assumption.
    lia.
  - intros n [] Hv rest off stk Hs; try contradiction.
    cbn [decode_value wire admits] in *. subst n.
    unfold internal_decode_binary. run read_bytes_app. reflexivity.
  - intros [] Hv rest off stk Hs; try contradiction.
    cbn [decode_value wire admits] in *.
    unfold internal_decode_varsize_binary.
    erewrite bind_Done
      by (erewrite bind_Done by (rewrite <- app_assoc; apply decode_size_indicator_wire;
                                 exact Hv);
          rewrite Nat2Z.id; apply read_bytes_app).
    unfold ret, size_indicator. apply Done_at_input.
    rewrite length_app, length_le_split. lia.
  - (* struct *)
    intros ext fs IH [] Hv rest off stk Hs; try contradiction. destruct Hv as [Hf Hn].
    cbn [decode_value wire]. rewrite <- app_assoc.
    erewrite bind_Done
      by (apply decode_struct_begin_wire with (n := List.length (wire_fields fs fields));
          [exact Hs | exact Hn]).
    cbv zeta.
    rewrite <- (app_nil_l rest) at 1.
    erewrite bind_Done
      by (apply (IH ext fields Hf []);
          intros E; rewrite E; cbn [List.length]; lia).
    cbn [app List.length Nat.add].
    erewrite bind_Done
      by (apply (decode_struct_end_wire ext _ _ _ _ []);
          [intros E; rewrite E; cbn [List.length]; lia | reflexivity]).
    unfold ret, size_indicator. apply Done_at_input.
    destruct ext; rewrite ?length_app, ?length_le_split; cbn [List.length app]; lia.
  - (* array *)
    intros e IH [] Hv rest off stk Hs; try contradiction. destruct Hv as [Hn Hall].
    cbn [decode_value wire]. fold (wire_elements e). rewrite <- app_assoc.
    run decode_array_begin_wire.
    erewrite bind_Done
      by (cbv beta; apply (decode_elements_wire e IH elements Hall);
          [cbn; lia | lia]).
    run decode_sequence_end_ok.
    unfold ret, size_indicator. apply Done_at_input.
    rewrite length_app, length_le_split. lia.
  - (* dictionary *)
    intros e IH [] Hv rest off stk Hs; try contradiction. destruct Hv as [Hn Hall].
    cbn [decode_value wire]. fold (wire_entries e). rewrite <- app_assoc.
    run decode_dictionary_begin_wire.
    erewrite bind_Done
      by (cbv beta; apply (decode_entries_wire e IH entries Hall);
          [cbn; lia | lia]).
    run decode_sequence_end_ok.
    unfold ret, size_indicator. apply Done_at_input.
    rewrite length_app, length_le_split. lia.
  - (* typed *)
    intros ext ts IH [] Hv rest off stk Hs; try contradiction.
    + destruct Hv as [Hl [Ht Hn]]. unfold valid_label in Hl.
      cbn [decode_value wire]. rewrite app_assoc.
      rewrite <- (app_assoc _ _ rest).
      erewrite bind_Done
        by (apply decode_typed_begin_wire
              with (n := List.length (wire_as_type ts (m_label_id label) v));
            [exact Hs | lia | exact Hn]).
      cbv zeta.
      replace (m_label_id label =? marshal_label_id_INVALID) with false
        by (symmetry; apply Z.eqb_neq; unfold marshal_label_id_INVALID; lia).
      run IH. cbv beta iota.
      erewrite bind_Done
        by (apply decode_typed_end_ok; intros E; rewrite E; lia).
      unfold ret, size_indicator. apply Done_at_input.
      destruct ext; rewrite ?length_app, ?length_le_split; cbn [List.length app]; lia.
    + cbn [decode_value wire]. rewrite <- app_assoc.
      rewrite (app_assoc (le_split 4 _)).
      erewrite bind_Done
        by (apply decode_typed_begin_wire with (n := 0%nat);
            [exact Hs | unfold marshal_label_id_INVALID; lia
            | intros _; unfold fits_u32; cbn; lia]).
      cbv zeta. rewrite Z.eqb_refl.
      erewrite bind_Done
        by (apply decode_typed_end_ok; intros E; rewrite E; cbn; lia).
      unfold ret, size_indicator. apply Done_at_input.
      destruct ext; rewrite ?length_app, ?length_le_split; cbn [List.length app]; lia.
  - (* no field *)
    intros ext [|r|v r] Hv pre eo extra rest off stk Heo; try contradiction.
    cbn [decode_fields wire_fields field_infos F_length app List.length].
    rewrite Nat.add_0_r.
    run decode_struct_field_begin_end_of_fields.
    cbv beta iota. rewrite Z.eqb_refl. unfold ret. now rewrite Z.add_0_r.
  - (* a field *)
    intros label optional s IHs rest_fs IHr. now apply decode_field_step.
  - (* no type *)
    intros l v [].
  - (* a type *)
    intros label s IHs rest_ts IHr l v Hv rest off stk Hs.
    cbn [decode_as_type wire_as_type admits_as_type] in *.
    destruct (m_label_id label =? m_label_id l).
    + destruct Hv as [-> Hv]. run IHs. reflexivity.
    + now apply IHr.
Qed.
End DecBinFacts.

(** ** The binary codec: round trip, extensible structures, optional fields *)

Section BinaryClaims.
Import Driver.




(** A fresh encoder produces the wire form of an admitted value. *)
Lemma encode_bin_wire (s : schema) (v : value) :
  admits s v -> encode_bin s v = Done (wire s v).
Proof.
  intros Hv. unfold encode_bin.
  change EncBin.initial with (EncBinAt.at_end [] []).
  rewrite (proj1 EncBinFacts.encode_value_wire s v Hv [] [] I). reflexivity.
Qed.

(** A fresh decoder reads the wire form of an admitted value back and stops
    at its end with an empty stack. *)
Lemma decode_bin_wire (s : schema) (v : value) :
  admits s v ->
  decode_bin (wire s v) s
  = Done (v, DecBinAt.at_input [] (Z.of_nat (List.length (wire s v))) []).
Proof.
  intros Hv. unfold decode_bin.
  change (DecBin.initial (wire s v)) with (DecBinAt.at_input (wire s v) 0 []).
  rewrite <- (app_nil_r (wire s v)) at 1.
  rewrite (proj1 DecBinFacts.decode_value_wire s v Hv [] 0 [] I). reflexivity.
Qed.

(** Binary round trip on the admitted values: [decode_bin (encode_bin v S) S]
    returns [v], for extensible and non-extensible frames alike. *)
Lemma roundtrip_bin_admitted (s : schema) (v : value) :
  admits s v ->
  exists bytes, encode_bin s v = Done bytes
                /\ decode_bin bytes s
                   = Done (v, DecBinAt.at_input [] (Z.of_nat (List.length bytes)) []).
Proof.
  intros Hv. exists (wire s v). split.
  - now apply encode_bin_wire.
  - now apply decode_bin_wire.
Qed.






Example crc32_myField : crc32 "myField" = 0x07363313.
Proof. vm_compute. reflexivity. Qed.

(** C1 -- binary round trip, non-extensible.  The claim fails on a u32string
    that holds a multi-byte character followed by another character: the
    string U+00E9 'a' is written as 03 00 00 00 C3 A9 61, and the decoder
    returns the one-character string U+00E9 and leaves the byte 61 unread
    ([decode_u32string] advances its counter by [extra_chars+1] and then once
    more by the loop's increment).  On every other admitted value the round
    trip holds: [roundtrip_bin_admitted]. *)
Theorem bin_roundtrip_u32string_truncated :
  encode_bin S_u32string (V_u32string [0xE9; 0x61])
  = Done [Byte.x03; Byte.x00; Byte.x00; Byte.x00; Byte.xc3; Byte.xa9; Byte.x61]
  /\ decode_bin [Byte.x03; Byte.x00; Byte.x00; Byte.x00; Byte.xc3; Byte.xa9; Byte.x61]
                S_u32string
     = Done (V_u32string [0xE9], DecBinAt.at_input [Byte.x61] 6 []).
Proof. split; vm_compute; reflexivity. Qed.






Lemma skip_bytes_impl_spec (n : nat) (input : list byte) off stk :
  DecBin.skip_bytes_impl n (DecBinAt.at_input input off stk)
  = if (n <=? List.length input)%nat
    then Done (tt, DecBinAt.at_input (skipn n input) off stk)
    else Thrown exception_marshal.
Proof.
  revert input; induction n as [|n IH]; intros input; [reflexivity|].
  cbn [DecBin.skip_bytes_impl]. unfold bind.
  destruct input as [|b input]; [reflexivity|].
  change (DecBin.read_bytes_impl 1 (DecBinAt.at_input (b :: input) off stk))
    with (Done ([b], DecBinAt.at_input input off stk)).
  cbv beta iota. rewrite IH. reflexivity.
Qed.

(** C3 -- as amended.  On an extensible typed frame [decode_typed_end]
    succeeds exactly when the offset equals the recorded end offset and throws
    otherwise, whether the frame was under-read or over-read; skipping the
    rest of the frame is what [decode_typed_end_skip] does (when enough bytes
    are left), and it throws when the offset exceeds the end offset. *)
Theorem typed_end_contract (eo : Z) (input : list byte) (off : Z)
        (stk : list DecBin.stack_element) :
  DecBin.decode_typed_end
    (DecBinAt.at_input input off (DecBin.stack_element_3 TYPED true eo :: stk))
  = (if eo =? off then Done (tt, DecBinAt.at_input input off stk)
     else Thrown exception_marshal)
  /\ DecBin.decode_typed_end_skip
       (DecBinAt.at_input input off (DecBin.stack_element_3 TYPED true eo :: stk))
     = (if off <? eo then
          if (Z.to_nat (eo - off) <=? List.length input)%nat
          then Done (tt, DecBinAt.at_input (skipn (Z.to_nat (eo - off)) input)
                           (off + Z.of_nat (Z.to_nat (eo - off))) stk)
          else Thrown exception_marshal
        else if off >? eo then Thrown exception_marshal
             else Done (tt, DecBinAt.at_input input off stk)).
Proof.
  split.
  - unfold DecBin.decode_typed_end, bind; cbn.
    destruct (eo =? off); reflexivity.
  - unfold DecBin.decode_typed_end_skip.
    unfold bind at 1 2 3 4; cbn -[DecBin.skip_bytes Z.to_nat Z.sub Z.ltb Z.gtb bind].
    destruct (off <? eo).
    + unfold DecBin.skip_bytes, bind. rewrite skip_bytes_impl_spec.
      destruct (_ <=? _)%nat; reflexivity.
    + destruct (off >? eo); reflexivity.
Qed.

(** C3 -- the claim as stated fails.  A reader of an extensible typed frame
    of eight payload bytes that has read four of them and calls
    [decode_typed_end] gets an exception, not a skip; [decode_struct_end] in
    the same position of an extensible structure skips. *)
Lemma typed_end_underread_throws :
  let wire_typed := le_split 4 (crc32 "Cat") ++ le_split 4 8 ++ le_split 4 1 ++ le_split 4 2 in
  let wire_struct := le_split 4 8 ++ le_split 4 1 ++ le_split 4 2 in
  (DecBin.decode_typed_begin true;; DecBin.decode_u32;; DecBin.decode_typed_end)
    (DecBin.initial wire_typed) = Thrown exception_marshal
  /\ (DecBin.decode_struct_begin true [] 0;; DecBin.decode_u32;; DecBin.decode_struct_end)
       (DecBin.initial wire_struct) = Done (tt, DecBinAt.at_input [] 12 []).
Proof. split; vm_compute; reflexivity. Qed.





(** What [decode_typed_begin] returns for a typed object written without a
    child: the id of the label given to [encode_typed_begin]. *)
Lemma typed_without_child (label : marshal_label) (extensible : bool) :
  0 <= m_label_id label < 2 ^ 32 ->
  let bytes := le_split 4 (m_label_id label)
               ++ (if extensible then size_indicator 0 else []) in
  (EncBin.encode_typed_begin label extensible;; EncBin.encode_typed_end) EncBin.initial
  = Done (tt, EncBinAt.at_end bytes [])
  /\ (type_id <- DecBin.decode_typed_begin extensible;; DecBin.decode_typed_end;;
      ret type_id) (DecBin.initial bytes)
     = Done (m_label_id label,
             DecBinAt.at_input [] (Z.of_nat (List.length bytes)) []).
Proof.
  intros Hid bytes. split.
  - change EncBin.initial with (EncBinAt.at_end [] []).
    erewrite bind_Done by (apply EncBinFacts.encode_typed_begin_at_end; exact I).
    cbn [app].
    rewrite <- (app_nil_r (if extensible then _ else _)).
    rewrite EncBinFacts.encode_typed_end_at_end. now rewrite app_nil_r.
  - change (DecBin.initial bytes) with (DecBinAt.at_input bytes 0 []).
    unfold bytes. rewrite <- (app_nil_r (_ ++ if extensible then _ else _)).
    erewrite bind_Done
      by (apply DecBinFacts.decode_typed_begin_wire with (n := 0%nat);
          [exact I | exact Hid | intros _; unfold fits_u32; cbn; lia]).
    cbv zeta.
    erewrite bind_Done
      by (apply DecBinFacts.decode_typed_end_ok; intros E; rewrite E; cbn; lia).
    unfold ret. apply DecBinFacts.Done_at_input.
    unfold size_indicator.
    destruct extensible; rewrite ?app_nil_r, ?length_app, !length_le_split; cbn; lia.
Qed.

(** C5 -- typed null.  The claim fails on the binary codec, for every valid
    label: a typed object written with the label and no child is the four
    bytes of the label id (followed by a zero size indicator when
    extensible), and [decode_typed_begin] returns that id, which is not the
    invalid id; [decode_typed_end] then succeeds at the end of the input. *)
Theorem typed_null_decodes_to_label_id (label : marshal_label) (extensible : bool) :
  valid_label label ->
  let bytes := le_split 4 (m_label_id label)
               ++ (if extensible then size_indicator 0 else []) in
  (EncBin.encode_typed_begin label extensible;; EncBin.encode_typed_end) EncBin.initial
  = Done (tt, EncBinAt.at_end bytes [])
  /\ (type_id <- DecBin.decode_typed_begin extensible;; DecBin.decode_typed_end;;
      ret type_id) (DecBin.initial bytes)
     = Done (m_label_id label,
             DecBinAt.at_input [] (Z.of_nat (List.length bytes)) [])
  /\ m_label_id label <> marshal_label_id_INVALID.
Proof.
  intros Hl bytes.
  destruct (typed_without_child label extensible) as [E D].
  { unfold valid_label in Hl. lia. }
  split; [exact E|]. split; [exact D|].
  unfold valid_label, marshal_label_id_INVALID in *. lia.
Qed.

(** The label "myField", whose id is 0x07363313, extensible and not. *)
Lemma typed_null_decodes_to_label_id_witness :
  (type_id <- DecBin.decode_typed_begin false;; DecBin.decode_typed_end;; ret type_id)
    (DecBin.initial (bytes_of_Zs [0x13; 0x33; 0x36; 0x07]))
  = Done (0x07363313, DecBinAt.at_input [] 4 [])
  /\ (type_id <- DecBin.decode_typed_begin true;; DecBin.decode_typed_end;; ret type_id)
       (DecBin.initial (bytes_of_Zs [0x13; 0x33; 0x36; 0x07; 0; 0; 0; 0]))
     = Done (0x07363313, DecBinAt.at_input [] 8 []).
Proof.
  assert (Hl : valid_label (marshal_label_of "myField"))
    by (unfold valid_label; vm_compute; split; reflexivity).
  destruct (typed_null_decodes_to_label_id (marshal_label_of "myField") false Hl)
    as [_ [D _]].
  destruct (typed_null_decodes_to_label_id (marshal_label_of "myField") true Hl)
    as [_ [D' _]].
  split; [exact D | exact D'].
Defined.

(** C10 -- the binary decoder's size hints.  Wherever a value may start,
    [decode_array_begin] and [decode_dictionary_begin] on an input of four
    bytes or more return 0: they consume the four bytes of the element count,
    advance the offset by four and store the count in the new frame, and the
    count is not what they return; on a shorter input they raise an error.
    0 is not [marshal_array_SIZE_UNKNOWN] either, and no call on any decoder
    returns anything but 0. *)
Theorem decode_begin_returns_zero (input : list byte) (off : Z)
        (stk : list DecBin.stack_element) :
  DecBinAt.value_allowed stk ->
  let count := le_combine (firstn 4 input) in
  DecBin.decode_array_begin (DecBinAt.at_input input off stk)
  = (if (4 <=? List.length input)%nat
     then Done (0, DecBinAt.at_input (skipn 4 input) (off + 4)
                     (DecBin.stack_element_2 ARRAY count :: stk))
     else Thrown exception_marshal)
  /\ DecBin.decode_dictionary_begin (DecBinAt.at_input input off stk)
     = (if (4 <=? List.length input)%nat
        then Done (0, DecBinAt.at_input (skipn 4 input) (off + 4)
                        (DecBin.stack_element_2 DICTIONARY count :: stk))
        else Thrown exception_marshal)
  /\ 0 <> marshal_array_SIZE_UNKNOWN
  /\ forall (d d' : DecBin.marshal_dec_bin) (r : Z),
       DecBin.decode_array_begin d = Done (r, d')
       \/ DecBin.decode_dictionary_begin d = Done (r, d') ->
       r = 0.
Proof.
  intros Hs count.
  assert (Hdone : forall kind,
    (DecBin.check_not_in_container;;
     no_of_elements <- DecBin.decode_size_indicator;;
     DecBin.stack_emplace (DecBin.stack_element_2 kind no_of_elements);;
     ret 0) (DecBinAt.at_input input off stk)
    = (if (4 <=? List.length input)%nat
       then Done (0, DecBinAt.at_input (skipn 4 input) (off + 4)
                       (DecBin.stack_element_2 kind count :: stk))
       else Thrown exception_marshal)).
  { intros kind.
    erewrite bind_Done by (apply DecBinFacts.check_not_in_container_ok; exact Hs).
    unfold DecBin.decode_size_indicator, DecBin.decode_u32, DecBin.decode_integral,
      DecBin.read_bytes, DecBin.read_bytes_impl, DecBin.add_offset, DecBin.stack_emplace,
      bind, ret, DecBinAt.at_input.
    cbn [DecBin.m_input DecBin.m_offset DecBin.m_stack].
    destruct (4 <=? List.length input)%nat; [| reflexivity].
    unfold little_endian_to_native, count. rewrite firstn_firstn. reflexivity. }
  assert (Hzero : forall kind (d d' : DecBin.marshal_dec_bin) (r : Z),
    (DecBin.check_not_in_container;;
     no_of_elements <- DecBin.decode_size_indicator;;
     DecBin.stack_emplace (DecBin.stack_element_2 kind no_of_elements);;
     ret 0) d = Done (r, d') -> r = 0).
  { intros kind d d' r H. unfold bind in H.
    destruct (DecBin.check_not_in_container d) as [[[] d1]|]; [|discriminate].
    destruct (DecBin.decode_size_indicator d1) as [[n d2]|]; [|discriminate].
    unfold DecBin.stack_emplace, ret in H. inversion H. reflexivity. }
  split; [apply (Hdone ARRAY) |]. split; [apply (Hdone DICTIONARY) |].
  split; [unfold marshal_array_SIZE_UNKNOWN; lia |].
  intros d d' r [H | H]; [apply (Hzero ARRAY d d' r H) | apply (Hzero DICTIONARY d d' r H)].
Qed.

(** A dictionary and an array of three entries on the bytes 03 00 00 00 01:
    0 is returned, the count 3 is stored and the offset is 4; on the three
    bytes 03 00 00 the dictionary is refused. *)
Lemma decode_begin_returns_zero_witness :
  DecBin.decode_array_begin (DecBin.initial (bytes_of_Zs [3; 0; 0; 0; 1]))
  = Done (0, DecBinAt.at_input [Byte.x01] 4 [DecBin.stack_element_2 ARRAY 3])
  /\ DecBin.decode_dictionary_begin (DecBin.initial (bytes_of_Zs [3; 0; 0; 0; 1]))
     = Done (0, DecBinAt.at_input [Byte.x01] 4 [DecBin.stack_element_2 DICTIONARY 3])
  /\ DecBin.decode_dictionary_begin (DecBin.initial (bytes_of_Zs [3; 0; 0]))
     = Thrown exception_marshal.
Proof.
  destruct (decode_begin_returns_zero (bytes_of_Zs [3; 0; 0; 0; 1]) 0 [] I) as (A & D & _).
  destruct (decode_begin_returns_zero (bytes_of_Zs [3; 0; 0]) 0 [] I) as (_ & D' & _).
  split; [exact A |]. split; [exact D | exact D'].
Defined.

End BinaryClaims.

(** ** multinum: integral queries on double-only values *)

Section MultinumClaims.
Import Multinum.

(** [set_double] promotes exactly the whole doubles of the int32 range. *)
Lemma set_double_level (integral : Z) (d : f64) :
  m_level (set_double integral d)
  = if F64.is_whole d && (F64.geb_Z d INT32_MIN && F64.leb_Z d INT32_MAX)
    then INT64 else DOUBLE_ONLY.
Proof. unfold set_double. now destruct (_ && _). Qed.

(** C6 -- as amended.  A double-only multinum satisfies no integral request:
    [get<T>(min, max)] fails for every integral [T] and all bounds, also when
    the stored double is a whole number in the range of [T]. *)
Theorem double_only_never_integral (T : numtype) (m : multinum) (min_value max_value : Z) :
  m_level m = DOUBLE_ONLY ->
  get T m min_value max_value = (0, false).
Proof. intros H. unfold get. rewrite H. reflexivity. Qed.

Lemma double_only_never_integral_witness :
  m_level (of_f64 (F64.pow2 40)) = DOUBLE_ONLY
  /\ get uint64_t (of_f64 (F64.pow2 40)) 0 (numtype_max uint64_t) = (0, false).
Proof.
  split; [vm_compute; reflexivity|].
  apply double_only_never_integral. vm_compute. reflexivity.
Defined.

(** C6 -- the claim as stated fails.  The multinum made from the double 2^40
    is double-only, its double is the whole number 1099511627776, which lies
    in the range of int64, and [get<int64_t>()] fails all the same. *)
Lemma double_only_whole_in_range_fails :
  let m := of_f64 (F64.pow2 40) in
  m_level m = DOUBLE_ONLY
  /\ F64.whole_value (m_value_double m) = Some (2 ^ 40)
  /\ numtype_lowest int64_t <= 2 ^ 40 <= numtype_max int64_t
  /\ get int64_t m (numtype_lowest int64_t) (numtype_max int64_t) = (0, false).
Proof.
  cbv zeta. repeat split; try (vm_compute; reflexivity); vm_compute; discriminate.
Qed.

End MultinumClaims.

(** ** The JSON tokenizer after a lexical error *)

Section TokenizerClaims.
Import JsonTokenizer.

Variable parse : list Z -> Multinum.multinum.

(** [process_char] on an aborted tokenizer reports the error again and leaves
    the tokenizer aborted. *)
Lemma process_char_aborted (ch : Z) (t : json_tokenizer_base) :
  m_state t = ABORTED_DUE_TO_ERROR ->
  exists t', process_char parse ch t = Done (C_ERROR, t')
             /\ m_state t' = ABORTED_DUE_TO_ERROR.
Proof.
  intros H. destruct t; cbn in H; subst.
  eexists; split; [vm_compute; reflexivity|]. vm_compute; reflexivity.
Qed.

(** [process_eof] on an aborted tokenizer reports the error once more, but
    leaves the tokenizer in [REACHED_EOF]. *)
Lemma process_eof_aborted (t : json_tokenizer_base) :
  m_state t = ABORTED_DUE_TO_ERROR ->
  exists t', process_eof parse t = Done (C_ERROR, t')
             /\ m_state t' = REACHED_EOF.
Proof.
  intros H. destruct t; cbn in H; subst.
  eexists; split; [vm_compute; reflexivity|]. vm_compute; reflexivity.
Qed.

(** From [REACHED_EOF] every call answers [C_NOTHING_MORE] and stays there. *)
Lemma process_char_reached_eof (ch : Z) (t : json_tokenizer_base) :
  m_state t = REACHED_EOF ->
  exists t', process_char parse ch t = Done (C_NOTHING_MORE, t')
             /\ m_state t' = REACHED_EOF.
Proof.
  intros H. destruct t; cbn in H; subst.
  eexists; split; [vm_compute; reflexivity|]. vm_compute; reflexivity.
Qed.

Lemma process_eof_reached_eof (t : json_tokenizer_base) :
  m_state t = REACHED_EOF ->
  exists t', process_eof parse t = Done (C_NOTHING_MORE, t')
             /\ m_state t' = REACHED_EOF.
Proof.
  intros H. destruct t; cbn in H; subst.
  eexists; split; [vm_compute; reflexivity|]. vm_compute; reflexivity.
Qed.

(** The sourced tokenizer, aborted with at most one character left in its
    source: [fetch_token] answers [C_ERROR] once more, and [C_NOTHING_MORE]
    from then on. *)
Lemma fetch_token_aborted_at_end (s : json_tokenizer_sourced) :
  m_state (base s) = ABORTED_DUE_TO_ERROR ->
  (List.length (m_source s) <= 1)%nat ->
  exists s1 s2,
    fetch_token parse s = Done (C_ERROR, s1)
    /\ m_state (base s1) = REACHED_EOF
    /\ fetch_token parse s1 = Done (C_NOTHING_MORE, s2).
Proof.
  destruct s as [b src]. cbn [base m_source]. intros H Hlen.
  destruct b; cbn in H; subst.
  destruct src as [|c [|c' src]]; [| |cbn in Hlen; lia];
    do 2 eexists; (split; [vm_compute; reflexivity|]);
    (split; [vm_compute; reflexivity|]); vm_compute; reflexivity.
Qed.

(** [fetch_token] on the source [/x]: the three first calls answer
    [C_ERROR], [C_ERROR], [C_NOTHING_MORE]. *)
Lemma fetch_token_slash_x :
  exists s0 s1 s2 s3,
    json_tokenizer_sourced_new parse slash_x 0 = Done s0
    /\ fetch_token parse s0 = Done (C_ERROR, s1)
    /\ m_state (base s1) = ABORTED_DUE_TO_ERROR
    /\ fetch_token parse s1 = Done (C_ERROR, s2)
    /\ fetch_token parse s2 = Done (C_NOTHING_MORE, s3).
Proof.
  do 4 eexists.
  do 4 (split; [vm_compute; reflexivity|]). vm_compute; reflexivity.
Qed.

(** C8 -- Tokenizer aborted-state permanence does not hold of the code.  On
    a tokenizer in the state [ABORTED_DUE_TO_ERROR], however it got there,
    [process_eof] answers [C_ERROR] but overwrites the state with
    [REACHED_EOF]; every call after it, [process_char] of any character or
    [process_eof], answers [C_NOTHING_MORE]. *)
Theorem aborted_state_overwritten_by_eof (t : json_tokenizer_base) :
  m_state t = ABORTED_DUE_TO_ERROR ->
  exists t1,
    process_eof parse t = Done (C_ERROR, t1)
    /\ m_state t1 = REACHED_EOF
    /\ (forall ch, exists t2, process_char parse ch t1 = Done (C_NOTHING_MORE, t2)
                              /\ m_state t2 = REACHED_EOF)
    /\ (exists t2, process_eof parse t1 = Done (C_NOTHING_MORE, t2)
                   /\ m_state t2 = REACHED_EOF).
Proof.
  intros H. destruct (process_eof_aborted t H) as [t1 [E1 S1]].
  exists t1. split; [exact E1|]. split; [exact S1|]. split.
  - intros ch. apply process_char_reached_eof. exact S1.
  - apply process_eof_reached_eof. exact S1.
Qed.

End TokenizerClaims.

(** The tokenizer fed [/x]: [process_char] of [x] aborts it (a slash followed
    by neither a star nor a slash), [process_eof] answers [C_ERROR] and
    [process_char] of a further character answers [C_NOTHING_MORE]. *)
Lemma aborted_state_overwritten_by_eof_witness :
  exists t0,
    JsonTokenizer.process_char parse_no_number (JsonTokenizer.chr "x")
      (JsonTokenizer.json_tokenizer_new (JsonTokenizer.chr "/") 0)
    = Done (JsonTokenizer.C_ERROR, t0)
    /\ JsonTokenizer.m_state t0 = JsonTokenizer.ABORTED_DUE_TO_ERROR
    /\ exists t1,
        JsonTokenizer.process_eof parse_no_number t0 = Done (JsonTokenizer.C_ERROR, t1)
        /\ JsonTokenizer.m_state t1 = JsonTokenizer.REACHED_EOF
        /\ exists t2,
            JsonTokenizer.process_char parse_no_number (JsonTokenizer.chr "y") t1
            = Done (JsonTokenizer.C_NOTHING_MORE, t2).
Proof.
  eexists. split; [vm_compute; reflexivity|]. split; [reflexivity|].
  match goal with
  | |- exists t1, JsonTokenizer.process_eof _ ?t0 = _ /\ _ =>
      destruct (aborted_state_overwritten_by_eof parse_no_number t0 eq_refl)
        as [t1 [E1 [S1 [Hc _]]]]
  end.
  exists t1. split; [exact E1|]. split; [exact S1|].
  destruct (Hc (JsonTokenizer.chr "y")) as [t2 [E2 _]].
  exists t2. exact E2.
Defined.

(** ** The JSON decoder on a field whose value is [null] *)

Section JsonDecoderClaims.
Import JsonTokenizer DecJson.

Variable parse : list Z -> Multinum.multinum.

(** Every call of the tokenizer returns what it leaves in
    [m_last_process_ret]. *)
Lemma returns_last_process_ret (c : tok unit) b r b' :
  (c;; t' <- get;; ret (m_last_process_ret t'))%sem b = Done (r, b') ->
  m_last_process_ret b' = r.
Proof.
  unfold bind, get, ret. destruct (c b) as [[[] s1]|f]; cbv beta iota;
    intros H; inversion H.
  reflexivity.
Qed.

Lemma internal_process_char_last_ret ch b r b' :
  internal_process_char parse ch b = Done (r, b') -> m_last_process_ret b' = r.
Proof.
  unfold internal_process_char. unfold bind at 1. unfold get at 1. cbv beta iota.
  apply returns_last_process_ret.
Qed.

Lemma internal_process_eof_last_ret b r b' :
  internal_process_eof parse b = Done (r, b') -> m_last_process_ret b' = r.
Proof.
  unfold internal_process_eof. unfold bind at 1. unfold get at 1. cbv beta iota.
  apply returns_last_process_ret.
Qed.

Lemma fetch_token_loop_last_ret fuel s r s' :
  fetch_token_loop parse fuel s = Done (r, s') ->
  m_last_process_ret (base s') = r.
Proof.
  revert s. induction fuel as [|fuel IH]; intros s; [discriminate|].
  cbn [fetch_token_loop]. unfold bind, tentative_read_char, tentative_peek_char, on_base.
  cbv beta iota. cbn [base m_source].
  destruct (hd_error (tl (m_source s))) as [ch|]; cbv beta iota; cbn [base m_source].
  - destruct (internal_process_char parse ch (base s)) as [[r1 b1]|f] eqn:E;
      cbv beta iota; [|discriminate].
    apply internal_process_char_last_ret in E.
    destruct (negb (ret_eqb r1 C_NEED_MORE_CHARS) && negb (ret_eqb r1 C_SPACE)).
    + unfold ret. intros H; inversion H; subst. reflexivity.
    + apply IH.
  - destruct (internal_process_eof parse (base s)) as [[r1 b1]|f] eqn:E;
      cbv beta iota; [|discriminate].
    apply internal_process_eof_last_ret in E.
    destruct (negb (ret_eqb r1 C_NEED_MORE_CHARS) && negb (ret_eqb r1 C_SPACE)).
    + unfold ret. intros H; inversion H; subst. reflexivity.
    + apply IH.
Qed.

Lemma fetch_token_last_ret s r s' :
  JsonTokenizer.fetch_token parse s = Done (r, s') ->
  m_last_process_ret (base s') = r.
Proof. apply fetch_token_loop_last_ret. Qed.

(** The decoder's [fetch_token] with no token to resubmit. *)
Lemma dec_fetch_token stk fm tk pe tf ty r tk' :
  JsonTokenizer.fetch_token parse tk = Done (r, tk') ->
  DecJson.fetch_token parse
    {| m_stack := stk; m_fields_map := fm; m_tokenizer := tk;
       m_resubmit_prev_token := false; m_polymorphic_encoding := pe;
       m_typed_field := tf; m_is_typed := ty |}
  = Done (tt,
    {| m_stack := stk; m_fields_map := fm; m_tokenizer := tk';
       m_resubmit_prev_token := false; m_polymorphic_encoding := pe;
       m_typed_field := tf; m_is_typed := ty |}).
Proof.
  intros H. unfold DecJson.fetch_token, bind, get, on_tokenizer, ret.
  cbn [m_resubmit_prev_token m_tokenizer m_stack m_fields_map
       m_polymorphic_encoding m_typed_field m_is_typed].
  rewrite H. reflexivity.
Qed.

Ltac dec_go :=
  cbn -[JsonTokenizer.fetch_token marshal_label_hash get_utf8 fields_map_contains cast_u64].

Ltac dec_fields :=
  cbn [m_stack m_fields_map m_tokenizer m_resubmit_prev_token
       m_polymorphic_encoding m_typed_field m_is_typed].

Lemma decode_struct_begin_open extensible field_infos stk fm tk pe tf t0 :
  struct_allowed stk ->
  JsonTokenizer.fetch_token parse tk = Done (C_BRACE_OPEN, t0) ->
  decode_struct_begin parse extensible field_infos
    {| m_stack := stk; m_fields_map := fm; m_tokenizer := tk;
       m_resubmit_prev_token := false; m_polymorphic_encoding := pe;
       m_typed_field := tf; m_is_typed := false |}
  = Done (tt,
    {| m_stack := stack_element_new STRUCT :: stk; m_fields_map := fm;
       m_tokenizer := t0;
       m_resubmit_prev_token := false; m_polymorphic_encoding := pe;
       m_typed_field := tf; m_is_typed := false |}).
Proof.
  intros Hstk H0. pose proof (fetch_token_last_ret _ _ _ H0) as L0.
  unfold decode_struct_begin. unfold bind at 1. unfold get at 1.
  cbv beta iota. dec_fields. cbn [negb].
  erewrite bind_Done
    by (destruct stk as [|[[] n] rest]; cbn in Hstk; try contradiction; reflexivity).
  erewrite bind_Done by (eapply dec_fetch_token; eassumption).
  unfold get_last_process_ret. unfold bind, get, ret, throw_if, set_stack. dec_fields.
  rewrite L0. reflexivity.
Qed.

(** [decode_struct_field_begin] on a field whose value is [null], at any
    place of a structure: the first field, or a later one after its comma. *)
Lemma decode_struct_field_begin_null_at (receiver : bool) (count : Z) below fm tk pe tf
      tc t1 t2 t3 :
  (if 0 <? count then JsonTokenizer.fetch_token parse tk = Done (C_COMMA, tc) else tc = tk) ->
  JsonTokenizer.fetch_token parse tc = Done (C_STRING, t1) ->
  m_string (base t1) <> [] ->
  JsonTokenizer.fetch_token parse t1 = Done (C_COLON, t2) ->
  JsonTokenizer.fetch_token parse t2 = Done (C_NULL, t3) ->
  exists fm',
    decode_struct_field_begin parse receiver
      {| m_stack := {| m_element_type := STRUCT; m_items_count := count |} :: below;
         m_fields_map := fm; m_tokenizer := tk;
         m_resubmit_prev_token := false; m_polymorphic_encoding := pe;
         m_typed_field := tf; m_is_typed := false |}
    = Done ((marshal_label_hash (get_utf8 (m_string (base t1))),
             if receiver then Some false else None),
      {| m_stack := stack_element_new FIELD
                    :: {| m_element_type := STRUCT; m_items_count := cast_u64 (count + 1) |}
                    :: below;
         m_fields_map := fm';
         m_tokenizer := (if receiver then t3 else t2);
         m_resubmit_prev_token := false; m_polymorphic_encoding := pe;
         m_typed_field := tf; m_is_typed := false |}).
Proof.
  intros Hc H1 Hname H2 H3.
  pose proof (fetch_token_last_ret _ _ _ H1) as L1.
  pose proof (fetch_token_last_ret _ _ _ H2) as L2.
  pose proof (fetch_token_last_ret _ _ _ H3) as L3.
  assert (Hlen : (Z.of_nat (List.length (m_string (base t1))) =? 0) = false).
  { destruct (m_string (base t1)); [contradiction|reflexivity]. }
  unfold decode_struct_field_begin.
  unfold bind at 1. unfold assert_not_typed at 1. unfold bind at 1, get at 1.
  cbv beta iota. dec_fields. cbn [negb assert]. unfold ret at 1. cbv beta iota.
  unfold bind at 1, get at 1. cbv beta iota. dec_fields.
  cbn [m_element_type m_items_count].
  destruct (0 <? count) eqn:E.
  - pose proof (fetch_token_last_ret _ _ _ Hc) as Lc.
    erewrite bind_Done by (eapply dec_fetch_token; exact Hc).
    unfold get_last_process_ret, get_string, DecJson.fetch_token, on_tokenizer,
      resubmit_prev_token, throw_if, set_stack, set_fields_map, bind, get, ret, throw.
    dec_go. rewrite Lc. dec_go. rewrite H1. dec_go. rewrite L1, Hlen. dec_go.
    match goal with
    | |- context [fields_map_contains ?a ?b] => destruct (fields_map_contains a b)
    end; dec_go; rewrite H2; dec_go; rewrite L2; dec_go;
      (destruct receiver; dec_go; [ rewrite H3; dec_go; rewrite L3; dec_go | ]);
      eexists; reflexivity.
  - subst tc.
    erewrite bind_Done by (eapply dec_fetch_token; exact H1).
    unfold get_last_process_ret, get_string, DecJson.fetch_token, on_tokenizer,
      resubmit_prev_token, throw_if, set_stack, set_fields_map, bind, get, ret, throw.
    dec_go. rewrite L1. dec_go. rewrite L1, Hlen. dec_go.
    match goal with
    | |- context [fields_map_contains ?a ?b] => destruct (fields_map_contains a b)
    end; dec_go; rewrite H2; dec_go; rewrite L2; dec_go;
      (destruct receiver; dec_go; [ rewrite H3; dec_go; rewrite L3; dec_go | ]);
      eexists; reflexivity.
Qed.

(** The decoders of a bool and of a u32string on a [null]. *)
Lemma null_is_refused stk fm tk pe tf t3 :
  JsonTokenizer.fetch_token parse tk = Done (C_NULL, t3) ->
  let d := {| m_stack := stk; m_fields_map := fm; m_tokenizer := tk;
              m_resubmit_prev_token := false; m_polymorphic_encoding := pe;
              m_typed_field := tf; m_is_typed := false |} in
  decode_bool parse d = Thrown exception_marshal
  /\ decode_u32string parse d = Thrown exception_marshal.
Proof.
  intros H3 d. pose proof (fetch_token_last_ret _ _ _ H3) as L3.
  unfold d, decode_bool, decode_u32string, assert_not_typed.
  unfold get_last_process_ret, get_string, DecJson.fetch_token, on_tokenizer,
    throw_if, bind, get, ret, throw, assert.
  dec_go. rewrite H3. dec_go. rewrite L3. split; reflexivity.
Qed.

(** C7 -- as amended.  The JSON decoder never consults the declared field
    infos: [decode_struct_begin] does the same whatever [extensible] and
    [field_infos] it is given, and the decoder holds no place for them.  In a
    structure, for the first field as for every later one (the frame's count
    of items is any), when the text continues with a non-empty field name
    (after a comma, if a field has been read already), a colon and [null],
    [decode_struct_field_begin] returns the hash of the name without raising
    an error.  Called with a receiver for the present flag it consumes the
    [null] and stores [false], for a field declared mandatory as for one
    declared optional; called without a receiver it stores nothing and leaves
    the [null] unread, and [decode_bool] and [decode_u32string] called next
    raise an error on it. *)
Theorem json_null_field_ignores_declaration
  (receiver : bool) (d : marshal_dec_json) (count : Z) (below : list stack_element)
  (tc t1 t2 t3 : json_tokenizer_sourced) :
  m_is_typed d = false ->
  m_resubmit_prev_token d = false ->
  m_stack d = {| m_element_type := STRUCT; m_items_count := count |} :: below ->
  (if 0 <? count
   then JsonTokenizer.fetch_token parse (m_tokenizer d) = Done (C_COMMA, tc)
   else tc = m_tokenizer d) ->
  JsonTokenizer.fetch_token parse tc = Done (C_STRING, t1) ->
  m_string (base t1) <> [] ->
  JsonTokenizer.fetch_token parse t1 = Done (C_COLON, t2) ->
  JsonTokenizer.fetch_token parse t2 = Done (C_NULL, t3) ->
  (forall extensible extensible' field_infos field_infos' d0,
     decode_struct_begin parse extensible field_infos d0
     = decode_struct_begin parse extensible' field_infos' d0)
  /\ exists d',
      decode_struct_field_begin parse receiver d
      = Done ((marshal_label_hash (get_utf8 (m_string (base t1))),
               if receiver then Some false else None), d')
      /\ m_tokenizer d' = (if receiver then t3 else t2)
      /\ m_stack d'
         = stack_element_new FIELD
           :: {| m_element_type := STRUCT; m_items_count := cast_u64 (count + 1) |} :: below
      /\ (receiver = false ->
          decode_bool parse d' = Thrown exception_marshal
          /\ decode_u32string parse d' = Thrown exception_marshal).
Proof.
  destruct d as [stk fm tk rs pe tf ty].
  cbn [m_is_typed m_resubmit_prev_token m_stack m_tokenizer].
  intros -> -> -> Hc H1 Hname H2 H3.
  split; [reflexivity |].
  destruct (decode_struct_field_begin_null_at receiver count below fm tk pe tf tc t1 t2 t3
              Hc H1 Hname H2 H3) as [fm' E].
  rewrite E. eexists. split; [reflexivity |].
  cbn [m_tokenizer m_stack]. split; [reflexivity |]. split; [reflexivity |].
  intros ->. apply (null_is_refused _ _ _ _ _ t3 H3).
Qed.

End JsonDecoderClaims.

(** The text [{"a":true,"id":null}]: the second field, declared mandatory,
    holds [null]; after the first field has been read,
    [decode_struct_field_begin] with a receiver reports it with the present
    flag [false]. *)
Lemma json_null_field_ignores_declaration_witness :
  exists d0 d3,
    DecJson.marshal_dec_json_new parse_no_number a_true_id_null_text = Done d0
    /\ (DecJson.decode_struct_begin parse_no_number false a_id_mandatory;;
        DecJson.decode_struct_field_begin parse_no_number true;;
        DecJson.decode_bool parse_no_number;;
        DecJson.decode_struct_field_end)%sem d0 = Done (tt, d3)
    /\ exists d',
        DecJson.decode_struct_field_begin parse_no_number true d3
        = Done ((marshal_label_hash "id", Some false), d').
Proof.
  do 2 eexists. split; [vm_compute; reflexivity|]. split; [vm_compute; reflexivity|].
  match goal with
  | |- exists d', _ ?d3 = _ =>
      edestruct (json_null_field_ignores_declaration parse_no_number true d3 1 [])
        as (_ & d' & E & _)
  end.
  - reflexivity.
  - reflexivity.
  - reflexivity.
  - vm_compute; reflexivity.
  - vm_compute; reflexivity.
  - vm_compute; discriminate.
  - vm_compute; reflexivity.
  - vm_compute; reflexivity.
  - exists d'. rewrite E. vm_compute. reflexivity.
Defined.

(** C7 -- the claim as stated fails.  In the text [{"id":null}] the field
    [id], declared mandatory in the field infos given to
    [decode_struct_begin], has the value [null].  No call raises an error:
    [decode_struct_field_begin] with a receiver reports the field with the
    present flag [false], the next call finds the end of the fields, and
    [decode_struct_end] closes the struct. *)
Lemma json_null_for_mandatory_field_is_accepted :
  map marshal_label_info_is_optional id_mandatory = [false]
  /\ map marshal_label_info_to_id id_mandatory = [marshal_label_hash "id"]
  /\ exists d0 d1 d2 d3 d4 d5,
      DecJson.marshal_dec_json_new parse_no_number id_null_text = Done d0
      /\ DecJson.decode_struct_begin parse_no_number false id_mandatory d0 = Done (tt, d1)
      /\ DecJson.decode_struct_field_begin parse_no_number true d1
         = Done ((marshal_label_hash "id", Some false), d2)
      /\ DecJson.decode_struct_field_end d2 = Done (tt, d3)
      /\ DecJson.decode_struct_field_begin parse_no_number true d3
         = Done ((marshal_label_id_INVALID, None), d4)
      /\ DecJson.decode_struct_end parse_no_number d4 = Done (tt, d5)
      /\ DecJson.m_stack d5 = [].
Proof.
  split; [vm_compute; reflexivity|]. split; [vm_compute; reflexivity|].
  do 6 eexists.
  do 6 (split; [vm_compute; reflexivity|]). vm_compute; reflexivity.
Qed.

(** ** The text of a double in JSON *)

Section JsonF64Claims.
Import EncJson.

Lemma round_half_even_small (num den : Z) :
  0 <= num -> 2 * num < den -> round_half_even num den = 0.
Proof.
  intros H0 H. unfold round_half_even.
  rewrite Z.mod_small by lia. rewrite Z.div_small by lia.
  destruct (Z.ltb_spec (2 * num) den); [reflexivity|lia].
Qed.

(** What [encode_f64] writes for a positive double below half a unit of the
    seventeenth decimal. *)
Lemma ostream_fixed_small (value : f64) (m e : Z) :
  F64.classify value = F64.Finite false m e ->
  0 <= m -> e < 0 -> 2 * (m * 10 ^ 17) < 2 ^ (- e) ->
  ostream_fixed max_digits10 value = "0.00000000000000000"%string.
Proof.
  intros Hc Hm He Hsmall. unfold ostream_fixed. rewrite Hc.
  change (10 ^ Z.of_nat max_digits10) with (10 ^ 17).
  destruct (Z.leb_spec 0 e); [lia|].
  rewrite round_half_even_small by lia.
  vm_compute. reflexivity.
Qed.

(** Some texts [encode_f64] writes: the double nearest to [0.000001] and the
    double after it are written alike; one tenth keeps its 17 digits. *)
Lemma json_f64_fixed_texts :
  written (encode_f64 0x3EB0C6F7A0B5ED8D marshal_enc_json_new)
  = Some "0.00000100000000000"%string
  /\ written (encode_f64 0x3EB0C6F7A0B5ED8E marshal_enc_json_new)
     = Some "0.00000100000000000"%string
  /\ written (encode_f64 0x3FB999999999999A marshal_enc_json_new)
     = Some "0.10000000000000001"%string
  /\ written (encode_f64 0x400921FB54442D18 marshal_enc_json_new)
     = Some "3.14159265358979312"%string.
Proof. repeat split; vm_compute; reflexivity. Qed.

(** C9 -- JSON f64 round-trip formatting does not hold of the code.
    [encode_f64] writes 17 digits after the point, whatever the magnitude:
    every positive finite double below [5e-18] (its value [m * 2^e] times
    [10^17] is less than one half) is written [0.00000000000000000], the
    text the encoder writes for zero, although the double is not zero.  No
    reader of that text returns both. *)
Theorem json_f64_small_written_as_zero (value : f64) (m e : Z) :
  F64.classify value = F64.Finite false m e ->
  0 < m -> e < 0 -> 2 * (m * 10 ^ 17) < 2 ^ (- e) ->
  written (encode_f64 value marshal_enc_json_new) = Some "0.00000000000000000"%string
  /\ written (encode_f64 0 marshal_enc_json_new) = Some "0.00000000000000000"%string
  /\ value <> 0
  /\ forall recover : string -> f64,
       recover "0.00000000000000000"%string = value ->
       recover "0.00000000000000000"%string = 0 -> False.
Proof.
  intros Hc Hm He Hsmall.
  assert (Hne : value <> 0).
  { intros ->. vm_compute in Hc. inversion Hc. lia. }
  split; [|split; [vm_compute; reflexivity|split; [exact Hne|]]].
  - unfold encode_f64, written, bind, get, assert, out_write, ret.
    cbn [m_is_typed marshal_enc_json_new negb m_out].
    rewrite (ostream_fixed_small value m e) by (assumption || lia).
    reflexivity.
  - intros recover Hx H0. apply Hne. congruence.
Qed.

End JsonF64Claims.

(** The double [2^-60]. *)
Lemma json_f64_small_written_as_zero_witness :
  EncJson.written (EncJson.encode_f64 (F64.pow2 (-60)) EncJson.marshal_enc_json_new)
  = Some "0.00000000000000000"%string
  /\ EncJson.written (EncJson.encode_f64 0 EncJson.marshal_enc_json_new)
     = Some "0.00000000000000000"%string
  /\ F64.pow2 (-60) <> 0.
Proof.
  destruct (json_f64_small_written_as_zero (F64.pow2 (-60)) (2 ^ 52) (-112))
    as [E [E0 [Hne _]]].
  - vm_compute. reflexivity.
  - lia.
  - lia.
  - vm_compute. reflexivity.
  - split; [exact E|]. split; [exact E0|exact Hne].
Defined.

(** ** Shifts and masks as arithmetic *)

Module BitFacts.

Lemma land_shiftl_small (a b k : Z) :
  0 <= k -> 0 <= b < 2 ^ k -> Z.land (Z.shiftl a k) b = 0.
Proof.
  intros Hk Hb. apply Z.bits_inj'. intros n Hn.
  rewrite Z.land_spec, Z.bits_0.
  destruct (Z.lt_ge_cases n k) as [Hlt | Hge].
  - rewrite Z.shiftl_spec_low by assumption. reflexivity.
  - destruct (Z.eq_dec b 0) as [-> | Hnz].
    + rewrite Z.bits_0. apply andb_false_r.
    + rewrite (Z.bits_above_log2 b n); [apply andb_false_r | lia |].
      apply Z.log2_lt_pow2; [lia |].
      apply Z.lt_le_trans with (2 ^ k); [lia |].
      apply Z.pow_le_mono_r; lia.
Qed.

Lemma lor_add (a b : Z) : Z.land a b = 0 -> Z.lor a b = a + b.
Proof.
  intros H. rewrite <- Z.lxor_lor by assumption.
  symmetry. apply Z.add_nocarry_lxor. assumption.
Qed.

Lemma lor_shiftl_add (a b k : Z) :
  0 <= k -> 0 <= b < 2 ^ k -> Z.lor (Z.shiftl a k) b = a * 2 ^ k + b.
Proof.
  intros Hk Hb. rewrite lor_add by (apply land_shiftl_small; assumption).
  rewrite Z.shiftl_mul_pow2 by assumption. reflexivity.
Qed.

Lemma lor_aligned_add (x b k : Z) :
  0 <= k -> x mod 2 ^ k = 0 -> 0 <= b < 2 ^ k -> Z.lor x b = x + b.
Proof.
  intros Hk Hx Hb.
  assert (E : x = Z.shiftl (x / 2 ^ k) k).
  { rewrite Z.shiftl_mul_pow2 by assumption.
    pose proof (Z.div_mod x (2 ^ k)). lia. }
  rewrite E at 1. rewrite lor_shiftl_add by assumption.
  rewrite Z.shiftl_mul_pow2 in E by assumption. lia.
Qed.

Lemma land_mask_mod (a k : Z) :
  0 <= k -> Z.land a (Z.shiftl 1 k - 1) = a mod 2 ^ k.
Proof.
  intros Hk. rewrite <- Z.land_ones by assumption.
  unfold Z.ones. rewrite Z.sub_1_r. reflexivity.
Qed.

Lemma get_bits_from_word_div_mod (value bit_num bits_count : Z) :
  0 <= bits_count -> bits_count - 1 <= bit_num ->
  get_bits_from_word value bit_num bits_count
  = (value / 2 ^ (bit_num - (bits_count - 1))) mod 2 ^ bits_count.
Proof.
  intros Hc Hn. unfold get_bits_from_word.
  rewrite land_mask_mod by assumption.
  rewrite Z.shiftr_div_pow2 by lia. reflexivity.
Qed.

Ltac shifts_to_arith :=
  repeat (rewrite get_bits_from_word_div_mod by lia);
  repeat (rewrite Z.shiftl_mul_pow2 by lia);
  repeat (rewrite Z.shiftr_div_pow2 by lia).

Ltac div_mod_lia := Z.div_mod_to_equations; lia.

End BitFacts.

(** ** strtointegral on decimal literals *)

Module StrToIntegralFacts.
Import StrToIntegral.

Ltac chr_values :=
  change (chr " ") with 32 in *; change (chr "+") with 43 in *;
  change (chr "-") with 45 in *; change (chr "0") with 48 in *;
  change (chr "9") with 57 in *; change (chr "A") with 65 in *;
  change (chr "Z") with 90 in *; change (chr "a") with 97 in *;
  change (chr "z") with 122 in *; change (chr "X") with 88 in *;
  change (chr "x") with 120 in *; change (chr "B") with 66 in *;
  change (chr "b") with 98 in *;
  change NOT_A_INTEGRAL_CHAR with 36 in *; change end_of_string with 0 in *;
  change detect_base with 0 in *; change state_initial with 0 in *.

(** Decide the comparisons of a goal by arithmetic. *)
Ltac tests :=
  repeat match goal with
         | |- context [?a =? ?b] =>
             first [ replace (a =? b) with false by (symmetry; apply Z.eqb_neq; lia)
                   | replace (a =? b) with true by (symmetry; apply Z.eqb_eq; lia) ]
         | |- context [?a <=? ?b] =>
             first [ replace (a <=? b) with true by (symmetry; apply Z.leb_le; lia)
                   | replace (a <=? b) with false by (symmetry; apply Z.leb_gt; lia) ]
         | |- context [?a <? ?b] =>
             first [ replace (a <? b) with true by (symmetry; apply Z.ltb_lt; lia)
                   | replace (a <? b) with false by (symmetry; apply Z.ltb_ge; lia) ]
         | |- context [?a >=? ?b] => rewrite (Z.geb_leb a b)
         | |- context [?a >? ?b] => rewrite (Z.gtb_ltb a b)
         end.

Lemma char_to_integral_digit (d : Z) :
  is_digit d -> char_to_integral (chr "0" + d) = d.
Proof.
  unfold is_digit, char_to_integral. intros H. chr_values. tests. cbn [andb]. lia.
Qed.

(** [add_char] on a decimal digit that fits: the digit is appended. *)
Lemma add_char_digit (signed negative : bool) (st d acc l : Z) (r : result_type) :
  is_digit d -> (negative = true -> signed = true) ->
  (if negative then lowest true <= acc * 10 - d /\ acc <= 0
   else 0 <= acc /\ acc * 10 + d <= highest signed) ->
  add_char signed (chr "0" + d) {| m_negative := negative; m_state := st |}
    {| m_data := acc; m_result := r; m_valid_length := l; m_base := 10 |}
  = Done (true,
          {| m_data := acc * 10 + (if negative then - d else d);
             m_result := r; m_valid_length := l; m_base := 10 |}).
Proof.
  intros Hd Hs Hacc. unfold add_char.
  unfold bind at 1. unfold get at 1. cbv beta iota.
  rewrite (char_to_integral_digit d Hd).
  cbn [m_base m_data m_negative].
  unfold is_digit in Hd. unfold lowest, highest in *. chr_values.
  destruct negative.
  - rewrite (Hs eq_refl). destruct Hacc as [H1 H2].
    tests. cbn [andb negb]. unfold bind, ret, set_data. cbv beta iota.
    tests. reflexivity.
  - destruct Hacc as [H1 H2]. destruct signed.
    + tests. cbn [andb negb]. unfold bind, ret, set_data. cbv beta iota.
      tests. reflexivity.
    + tests. cbn [andb negb assert]. unfold bind, ret, set_data, cast_u64.
      cbv beta iota. rewrite Z.mod_small by lia.
      tests. reflexivity.
Qed.

(** One step of the conversion on a decimal digit, in the state that reads
    digits. *)
Lemma convert_step_digit (signed negative : bool) (d acc l min_value max_value : Z)
      (r : result_type) :
  is_digit d -> (negative = true -> signed = true) ->
  (if negative then lowest true <= acc * 10 - d /\ acc <= 0
   else 0 <= acc /\ acc * 10 + d <= highest signed) ->
  convert_step signed (chr "0" + d) min_value max_value
    {| m_negative := negative; m_state := 6 |}
    {| m_data := acc; m_result := r; m_valid_length := l; m_base := 10 |}
  = Done ((true, {| m_negative := negative; m_state := 6 |}),
          {| m_data := acc * 10 + (if negative then - d else d);
             m_result := r; m_valid_length := l + 1; m_base := 10 |}).
Proof.
  intros Hd Hs Hacc. unfold convert_step.
  unfold bind at 1. unfold get at 1. cbv beta iota zeta.
  cbn [m_state m_base]. chr_values.
  assert (Hsp : isspace (48 + d) = false).
  { unfold isspace, is_digit in *. tests. reflexivity. }
  rewrite Hsp, !andb_false_r.
  change (6 =? 0) with false. cbv iota. cbn [m_state with_state m_negative].
  change (6 =? 1) with false.
  change (6 =? 2) with false. change (6 =? 3) with false.
  change (6 =? 4) with false. change (6 =? 5) with false.
  change (6 =? 6) with true. cbv beta iota.
  replace (48 + d =? 0) with false
    by (symmetry; apply Z.eqb_neq; unfold is_digit in Hd; lia).
  unfold bind at 1. unfold bind at 1.
  change (48 + d) with (chr "0" + d).
  rewrite (add_char_digit signed negative 6 d acc l r Hd Hs Hacc).
  reflexivity.
Qed.

(** The final step on [end_of_string] in the state that reads digits. *)
Lemma convert_step_end (signed negative : bool) (acc l min_value max_value : Z)
      (r : result_type) :
  min_value <= acc <= max_value ->
  convert_step signed end_of_string min_value max_value
    {| m_negative := negative; m_state := 6 |}
    {| m_data := acc; m_result := r; m_valid_length := l; m_base := 10 |}
  = Done ((true, {| m_negative := negative; m_state := 6 |}),
          {| m_data := acc; m_result := VALID; m_valid_length := l; m_base := 10 |}).
Proof.
  intros H. unfold convert_step.
  unfold bind at 1. unfold get at 1. cbv beta iota zeta.
  cbn [m_state m_base]. chr_values.
  change (6 =? 0) with false. change (0 <? 0) with false.
  cbn [andb]. cbv beta iota. cbn [m_state with_state m_negative].
  change (6 =? 1) with false.
  change (6 =? 2) with false. change (6 =? 3) with false.
  change (6 =? 4) with false. change (6 =? 5) with false.
  change (6 =? 6) with true. change (0 =? 0) with true. cbv beta iota.
  unfold bind, get, ret, set_result. cbn [m_data negb andb].
  tests. reflexivity.
Qed.

(** The value of a digit sequence grows with the sequence. *)
Lemma digits_value_ge (ds : list Z) :
  Forall is_digit ds -> forall acc, 0 <= acc -> acc <= digits_value 10 acc ds.
Proof.
  induction 1 as [|d ds Hd _ IH]; intros acc Hacc; cbn [digits_value]; [lia|].
  unfold is_digit in Hd. specialize (IH (acc * 10 + d)). lia.
Qed.

(** The loop of [convert] on decimal digits, from the state that reads
    digits, for a non-negative number. *)
Lemma convert_loop_digits (signed : bool) (ds : list Z) :
  Forall is_digit ds ->
  forall acc l r,
    0 <= acc -> digits_value 10 acc ds <= highest signed ->
    convert_loop signed (digit_chars ds) (lowest signed) (highest signed)
      {| m_negative := false; m_state := 6 |}
      {| m_data := acc; m_result := r; m_valid_length := l; m_base := 10 |}
    = Done (tt,
            {| m_data := digits_value 10 acc ds; m_result := VALID;
               m_valid_length := l + Z.of_nat (List.length ds); m_base := 10 |}).
Proof.
  induction 1 as [|d ds Hd Hds IH]; intros acc l r Hacc Hmax;
    cbn [digit_chars map convert_loop digits_value List.length] in *.
  - erewrite bind_Done
      by (apply convert_step_end; unfold lowest, highest in *; destruct signed; lia).
    unfold ret. rewrite Z.add_0_r. reflexivity.
  - assert (Hstep : acc * 10 + d <= highest signed).
    { pose proof (digits_value_ge ds Hds (acc * 10 + d)).
      unfold is_digit in Hd. lia. }
    erewrite bind_Done
      by (apply (convert_step_digit signed false); [exact Hd | discriminate | lia]).
    cbv beta iota.
    fold (digit_chars ds). rewrite IH by (unfold is_digit in Hd; lia).
    do 3 f_equal. lia.
Qed.

(** The loop of [convert] on decimal digits for a negative number. *)
Lemma convert_loop_digits_negative (ds : list Z) :
  Forall is_digit ds ->
  forall acc l r,
    0 <= acc -> digits_value 10 acc ds <= 2 ^ 63 ->
    convert_loop true (digit_chars ds) (lowest true) (highest true)
      {| m_negative := true; m_state := 6 |}
      {| m_data := - acc; m_result := r; m_valid_length := l; m_base := 10 |}
    = Done (tt,
            {| m_data := - digits_value 10 acc ds; m_result := VALID;
               m_valid_length := l + Z.of_nat (List.length ds); m_base := 10 |}).
Proof.
  induction 1 as [|d ds Hd Hds IH]; intros acc l r Hacc Hmax;
    cbn [digit_chars map convert_loop digits_value List.length] in *.
  - erewrite bind_Done
      by (apply convert_step_end; unfold lowest, highest in *; lia).
    unfold ret. rewrite Z.add_0_r. reflexivity.
  - assert (Hstep : acc * 10 + d <= 2 ^ 63).
    { pose proof (digits_value_ge ds Hds (acc * 10 + d)).
      unfold is_digit in Hd. lia. }
    erewrite bind_Done
      by (apply (convert_step_digit true true); [exact Hd | reflexivity
                                                | unfold lowest; lia]).
    cbv beta iota.
    fold (digit_chars ds).
    replace (- acc * 10 + - d) with (- (acc * 10 + d)) by lia.
    rewrite IH by (unfold is_digit in Hd; lia).
    do 3 f_equal. lia.
Qed.

(** The first digit of a decimal literal, read while the base is still to be
    detected (states 1 and 2): a digit other than 0 selects base 10. *)
Lemma convert_step_first_digit (signed negative : bool) (st d l min_value max_value : Z)
      (r : result_type) :
  1 <= d <= 9 -> (negative = true -> signed = true) ->
  st = 0 \/ st = 2 ->
  convert_step signed (chr "0" + d) min_value max_value
    {| m_negative := negative; m_state := st |}
    {| m_data := 0; m_result := r; m_valid_length := l; m_base := detect_base |}
  = Done ((true, {| m_negative := negative; m_state := 6 |}),
          {| m_data := (if negative then - d else d);
             m_result := r; m_valid_length := l + 1; m_base := 10 |}).
Proof.
  intros Hd Hs Hst.
  assert (Hcases : d = 1 \/ d = 2 \/ d = 3 \/ d = 4 \/ d = 5 \/ d = 6 \/ d = 7
                   \/ d = 8 \/ d = 9) by lia.
  destruct negative, signed; try (specialize (Hs eq_refl); discriminate);
    destruct Hst as [-> | ->];
    repeat (destruct Hcases as [-> | Hcases]; [reflexivity|]);
    subst; reflexivity.
Qed.

(** A leading minus sign while the base is still to be detected: [int64_t]
    records it; [uint64_t] notes [INVALID_CHAR] in [m_result] but reports the
    step as valid, and the conversion goes on. *)
Lemma convert_step_minus (signed : bool) (l min_value max_value : Z) (r : result_type) :
  convert_step signed (chr "-") min_value max_value
    {| m_negative := false; m_state := state_initial |}
    {| m_data := 0; m_result := r; m_valid_length := l; m_base := detect_base |}
  = Done ((true, {| m_negative := signed; m_state := 2 |}),
          {| m_data := 0; m_result := (if signed then r else INVALID_CHAR);
             m_valid_length := l + 1; m_base := detect_base |}).
Proof. destruct signed; reflexivity. Qed.

(** The loop of [convert] on decimal digits followed by other characters. *)
Lemma convert_loop_digits_then (signed : bool) (ds rest : list Z) :
  Forall is_digit ds ->
  forall acc l r,
    0 <= acc -> digits_value 10 acc ds <= highest signed ->
    convert_loop signed (digit_chars ds ++ rest) (lowest signed) (highest signed)
      {| m_negative := false; m_state := 6 |}
      {| m_data := acc; m_result := r; m_valid_length := l; m_base := 10 |}
    = convert_loop signed rest (lowest signed) (highest signed)
        {| m_negative := false; m_state := 6 |}
        {| m_data := digits_value 10 acc ds; m_result := r;
           m_valid_length := l + Z.of_nat (List.length ds); m_base := 10 |}.
Proof.
  induction 1 as [|d ds Hd Hds IH]; intros acc l r Hacc Hmax;
    cbn [digit_chars map convert_loop digits_value List.length app] in *.
  - rewrite Z.add_0_r. reflexivity.
  - assert (Hstep : acc * 10 + d <= highest signed).
    { pose proof (digits_value_ge ds Hds (acc * 10 + d)).
      unfold is_digit in Hd. lia. }
    erewrite bind_Done
      by (apply (convert_step_digit signed false); [exact Hd | discriminate | lia]).
    cbv beta iota. fold (digit_chars ds).
    rewrite IH by (unfold is_digit in Hd; lia).
    f_equal. f_equal. lia.
Qed.

(** One more digit on an [uint64_t] whose exact value no longer fits: the
    stored value is the exact one modulo [2^64], and the step fails only when
    that is below the previous value. *)
Lemma convert_step_digit_wraps (d acc l min_value max_value : Z) (r : result_type) :
  is_digit d -> 0 <= acc ->
  convert_step false (chr "0" + d) min_value max_value
    {| m_negative := false; m_state := 6 |}
    {| m_data := acc; m_result := r; m_valid_length := l; m_base := 10 |}
  = if cast_u64 (acc * 10 + d) <? acc
    then Done ((false, {| m_negative := false; m_state := 6 |}),
               {| m_data := acc; m_result := VALUE_OUT_OF_RANGE;
                  m_valid_length := l; m_base := 10 |})
    else Done ((true, {| m_negative := false; m_state := 6 |}),
               {| m_data := cast_u64 (acc * 10 + d); m_result := r;
                  m_valid_length := l + 1; m_base := 10 |}).
Proof.
  intros Hd Hacc. unfold convert_step.
  unfold bind at 1. unfold get at 1. cbv beta iota zeta.
  cbn [m_state m_base]. chr_values.
  assert (Hsp : isspace (48 + d) = false).
  { unfold isspace, is_digit in *. tests. reflexivity. }
  rewrite Hsp, !andb_false_r.
  change (6 =? 0) with false. cbv iota. cbn [m_state with_state m_negative].
  change (6 =? 1) with false.
  change (6 =? 2) with false. change (6 =? 3) with false.
  change (6 =? 4) with false. change (6 =? 5) with false.
  change (6 =? 6) with true. cbv beta iota.
  replace (48 + d =? 0) with false
    by (symmetry; apply Z.eqb_neq; unfold is_digit in Hd; lia).
  unfold bind at 1. unfold bind at 1.
  unfold add_char. unfold bind at 1. unfold get at 1. cbv beta iota.
  change (48 + d) with (chr "0" + d).
  rewrite (char_to_integral_digit d Hd). chr_values.
  cbn [m_base m_data m_negative negb assert].
  unfold is_digit in Hd.
  replace (48 + d =? 36) with false by (symmetry; apply Z.eqb_neq; lia).
  rewrite Z.geb_leb.
  replace (10 <=? d) with false by (symmetry; apply Z.leb_gt; lia).
  unfold bind at 1. unfold bind at 1. unfold ret at 1. cbv beta iota.
  unfold ret at 1. cbv beta iota.
  destruct (cast_u64 (acc * 10 + d) <? acc); cbv beta iota;
    unfold bind, ret, set_result, set_data, get, set_valid_length; cbn;
    rewrite ?Hsp; reflexivity.
Qed.

(** One more digit on an [int64_t] whose exact value no longer fits is a
    signed overflow. *)
Lemma convert_step_digit_overflows (d acc l min_value max_value : Z) (r : result_type) :
  is_digit d -> 0 <= acc -> highest true < acc * 10 + d ->
  convert_step true (chr "0" + d) min_value max_value
    {| m_negative := false; m_state := 6 |}
    {| m_data := acc; m_result := r; m_valid_length := l; m_base := 10 |}
  = Thrown undefined_behaviour.
Proof.
  intros Hd Hacc Hover. unfold convert_step.
  unfold bind at 1. unfold get at 1. cbv beta iota zeta.
  cbn [m_state m_base]. chr_values.
  assert (Hsp : isspace (48 + d) = false).
  { unfold isspace, is_digit in *. tests. reflexivity. }
  rewrite Hsp, !andb_false_r.
  change (6 =? 0) with false. cbv iota. cbn [m_state with_state m_negative].
  change (6 =? 1) with false.
  change (6 =? 2) with false. change (6 =? 3) with false.
  change (6 =? 4) with false. change (6 =? 5) with false.
  change (6 =? 6) with true. cbv beta iota.
  replace (48 + d =? 0) with false
    by (symmetry; apply Z.eqb_neq; unfold is_digit in Hd; lia).
  unfold bind at 1. unfold bind at 1.
  unfold add_char. unfold bind at 1. unfold get at 1. cbv beta iota.
  change (48 + d) with (chr "0" + d).
  rewrite (char_to_integral_digit d Hd). chr_values.
  cbn [m_base m_data m_negative negb assert].
  unfold is_digit in Hd. unfold lowest, highest in *.
  replace (48 + d =? 36) with false by (symmetry; apply Z.eqb_neq; lia).
  rewrite Z.geb_leb.
  replace (10 <=? d) with false by (symmetry; apply Z.leb_gt; lia).
  replace (acc * 10 + d <=? 2 ^ 63 - 1) with false by (symmetry; apply Z.leb_gt; lia).
  rewrite andb_false_r. reflexivity.
Qed.

Lemma convert_eq (signed : bool) (str : list Z) (base min_value max_value : Z) :
  convert signed str base min_value max_value
  = match convert_loop signed str min_value max_value
            {| m_negative := false; m_state := state_initial |}
            {| m_data := 0; m_result := NOT_PROCESSED; m_valid_length := 0;
               m_base := base |} with
    | Done (_, sit) => Done sit
    | Thrown f => Thrown f
    end.
Proof. reflexivity. Qed.

(** A character that is neither a decimal digit nor the terminator, in the
    state that reads digits of base 10: the step fails with INVALID_CHAR. *)
Lemma convert_step_not_digit (signed : bool) (c acc l min_value max_value : Z)
      (r : result_type) :
  c <> end_of_string -> ~ (chr "0" <= c <= chr "9") ->
  convert_step signed c min_value max_value
    {| m_negative := false; m_state := 6 |}
    {| m_data := acc; m_result := r; m_valid_length := l; m_base := 10 |}
  = Done ((false, {| m_negative := false; m_state := 6 |}),
          {| m_data := acc; m_result := INVALID_CHAR; m_valid_length := l; m_base := 10 |}).
Proof.
  intros Hz Hd. unfold convert_step.
  unfold bind at 1. unfold get at 1. cbv beta iota zeta.
  cbn [m_state m_base]. chr_values.
  change (6 =? 0) with false. cbv iota. cbn [m_state with_state m_negative].
  change (6 =? 1) with false.
  change (6 =? 2) with false. change (6 =? 3) with false.
  change (6 =? 4) with false. change (6 =? 5) with false.
  change (6 =? 6) with true. cbv beta iota.
  set (ch := if (0 <? c) && (c <=? 127) && isspace c then 32 else c).
  assert (Hch : ch <> 0 /\ ~ (48 <= ch <= 57)).
  { unfold ch. destruct ((0 <? c) && (c <=? 127) && isspace c); [lia | tauto]. }
  destruct Hch as [Hch0 Hchd].
  replace (ch =? 0) with false by (symmetry; apply Z.eqb_neq; exact Hch0).
  assert (Hadd : add_char signed ch {| m_negative := false; m_state := 6 |}
                   {| m_data := acc; m_result := r; m_valid_length := l; m_base := 10 |}
                 = Done (false, {| m_data := acc; m_result := INVALID_CHAR;
                                   m_valid_length := l; m_base := 10 |})).
  { unfold add_char. unfold bind at 1. unfold get at 1. cbv beta iota.
    chr_values. destruct (ch =? 36); [reflexivity |].
    assert (Hn : 10 <= char_to_integral ch).
    { unfold char_to_integral. chr_values.
      destruct ((48 <=? ch) && (ch <=? 57)) eqn:E1.
      - apply andb_true_iff in E1. destruct E1 as [A B].
        apply Z.leb_le in A, B. lia.
      - destruct ((65 <=? ch) && (ch <=? 90)) eqn:E2.
        + apply andb_true_iff in E2. destruct E2 as [A B]. apply Z.leb_le in A. lia.
        + destruct ((97 <=? ch) && (ch <=? 122)) eqn:E3; [| lia].
          apply andb_true_iff in E3. destruct E3 as [A B]. apply Z.leb_le in A. lia. }
    cbn [m_base]. rewrite Z.geb_leb.
    replace (10 <=? char_to_integral ch) with true by (symmetry; apply Z.leb_le; exact Hn).
    reflexivity. }
  unfold bind at 1. unfold bind at 1. rewrite Hadd. cbv beta iota.
  unfold ret at 1. cbv beta iota.
  reflexivity.
Qed.
End StrToIntegralFacts.

Section StrToIntegralProperties.
Import StrToIntegral StrToIntegralFacts.

(** A decimal literal without sign nor leading zero is converted to its
    value, by [strtointegral<int64_t>] and by [strtointegral<uint64_t>], when
    the value fits the type. *)
Theorem strtointegral_decimal (signed : bool) (d : Z) (ds : list Z) :
  1 <= d <= 9 -> Forall is_digit ds ->
  digits_value 10 0 (d :: ds) <= highest signed ->
  strtointegral signed (digit_chars (d :: ds))
  = Done (digits_value 10 0 (d :: ds), true).
Proof.
  intros Hd Hds Hmax. unfold strtointegral. rewrite convert_eq.
  cbn [digit_chars map convert_loop digits_value] in *.
  erewrite bind_Done
    by (apply (convert_step_first_digit signed false 0); [exact Hd|discriminate|now left]).
  cbv beta iota. fold (digit_chars ds).
  replace (0 * 10 + d) with d in * by lia.
  rewrite convert_loop_digits by (assumption || lia).
  reflexivity.
Qed.

(** A decimal literal with a minus sign is converted by
    [strtointegral<int64_t>] to the negative value, down to [-2^63]. *)
Theorem strtointegral_decimal_negative (d : Z) (ds : list Z) :
  1 <= d <= 9 -> Forall is_digit ds ->
  digits_value 10 0 (d :: ds) <= 2 ^ 63 ->
  strtointegral true (chr "-" :: digit_chars (d :: ds))
  = Done (- digits_value 10 0 (d :: ds), true).
Proof.
  intros Hd Hds Hmax. unfold strtointegral. rewrite convert_eq.
  cbn [digit_chars map convert_loop digits_value] in *.
  erewrite bind_Done by (apply (convert_step_minus true)).
  cbv beta iota.
  erewrite bind_Done
    by (apply (convert_step_first_digit true true 2); [exact Hd|reflexivity|now right]).
  cbv beta iota. fold (digit_chars ds).
  replace (0 * 10 + d) with d in * by lia.
  rewrite convert_loop_digits_negative by (assumption || lia).
  reflexivity.
Qed.

(** [strtointegral<uint64_t>] with base detection accepts a minus sign: the
    step that meets it stores [INVALID_CHAR] but reports success, and the end
    of the string overwrites the result with [VALID], so the literal is
    converted to its magnitude. *)
Theorem strtointegral_unsigned_accepts_minus (d : Z) (ds : list Z) :
  1 <= d <= 9 -> Forall is_digit ds ->
  digits_value 10 0 (d :: ds) <= highest false ->
  strtointegral false (chr "-" :: digit_chars (d :: ds))
  = Done (digits_value 10 0 (d :: ds), true).
Proof.
  intros Hd Hds Hmax. unfold strtointegral. rewrite convert_eq.
  cbn [digit_chars map convert_loop digits_value] in *.
  erewrite bind_Done by (apply (convert_step_minus false)).
  cbv beta iota.
  erewrite bind_Done
    by (apply (convert_step_first_digit false false 2); [exact Hd|discriminate|now right]).
  cbv beta iota. fold (digit_chars ds).
  replace (0 * 10 + d) with d in * by lia.
  rewrite convert_loop_digits by (assumption || lia).
  reflexivity.
Qed.

(** [strtointegral<uint64_t>] does not detect every overflow.  When one more
    digit takes the exact value to [2^64] or beyond, the value kept is the
    exact one modulo [2^64]; the test [tmp_data < m_data] refuses it only when
    it is below the previous value, and otherwise the literal is converted,
    as valid, to the wrapped value. *)
Theorem strtointegral_unsigned_overflow_undetected (d last : Z) (ds : list Z) :
  1 <= d <= 9 -> Forall is_digit ds -> is_digit last ->
  let m := digits_value 10 0 (d :: ds) in
  m <= highest false ->
  2 ^ 64 <= m * 10 + last ->
  m <= (m * 10 + last) mod 2 ^ 64 ->
  strtointegral false (digit_chars (d :: ds ++ [last]))
  = Done ((m * 10 + last) mod 2 ^ 64, true).
Proof.
  intros Hd Hds Hlast m Hm Hover Hwrap. unfold strtointegral. rewrite convert_eq.
  unfold m in *. clear m.
  cbn [digit_chars map convert_loop digits_value] in *.
  erewrite bind_Done
    by (apply (convert_step_first_digit false false 0); [exact Hd|discriminate|now left]).
  cbv beta iota. rewrite map_app. fold (digit_chars ds). fold (digit_chars [last]).
  replace (0 * 10 + d) with d in * by lia.
  rewrite convert_loop_digits_then by (assumption || lia).
  cbn [digit_chars map convert_loop].
  pose proof (digits_value_ge ds Hds d ltac:(lia)) as Hge.
  unfold bind at 1.
  rewrite convert_step_digit_wraps by (assumption || lia).
  unfold cast_u64.
  replace (_ <? _) with false by (symmetry; apply Z.ltb_ge; lia).
  cbv beta iota.
  pose proof (Z.mod_pos_bound (digits_value 10 d ds * 10 + last) (2 ^ 64) ltac:(lia)).
  erewrite bind_Done
    by (apply convert_step_end; unfold lowest, highest; lia).
  reflexivity.
Qed.

(** [strtointegral<int64_t>] on a decimal literal above [INT64_MAX]: the
    digit that takes the value beyond [2^63 - 1] makes [add_char] compute
    [m_data * m_base + number] outside [int64_t], a signed overflow, before
    any range test. *)
Theorem strtointegral_signed_overflow (d last : Z) (ds rest : list Z) :
  1 <= d <= 9 -> Forall is_digit ds -> is_digit last ->
  let m := digits_value 10 0 (d :: ds) in
  m <= highest true ->
  highest true < m * 10 + last ->
  strtointegral true (digit_chars (d :: ds ++ [last]) ++ rest)
  = Thrown undefined_behaviour.
Proof.
  intros Hd Hds Hlast m Hm Hover. unfold strtointegral. rewrite convert_eq.
  unfold m in *. clear m.
  cbn [digit_chars map convert_loop digits_value app] in *.
  erewrite bind_Done
    by (apply (convert_step_first_digit true false 0); [exact Hd|discriminate|now left]).
  cbv beta iota. rewrite map_app, <- app_assoc.
  fold (digit_chars ds).
  replace (0 * 10 + d) with d in * by lia.
  rewrite convert_loop_digits_then by (assumption || lia).
  cbn [map app convert_loop].
  pose proof (digits_value_ge ds Hds d ltac:(lia)) as Hge.
  unfold bind at 1.
  rewrite convert_step_digit_overflows by (assumption || lia).
  reflexivity.
Qed.

(** Nothing may follow the digits: a decimal literal within range followed by
    a character that is not a decimal digit, a blank included, makes the
    conversion fail, whatever comes after that character. *)
Theorem strtointegral_rejects_trailing (signed : bool) (d c : Z) (ds rest : list Z) :
  1 <= d <= 9 -> Forall is_digit ds ->
  digits_value 10 0 (d :: ds) <= highest signed ->
  c <> end_of_string -> ~ (chr "0" <= c <= chr "9") ->
  strtointegral signed (digit_chars (d :: ds) ++ c :: rest) = Done (0, false).
Proof.
  intros Hd Hds Hmax Hc0 Hcd.
  unfold strtointegral. rewrite convert_eq.
  cbn [digit_chars map app convert_loop].
  erewrite bind_Done
    by (apply (convert_step_first_digit signed false); [exact Hd | discriminate | now left]).
  cbv beta iota. fold (digit_chars ds).
  cbn [digits_value] in Hmax. rewrite Z.mul_0_l, Z.add_0_l in Hmax.
  rewrite convert_loop_digits_then by (assumption || lia).
  cbn [convert_loop].
  erewrite bind_Done by (apply convert_step_not_digit; assumption).
  reflexivity.
Qed.
End StrToIntegralProperties.

Lemma strtointegral_decimal_witness :
  StrToIntegral.strtointegral false (JsonTokenizer.code_points "18446744073709551615")
  = Done (2 ^ 64 - 1, true)
  /\ StrToIntegral.strtointegral true (JsonTokenizer.code_points "9223372036854775807")
     = Done (2 ^ 63 - 1, true).
Proof.
  split.
  - apply (strtointegral_decimal false 1
             [8; 4; 4; 6; 7; 4; 4; 0; 7; 3; 7; 0; 9; 5; 5; 1; 6; 1; 5]).
    + lia.
    + repeat constructor; unfold StrToIntegral.is_digit; lia.
    + vm_compute. discriminate.
  - apply (strtointegral_decimal true 9
             [2; 2; 3; 3; 7; 2; 0; 3; 6; 8; 5; 4; 7; 7; 5; 8; 0; 7]).
    + lia.
    + repeat constructor; unfold StrToIntegral.is_digit; lia.
    + vm_compute. discriminate.
Defined.

Lemma strtointegral_decimal_negative_witness :
  StrToIntegral.strtointegral true (JsonTokenizer.code_points "-9223372036854775808")
  = Done (- 2 ^ 63, true).
Proof.
  apply (strtointegral_decimal_negative 9
           [2; 2; 3; 3; 7; 2; 0; 3; 6; 8; 5; 4; 7; 7; 5; 8; 0; 8]).
  - lia.
  - repeat constructor; unfold StrToIntegral.is_digit; lia.
  - vm_compute. discriminate.
Defined.

Lemma strtointegral_unsigned_accepts_minus_witness :
  StrToIntegral.strtointegral false (JsonTokenizer.code_points "-5") = Done (5, true).
Proof.
  apply (strtointegral_unsigned_accepts_minus 5 []).
  - lia.
  - constructor.
  - vm_compute. discriminate.
Defined.

(** The literal 30000000000000000000 is converted to
    30000000000000000000 - 2^64. *)
Lemma strtointegral_unsigned_overflow_undetected_witness :
  StrToIntegral.strtointegral false (JsonTokenizer.code_points "30000000000000000000")
  = Done (11553255926290448384, true).
Proof.
  apply (strtointegral_unsigned_overflow_undetected 3 0
           [0; 0; 0; 0; 0; 0; 0; 0; 0; 0; 0; 0; 0; 0; 0; 0; 0; 0]).
  - lia.
  - repeat constructor; unfold StrToIntegral.is_digit; lia.
  - unfold StrToIntegral.is_digit; lia.
  - vm_compute. discriminate.
  - vm_compute. discriminate.
  - vm_compute. discriminate.
Defined.

(** The literal 9223372036854775808, [2^63]. *)
Lemma strtointegral_signed_overflow_witness :
  StrToIntegral.strtointegral true (JsonTokenizer.code_points "9223372036854775808")
  = Thrown undefined_behaviour.
Proof.
  apply (strtointegral_signed_overflow 9 8
           [2; 2; 3; 3; 7; 2; 0; 3; 6; 8; 5; 4; 7; 7; 5; 8; 0] []).
  - lia.
  - repeat constructor; unfold StrToIntegral.is_digit; lia.
  - unfold StrToIntegral.is_digit; lia.
  - vm_compute. discriminate.
  - vm_compute. reflexivity.
Defined.

(** The texts [12 ] and [12abc]. *)
Lemma strtointegral_rejects_trailing_witness :
  StrToIntegral.strtointegral true (JsonTokenizer.code_points "12 ") = Done (0, false)
  /\ StrToIntegral.strtointegral false (JsonTokenizer.code_points "12abc") = Done (0, false).
Proof.
  split.
  - apply (strtointegral_rejects_trailing true 1 32 [2] []).
    + lia.
    + repeat constructor; unfold StrToIntegral.is_digit; lia.
    + vm_compute. discriminate.
    + discriminate.
    + vm_compute. intros [H1 H2]. first [apply H1; reflexivity | apply H2; reflexivity].
  - apply (strtointegral_rejects_trailing false 1 97 [2] [98; 99]).
    + lia.
    + repeat constructor; unfold StrToIntegral.is_digit; lia.
    + vm_compute. discriminate.
    + discriminate.
    + vm_compute. intros [H1 H2]. first [apply H1; reflexivity | apply H2; reflexivity].
Defined.

(** ** Base64 *)

Module Base64Facts.
Import Base64 BitFacts.

Lemma alphabet_checked :
  forallb (fun i => let v := Z.of_nat i in
                    (conv_char (enc_char v) =? v) && negb (byte.unsigned (enc_char v) =? PAD))
          (seq 0 64) = true.
Proof. vm_compute. reflexivity. Qed.

Lemma alphabet (v : Z) :
  0 <= v < 64 -> conv_char (enc_char v) = v /\ (byte.unsigned (enc_char v) =? PAD) = false.
Proof.
  intros Hv. pose proof alphabet_checked as H.
  rewrite forallb_forall in H. specialize (H (Z.to_nat v)).
  cbv zeta in H. rewrite Z2Nat.id in H by lia.
  assert (Hin : In (Z.to_nat v) (seq 0 64)) by (apply in_seq; lia).
  apply H in Hin. apply andb_true_iff in Hin. destruct Hin as [H1 H2].
  split; [apply Z.eqb_eq; assumption | apply negb_true_iff; assumption].
Qed.

Lemma list_ind3 (A : Type) (P : list A -> Prop) :
  P [] -> (forall a, P [a]) -> (forall a b, P [a; b]) ->
  (forall a b c rest, P rest -> P (a :: b :: c :: rest)) ->
  forall l, P l.
Proof.
  intros H0 H1 H2 H3.
  assert (H : forall l, P l /\ (forall a, P (a :: l)) /\ (forall a b, P (a :: b :: l))).
  { induction l as [| x l [IH0 [IH1 IH2]]].
    - auto.
    - split; [apply IH1 | split; [intros; apply IH2 | intros; apply H3, IH0]]. }
  intros l. apply H.
Qed.

Lemma encode_block_3 (b0 b1 b2 : byte) :
  let w := byte.unsigned b0 * 2 ^ 16 + byte.unsigned b1 * 2 ^ 8 + byte.unsigned b2 in
  encode_block [b0; b1; b2]
  = [enc_char (w / 2 ^ 18 mod 2 ^ 6); enc_char (w / 2 ^ 12 mod 2 ^ 6);
     enc_char (w / 2 ^ 6 mod 2 ^ 6); enc_char (w / 2 ^ 0 mod 2 ^ 6)].
Proof.
  pose proof (byte.unsigned_range b0). pose proof (byte.unsigned_range b1).
  pose proof (byte.unsigned_range b2).
  cbv zeta. unfold encode_block.
  cbn [List.length nth Nat.add Nat.sub seq map repeat app].
  change (Z.of_nat 0) with 0. change (Z.of_nat 1) with 1.
  change (Z.of_nat 2) with 2. change (Z.of_nat 3) with 3.
  shifts_to_arith.
  rewrite (lor_aligned_add (_ * _) (_ * _) 16) by div_mod_lia.
  rewrite (lor_aligned_add _ _ 8) by div_mod_lia.
  reflexivity.
Qed.

Lemma encode_block_2 (b0 b1 : byte) :
  let w := byte.unsigned b0 * 2 ^ 16 + byte.unsigned b1 * 2 ^ 8 in
  encode_block [b0; b1]
  = [enc_char (w / 2 ^ 18 mod 2 ^ 6); enc_char (w / 2 ^ 12 mod 2 ^ 6);
     enc_char (w / 2 ^ 6 mod 2 ^ 6); byte.of_Z PAD].
Proof.
  pose proof (byte.unsigned_range b0). pose proof (byte.unsigned_range b1).
  cbv zeta. unfold encode_block.
  cbn [List.length nth Nat.add Nat.sub seq map repeat app].
  change (Z.of_nat 0) with 0. change (Z.of_nat 1) with 1.
  change (Z.of_nat 2) with 2. change (byte.unsigned Byte.x00) with 0.
  shifts_to_arith.
  rewrite (lor_aligned_add (_ * _) (_ * _) 16) by div_mod_lia.
  rewrite Z.lor_0_r. reflexivity.
Qed.

Lemma encode_block_1 (b0 : byte) :
  let w := byte.unsigned b0 * 2 ^ 16 in
  encode_block [b0]
  = [enc_char (w / 2 ^ 18 mod 2 ^ 6); enc_char (w / 2 ^ 12 mod 2 ^ 6);
     byte.of_Z PAD; byte.of_Z PAD].
Proof.
  pose proof (byte.unsigned_range b0).
  cbv zeta. unfold encode_block.
  cbn [List.length nth Nat.add Nat.sub seq map repeat app].
  change (Z.of_nat 0) with 0. change (Z.of_nat 1) with 1.
  change (byte.unsigned Byte.x00) with 0.
  shifts_to_arith.
  rewrite Z.mul_0_l, !Z.lor_0_r. reflexivity.
Qed.

Lemma six_bits (w n : Z) : 0 <= w / 2 ^ n mod 2 ^ 6 < 64.
Proof. apply Z.mod_pos_bound. reflexivity. Qed.

Lemma list_ind4 (A : Type) (P : list A -> Prop) :
  P [] -> (forall a, P [a]) -> (forall a b, P [a; b]) -> (forall a b c, P [a; b; c]) ->
  (forall a b c d rest, P rest -> P (a :: b :: c :: d :: rest)) ->
  forall l, P l.
Proof.
  intros H0 H1 H2 H3 H4.
  assert (H : forall l, P l /\ (forall a, P (a :: l)) /\ (forall a b, P (a :: b :: l))
                        /\ (forall a b c, P (a :: b :: c :: l))).
  { induction l as [| x l [IH0 [IH1 [IH2 IH3]]]].
    - auto.
    - split; [apply IH1 | split; [intros; apply IH2 | split; [intros; apply IH3 |]]].
      intros; apply H4, IH0. }
  intros l. apply H.
Qed.

Ltac alphabet_facts v :=
  let H1 := fresh "Hconv" in
  let H2 := fresh "Hpad" in
  destruct (alphabet v) as [H1 H2]; [lia |].

Lemma decode_full_block (count v0 v1 v2 v3 : Z) (rest : list byte) :
  0 <= v0 < 64 -> 0 <= v1 < 64 -> 0 <= v2 < 64 -> 0 <= v3 < 64 ->
  let binary := v0 * 2 ^ 18 + v1 * 2 ^ 12 + v2 * 2 ^ 6 + v3 in
  base64_decode_loop 4 (enc_char v0 :: enc_char v1 :: enc_char v2 :: enc_char v3 :: rest)
  = let '(ok, more) := base64_decode_loop 4 rest in
    (ok, [byte.of_Z (binary / 2 ^ 16 mod 2 ^ 8); byte.of_Z (binary / 2 ^ 8 mod 2 ^ 8);
          byte.of_Z (binary / 2 ^ 0 mod 2 ^ 8)] ++ more).
Proof.
  intros H0 H1 H2 H3.
  alphabet_facts v0. alphabet_facts v1. alphabet_facts v2. alphabet_facts v3.
  cbv zeta. cbn [base64_decode_loop].
  rewrite Hpad2.
  change (Z.to_nat 4) with 4%nat.
  cbn [firstn map nth existsb seq].
  rewrite Hconv, Hconv0, Hconv1, Hconv2.
  replace (v0 =? base64_BAD) with false by (symmetry; apply Z.eqb_neq; unfold base64_BAD; lia).
  replace (v1 =? base64_BAD) with false by (symmetry; apply Z.eqb_neq; unfold base64_BAD; lia).
  replace (v2 =? base64_BAD) with false by (symmetry; apply Z.eqb_neq; unfold base64_BAD; lia).
  replace (v3 =? base64_BAD) with false by (symmetry; apply Z.eqb_neq; unfold base64_BAD; lia).
  cbn [orb]. change (4 =? 4) with true. cbv iota.
  change (Z.of_nat 0) with 0. change (Z.of_nat 1) with 1. change (Z.of_nat 2) with 2.
  shifts_to_arith.
  rewrite (lor_aligned_add (_ * _) (_ * _) 18) by div_mod_lia.
  rewrite (lor_aligned_add (_ + _) (_ * _) 12) by div_mod_lia.
  rewrite (lor_aligned_add _ v3 6) by div_mod_lia.
  reflexivity.
Qed.

Lemma decode_block_pad1 (v0 v1 v2 : Z) :
  0 <= v0 < 64 -> 0 <= v1 < 64 -> 0 <= v2 < 64 ->
  let binary := v0 * 2 ^ 10 + v1 * 2 ^ 4 + v2 / 2 ^ 2 in
  base64_decode_loop 4 [enc_char v0; enc_char v1; enc_char v2; byte.of_Z PAD]
  = (true, [byte.of_Z (binary / 2 ^ 8 mod 2 ^ 8); byte.of_Z (binary / 2 ^ 0 mod 2 ^ 8)]).
Proof.
  intros H0 H1 H2.
  alphabet_facts v0. alphabet_facts v1. alphabet_facts v2.
  cbv zeta. cbn [base64_decode_loop].
  change (byte.unsigned (byte.of_Z PAD) =? PAD) with true. cbv iota.
  rewrite Hpad1.
  change (Z.to_nat 3) with 3%nat.
  cbn [firstn map nth existsb seq].
  rewrite Hconv, Hconv0, Hconv1.
  replace (v0 =? base64_BAD) with false by (symmetry; apply Z.eqb_neq; unfold base64_BAD; lia).
  replace (v1 =? base64_BAD) with false by (symmetry; apply Z.eqb_neq; unfold base64_BAD; lia).
  replace (v2 =? base64_BAD) with false by (symmetry; apply Z.eqb_neq; unfold base64_BAD; lia).
  cbn [orb]. change (3 =? 4) with false. change (3 =? 3) with true. cbv iota.
  change (Z.of_nat 0) with 0. change (Z.of_nat 1) with 1.
  shifts_to_arith.
  rewrite (lor_aligned_add (_ * _) (_ * _) 10) by div_mod_lia.
  rewrite (lor_aligned_add _ (_ / _) 4) by div_mod_lia.
  reflexivity.
Qed.

Lemma decode_block_pad2 (v0 v1 : Z) :
  0 <= v0 < 64 -> 0 <= v1 < 64 ->
  base64_decode_loop 4 [enc_char v0; enc_char v1; byte.of_Z PAD; byte.of_Z PAD]
  = (true, [byte.of_Z (v0 * 2 ^ 2 + v1 / 2 ^ 4)]).
Proof.
  intros H0 H1.
  alphabet_facts v0. alphabet_facts v1.
  cbn [base64_decode_loop].
  change (byte.unsigned (byte.of_Z PAD) =? PAD) with true. cbv iota.
  change (Z.to_nat 2) with 2%nat.
  cbn [firstn map nth existsb seq].
  rewrite Hconv, Hconv0.
  replace (v0 =? base64_BAD) with false by (symmetry; apply Z.eqb_neq; unfold base64_BAD; lia).
  replace (v1 =? base64_BAD) with false by (symmetry; apply Z.eqb_neq; unfold base64_BAD; lia).
  cbn [orb]. change (2 =? 4) with false. change (2 =? 3) with false. cbv iota.
  shifts_to_arith.
  rewrite (lor_aligned_add _ (_ / _) 2) by div_mod_lia.
  reflexivity.
Qed.

(** The loop of [base64_decode] on the text of [base64_encode]. *)
Lemma base64_decode_encode (data : list byte) :
  base64_decode_loop 4 (base64_encode data) = (true, data).
Proof.
      induction data as [| b0 | b0 b1 | b0 b1 b2 rest IH] using list_ind3.
    - reflexivity.
    - pose proof (byte.unsigned_range b0).
      change (base64_encode [b0]) with (encode_block [b0]).
      rewrite encode_block_1. cbv zeta.
      rewrite decode_block_pad2 by apply six_bits.
      match goal with
      | |- context [byte.of_Z ?x] =>
          replace x with (byte.unsigned b0) by div_mod_lia
      end.
      rewrite byte.of_Z_unsigned. reflexivity.
    - pose proof (byte.unsigned_range b0). pose proof (byte.unsigned_range b1).
      change (base64_encode [b0; b1]) with (encode_block [b0; b1]).
      rewrite encode_block_2. cbv zeta.
      rewrite decode_block_pad1 by apply six_bits.
      cbv zeta.
      match goal with
      | |- context [byte.of_Z (?x / 2 ^ 8 mod 2 ^ 8)] =>
          replace (x / 2 ^ 8 mod 2 ^ 8) with (byte.unsigned b0) by div_mod_lia;
          replace (x / 2 ^ 0 mod 2 ^ 8) with (byte.unsigned b1) by div_mod_lia
      end.
      rewrite !byte.of_Z_unsigned. reflexivity.
    - pose proof (byte.unsigned_range b0). pose proof (byte.unsigned_range b1).
      pose proof (byte.unsigned_range b2).
      change (base64_encode (b0 :: b1 :: b2 :: rest))
        with (encode_block [b0; b1; b2] ++ base64_encode rest).
      rewrite encode_block_3. cbv zeta. cbn [app].
      rewrite decode_full_block by (exact 4 || apply six_bits).
      rewrite IH. cbv zeta. cbn [app].
      match goal with
      | |- context [byte.of_Z (?x / 2 ^ 16 mod 2 ^ 8)] =>
          replace (x / 2 ^ 16 mod 2 ^ 8) with (byte.unsigned b0) by div_mod_lia;
          replace (x / 2 ^ 8 mod 2 ^ 8) with (byte.unsigned b1) by div_mod_lia;
          replace (x / 2 ^ 0 mod 2 ^ 8) with (byte.unsigned b2) by div_mod_lia
      end.
      rewrite !byte.of_Z_unsigned. reflexivity.
  Qed.

Lemma alphabet_plain_checked :
  forallb (fun i => let c := byte.unsigned (enc_char (Z.of_nat i)) in
                    (0 <=? c) && (c <? 128) && negb (c =? 34) && negb (c =? 92))
          (seq 0 64) = true.
Proof. vm_compute. reflexivity. Qed.

Lemma alphabet_plain (v : Z) :
  0 <= v < 64 ->
  let c := byte.unsigned (enc_char v) in
  0 <= c < 128 /\ c <> 34 /\ c <> 92.
Proof.
  intros Hv. pose proof alphabet_plain_checked as H.
  rewrite forallb_forall in H. specialize (H (Z.to_nat v)).
  cbv zeta in H. rewrite Z2Nat.id in H by lia.
  assert (Hin : In (Z.to_nat v) (seq 0 64)) by (apply in_seq; lia).
  apply H in Hin. repeat (apply andb_true_iff in Hin; destruct Hin as [Hin ?]).
  cbv zeta. repeat split.
  - apply Z.leb_le. assumption.
  - apply Z.ltb_lt. assumption.
  - apply Z.eqb_neq, negb_true_iff. assumption.
  - apply Z.eqb_neq, negb_true_iff. assumption.
Qed.

(** Every character [base64_encode] writes is a 7-bit character other than
    the quote and the backslash. *)
Lemma base64_encode_chars (data : list byte) :
  Forall (fun ch => 0 <= byte.unsigned ch < 128 /\ byte.unsigned ch <> 34
                    /\ byte.unsigned ch <> 92) (base64_encode data).
Proof.
  assert (Hpad : 0 <= byte.unsigned (byte.of_Z PAD) < 128
                 /\ byte.unsigned (byte.of_Z PAD) <> 34
                 /\ byte.unsigned (byte.of_Z PAD) <> 92)
    by (vm_compute; repeat split; discriminate).
  induction data as [| b0 | b0 b1 | b0 b1 b2 rest IH] using list_ind3.
  - constructor.
  - change (base64_encode [b0]) with (encode_block [b0]).
    rewrite encode_block_1. cbv zeta.
    repeat constructor; try (apply alphabet_plain; apply six_bits); apply Hpad.
  - change (base64_encode [b0; b1]) with (encode_block [b0; b1]).
    rewrite encode_block_2. cbv zeta.
    repeat constructor; try (apply alphabet_plain; apply six_bits); apply Hpad.
  - change (base64_encode (b0 :: b1 :: b2 :: rest))
      with (encode_block [b0; b1; b2] ++ base64_encode rest).
    rewrite encode_block_3. cbv zeta. cbn [app].
    repeat (constructor; [apply alphabet_plain; apply six_bits |]). exact IH.
Qed.

End Base64Facts.

Section Base64Properties.
Import Base64 BitFacts Base64Facts.

(** Decoding what [base64_encode] wrote succeeds and gives back the bytes
    encoded, whatever their number. *)
Theorem base64_roundtrip (data : list byte) :
  base64_decode (base64_encode data) = (true, data).
Proof.
unfold base64_decode. apply base64_decode_encode.
Qed.

(** The encoder writes four characters for every three bytes or part of
      three bytes. *)
Theorem base64_encode_length (data : list byte) :
  List.length (base64_encode data) = (4 * ((List.length data + 2) / 3))%nat.
Proof.
  induction data as [| b0 | b0 b1 | b0 b1 b2 rest IH] using list_ind3;
    try reflexivity.
  change (base64_encode (b0 :: b1 :: b2 :: rest))
    with (encode_block [b0; b1; b2] ++ base64_encode rest).
  rewrite length_app, IH.
  change (List.length (encode_block [b0; b1; b2])) with 4%nat.
  cbn [List.length].
  replace (S (S (S (List.length rest))) + 2)%nat
    with (List.length rest + 2 + 1 * 3)%nat by lia.
  rewrite Nat.div_add by lia. lia.
Qed.

(** A text whose length is not a multiple of four is refused. *)
Theorem base64_decode_rejects_length (text : list byte) :
  (List.length text mod 4 <> 0)%nat -> fst (base64_decode text) = false.
Proof.
  unfold base64_decode.
  induction text as [| a | a b | a b c | c0 c1 c2 c3 rest IH] using list_ind4;
    intros Hlen; try reflexivity.
  - exfalso. apply Hlen. reflexivity.
  - assert (Hrest : (List.length rest mod 4 <> 0)%nat).
    { cbn [List.length] in Hlen.
      replace (S (S (S (S (List.length rest))))) with (List.length rest + 1 * 4)%nat
        in Hlen by lia.
      rewrite Nat.Div0.mod_add in Hlen. exact Hlen. }
    assert (Hne : match rest with [] => true | _ :: _ => false end = false).
    { destruct rest; [exfalso; apply Hrest; reflexivity | reflexivity]. }
    specialize (IH Hrest).
    cbn [base64_decode_loop].
    destruct (byte.unsigned c3 =? PAD); [destruct (byte.unsigned c2 =? PAD) |].
    + change (2 =? 4) with false. change (2 =? 3) with false. cbv iota.
      destruct (existsb _ _); [reflexivity |]. cbn [fst]. exact Hne.
    + change (3 =? 4) with false. change (3 =? 3) with true. cbv iota.
      destruct (existsb _ _); [reflexivity |]. cbn [fst]. exact Hne.
    + change (4 =? 4) with true. cbv iota.
      destruct (existsb _ _); [reflexivity |].
      destruct (base64_decode_loop 4 rest) as [ok more].
      cbn [fst] in *. exact IH.
Qed.

(** A text holding a character that is neither of the alphabet nor the
    padding character is refused, wherever the character stands. *)
Theorem base64_decode_rejects_foreign (text : list byte) :
  Exists (fun ch => conv_char ch = base64_BAD /\ byte.unsigned ch <> PAD) text ->
  fst (base64_decode text) = false.
Proof.
  unfold base64_decode.
  induction text as [| a | a b | a b c | c0 c1 c2 c3 rest IH] using list_ind4;
    intros Hex; try reflexivity.
  - inversion Hex.
  - assert (Hrest : Forall (fun ch => ~ (conv_char ch = base64_BAD /\ byte.unsigned ch <> PAD))
                           [c0; c1; c2; c3] ->
                    fst (base64_decode_loop 4 rest) = false).
    { intros Hall. apply IH.
      repeat (apply Exists_cons in Hex; destruct Hex as [Hex | Hex];
              [exfalso; inversion Hall; subst; auto |];
              apply Forall_inv_tail in Hall).
      exact Hex. }
    cbn [base64_decode_loop].
    destruct (byte.unsigned c3 =? PAD) eqn:E3;
      [destruct (byte.unsigned c2 =? PAD) eqn:E2 |].
    + change (Z.to_nat 2) with 2%nat. cbn [firstn map existsb].
      destruct (conv_char c0 =? base64_BAD) eqn:B0; [reflexivity |].
      destruct (conv_char c1 =? base64_BAD) eqn:B1; [reflexivity |].
      cbn [orb]. change (2 =? 4) with false. change (2 =? 3) with false. cbv iota.
      cbn [fst].
      destruct rest as [| r rest']; [| reflexivity].
      exfalso. apply Z.eqb_eq in E3, E2. apply Z.eqb_neq in B0, B1.
      repeat (apply Exists_cons in Hex; destruct Hex as [Hex | Hex]; [tauto |]).
      inversion Hex.
    + change (Z.to_nat 3) with 3%nat. cbn [firstn map existsb].
      destruct (conv_char c0 =? base64_BAD) eqn:B0; [reflexivity |].
      destruct (conv_char c1 =? base64_BAD) eqn:B1; [reflexivity |].
      destruct (conv_char c2 =? base64_BAD) eqn:B2; [reflexivity |].
      cbn [orb]. change (3 =? 4) with false. change (3 =? 3) with true. cbv iota.
      cbn [fst].
      destruct rest as [| r rest']; [| reflexivity].
      exfalso. apply Z.eqb_eq in E3. apply Z.eqb_neq in B0, B1, B2.
      repeat (apply Exists_cons in Hex; destruct Hex as [Hex | Hex]; [tauto |]).
      inversion Hex.
    + change (Z.to_nat 4) with 4%nat. cbn [firstn map existsb].
      destruct (conv_char c0 =? base64_BAD) eqn:B0; [reflexivity |].
      destruct (conv_char c1 =? base64_BAD) eqn:B1; [reflexivity |].
      destruct (conv_char c2 =? base64_BAD) eqn:B2; [reflexivity |].
      destruct (conv_char c3 =? base64_BAD) eqn:B3; [reflexivity |].
      cbn [orb]. change (4 =? 4) with true. cbv iota.
      apply Z.eqb_neq in B0, B1, B2, B3.
      assert (Hf : fst (base64_decode_loop 4 rest) = false).
      { apply Hrest. repeat constructor; tauto. }
      destruct (base64_decode_loop 4 rest) as [ok more].
      cbn [fst] in *. exact Hf.
Qed.

End Base64Properties.

Lemma base64_decode_rejects_length_witness :
  fst (Base64.base64_decode (bytes_of_string "Zm9v=")) = false.
Proof. apply base64_decode_rejects_length. vm_compute. discriminate. Defined.

Lemma base64_decode_rejects_foreign_witness :
  fst (Base64.base64_decode (bytes_of_string "Zm9vZm-v")) = false.
Proof.
  apply base64_decode_rejects_foreign.
  do 6 apply Exists_cons_tl. apply Exists_cons_hd.
  split; [vm_compute; reflexivity | vm_compute; discriminate].
Defined.



(** ** UTF-8 *)

Module Utf8Facts.
Import BitFacts.

Lemma DASTD_BINGET_div_mod (var fstbit len : Z) :
  0 <= fstbit -> 0 <= len ->
  DASTD_BINGET var fstbit len = (var / 2 ^ fstbit) mod 2 ^ len.
Proof.
  intros Hf Hl. unfold DASTD_BINGET.
  rewrite land_mask_mod by assumption.
  rewrite Z.shiftr_div_pow2 by assumption. reflexivity.
Qed.

(** Clearing a field that is already clear changes nothing. *)
Lemma land_lnot_field (x fstbit len : Z) :
  0 <= fstbit -> 0 <= len -> x mod 2 ^ (fstbit + len) = 0 ->
  Z.land x (Z.lnot (Z.shiftl (Z.shiftl 1 len - 1) fstbit)) = x.
Proof.
  intros Hf Hl Hx. apply Z.bits_inj'. intros n Hn.
  rewrite Z.land_spec, Z.lnot_spec by assumption.
  destruct (Z.lt_ge_cases n (fstbit + len)) as [Hlt | Hge].
  - assert (E : Z.testbit x n = false).
    { assert (Ex : x = x / 2 ^ (fstbit + len) * 2 ^ (fstbit + len)).
      { pose proof (Z.div_mod x (2 ^ (fstbit + len))). lia. }
      rewrite Ex. apply Z.mul_pow2_bits_low. assumption. }
    rewrite E. reflexivity.
  - rewrite Z.shiftl_spec by assumption.
    replace (Z.shiftl 1 len - 1) with (Z.ones len)
      by (unfold Z.ones; rewrite Z.sub_1_r; reflexivity).
    rewrite Z.ones_spec_high by lia. apply andb_true_r.
Qed.

Lemma DASTD_BINSET_clear_field (x fstbit len value : Z) :
  0 <= fstbit -> 0 <= len -> x mod 2 ^ (fstbit + len) = 0 ->
  0 <= value < 2 ^ len ->
  DASTD_BINSET x fstbit len value = x + value * 2 ^ fstbit.
Proof.
  intros Hf Hl Hx Hv. unfold DASTD_BINSET.
  rewrite land_lnot_field by assumption.
  rewrite Z.shiftl_mul_pow2 by assumption.
  apply (lor_aligned_add _ _ (fstbit + len)); [lia | assumption |].
  rewrite Z.pow_add_r by assumption. nia.
Qed.

Lemma next_byte_checked :
  forallb (fun i => let c := byte.unsigned (next_byte (Z.of_nat i)) in
                    (Z.land c 0xC0 =? 0x80) && (DASTD_BINGET c 0 6 =? Z.of_nat i))
          (seq 0 64) = true.
Proof. vm_compute. reflexivity. Qed.

Lemma next_byte_read (v : Z) :
  0 <= v < 64 ->
  (Z.land (byte.unsigned (next_byte v)) 0xC0 =? 0x80) = true
  /\ DASTD_BINGET (byte.unsigned (next_byte v)) 0 6 = v.
Proof.
  intros Hv. pose proof next_byte_checked as H.
  rewrite forallb_forall in H. specialize (H (Z.to_nat v)).
  cbv zeta in H. rewrite Z2Nat.id in H by lia.
  assert (Hin : In (Z.to_nat v) (seq 0 64)) by (apply in_seq; lia).
  apply H in Hin. apply andb_true_iff in Hin. destruct Hin as [H1 H2].
  split; [assumption | apply Z.eqb_eq; assumption].
Qed.

Lemma lead_checked :
  forallb (fun i => lead_ok 0xC0 5 1 (Z.of_nat i)) (seq 0 32)
  && forallb (fun i => lead_ok 0xE0 4 2 (Z.of_nat i)) (seq 0 16)
  && forallb (fun i => lead_ok 0xF0 3 3 (Z.of_nat i)) (seq 0 8) = true.
Proof. vm_compute. reflexivity. Qed.

Lemma forallb_range (f : nat -> bool) (n : nat) (v : Z) :
  forallb f (seq 0 n) = true -> 0 <= v < Z.of_nat n -> f (Z.to_nat v) = true.
Proof.
  intros H Hv. rewrite forallb_forall in H. apply H. apply in_seq. lia.
Qed.

Lemma lead_read (marker len following v : Z) (n : nat) :
  forallb (fun i => lead_ok marker len following (Z.of_nat i)) (seq 0 n) = true ->
  0 <= v < Z.of_nat n ->
  let c := byte.unsigned (lead_byte marker v) in
  (c =? 0) = false /\ (Z.land c 0x80 =? 0) = false
  /\ (Z.land c 0xE0 =? 0xC0) = (following =? 1)
  /\ (Z.land c 0xF0 =? 0xE0) = (following =? 2)
  /\ (Z.land c 0xF8 =? 0xF0) = (following =? 3)
  /\ DASTD_BINGET c 0 len = v.
Proof.
  intros H Hv. pose proof (forallb_range _ _ _ H Hv) as L.
  cbv beta in L. rewrite Z2Nat.id in L by lia. unfold lead_ok in L. cbv zeta in L.
  repeat (apply andb_true_iff in L; destruct L as [L ?]).
  cbv zeta. repeat split;
    try (apply negb_true_iff; assumption);
    try (apply Bool.eqb_prop; assumption);
    try (apply Z.eqb_eq; assumption).
Qed.

Lemma lead2 (v : Z) :
  0 <= v < 32 ->
  let c := byte.unsigned (lead_byte 0xC0 v) in
  (c =? 0) = false /\ (Z.land c 0x80 =? 0) = false
  /\ (Z.land c 0xE0 =? 0xC0) = true
  /\ DASTD_BINGET c 0 5 = v.
Proof.
  intros Hv. pose proof lead_checked as H.
  repeat (apply andb_true_iff in H; destruct H as [H ?]).
  destruct (lead_read 0xC0 5 1 v 32) as (A & B & C & D & E & F); [assumption | lia |].
  cbv zeta. repeat split; assumption.
Qed.

Lemma lead3 (v : Z) :
  0 <= v < 16 ->
  let c := byte.unsigned (lead_byte 0xE0 v) in
  (c =? 0) = false /\ (Z.land c 0x80 =? 0) = false
  /\ (Z.land c 0xE0 =? 0xC0) = false /\ (Z.land c 0xF0 =? 0xE0) = true
  /\ DASTD_BINGET c 0 4 = v.
Proof.
  intros Hv. pose proof lead_checked as H.
  repeat (apply andb_true_iff in H; destruct H as [H ?]).
  destruct (lead_read 0xE0 4 2 v 16) as (A & B & C & D & E & F); [assumption | lia |].
  cbv zeta. repeat split; assumption.
Qed.

Lemma lead4 (v : Z) :
  0 <= v < 8 ->
  let c := byte.unsigned (lead_byte 0xF0 v) in
  (c =? 0) = false /\ (Z.land c 0x80 =? 0) = false
  /\ (Z.land c 0xE0 =? 0xC0) = false /\ (Z.land c 0xF0 =? 0xE0) = false
  /\ (Z.land c 0xF8 =? 0xF0) = true
  /\ DASTD_BINGET c 0 3 = v.
Proof.
  intros Hv. pose proof lead_checked as H.
  repeat (apply andb_true_iff in H; destruct H as [H ?]).
  destruct (lead_read 0xF0 3 3 v 8) as (A & B & C & D & E & F); [assumption | lia |].
  cbv zeta. repeat split; assumption.
Qed.

Lemma ascii_checked :
  forallb (fun i => let c := byte.unsigned (byte.of_Z (Z.of_nat i)) in
                    (c =? Z.of_nat i) && (Z.land c 0x80 =? 0)
                    && negb (Z.land c 0xE0 =? 0xC0)
                    && negb (Z.land c 0xF0 =? 0xE0)
                    && negb (Z.land c 0xF8 =? 0xF0))
          (seq 0 128) = true.
Proof. vm_compute. reflexivity. Qed.

Lemma ascii_read (v : Z) :
  0 <= v < 128 ->
  let c := byte.unsigned (byte.of_Z v) in
  c = v /\ (Z.land c 0x80 =? 0) = true
  /\ (Z.land c 0xE0 =? 0xC0) = false /\ (Z.land c 0xF0 =? 0xE0) = false
  /\ (Z.land c 0xF8 =? 0xF0) = false.
Proof.
  intros Hv. pose proof (forallb_range _ _ _ ascii_checked Hv) as L.
  cbv beta zeta in L. rewrite Z2Nat.id in L by lia.
  repeat (apply andb_true_iff in L; destruct L as [L ?]).
  cbv zeta. repeat split;
    try assumption;
    try (apply negb_true_iff; assumption);
    try (apply Z.eqb_eq; assumption).
Qed.

Ltac field_value := rewrite DASTD_BINGET_div_mod by lia.

Ltac ranges := first [reflexivity | simpl Z.add; div_mod_lia].






End Utf8Facts.

Section Utf8Properties.
Import BitFacts Utf8Facts.

(** Reading the bytes that [write_utf8_asciiz] wrote for a code point gives
    back the code point and the number of bytes written.  The code points
    are those the writer accepts: below U+10FFFF, and not zero, which the
    reader takes for the end of the text. *)
Theorem utf8_roundtrip (code_point : Z) :
  0 < code_point < 0x10FFFF ->
  read_utf8_asciiz (write_utf8_asciiz code_point)
  = (Z.of_nat (List.length (write_utf8_asciiz code_point)), code_point).
Proof.
  intros Hcp. unfold write_utf8_asciiz.
  destruct (code_point <? 0x0080) eqn:E1;
    [| destruct (code_point <? 0x0800) eqn:E2;
       [| destruct (code_point <? 0x10000) eqn:E3;
          [| replace (code_point <? 0x10FFFF) with true by (symmetry; apply Z.ltb_lt; lia)]]].
  - apply Z.ltb_lt in E1.
    destruct (ascii_read code_point) as (A & B & _); [lia |]. cbv zeta in A, B.
    unfold read_utf8_asciiz. cbn [nth List.length]. rewrite B, A.
    replace (code_point =? 0) with false by (symmetry; apply Z.eqb_neq; lia).
    reflexivity.
  - apply Z.ltb_ge in E1. apply Z.ltb_lt in E2.
    fold (lead_byte 0xC0 (DASTD_BINGET code_point 6 5)).
    fold (next_byte (DASTD_BINGET code_point 0 6)).
    repeat field_value.
    destruct (lead2 (code_point / 2 ^ 6 mod 2 ^ 5)) as (A & B & C & D); [div_mod_lia |].
    destruct (next_byte_read (code_point / 2 ^ 0 mod 2 ^ 6)) as (N1 & V1); [div_mod_lia |].
    cbv zeta in A, B, C, D.
    unfold read_utf8_asciiz. cbn [nth List.length].
    rewrite A, B, C, N1, D, V1. cbn [negb].
    rewrite (DASTD_BINSET_clear_field 0 6 5) by ranges.
    rewrite (DASTD_BINSET_clear_field _ 0 6) by ranges.
    f_equal. div_mod_lia.
  - apply Z.ltb_ge in E2. apply Z.ltb_lt in E3.
    fold (lead_byte 0xE0 (DASTD_BINGET code_point 12 4)).
    fold (next_byte (DASTD_BINGET code_point 6 6)).
    fold (next_byte (DASTD_BINGET code_point 0 6)).
    repeat field_value.
    destruct (lead3 (code_point / 2 ^ 12 mod 2 ^ 4)) as (A & B & C & D & E);
      [div_mod_lia |].
    destruct (next_byte_read (code_point / 2 ^ 6 mod 2 ^ 6)) as (N1 & V1); [div_mod_lia |].
    destruct (next_byte_read (code_point / 2 ^ 0 mod 2 ^ 6)) as (N2 & V2); [div_mod_lia |].
    cbv zeta in A, B, C, D, E.
    unfold read_utf8_asciiz. cbn [nth List.length].
    rewrite A, B, C, D, N1, N2, E, V1, V2. cbn [negb orb].
    rewrite (DASTD_BINSET_clear_field 0 12 4) by ranges.
    rewrite (DASTD_BINSET_clear_field _ 6 6) by ranges.
    rewrite (DASTD_BINSET_clear_field _ 0 6) by ranges.
    f_equal. div_mod_lia.
  - apply Z.ltb_ge in E3.
    fold (lead_byte 0xF0 (DASTD_BINGET code_point 18 3)).
    fold (next_byte (DASTD_BINGET code_point 12 6)).
    fold (next_byte (DASTD_BINGET code_point 6 6)).
    fold (next_byte (DASTD_BINGET code_point 0 6)).
    repeat field_value.
    destruct (lead4 (code_point / 2 ^ 18 mod 2 ^ 3)) as (A & B & C & D & E & F);
      [div_mod_lia |].
    destruct (next_byte_read (code_point / 2 ^ 12 mod 2 ^ 6)) as (N1 & V1); [div_mod_lia |].
    destruct (next_byte_read (code_point / 2 ^ 6 mod 2 ^ 6)) as (N2 & V2); [div_mod_lia |].
    destruct (next_byte_read (code_point / 2 ^ 0 mod 2 ^ 6)) as (N3 & V3); [div_mod_lia |].
    cbv zeta in A, B, C, D, E, F.
    unfold read_utf8_asciiz. cbn [nth List.length].
    rewrite A, B, C, D, E, N1, N2, N3, F, V1, V2, V3. cbn [negb orb].
    rewrite (DASTD_BINSET_clear_field 0 18 3) by ranges.
    rewrite (DASTD_BINSET_clear_field _ 12 6) by ranges.
    rewrite (DASTD_BINSET_clear_field _ 6 6) by ranges.
    rewrite (DASTD_BINSET_clear_field _ 0 6) by ranges.
    f_equal. div_mod_lia.
Qed.

(** What [read_utf8_asciiz] reports to have read is either nothing (an
    invalid sequence) or the first byte and as many bytes more as
    [count_utf8_following_chars] tells for that first byte. *)
Theorem read_utf8_length_announced (p_chars : list byte) :
  let read := fst (read_utf8_asciiz p_chars) in
  read = 0 \/ read = 1 + count_utf8_following_chars (nth 0 p_chars Byte.x00).
Proof.
  cbv zeta. unfold read_utf8_asciiz, count_utf8_following_chars.
  set (c := byte.unsigned (nth 0 p_chars Byte.x00)).
  destruct (c =? 0); [left; reflexivity |].
  destruct (Z.land c 0x80 =? 0) eqn:E7.
  - right.
    assert (H : (Z.land c 0xE0 =? 0xC0) = false /\ (Z.land c 0xF0 =? 0xE0) = false
                /\ (Z.land c 0xF8 =? 0xF0) = false).
    { apply Z.eqb_eq in E7.
      assert (B7 : Z.testbit c 7 = false).
      { change false with (Z.testbit 0 7). rewrite <- E7.
        rewrite Z.land_spec. change (Z.testbit 128 7) with true.
        rewrite andb_true_r. reflexivity. }
      repeat split; apply Z.eqb_neq; intros E;
        apply (f_equal (fun z => Z.testbit z 7)) in E;
        rewrite Z.land_spec, B7 in E; discriminate E. }
    destruct H as (-> & -> & ->). reflexivity.
  - destruct (Z.land c 0xE0 =? 0xC0).
    + destruct (negb _); [left | right]; reflexivity.
    + destruct (Z.land c 0xF0 =? 0xE0).
      * destruct (_ || _); [left | right]; reflexivity.
      * destruct (Z.land c 0xF8 =? 0xF0).
        -- destruct (_ || _); [left | right]; reflexivity.
        -- right. reflexivity.
Qed.



End Utf8Properties.

Lemma utf8_roundtrip_witness :
  read_utf8_asciiz (write_utf8_asciiz 0x20AC) = (3, 0x20AC)
  /\ read_utf8_asciiz (write_utf8_asciiz 0x1F600) = (4, 0x1F600).
Proof.
  split.
  - apply (utf8_roundtrip 0x20AC). lia.
  - apply (utf8_roundtrip 0x1F600). lia.
Defined.


(** ** The tokenizer's final states under any sequence of calls *)

Section TokenizerCallFacts.
Import JsonTokenizer.

Variable parse : list Z -> Multinum.multinum.

Lemma bind_inv {S A B} (c : sem S A) (k : A -> sem S B) (s s' : S) (b : B) :
  bind c k s = Done (b, s') ->
  exists a s1, c s = Done (a, s1) /\ k a s1 = Done (b, s').
Proof.
  unfold bind. destruct (c s) as [[a s1] |]; [| discriminate].
  intros H. exists a, s1. split; [reflexivity | exact H].
Qed.

Lemma process_eof_reaches_eof (t t' : json_tokenizer_base) (r : json_tokenizer_ret) :
  process_eof parse t = Done (r, t') -> m_state t' = REACHED_EOF.
Proof.
  unfold process_eof, internal_process_eof. intros H.
  apply bind_inv in H. destruct H as (t0 & s0 & E0 & H).
  inversion E0; subst t0 s0; clear E0.
  apply bind_inv in H. destruct H as ([] & s1 & E1 & H).
  inversion H; subst; clear H.
  destruct (m_state t) eqn:St;
    try (apply bind_inv in E1; destruct E1 as (? & s2 & _ & E1);
         apply bind_inv in E1; destruct E1 as (? & s3 & _ & E1);
         apply bind_inv in E1; destruct E1 as (? & s4 & _ & E1);
         apply bind_inv in E1; destruct E1 as (? & s5 & _ & E1);
         inversion E1; reflexivity).
  inversion E1; subst. exact St.
Qed.

Lemma run_calls_reached_eof (cs : list tokenizer_call) :
  forall t, m_state t = REACHED_EOF ->
  exists t', run_calls parse cs t
             = Done (repeat C_NOTHING_MORE (List.length cs), t')
             /\ m_state t' = REACHED_EOF.
Proof.
  induction cs as [| c cs IH]; intros t H.
  - exists t. split; [reflexivity | exact H].
  - assert (Hc : exists t1, run_call parse c t = Done (C_NOTHING_MORE, t1)
                            /\ m_state t1 = REACHED_EOF).
    { destruct c as [ch |]; destruct t; cbn in H; subst;
        eexists; split; vm_compute; reflexivity. }
    destruct Hc as [t1 [E1 S1]]. destruct (IH t1 S1) as [t2 [E2 S2]].
    exists t2. split; [| exact S2].
    cbn [run_calls]. unfold bind. rewrite E1, E2. reflexivity.
Qed.

(** Once [process_eof] has returned, from whatever state, every later call,
    [process_char] of any character or [process_eof], returns
    [C_NOTHING_MORE]: the end of the input is final. *)
Theorem eof_is_final (t t1 : json_tokenizer_base) (r : json_tokenizer_ret)
        (cs : list tokenizer_call) :
  process_eof parse t = Done (r, t1) ->
  exists t2, run_calls parse cs t1
             = Done (repeat C_NOTHING_MORE (List.length cs), t2)
             /\ m_state t2 = REACHED_EOF.
Proof.
  intros H. apply run_calls_reached_eof. exact (process_eof_reaches_eof _ _ _ H).
Qed.

(** On an aborted tokenizer every [process_char], of whatever characters and
    however many, returns [C_ERROR] and leaves the tokenizer aborted. *)
Theorem aborted_persists_under_process_char (t : json_tokenizer_base) (chars : list Z) :
  m_state t = ABORTED_DUE_TO_ERROR ->
  exists t', run_calls parse (map Call_char chars) t
             = Done (repeat C_ERROR (List.length chars), t')
             /\ m_state t' = ABORTED_DUE_TO_ERROR.
Proof.
  revert t. induction chars as [| ch chars IH]; intros t H.
  - exists t. split; [reflexivity | exact H].
  - assert (Hc : exists t1, process_char parse ch t = Done (C_ERROR, t1)
                            /\ m_state t1 = ABORTED_DUE_TO_ERROR).
    { destruct t; cbn in H; subst; eexists; split; vm_compute; reflexivity. }
    destruct Hc as [t1 [E1 S1]]. destruct (IH t1 S1) as [t2 [E2 S2]].
    exists t2. split; [| exact S2].
    cbn [map run_calls run_call List.length repeat]. unfold bind. rewrite E1, E2. reflexivity.
Qed.

End TokenizerCallFacts.

(** The tokenizer fed [12]: after [process_eof] three more calls all get
    [C_NOTHING_MORE]. *)
Lemma eof_is_final_witness :
  exists r t1 t2,
    JsonTokenizer.process_eof parse_no_number
      (JsonTokenizer.json_tokenizer_new (JsonTokenizer.chr "1") 0) = Done (r, t1)
    /\ run_calls parse_no_number [Call_char (JsonTokenizer.chr "2"); Call_eof; Call_char 0] t1
       = Done ([JsonTokenizer.C_NOTHING_MORE; JsonTokenizer.C_NOTHING_MORE;
                JsonTokenizer.C_NOTHING_MORE], t2).
Proof.
  do 2 eexists.
  match goal with
  | |- exists t2, ?P /\ _ => assert (E : P) by (vm_compute; reflexivity)
  end.
  destruct (eof_is_final parse_no_number _ _ _
              [Call_char (JsonTokenizer.chr "2"); Call_eof; Call_char 0] E) as [t2 [E2 _]].
  exists t2. split; [exact E | exact E2].
Defined.

(** The tokenizer fed [/x] is aborted; two more characters get [C_ERROR]. *)
Lemma aborted_persists_under_process_char_witness :
  exists t0 t1,
    JsonTokenizer.process_char parse_no_number (JsonTokenizer.chr "x")
      (JsonTokenizer.json_tokenizer_new (JsonTokenizer.chr "/") 0)
    = Done (JsonTokenizer.C_ERROR, t0)
    /\ run_calls parse_no_number (map Call_char [JsonTokenizer.chr "y"; JsonTokenizer.chr "z"]) t0
       = Done ([JsonTokenizer.C_ERROR; JsonTokenizer.C_ERROR], t1).
Proof.
  eexists.
  match goal with
  | |- exists t1, ?P /\ _ => assert (E : P) by (vm_compute; reflexivity)
  end.
  match type of E with
  | _ = Done (_, ?t0) =>
      destruct (aborted_persists_under_process_char parse_no_number t0
                  [JsonTokenizer.chr "y"; JsonTokenizer.chr "z"] eq_refl) as [t1 [E1 _]]
  end.
  exists t1. split; [exact E | exact E1].
Defined.

(** ** The binary codec on whole values *)

(** A record with an id, a name, a list of scores and a dictionary of flags,
    inside an extensible typed frame. *)
Lemma roundtrip_bin_admitted_witness :
  let record :=
    S_struct true
      (F_cons (marshal_label_of "id") false (S_int U32)
         (F_cons (marshal_label_of "name") true S_u32string
            (F_cons (marshal_label_of "scores") false (S_array (S_int I16))
               (F_cons (marshal_label_of "flags") false (S_dictionary S_bool) F_nil)))) in
  let s := S_typed true (T_cons (marshal_label_of "record") record T_nil) in
  let v :=
    V_typed (marshal_label_of "record")
      (V_struct
         (FV_present (V_int 7)
            (FV_present (V_u32string (JsonTokenizer.code_points "Milo"))
               (FV_present (V_array (VL_cons (V_int (-3)) (VL_cons (V_int 12) VL_nil)))
                  (FV_present (V_dictionary (E_cons (bytes_of_string "on") (V_bool true) E_nil))
                     FV_nil))))) in
  exists bytes,
    Driver.encode_bin s v = Done bytes
    /\ Driver.decode_bin bytes s
       = Done (v, DecBinAt.at_input [] (Z.of_nat (List.length bytes)) []).
Proof.
  cbv zeta. apply roundtrip_bin_admitted.
  vm_compute.
  repeat split; try reflexivity; try discriminate; try (intros _; reflexivity);
    repeat constructor; discriminate.
Defined.

(** ** multinum: integral values *)

Module MultinumFacts.
Import Multinum.

Lemma cast_signed_range (z : Z) : - 2 ^ 63 <= cast_signed 64 z < 2 ^ 63.
Proof.
  unfold cast_signed. change (64 - 1) with 63.
  pose proof (Z.mod_pos_bound (z + 2 ^ 63) (2 ^ 64) ltac:(lia)). lia.
Qed.

Lemma cast_signed_small (w z : Z) :
  0 < w -> - 2 ^ (w - 1) <= z < 2 ^ (w - 1) -> cast_signed w z = z.
Proof.
  intros Hw Hz. unfold cast_signed.
  assert (Hp : 2 ^ w = 2 * 2 ^ (w - 1)).
  { replace w with (Z.succ (w - 1)) at 1 by lia. apply Z.pow_succ_r. lia. }
  rewrite Z.mod_small; lia.
Qed.

(** A finite double that holds the whole number [z] is whole, compares with
    integers as [z] does, and converts to [z]. *)
Lemma whole_value_spec (d : f64) (z : Z) :
  F64.whole_value d = Some z ->
  F64.is_whole d = true /\ F64.to_int64 d = z
  /\ (forall a, F64.geb_Z d a = (a <=? z)) /\ (forall b, F64.leb_Z d b = (z <=? b)).
Proof.
  unfold F64.whole_value, F64.is_whole, F64.to_int64, F64.geb_Z, F64.leb_Z.
  destruct (F64.classify d) as [| neg | neg m e]; try discriminate.
  destruct (0 <=? e) eqn:He.
  - intros H. inversion H. repeat split; reflexivity.
  - destruct (m mod 2 ^ (- e) =? 0) eqn:Hm; [| discriminate].
    intros H. inversion H as [Hz]. clear H.
    apply Z.leb_gt in He. apply Z.eqb_eq in Hm.
    assert (Hp : 0 < 2 ^ (- e)) by (apply Z.pow_pos_nonneg; lia).
    assert (Em : m = m / 2 ^ (- e) * 2 ^ (- e)).
    { pose proof (Z.div_mod m (2 ^ (- e))). lia. }
    set (q := m / 2 ^ (- e)) in *. set (P := 2 ^ (- e)) in *.
    assert (Es : F64.signed_mantissa neg m = F64.signed_mantissa neg q * P).
    { unfold F64.signed_mantissa. destruct neg; lia. }
    repeat split; try reflexivity; intros a; rewrite Es.
    + destruct (Z.leb_spec a (F64.signed_mantissa neg q)).
      * apply Z.leb_le. nia.
      * apply Z.leb_gt. nia.
    + destruct (Z.leb_spec (F64.signed_mantissa neg q) a).
      * apply Z.leb_le. nia.
      * apply Z.leb_gt. nia.
Qed.

End MultinumFacts.

Section MultinumProperties.
Import Multinum MultinumFacts.

(** On a multinum of level INT64, [get<T>()] with the default bounds of an
    integral type [T] of 8, 16, 32 or 64 bits, signed or unsigned, succeeds
    exactly when the stored integer lies in the range of [T], and then returns
    the stored integer unchanged; otherwise it returns the invalid pair. *)
Theorem get_int64_level (T : numtype) (m : multinum) :
  In (bits T) [8; 16; 32; 64] ->
  m_level m = INT64 ->
  get T m (numtype_lowest T) (numtype_max T)
  = if (numtype_lowest T <=? i64 m) && (i64 m <=? numtype_max T)
    then (i64 m, true) else (0, false).
Proof.
  intros Hb Hl. unfold get. rewrite Hl.
  pose proof (cast_signed_range (m_value_integral m)) as Hr.
  fold (i64 m) in Hr. set (x := i64 m) in *.
  destruct T as [sg b]. cbn [bits] in Hb.
  unfold numtype_lowest, numtype_max, cast, invalid. cbn [is_signed bits].
  assert (Hc : b = 8 \/ b = 16 \/ b = 32 \/ b = 64) by (cbn in Hb; intuition congruence).
  destruct sg; cbn [negb andb orb].
  - assert (Hlo : cast_signed 64 (- 2 ^ (b - 1)) = - 2 ^ (b - 1))
      by (destruct Hc as [-> | [-> | [-> | ->]]]; reflexivity).
    assert (Hhi : cast_signed 64 (2 ^ (b - 1) - 1) = 2 ^ (b - 1) - 1)
      by (destruct Hc as [-> | [-> | [-> | ->]]]; reflexivity).
    rewrite Hlo, Hhi.
    destruct (Z.leb_spec (- 2 ^ (b - 1)) x) as [H1 | H1];
      destruct (Z.leb_spec x (2 ^ (b - 1) - 1)) as [H2 | H2]; cbn [andb].
    + replace (x <? - 2 ^ (b - 1)) with false by (symmetry; apply Z.ltb_ge; lia).
      replace (x >? 2 ^ (b - 1) - 1) with false
        by (symmetry; rewrite Z.gtb_ltb; apply Z.ltb_ge; lia).
      cbn [orb]. rewrite cast_signed_small by lia. reflexivity.
    + replace (x >? 2 ^ (b - 1) - 1) with true
        by (symmetry; rewrite Z.gtb_ltb; apply Z.ltb_lt; lia).
      rewrite orb_true_r. reflexivity.
    + replace (x <? - 2 ^ (b - 1)) with true by (symmetry; apply Z.ltb_lt; lia).
      reflexivity.
    + replace (x <? - 2 ^ (b - 1)) with true by (symmetry; apply Z.ltb_lt; lia).
      reflexivity.
  - change (cast_signed 64 0) with 0.
    destruct (Z.leb_spec 0 x) as [H1 | H1];
      destruct (Z.leb_spec x (2 ^ b - 1)) as [H2 | H2]; cbn [andb];
      destruct Hc as [-> | [-> | [-> | ->]]];
      change (64 <=? 8) with false; change (64 <=? 16) with false;
      change (64 <=? 32) with false; change (64 <=? 64) with true; cbv iota;
      try change (cast_signed 64 (2 ^ 8 - 1)) with (2 ^ 8 - 1);
      try change (cast_signed 64 (2 ^ 16 - 1)) with (2 ^ 16 - 1);
      try change (cast_signed 64 (2 ^ 32 - 1)) with (2 ^ 32 - 1);
      unfold cast_u64;
      repeat match goal with
             | |- context [?a <? ?c] =>
                 first [ replace (a <? c) with true by (symmetry; apply Z.ltb_lt; lia)
                       | replace (a <? c) with false by (symmetry; apply Z.ltb_ge; lia) ]
             | |- context [?a >? ?c] => rewrite (Z.gtb_ltb a c)
             end;
      cbn [orb]; try reflexivity;
      try (rewrite Z.mod_small by lia; reflexivity).
    all: try (rewrite (Z.mod_small x) by lia).
    all: repeat match goal with
             | |- context [?a <? ?c] =>
                 first [ replace (a <? c) with true by (symmetry; apply Z.ltb_lt; lia)
                       | replace (a <? c) with false by (symmetry; apply Z.ltb_ge; lia) ]
             end; try reflexivity.
Qed.

(** On a multinum of level UINT64, a number above INT64_MAX, only
    [get<uint64_t>()] succeeds, and returns the stored number; every other
    integral type is refused. *)
Theorem get_uint64_level (T : numtype) (m : multinum) :
  In (bits T) [8; 16; 32; 64] ->
  m_level m = UINT64 ->
  get T m (numtype_lowest T) (numtype_max T)
  = if is_signed T || (bits T <? 64) then (0, false) else (u64 m, true).
Proof.
  intros Hb Hl. unfold get. rewrite Hl.
  destruct T as [sg b]. cbn [bits is_signed] in *.
  destruct (sg || (b <? 64)) eqn:E; [reflexivity |].
  apply orb_false_iff in E. destruct E as [-> E]. apply Z.ltb_ge in E.
  assert (b = 64) by (cbn in Hb; intuition lia). subst b.
  unfold numtype_lowest, numtype_max, cast. cbn [is_signed bits].
  pose proof (Z.mod_pos_bound (m_value_integral m) (2 ^ 64) ltac:(lia)) as Hr.
  fold (cast_u64 (m_value_integral m)) in Hr. fold (u64 m) in Hr.
  replace (u64 m <? 0) with false by (symmetry; apply Z.ltb_ge; lia).
  replace (u64 m >? 2 ^ 64 - 1) with false
    by (symmetry; rewrite Z.gtb_ltb; apply Z.ltb_ge; lia).
  cbn [orb]. rewrite Z.mod_small by lia. reflexivity.
Qed.

(** [set_double] on a double that holds a whole number of the int32 range
    makes the number integral: the level is INT64, the integral container
    holds the number, and [get<int32_t>()] returns it. *)
Theorem set_double_promotes_whole (integral : Z) (d : f64) (z : Z) :
  F64.whole_value d = Some z ->
  INT32_MIN <= z <= INT32_MAX ->
  set_double integral d
  = {| m_value_double := d; m_value_integral := cast_u64 z; m_level := INT64 |}
  /\ get int32_t (set_double integral d) (numtype_lowest int32_t) (numtype_max int32_t)
     = (z, true).
Proof.
  intros Hw Hz. destruct (whole_value_spec d z Hw) as (Hwhole & Hto & Hge & Hle).
  assert (E : set_double integral d
              = {| m_value_double := d; m_value_integral := cast_u64 z; m_level := INT64 |}).
  { unfold set_double. rewrite Hwhole, Hge, Hle, Hto.
    replace (INT32_MIN <=? z) with true by (symmetry; apply Z.leb_le; lia).
    replace (z <=? INT32_MAX) with true by (symmetry; apply Z.leb_le; lia).
    reflexivity. }
  split; [exact E |]. rewrite E.
  unfold INT32_MIN, INT32_MAX in Hz.
  assert (Ei : i64 {| m_value_double := d; m_value_integral := cast_u64 z;
                      m_level := INT64 |} = z).
  { unfold i64, cast_u64. cbn [m_value_integral].
    apply cast_signed_id; [lia |]. change (64 - 1) with 63. lia. }
  unfold get. cbn [m_level is_signed int32_t bits negb andb].
  rewrite Ei. unfold numtype_lowest, numtype_max, cast. cbn [is_signed int32_t bits].
  change (cast_signed 64 (- 2 ^ (32 - 1))) with (- 2 ^ 31).
  change (cast_signed 64 (2 ^ (32 - 1) - 1)) with (2 ^ 31 - 1).
  replace (z <? - 2 ^ 31) with false by (symmetry; apply Z.ltb_ge; lia).
  replace (z >? 2 ^ 31 - 1) with false
    by (symmetry; rewrite Z.gtb_ltb; apply Z.ltb_ge; lia).
  cbn [orb]. rewrite cast_signed_small by (change (32 - 1) with 31; lia).
  reflexivity.
Qed.

End MultinumProperties.

(** A multinum set from the int16 value -300: as int32 it is -300, as uint8
    and as uint64 it is refused. *)
Lemma get_int64_level_witness :
  let m := {| Multinum.m_value_double := 0;
              Multinum.m_value_integral := cast_u64 (-300);
              Multinum.m_level := Multinum.INT64 |} in
  Multinum.get Multinum.int32_t m (Multinum.numtype_lowest Multinum.int32_t)
    (Multinum.numtype_max Multinum.int32_t) = (-300, true)
  /\ Multinum.get Multinum.uint8_t m (Multinum.numtype_lowest Multinum.uint8_t)
       (Multinum.numtype_max Multinum.uint8_t) = (0, false)
  /\ Multinum.get Multinum.uint64_t m (Multinum.numtype_lowest Multinum.uint64_t)
       (Multinum.numtype_max Multinum.uint64_t) = (0, false).
Proof.
  cbv zeta. split; [| split].
  - rewrite get_int64_level; [reflexivity | cbn; tauto | reflexivity].
  - rewrite get_int64_level; [reflexivity | cbn; tauto | reflexivity].
  - rewrite get_int64_level; [reflexivity | cbn; tauto | reflexivity].
Defined.

(** The number 2^64 - 1. *)
Lemma get_uint64_level_witness :
  let m := {| Multinum.m_value_double := 0;
              Multinum.m_value_integral := 2 ^ 64 - 1;
              Multinum.m_level := Multinum.UINT64 |} in
  Multinum.get Multinum.uint64_t m (Multinum.numtype_lowest Multinum.uint64_t)
    (Multinum.numtype_max Multinum.uint64_t) = (2 ^ 64 - 1, true)
  /\ Multinum.get Multinum.int64_t m (Multinum.numtype_lowest Multinum.int64_t)
       (Multinum.numtype_max Multinum.int64_t) = (0, false).
Proof.
  cbv zeta. split.
  - rewrite get_uint64_level; [reflexivity | cbn; tauto | reflexivity].
  - rewrite get_uint64_level; [reflexivity | cbn; tauto | reflexivity].
Defined.

(** The double -7.0, bit pattern 0xC01C000000000000. *)
Lemma set_double_promotes_whole_witness :
  Multinum.set_double 0 0xC01C000000000000
  = {| Multinum.m_value_double := 0xC01C000000000000;
       Multinum.m_value_integral := cast_u64 (-7);
       Multinum.m_level := Multinum.INT64 |}
  /\ Multinum.get Multinum.int32_t (Multinum.set_double 0 0xC01C000000000000)
       (Multinum.numtype_lowest Multinum.int32_t) (Multinum.numtype_max Multinum.int32_t)
     = (-7, true).
Proof.
  apply set_double_promotes_whole.
  - vm_compute. reflexivity.
  - vm_compute. split; discriminate.
Defined.

(** ** Extensible structures read by a reader that knows more fields *)

Module BackwardFacts.
Import DecBin Driver DecBinAt DecoderLoops DecoderStatements DecBinFacts.

Lemma field_infos_app (fs more : field_list) :
  field_infos (F_app fs more) = field_infos fs ++ field_infos more.
Proof.
  induction fs as [| l o s fs IH]; cbn [F_app field_infos app]; [reflexivity |].
  rewrite IH. reflexivity.
Qed.

Lemma F_length_app (fs more : field_list) :
  F_length (F_app fs more) = (F_length fs + F_length more)%nat.
Proof.
  induction fs as [| l o s fs IH]; cbn [F_app F_length Nat.add]; [reflexivity |].
  rewrite IH. reflexivity.
Qed.

(** At the end of the payload of an extensible structure
    [decode_struct_field_begin] returns the invalid id, whatever fields the
    reader still expects. *)
Lemma decode_struct_field_begin_end_of_payload eo infos count pos input stk :
  decode_struct_field_begin true
    (at_input input eo (struct_frame true eo infos count pos :: stk))
  = Done ((marshal_label_id_INVALID, None),
          at_input input eo (struct_frame true eo infos count pos :: stk)).
Proof.
  unfold decode_struct_field_begin. unfold bind at 1 2; dec_simpl.
  destruct (pos >=? count); [reflexivity |].
  unfold bind at 1; dec_simpl. rewrite Z.eqb_refl. reflexivity.
Qed.

Lemma decode_fields_end_of_payload (more : field_list) eo infos count pos input stk :
  decode_fields more (at_input input eo (struct_frame true eo infos count pos :: stk))
  = Done (FV_nil, at_input input eo (struct_frame true eo infos count pos :: stk)).
Proof.
  destruct more as [| l o s more]; cbn [decode_fields];
    erewrite bind_Done by apply decode_struct_field_begin_end_of_payload;
    reflexivity.
Qed.

(** The fields the writer wrote are read under the longer field list
    [F_app fs more] of the reader; the reading stops at the end of the
    payload. *)
Lemma decode_fields_reader_extended (more : field_list) (fs : field_list) :
  forall fvs, admits_fields true fs fvs ->
  forall pre eo rest off stk infos count,
    eo = off + Z.of_nat (List.length (wire_fields fs fvs)) ->
    infos = pre ++ field_infos fs ++ field_infos more ->
    count = Z.of_nat (List.length pre + F_length fs + F_length more) ->
    exists pos,
      decode_fields (F_app fs more)
        (at_input (wire_fields fs fvs ++ rest) off
           (struct_frame true eo infos count (Z.of_nat (List.length pre)) :: stk))
      = Done (fvs, at_input rest eo (struct_frame true eo infos count pos :: stk)).
Proof.
  induction fs as [| label optional s fs IH]; intros fvs Hv pre eo rest off stk infos count
                                                     Heo Hinfos Hcount.
  - destruct fvs; try contradiction. cbn [wire_fields List.length app F_app] in *.
    rewrite Z.add_0_r in Heo. subst eo.
    eexists. apply decode_fields_end_of_payload.
  - set (info := marshal_label_info_calc (m_label_id label) optional).
    assert (Hnth : nth_error infos (Z.to_nat (Z.of_nat (List.length pre))) = Some info).
    { subst infos. cbn [field_infos app]. apply nth_error_middle. }
    assert (Hlt : 0 <= Z.of_nat (List.length pre) < count)
      by (subst count; cbn [F_length]; lia).
    assert (Hpos : Z.of_nat (List.length pre) + 1 = Z.of_nat (List.length (pre ++ [info])))
      by (rewrite length_app; cbn [List.length]; lia).
    assert (Hinfos' : infos = (pre ++ [info]) ++ field_infos fs ++ field_infos more)
      by (subst infos; cbn [field_infos app]; rewrite <- app_assoc; reflexivity).
    assert (Hcount' : count = Z.of_nat (List.length (pre ++ [info]) + F_length fs
                                        + F_length more))
      by (subst count; rewrite length_app; cbn [F_length List.length]; lia).
    pose proof (proj1 decode_value_wire s) as IHs.
    destruct optional, fvs; try contradiction; cbn [F_app decode_fields wire_fields];
      cbn [wire_fields] in Heo.
    + (* optional, missing *)
      destruct Hv as [Hl Hrest]. unfold valid_label in Hl.
      destruct (IH fvs Hrest (pre ++ [info]) eo rest (off + 1) stk infos count)
        as [pos Hdec]; [rewrite Heo; lengths | exact Hinfos' | exact Hcount' |].
      exists pos. cbn [app].
      erewrite bind_Done
        by (apply (decode_struct_field_begin_optional _ _ _ _ _ (m_label_id label) false);
            [exact Hlt | lia | exact Hnth | intros _; rewrite Heo; lengths]).
      cbv beta iota.
      replace (m_label_id label =? marshal_label_id_INVALID) with false
        by (symmetry; apply Z.eqb_neq; unfold marshal_label_id_INVALID; lia).
      rewrite Z.eqb_refl. cbn [negb].
      run decode_struct_field_end_ok.
      rewrite Hpos. erewrite bind_Done by exact Hdec. reflexivity.
    + (* optional, present *)
      destruct Hv as [Hl [Hv Hrest]]. unfold valid_label in Hl.
      destruct (IH fvs Hrest (pre ++ [info]) eo rest
                   (off + 1 + Z.of_nat (List.length (wire s v))) stk infos count)
        as [pos Hdec]; [rewrite Heo; lengths | exact Hinfos' | exact Hcount' |].
      exists pos. cbn [app].
      erewrite bind_Done
        by (apply (decode_struct_field_begin_optional _ _ _ _ _ (m_label_id label) true);
            [exact Hlt | lia | exact Hnth | intros _; rewrite Heo; lengths]).
      cbv beta iota.
      replace (m_label_id label =? marshal_label_id_INVALID) with false
        by (symmetry; apply Z.eqb_neq; unfold marshal_label_id_INVALID; lia).
      rewrite Z.eqb_refl. cbn [negb].
      rewrite <- app_assoc.
      run IHs.
      run decode_struct_field_end_ok.
      rewrite Hpos. erewrite bind_Done by exact Hdec. reflexivity.
    + (* mandatory *)
      destruct Hv as [Hl [Hv [Hne Hrest]]]. unfold valid_label in Hl.
      destruct (IH fvs Hrest (pre ++ [info]) eo rest
                   (off + Z.of_nat (List.length (wire s v))) stk infos count)
        as [pos Hdec]; [rewrite Heo; lengths | exact Hinfos' | exact Hcount' |].
      exists pos.
      erewrite bind_Done
        by (apply (decode_struct_field_begin_mandatory _ _ _ _ _ (m_label_id label));
            [exact Hlt | lia | exact Hnth
            | intros E; rewrite Heo; specialize (Hne E);
              rewrite length_app; destruct (wire s v); [congruence | cbn [List.length]; lia]]).
      cbv beta iota.
      replace (m_label_id label =? marshal_label_id_INVALID) with false
        by (symmetry; apply Z.eqb_neq; unfold marshal_label_id_INVALID; lia).
      rewrite Z.eqb_refl. cbn [negb].
      rewrite <- app_assoc.
      run IHs.
      run decode_struct_field_end_ok.
      rewrite Hpos. erewrite bind_Done by exact Hdec. reflexivity.
Qed.

End BackwardFacts.

Section BackwardCompatibility.
Import Driver BackwardFacts.

(** Extensible backward compatibility, on the values the binary round trip
    holds for ([admits_fields true]: integers in range, valid labels, lengths
    that fit 32 bits, u32strings of 7-bit characters, and every mandatory
    field encoded in one byte at least).  A reader whose declaration of an
    extensible structure has grown by the fields [more] reads the bytes of a
    writer that knows [fs] only: it decodes the values of [fs], gets the
    invalid id in place of the first field the writer did not write, and ends
    at the end of the input with an empty stack. *)
Theorem extensible_backward_compatibility (fs more : field_list) (fvs : field_values) :
  admits_fields true fs fvs ->
  fits_u32 (List.length (wire_fields fs fvs)) ->
  exists bytes,
    encode_bin (S_struct true fs) (V_struct fvs) = Done bytes
    /\ decode_bin bytes (S_struct true (F_app fs more))
       = Done (V_struct fvs, DecBinAt.at_input [] (Z.of_nat (List.length bytes)) []).
Proof.
  intros Hv Hn.
  exists (wire (S_struct true fs) (V_struct fvs)). split.
  - apply encode_bin_wire. cbn [admits]. split; [exact Hv | intros _; exact Hn].
  - unfold decode_bin. change (DecBin.initial ?i) with (DecBinAt.at_input i 0 []).
    cbn [wire decode_value].
    erewrite bind_Done
      by (apply (DecBinFacts.decode_struct_begin_wire true (List.length (wire_fields fs fvs)));
          [exact I | intros _; exact Hn]).
    cbv zeta.
    destruct (decode_fields_reader_extended more fs fvs Hv [] 
                (0 + 4 + Z.of_nat (List.length (wire_fields fs fvs))) [] (0 + 4) []
                (field_infos (F_app fs more)) (Z.of_nat (F_length (F_app fs more))))
      as [pos Hdec].
    + reflexivity.
    + cbn [app]. apply field_infos_app.
    + cbn [List.length Nat.add]. rewrite F_length_app. reflexivity.
    + rewrite app_nil_r in Hdec.
      cbn [List.length] in Hdec. change (Z.of_nat 0) with 0 in Hdec.
      erewrite bind_Done by exact Hdec.
      erewrite bind_Done
        by (apply (DecBinFacts.decode_struct_end_wire true _ _ _ _ [] []);
            [intros _; cbn [List.length]; lia | discriminate]).
      unfold ret. apply DecBinFacts.Done_at_input.
      unfold size_indicator. rewrite length_app, length_le_split.
      cbn [List.length]. lia.
Qed.

End BackwardCompatibility.

(** The writer emits [{a:1, b:2}]; the reader declares [a, b] and two fields
    more, a mandatory [c] and an optional [d]. *)
Lemma extensible_backward_compatibility_witness :
  let fs := F_cons (marshal_label_of "a") false (S_int U32)
              (F_cons (marshal_label_of "b") false (S_int U32) F_nil) in
  let more := F_cons (marshal_label_of "c") false (S_int U32)
                (F_cons (marshal_label_of "d") true S_string_utf8 F_nil) in
  let fvs := FV_present (V_int 1) (FV_present (V_int 2) FV_nil) in
  exists bytes,
    Driver.encode_bin (S_struct true fs) (V_struct fvs) = Done bytes
    /\ Driver.decode_bin bytes (S_struct true (F_app fs more))
       = Done (V_struct fvs, DecBinAt.at_input [] (Z.of_nat (List.length bytes)) []).
Proof.
  cbv zeta. apply extensible_backward_compatibility.
  - cbn [admits_fields admits]. unfold valid_label, int_min, int_max.
    repeat split; try (vm_compute; congruence); try discriminate.
  - vm_compute. reflexivity.
Defined.

(** ** JSON strings: what the encoder escapes, the tokenizer reads back *)

Module StringFacts.
Import JsonTokenizer StringStates BitFacts Utf8Facts.

Section WithParse.
Variable parse : list Z -> Multinum.multinum.

Lemma add_char_to_string_runs (x : Z) (b : json_tokenizer_base) :
  add_char_to_string x b = Done (tt, after (add_char_to_string x) b).
Proof.
  unfold after. destruct (add_char_to_string x b) as [[[] b'] | f] eqn:E; [reflexivity |].
  exfalso. revert E. unfold add_char_to_string.
  unfold bind at 1. unfold get at 1. cbv beta iota zeta.
  match goal with |- context [if ?c then _ else None] => destruct c end.
  - destruct (read_utf16_asciiz _) as [read codepoint].
    destruct (read =? 2); [discriminate |].
    unfold bind, string_push_back, get, set_string. cbv beta iota.
    cbn [m_string_can_converted_to_number].
    destruct (m_string_can_converted_to_number b); [destruct (_ || _) |]; discriminate.
  - unfold bind, string_push_back, get, set_string. cbv beta iota.
    cbn [m_string_can_converted_to_number].
    destruct (m_string_can_converted_to_number b); [destruct (_ || _) |]; discriminate.
Qed.

Lemma add_char_to_string_result (x : Z) (b b' : json_tokenizer_base) :
  add_char_to_string x b = Done (tt, b') ->
  m_state b' = m_state b /\ m_sub_state b' = m_sub_state b
  /\ (m_string_can_converted_to_number b = false ->
      m_string_can_converted_to_number b' = false)
  /\ (low_surrogate x = false -> m_string b' = m_string b ++ [x]).
Proof.
  unfold add_char_to_string, low_surrogate.
  unfold bind at 1. unfold get at 1. cbv beta iota zeta.
  destruct ((x <? 65536)
            && match detect_utf16_char (x mod 2 ^ 16) with
               | utf16_SECOND => true | _ => false end) eqn:Elow.
  - match goal with |- context [if ?c then _ else None] => destruct c end.
    + destruct (read_utf16_asciiz _) as [read codepoint].
      destruct (read =? 2).
      * intros H. inversion H. cbn. repeat split; auto. discriminate.
      * unfold bind, string_push_back, get, set_string. cbv beta iota.
        cbn [m_string_can_converted_to_number].
        destruct (m_string_can_converted_to_number b) eqn:E; [destruct (_ || _) |];
          intros H; inversion H; cbn; repeat split; auto; discriminate.
    + unfold bind, string_push_back, get, set_string. cbv beta iota.
      cbn [m_string_can_converted_to_number].
      destruct (m_string_can_converted_to_number b) eqn:E; [destruct (_ || _) |];
        intros H; inversion H; cbn; repeat split; auto; discriminate.
  - rewrite <- (andb_assoc (0 <? _)), Elow, andb_false_r. cbn [andb].
    unfold bind, string_push_back, get, set_string. cbv beta iota.
    cbn [m_string_can_converted_to_number].
    destruct (m_string_can_converted_to_number b) eqn:E; [destruct (_ || _) |];
      intros H; inversion H; cbn; repeat split; auto; discriminate.
Qed.

Lemma process_char_internal_in_string (x y : Z) (b : json_tokenizer_base) :
  m_state b = IN_STRING ->
  process_char_internal parse x y b = process_char_string parse x b.
Proof.
  intros H. unfold process_char_internal. unfold bind at 1. unfold get at 1.
  cbv beta iota. rewrite H. reflexivity.
Qed.

Lemma internal_process_char_in_string (x y : Z) (b b1 : json_tokenizer_base)
      (r : json_tokenizer_ret) :
  m_state b = IN_STRING -> m_prev_char b = x ->
  process_char_string parse x b = Done (r, b1) ->
  internal_process_char parse y b = Done (r, advanced r x y b1).
Proof.
  intros Hs Hp H. unfold internal_process_char.
  unfold bind at 1. unfold get at 1. cbv beta iota. rewrite Hs, Hp.
  erewrite bind_Done.
  2: { erewrite bind_Done by reflexivity.
       erewrite bind_Done
         by (rewrite process_char_internal_in_string by exact Hs; exact H).
       reflexivity. }
  reflexivity.
Qed.

Lemma internal_process_eof_in_string (x : Z) (b b1 : json_tokenizer_base)
      (r : json_tokenizer_ret) :
  m_state b = IN_STRING -> m_prev_char b = x ->
  process_char_string parse x b = Done (r, b1) ->
  internal_process_eof parse b = Done (r, finished r x b1).
Proof.
  intros Hs Hp H. unfold internal_process_eof.
  unfold bind at 1. unfold get at 1. cbv beta iota. rewrite Hs, Hp.
  erewrite bind_Done.
  2: { erewrite bind_Done by reflexivity.
       erewrite bind_Done
         by (rewrite process_char_internal_in_string by exact Hs; exact H).
       reflexivity. }
  reflexivity.
Qed.

(** One turn of the loop of [fetch_token] inside a string literal. *)
Lemma turn_in_string (fuel : nat) (x y : Z) (more : list Z) (b b1 : json_tokenizer_base) :
  m_state b = IN_STRING -> m_prev_char b = x ->
  process_char_string parse x b = Done (C_NEED_MORE_CHARS, b1) ->
  fetch_token_loop parse (S fuel) {| base := b; m_source := x :: y :: more |}
  = fetch_token_loop parse fuel
      {| base := advanced C_NEED_MORE_CHARS x y b1; m_source := y :: more |}.
Proof.
  intros Hs Hp H. cbn [fetch_token_loop].
  unfold bind at 1. unfold tentative_read_char at 1. cbv beta iota.
  cbn [m_source base tl].
  unfold bind at 1. unfold tentative_peek_char at 1. cbv beta iota.
  cbn [m_source base hd_error].
  unfold bind at 1. unfold on_base at 1. cbn [base m_source].
  rewrite (internal_process_char_in_string x y b b1 _ Hs Hp H).
  reflexivity.
Qed.

Ltac decide_eqb :=
  repeat match goal with
         | H : ?a <> ?b |- context [?a =? ?b] =>
             replace (a =? b) with false by (symmetry; apply Z.eqb_neq; exact H)
         | |- context [?a =? ?a] => rewrite (Z.eqb_refl a)
         end.

(** A character of the literal that is neither the quote nor the backslash
    is added to the string. *)
Lemma step_plain (x : Z) (b : json_tokenizer_base) :
  m_sub_state b = NORMAL ->
  x <> CH32_EOF -> x <> QUOTE -> x <> BACKSLASH ->
  process_char_string parse x b
  = Done (C_NEED_MORE_CHARS, after (add_char_to_string x) b).
Proof.
  intros Hsub H1 H2 H3. unfold process_char_string. decide_eqb.
  unfold bind at 1. unfold get at 1. cbv beta iota. rewrite Hsub. decide_eqb.
  erewrite bind_Done by apply add_char_to_string_runs. reflexivity.
Qed.

Lemma step_backslash (b : json_tokenizer_base) :
  m_sub_state b = NORMAL ->
  process_char_string parse BACKSLASH b
  = Done (C_NEED_MORE_CHARS, after (set_sub_state IN_STRING_AFTER_BACKSLASH) b).
Proof.
  intros Hsub. unfold process_char_string.
  change (BACKSLASH =? CH32_EOF) with false. cbv iota.
  unfold bind at 1. unfold get at 1. cbv beta iota. rewrite Hsub.
  reflexivity.
Qed.

Lemma step_escaped (x : Z) (b : json_tokenizer_base) :
  m_sub_state b = IN_STRING_AFTER_BACKSLASH ->
  x <> CH32_EOF -> x <> chr "u" ->
  process_char_string parse x b
  = Done (C_NEED_MORE_CHARS,
          after (set_sub_state NORMAL) (after (add_char_to_string (unescaped x)) b)).
Proof.
  intros Hsub H1 H2. unfold process_char_string. decide_eqb.
  unfold bind at 1. unfold get at 1. cbv beta iota. rewrite Hsub. decide_eqb.
  fold (unescaped x).
  erewrite bind_Done by apply add_char_to_string_runs. reflexivity.
Qed.

Lemma step_u (b : json_tokenizer_base) :
  m_sub_state b = IN_STRING_AFTER_BACKSLASH ->
  process_char_string parse (chr "u") b
  = Done (C_NEED_MORE_CHARS,
          after (set_sub_state IN_STRING_READING_HEX_CHARS) (after (set_escaped 0 4) b)).
Proof.
  intros Hsub. unfold process_char_string.
  change (chr "u" =? CH32_EOF) with false. cbv iota.
  unfold bind at 1. unfold get at 1. cbv beta iota. rewrite Hsub.
  reflexivity.
Qed.

(** A hexadecimal digit of an escape, not the last one. *)
Lemma step_hex (x d : Z) (b : json_tokenizer_base) :
  m_sub_state b = IN_STRING_READING_HEX_CHARS ->
  hex_digit x = Some d -> x <> CH32_EOF ->
  1 < m_escaped_char_remaining b ->
  process_char_string parse x b
  = Done (C_NEED_MORE_CHARS,
          after (set_escaped (cast_u32 (Z.lor (Z.shiftl (m_escaped_char b) 4) d))
                             (m_escaped_char_remaining b - 1)) b).
Proof.
  intros Hsub Hd H1 Hrem. unfold process_char_string. decide_eqb.
  unfold bind at 1. unfold get at 1. cbv beta iota. rewrite Hsub.
  replace (0 <? m_escaped_char_remaining b) with true by (symmetry; apply Z.ltb_lt; lia).
  unfold bind at 1. unfold assert at 1. cbv beta iota.
  fold (hex_digit x). rewrite Hd. cbv zeta.
  replace (m_escaped_char_remaining b - 1 =? 0) with false by (symmetry; apply Z.eqb_neq; lia).
  unfold ret at 1. cbv beta iota.
  reflexivity.
Qed.

(** The last hexadecimal digit of an escape: the character is added. *)
Lemma step_hex_last (x d : Z) (b : json_tokenizer_base) :
  m_sub_state b = IN_STRING_READING_HEX_CHARS ->
  hex_digit x = Some d -> x <> CH32_EOF ->
  m_escaped_char_remaining b = 1 ->
  let escaped := cast_u32 (Z.lor (Z.shiftl (m_escaped_char b) 4) d) in
  process_char_string parse x b
  = Done (C_NEED_MORE_CHARS,
          after (set_sub_state NORMAL)
            (after (add_char_to_string escaped) (after (set_escaped escaped 0) b))).
Proof.
  intros Hsub Hd H1 Hrem. cbv zeta. unfold process_char_string. decide_eqb.
  unfold bind at 1. unfold get at 1. cbv beta iota. rewrite Hsub, Hrem.
  change (0 <? 1) with true.
  unfold bind at 1. unfold assert at 1. cbv beta iota.
  fold (hex_digit x). rewrite Hd. cbv zeta.
  change (1 - 1 =? 0) with true. change (1 - 1) with 0.
  unfold ret at 1. cbv beta iota.
  erewrite bind_Done by reflexivity.
  erewrite bind_Done
    by (erewrite bind_Done by apply add_char_to_string_runs; reflexivity).
  reflexivity.
Qed.

(** The closing quote. *)
Lemma step_quote (b : json_tokenizer_base) :
  m_sub_state b = NORMAL ->
  exists r b1,
    process_char_string parse QUOTE b = Done (r, b1)
    /\ (r = C_STRING \/ r = C_STRING_AND_NUMBER)
    /\ (m_string_can_converted_to_number b = false -> r = C_STRING)
    /\ m_string b1 = m_string b /\ m_state b1 = IDLING.
Proof.
  intros Hsub. unfold process_char_string.
  change (QUOTE =? CH32_EOF) with false. cbv iota.
  unfold bind at 1. unfold get at 1. cbv beta iota. rewrite Hsub.
  rewrite Z.eqb_refl.
  unfold bind at 1. unfold set_state at 1. cbv beta iota.
  destruct (m_string_can_converted_to_number b) eqn:E.
  - unfold bind at 1. unfold set_multinum at 1. cbv beta iota.
    destruct (Multinum.valid (parse (m_string b)));
      do 2 eexists; (split; [reflexivity |]); cbn; repeat split; auto; discriminate.
  - do 2 eexists. split; [reflexivity |]. cbn. repeat split; auto.
Qed.

Lemma add_char_to_string_after (x : Z) (b : json_tokenizer_base) :
  let b' := after (add_char_to_string x) b in
  m_state b' = m_state b /\ m_sub_state b' = m_sub_state b
  /\ (m_string_can_converted_to_number b = false ->
      m_string_can_converted_to_number b' = false)
  /\ (low_surrogate x = false -> m_string b' = m_string b ++ [x]).
Proof.
  cbv zeta. apply add_char_to_string_result. apply add_char_to_string_runs.
Qed.

Lemma hex_digit_range (x d : Z) :
  hex_digit x = Some d -> x <> CH32_EOF /\ 0 <= d < 16.
Proof.
  unfold hex_digit, in_range.
  change (chr "0") with 48. change (chr "9") with 57.
  change (chr "A") with 65. change (chr "F") with 70.
  change (chr "a") with 97. change (chr "f") with 102.
  change CH32_EOF with 4294967295.
  destruct ((48 <=? x) && (x <=? 57)) eqn:E1;
    [| destruct ((65 <=? x) && (x <=? 70)) eqn:E2;
       [| destruct ((97 <=? x) && (x <=? 102)) eqn:E3; [| discriminate]]];
    intros H; inversion H; subst;
    match goal with
    | E : _ && _ = true |- _ =>
        apply andb_true_iff in E; destruct E as [A B];
        apply Z.leb_le in A; apply Z.leb_le in B
    end; lia.
Qed.

(** A turn of the loop inside a string literal, in terms of what
    [process_char_string] leaves. *)
Lemma turn_inside (fuel : nat) (sub sub' : sub_state_t) (acc acc' : list Z) (x y : Z)
      (more : list Z) (numbers : bool) (t : json_tokenizer_sourced)
      (b1 : json_tokenizer_base) :
  inside sub acc (x :: y :: more) numbers t ->
  process_char_string parse x (base t) = Done (C_NEED_MORE_CHARS, b1) ->
  m_state b1 = IN_STRING -> m_sub_state b1 = sub' -> m_string b1 = acc' ->
  (m_string_can_converted_to_number (base t) = false ->
   m_string_can_converted_to_number b1 = false) ->
  exists t',
    fetch_token_loop parse (S fuel) t = fetch_token_loop parse fuel t'
    /\ inside sub' acc' (y :: more) numbers t'
    /\ m_escaped_char (base t') = m_escaped_char b1
    /\ m_escaped_char_remaining (base t') = m_escaped_char_remaining b1.
Proof.
  intros (Hst & Hsub & Hacc & Hsrc & Hprev & Hnum) Hstep H1 H2 H3 H4.
  destruct t as [b src]. cbn [base m_source] in *. subst src. cbn [hd] in Hprev.
  exists {| base := advanced C_NEED_MORE_CHARS x y b1; m_source := y :: more |}.
  split; [apply turn_in_string; assumption |].
  unfold inside. cbn [base m_source hd].
  repeat split; try assumption; try reflexivity.
  intros E. cbn. apply H4, Hnum, E.
Qed.

Lemma turn_plain (fuel : nat) (acc : list Z) (x y : Z) (more : list Z) (numbers : bool)
      (t : json_tokenizer_sourced) :
  inside NORMAL acc (x :: y :: more) numbers t ->
  x <> CH32_EOF -> x <> QUOTE -> x <> BACKSLASH -> low_surrogate x = false ->
  exists t',
    fetch_token_loop parse (S fuel) t = fetch_token_loop parse fuel t'
    /\ inside NORMAL (acc ++ [x]) (y :: more) numbers t'.
Proof.
  intros H H1 H2 H3 Hlow.
  pose proof H as (Hst & Hsub & Hacc & _).
  destruct (add_char_to_string_after x (base t)) as (A & B & C & D).
  destruct (turn_inside fuel NORMAL NORMAL acc (acc ++ [x]) x y more numbers t
              (after (add_char_to_string x) (base t)) H) as (t' & E & I & _).
  - apply step_plain; assumption.
  - rewrite A. exact Hst.
  - rewrite B. exact Hsub.
  - rewrite (D Hlow), Hacc. reflexivity.
  - exact C.
  - exists t'. split; assumption.
Qed.

Lemma turn_backslash (fuel : nat) (acc : list Z) (y : Z) (more : list Z) (numbers : bool)
      (t : json_tokenizer_sourced) :
  inside NORMAL acc (BACKSLASH :: y :: more) numbers t ->
  exists t',
    fetch_token_loop parse (S fuel) t = fetch_token_loop parse fuel t'
    /\ inside IN_STRING_AFTER_BACKSLASH acc (y :: more) numbers t'.
Proof.
  intros H. pose proof H as (Hst & Hsub & Hacc & _).
  destruct (turn_inside fuel NORMAL IN_STRING_AFTER_BACKSLASH acc acc BACKSLASH y more
              numbers t (after (set_sub_state IN_STRING_AFTER_BACKSLASH) (base t)) H)
    as (t' & E & I & _).
  - apply step_backslash; assumption.
  - exact Hst.
  - reflexivity.
  - exact Hacc.
  - intros F. exact F.
  - exists t'. split; assumption.
Qed.

Lemma turn_escaped (fuel : nat) (acc : list Z) (e y : Z) (more : list Z) (numbers : bool)
      (t : json_tokenizer_sourced) :
  inside IN_STRING_AFTER_BACKSLASH acc (e :: y :: more) numbers t ->
  e <> CH32_EOF -> e <> chr "u" -> low_surrogate (unescaped e) = false ->
  exists t',
    fetch_token_loop parse (S fuel) t = fetch_token_loop parse fuel t'
    /\ inside NORMAL (acc ++ [unescaped e]) (y :: more) numbers t'.
Proof.
  intros H H1 H2 Hlow. pose proof H as (Hst & Hsub & Hacc & _).
  destruct (add_char_to_string_after (unescaped e) (base t)) as (A & B & C & D).
  destruct (turn_inside fuel IN_STRING_AFTER_BACKSLASH NORMAL acc (acc ++ [unescaped e])
              e y more numbers t
              (after (set_sub_state NORMAL)
                     (after (add_char_to_string (unescaped e)) (base t))) H)
    as (t' & E & I & _).
  - apply step_escaped; assumption.
  - change (m_state (after (add_char_to_string (unescaped e)) (base t)) = IN_STRING).
    rewrite A. exact Hst.
  - reflexivity.
  - change (m_string (after (add_char_to_string (unescaped e)) (base t))
            = acc ++ [unescaped e]).
    rewrite (D Hlow), Hacc. reflexivity.
  - intros F.
    change (m_string_can_converted_to_number
              (after (add_char_to_string (unescaped e)) (base t)) = false).
    exact (C F).
  - exists t'. split; assumption.
Qed.

Lemma turn_u (fuel : nat) (acc : list Z) (y : Z) (more : list Z) (numbers : bool)
      (t : json_tokenizer_sourced) :
  inside IN_STRING_AFTER_BACKSLASH acc (chr "u" :: y :: more) numbers t ->
  exists t',
    fetch_token_loop parse (S fuel) t = fetch_token_loop parse fuel t'
    /\ inside_escape 0 4 acc (y :: more) numbers t'.
Proof.
  intros H. pose proof H as (Hst & Hsub & Hacc & _).
  destruct (turn_inside fuel IN_STRING_AFTER_BACKSLASH IN_STRING_READING_HEX_CHARS acc acc
              (chr "u") y more numbers t
              (after (set_sub_state IN_STRING_READING_HEX_CHARS)
                     (after (set_escaped 0 4) (base t))) H)
    as (t' & E & I & He & Hr).
  - apply step_u; assumption.
  - exact Hst.
  - reflexivity.
  - exact Hacc.
  - intros F. exact F.
  - exists t'. split; [exact E |]. split; [exact I |]. split; [exact He | exact Hr].
Qed.

Lemma hex_accumulate (e d : Z) :
  0 <= e < 2 ^ 12 -> 0 <= d < 16 ->
  cast_u32 (Z.lor (Z.shiftl e 4) d) = e * 16 + d.
Proof.
  intros He Hd. rewrite lor_shiftl_add by lia. unfold cast_u32.
  change (2 ^ 4) with 16. apply Z.mod_small. lia.
Qed.

Lemma turn_hex (fuel : nat) (escaped remaining : Z) (acc : list Z) (x d y : Z)
      (more : list Z) (numbers : bool) (t : json_tokenizer_sourced) :
  inside_escape escaped remaining acc (x :: y :: more) numbers t ->
  hex_digit x = Some d -> 1 < remaining -> 0 <= escaped < 2 ^ 12 ->
  exists t',
    fetch_token_loop parse (S fuel) t = fetch_token_loop parse fuel t'
    /\ inside_escape (escaped * 16 + d) (remaining - 1) acc (y :: more) numbers t'.
Proof.
  intros (H & He & Hr) Hd Hrem Hesc. pose proof H as (Hst & Hsub & Hacc & _).
  destruct (hex_digit_range x d Hd) as [Hx Hdr].
  destruct (turn_inside fuel IN_STRING_READING_HEX_CHARS IN_STRING_READING_HEX_CHARS acc acc
              x y more numbers t
              (after (set_escaped (cast_u32 (Z.lor (Z.shiftl (m_escaped_char (base t)) 4) d))
                                  (m_escaped_char_remaining (base t) - 1)) (base t)) H)
    as (t' & E & I & He' & Hr').
  - apply step_hex; try assumption. rewrite Hr. exact Hrem.
  - exact Hst.
  - exact Hsub.
  - exact Hacc.
  - intros F. exact F.
  - exists t'. split; [exact E |]. split; [exact I |]. split.
    + rewrite He'. cbn. rewrite He. apply hex_accumulate; assumption.
    + rewrite Hr'. cbn. rewrite Hr. reflexivity.
Qed.

Lemma turn_hex_last (fuel : nat) (escaped : Z) (acc : list Z) (x d y : Z)
      (more : list Z) (numbers : bool) (t : json_tokenizer_sourced) :
  inside_escape escaped 1 acc (x :: y :: more) numbers t ->
  hex_digit x = Some d -> 0 <= escaped < 2 ^ 12 ->
  low_surrogate (escaped * 16 + d) = false ->
  exists t',
    fetch_token_loop parse (S fuel) t = fetch_token_loop parse fuel t'
    /\ inside NORMAL (acc ++ [escaped * 16 + d]) (y :: more) numbers t'.
Proof.
  intros (H & He & Hr) Hd Hesc Hlow. pose proof H as (Hst & Hsub & Hacc & _).
  destruct (hex_digit_range x d Hd) as [Hx Hdr].
  pose proof (step_hex_last x d (base t) Hsub Hd Hx Hr) as Hstep. cbv zeta in Hstep.
  rewrite He, hex_accumulate in Hstep by assumption.
  set (b0 := after (set_escaped (escaped * 16 + d) 0) (base t)) in *.
  destruct (add_char_to_string_after (escaped * 16 + d) b0) as (A & B & C & D).
  destruct (turn_inside fuel IN_STRING_READING_HEX_CHARS NORMAL acc
              (acc ++ [escaped * 16 + d]) x y more numbers t _ H Hstep)
    as (t' & E & I & _).
  - change (m_state (after (add_char_to_string (escaped * 16 + d)) b0) = IN_STRING).
    rewrite A. exact Hst.
  - reflexivity.
  - change (m_string (after (add_char_to_string (escaped * 16 + d)) b0)
            = acc ++ [escaped * 16 + d]).
    rewrite (D Hlow). unfold b0. cbn. rewrite Hacc. reflexivity.
  - intros F.
    change (m_string_can_converted_to_number
              (after (add_char_to_string (escaped * 16 + d)) b0) = false).
    apply C. exact F.
  - exists t'. split; assumption.
Qed.

End WithParse.
End StringFacts.
Module StringFacts2.
Import JsonTokenizer StringStates BitFacts Utf8Facts StringFacts.

Lemma land_high_bits (c : Z) :
  0 <= c < 65536 -> Z.land c 0xFC00 = c / 1024 * 1024.
Proof.
  intros Hc.
  assert (Ec : c = Z.lor (Z.shiftl (c / 1024) 10) (c mod 1024)).
  { rewrite lor_shiftl_add by (change (2 ^ 10) with 1024; div_mod_lia).
    change (2 ^ 10) with 1024. div_mod_lia. }
  rewrite Ec at 1. rewrite Z.land_lor_distr_l.
  change 0xFC00 with (Z.shiftl 63 10).
  rewrite <- Z.shiftl_land.
  rewrite (Z.land_comm (c mod 1024)), land_shiftl_small
    by (change (2 ^ 10) with 1024; div_mod_lia).
  rewrite Z.lor_0_r.
  change 63 with (Z.ones 6). rewrite Z.land_ones by lia.
  rewrite Z.shiftl_mul_pow2 by lia. change (2 ^ 10) with 1024. change (2 ^ 6) with 64.
  rewrite Z.mod_small by div_mod_lia. reflexivity.
Qed.

Lemma detect_utf16_char_spec (c : Z) :
  0 <= c < 65536 ->
  detect_utf16_char c
  = if c / 1024 =? 54 then utf16_FIRST
    else if c / 1024 =? 55 then utf16_SECOND else utf16_NONE.
Proof.
  intros Hc. unfold detect_utf16_char. rewrite land_high_bits by assumption.
  destruct (c / 1024 =? 54) eqn:E1.
  - apply Z.eqb_eq in E1. rewrite E1. reflexivity.
  - apply Z.eqb_neq in E1.
    replace (c / 1024 * 1024 =? 55296) with false by (symmetry; apply Z.eqb_neq; lia).
    destruct (c / 1024 =? 55) eqn:E2.
    + apply Z.eqb_eq in E2. rewrite E2. reflexivity.
    + apply Z.eqb_neq in E2.
      replace (c / 1024 * 1024 =? 56320) with false by (symmetry; apply Z.eqb_neq; lia).
      reflexivity.
Qed.

Lemma low_surrogate_false (c : Z) :
  0 <= c -> ~ (0xDC00 <= c <= 0xDFFF) -> low_surrogate c = false.
Proof.
  intros H0 Hn. unfold low_surrogate.
  destruct (c <? 65536) eqn:E; [| reflexivity]. apply Z.ltb_lt in E.
  change (2 ^ 16) with 65536. rewrite Z.mod_small by lia.
  rewrite detect_utf16_char_spec by lia.
  destruct (c / 1024 =? 54); [reflexivity |].
  destruct (c / 1024 =? 55) eqn:E2; [| reflexivity].
  apply Z.eqb_eq in E2. exfalso. apply Hn. div_mod_lia.
Qed.

Lemma read_utf16_pair (high low : Z) :
  0 <= high < 1024 -> 0 <= low < 1024 ->
  read_utf16_asciiz [(0xD800 + high) mod 2 ^ 16; (0xDC00 + low) mod 2 ^ 16; 0]
  = (2, 0x10000 + high * 1024 + low).
Proof.
  intros Hh Hl. change (2 ^ 16) with 65536. rewrite !Z.mod_small by lia.
  unfold read_utf16_asciiz. cbn [nth].
  rewrite !detect_utf16_char_spec by lia.
  replace ((0xD800 + high) / 1024) with 54 by div_mod_lia.
  replace ((0xDC00 + low) / 1024) with 55 by div_mod_lia.
  cbn [Z.eqb Pos.eqb]. cbv zeta.
  rewrite !DASTD_BINGET_div_mod by lia.
  replace ((0xD800 + high) / 2 ^ 0 mod 2 ^ 10) with high by div_mod_lia.
  replace ((0xDC00 + low) / 2 ^ 0 mod 2 ^ 10) with low by div_mod_lia.
  rewrite (DASTD_BINSET_clear_field 0 10 10 high) by (reflexivity || lia).
  rewrite (DASTD_BINSET_clear_field (0 + high * 2 ^ 10) 0 10 low)
    by (first [lia | change (2 ^ (0 + 10)) with 1024; change (2 ^ 10) with 1024;
                     div_mod_lia]).
  f_equal. unfold cast_u32. change (2 ^ 10) with 1024. change (2 ^ 0) with 1.
  rewrite Z.mod_small by lia. lia.
Qed.

Lemma add_char_to_string_pair (acc : list Z) (high low : Z) (b b' : json_tokenizer_base) :
  add_char_to_string (0xDC00 + low) b = Done (tt, b') ->
  m_string b = acc ++ [0xD800 + high] ->
  0 <= high < 1024 -> 0 <= low < 1024 ->
  m_string b' = acc ++ [0x10000 + high * 1024 + low].
Proof.
  intros H Hs Hh Hl. revert H. unfold add_char_to_string.
  unfold bind at 1. unfold get at 1. cbv beta iota zeta.
  rewrite Hs, last_last, removelast_last, length_app. cbn [List.length].
  rewrite read_utf16_pair by assumption.
  change (2 ^ 16) with 65536. rewrite !Z.mod_small by lia.
  rewrite !detect_utf16_char_spec by lia.
  replace ((0xD800 + high) / 1024) with 54 by div_mod_lia.
  replace ((0xDC00 + low) / 1024) with 55 by div_mod_lia.
  cbn [Z.eqb Pos.eqb].
  replace (0 <? Z.of_nat (List.length acc + 1)) with true by (symmetry; apply Z.ltb_lt; lia).
  replace (0xDC00 + low <? 65536) with true by (symmetry; apply Z.ltb_lt; lia).
  replace (0xD800 + high <? 65536) with true by (symmetry; apply Z.ltb_lt; lia).
  cbn [andb]. cbv iota. unfold set_string.
  intros H.
  apply (f_equal (fun o => match o with
                           | Done (_, s) => m_string s
                           | Thrown _ => []
                           end)) in H.
  cbv beta iota in H. cbn [m_string] in H. symmetry. exact H.
Qed.

Lemma hex_digit_of_conv_checked :
  forallb (fun i => match hex_digit (chr (Fmt.conv_char Fmt.conv_set_uc (Z.of_nat i))) with
                    | Some d => d =? Z.of_nat i
                    | None => false
                    end) (seq 0 16) = true.
Proof. vm_compute. reflexivity. Qed.

Lemma hex_digit_of_conv (d : Z) :
  0 <= d < 16 -> hex_digit (chr (Fmt.conv_char Fmt.conv_set_uc d)) = Some d.
Proof.
  intros Hd. pose proof (forallb_range _ 16 d hex_digit_of_conv_checked ltac:(lia)) as H.
  cbv beta in H. rewrite Z2Nat.id in H by lia.
  destruct (hex_digit _) as [d' |]; [| discriminate].
  apply Z.eqb_eq in H. subst. reflexivity.
Qed.

End StringFacts2.
Module FmtFacts.
Import BitFacts.

Lemma digits_loop_step (fuel : nat) (conv_set : string) (num base : Z) :
  Fmt.digits_loop (S fuel) conv_set num base
  = if num >? 0
    then Fmt.conv_char conv_set (num mod base)
         :: Fmt.digits_loop fuel conv_set (num / base) base
    else [].
Proof. reflexivity. Qed.

Ltac loop_step :=
  rewrite digits_loop_step;
  match goal with
  | |- context [?a >? 0] =>
      first [ replace (a >? 0) with true
                by (symmetry; rewrite Z.gtb_ltb; apply Z.ltb_lt; div_mod_lia)
            | replace (a >? 0) with false
                by (symmetry; rewrite Z.gtb_ltb; apply Z.ltb_ge; div_mod_lia) ]
  end; cbv iota.

(** [fmt(v, 16, 4)] of a 16-bit value: its four hexadecimal digits. *)
Lemma fmt_hex4 (v : Z) :
  0 <= v < 65536 ->
  Fmt.fmt v 16 4 false
  = Done (string_of_list_ascii
            [Fmt.conv_char Fmt.conv_set_uc (v / 4096 mod 16);
             Fmt.conv_char Fmt.conv_set_uc (v / 256 mod 16);
             Fmt.conv_char Fmt.conv_set_uc (v / 16 mod 16);
             Fmt.conv_char Fmt.conv_set_uc (v mod 16)]).
Proof.
  intros Hv. destruct (Z.eq_dec v 0) as [-> | Hnz]; [vm_compute; reflexivity |].
  unfold Fmt.fmt.
  change (negb ((2 <=? 16) && (16 <? 36))) with false.
  change (negb (Z.abs 4 <? Fmt.buf_size)) with false. cbv iota zeta.
  replace (v =? 0) with false by (symmetry; apply Z.eqb_neq; exact Hnz).
  change (4 <? 0) with false. cbv iota. change (Z.abs 4) with 4.
  assert (Hz : Fmt.conv_char Fmt.conv_set_uc 0 = "0"%char) by reflexivity.
  destruct (Z_lt_ge_dec v 16); [| destruct (Z_lt_ge_dec v 256);
                                   [| destruct (Z_lt_ge_dec v 4096)]].
  - do 2 loop_step.
    replace (v / 4096 mod 16) with 0 by div_mod_lia.
    replace (v / 256 mod 16) with 0 by div_mod_lia.
    replace (v / 16 mod 16) with 0 by div_mod_lia.
    rewrite Hz. reflexivity.
  - do 3 loop_step.
    replace (v / 4096 mod 16) with 0 by div_mod_lia.
    replace (v / 256 mod 16) with 0 by div_mod_lia.
    replace (v / 16 mod 16) with (v / 16) by div_mod_lia.
    rewrite Hz. reflexivity.
  - do 4 loop_step.
    replace (v / 4096 mod 16) with 0 by div_mod_lia.
    replace (v / 256 mod 16) with (v / 16 / 16) by div_mod_lia.
    replace (v / 16 / 16 mod 16) with (v / 16 / 16) by div_mod_lia.
    rewrite Hz. reflexivity.
  - do 5 loop_step.
    replace (v / 4096 mod 16) with (v / 16 / 16 / 16) by div_mod_lia.
    replace (v / 256 mod 16) with (v / 16 / 16 mod 16) by div_mod_lia.
    replace (v / 16 / 16 / 16 mod 16) with (v / 16 / 16 / 16) by div_mod_lia.
    reflexivity.
Qed.

End FmtFacts.
Module EncoderShapes.
Import JsonTokenizer StringStates BitFacts Utf8Facts StringFacts StringFacts2 FmtFacts JsonEncoder.

Lemma code_points_app (a b : string) :
  code_points (a ++ b) = code_points a ++ code_points b.
Proof.
  induction a as [| c a IH]; [reflexivity |].
  cbn [String.append code_points app]. rewrite IH. reflexivity.
Qed.

Lemma chr_ascii_of_nat (c : Z) :
  0 <= c < 256 -> chr (ascii_of_nat (Z.to_nat c)) = c.
Proof.
  intros Hc. unfold chr. rewrite nat_ascii_embedding by lia. lia.
Qed.

Lemma hex4_digits (v : Z) :
  0 <= v < 65536 ->
  exists h3 h2 h1 h0 d3 d2 d1 d0,
    (exists digits, Fmt.fmt v 16 4 false = Done digits
                    /\ code_points digits = [h3; h2; h1; h0])
    /\ hex_digit h3 = Some d3 /\ hex_digit h2 = Some d2
    /\ hex_digit h1 = Some d1 /\ hex_digit h0 = Some d0
    /\ v = ((d3 * 16 + d2) * 16 + d1) * 16 + d0.
Proof.
  intros Hv.
  exists (chr (Fmt.conv_char Fmt.conv_set_uc (v / 4096 mod 16))),
         (chr (Fmt.conv_char Fmt.conv_set_uc (v / 256 mod 16))),
         (chr (Fmt.conv_char Fmt.conv_set_uc (v / 16 mod 16))),
         (chr (Fmt.conv_char Fmt.conv_set_uc (v mod 16))),
         (v / 4096 mod 16), (v / 256 mod 16), (v / 16 mod 16), (v mod 16).
  split; [eexists; split; [apply fmt_hex4; exact Hv | reflexivity] |].
  repeat split; try (apply hex_digit_of_conv; div_mod_lia). div_mod_lia.
Qed.

Lemma plain_not_low (c : Z) : 0 <= c < 0xD800 -> low_surrogate c = false.
Proof. intros H. apply low_surrogate_false; lia. Qed.

(** Every scalar value is written in one of the four forms. *)
Lemma json_encode_char_shape (c : Z) :
  scalar c ->
  exists text, json_encode_char c = Done text /\ encoding_shape c (code_points text).
Proof.
  intros [Hr Hs]. unfold json_encode_char.
  destruct (c =? 0x22) eqn:E1;
    [apply Z.eqb_eq in E1; subst; eexists; split; [reflexivity |];
     apply (shape_escaped 34 34); (discriminate || reflexivity) |].
  destruct (c =? 0x5C) eqn:E2;
    [apply Z.eqb_eq in E2; subst; eexists; split; [reflexivity |];
     apply (shape_escaped 92 92); (discriminate || reflexivity) |].
  destruct (c =? 0x08) eqn:E3;
    [apply Z.eqb_eq in E3; subst; eexists; split; [reflexivity |];
     apply (shape_escaped 8 (chr "b")); (discriminate || reflexivity) |].
  destruct (c =? 0x0C) eqn:E4;
    [apply Z.eqb_eq in E4; subst; eexists; split; [reflexivity |];
     apply (shape_escaped 12 (chr "f")); (discriminate || reflexivity) |].
  destruct (c =? 0x0A) eqn:E5;
    [apply Z.eqb_eq in E5; subst; eexists; split; [reflexivity |];
     apply (shape_escaped 10 (chr "n")); (discriminate || reflexivity) |].
  destruct (c =? 0x0D) eqn:E6;
    [apply Z.eqb_eq in E6; subst; eexists; split; [reflexivity |];
     apply (shape_escaped 13 (chr "r")); (discriminate || reflexivity) |].
  destruct (c =? 0x09) eqn:E7;
    [apply Z.eqb_eq in E7; subst; eexists; split; [reflexivity |];
     apply (shape_escaped 9 (chr "t")); (discriminate || reflexivity) |].
  apply Z.eqb_neq in E1, E2.
  destruct ((32 <=? c) && (c <=? 126)) eqn:E8.
  - apply andb_true_iff in E8. destruct E8 as [A B]. apply Z.leb_le in A, B.
    eexists. split; [reflexivity |].
    cbn [text_of code_points]. rewrite chr_ascii_of_nat by lia.
    apply shape_plain; try assumption.
    + change CH32_EOF with 4294967295. lia.
    + apply plain_not_low. lia.
  - destruct ((c <=? 0xD7FF) || ((0xE000 <=? c) && (c <=? 0xFFFF))) eqn:E9.
    + assert (Hc : 0 <= c < 65536 /\ ~ (0xDC00 <= c <= 0xDFFF)).
      { apply orb_true_iff in E9. destruct E9 as [A | A].
        - apply Z.leb_le in A. lia.
        - apply andb_true_iff in A. destruct A as [A B]. apply Z.leb_le in A, B. lia. }
      destruct Hc as [Hc Hn].
      destruct (hex4_digits c Hc)
        as (h3 & h2 & h1 & h0 & d3 & d2 & d1 & d0 & (digits & Ef & Ed) & D3 & D2 & D1 & D0 & Ev).
      rewrite Ef. eexists. split; [reflexivity |].
      rewrite code_points_app, Ed.
      apply (shape_u c h3 h2 h1 h0 d3 d2 d1 d0); try assumption.
      apply low_surrogate_false; lia.
    + apply orb_false_iff in E9. destruct E9 as [A B]. apply Z.leb_gt in A.
      assert (Hbig : 0x10000 <= c <= 0x10FFFF).
      { apply andb_false_iff in B. destruct B as [B | B].
        - apply Z.leb_gt in B. lia.
        - apply Z.leb_gt in B. lia. }
      replace ((0x010000 <=? c) && (c <=? 0x10FFFF)) with true
        by (symmetry; apply andb_true_iff; split; apply Z.leb_le; lia).
      cbv zeta.
      assert (Eh : Z.land (Z.shiftr (c - 0x10000) 10) 0x3FF = (c - 0x10000) / 1024).
      { change 0x3FF with (Z.ones 10). rewrite Z.land_ones, Z.shiftr_div_pow2 by lia.
        change (2 ^ 10) with 1024. apply Z.mod_small. div_mod_lia. }
      assert (El : Z.land (c - 0x10000) 0x3FF = (c - 0x10000) mod 1024).
      { change 0x3FF with (Z.ones 10). rewrite Z.land_ones by lia. reflexivity. }
      rewrite Eh, El.
      set (high := (c - 0x10000) / 1024). set (low := (c - 0x10000) mod 1024).
      assert (Hh : 0 <= high < 1024) by (unfold high; div_mod_lia).
      assert (Hl : 0 <= low < 1024) by (unfold low; div_mod_lia).
      destruct (hex4_digits (0xD800 + high) ltac:(lia))
        as (h3 & h2 & h1 & h0 & d3 & d2 & d1 & d0 & (dh & Efh & Edh) & D3 & D2 & D1 & D0 & Evh).
      destruct (hex4_digits (0xDC00 + low) ltac:(lia))
        as (l3 & l2 & l1 & l0 & e3 & e2 & e1 & e0 & (dl & Efl & Edl) & L3 & L2 & L1 & L0 & Evl).
      rewrite Efh, Efl. eexists. split; [reflexivity |].
      rewrite !code_points_app, Edh, Edl.
      apply (shape_pair c h3 h2 h1 h0 d3 d2 d1 d0 l3 l2 l1 l0 e3 e2 e1 e0 high low);
        try assumption.
      unfold high, low. div_mod_lia.
Qed.

Lemma json_encode_string_shape (str : list Z) :
  Forall scalar str ->
  exists text, json_encode_string str = Done text /\ encoded_as str (code_points text).
Proof.
  induction 1 as [| c str Hc Hstr IH].
  - exists EmptyString. split; [reflexivity | constructor].
  - destruct (json_encode_char_shape c Hc) as (tc & Ec & Sc).
    destruct IH as (tr & Er & Sr).
    exists (tc ++ tr)%string. split.
    + cbn [json_encode_string]. rewrite Ec, Er. reflexivity.
    + rewrite code_points_app. constructor; assumption.
Qed.

End EncoderShapes.
Module LiteralFacts.
Import JsonTokenizer StringStates BitFacts Utf8Facts StringFacts StringFacts2.

Section WithParse.
Variable parse : list Z -> Multinum.multinum.

(** The last digit of the second escape of a surrogate pair: the two units
    are replaced by the code point. *)
Lemma turn_hex_last_pair (fuel : nat) (escaped high low : Z) (acc : list Z) (x d y : Z)
      (more : list Z) (numbers : bool) (t : json_tokenizer_sourced) :
  inside_escape escaped 1 (acc ++ [0xD800 + high]) (x :: y :: more) numbers t ->
  hex_digit x = Some d -> 0 <= escaped < 2 ^ 12 ->
  escaped * 16 + d = 0xDC00 + low -> 0 <= high < 1024 -> 0 <= low < 1024 ->
  exists t',
    fetch_token_loop parse (S fuel) t = fetch_token_loop parse fuel t'
    /\ inside NORMAL (acc ++ [0x10000 + high * 1024 + low]) (y :: more) numbers t'.
Proof.
  intros (H & He & Hr) Hd Hesc Hv Hh Hl. pose proof H as (Hst & Hsub & Hacc & _).
  destruct (hex_digit_range x d Hd) as [Hx Hdr].
  pose proof (step_hex_last parse x d (base t) Hsub Hd Hx Hr) as Hstep. cbv zeta in Hstep.
  rewrite He, hex_accumulate, Hv in Hstep by assumption.
  set (b0 := after (set_escaped (0xDC00 + low) 0) (base t)) in *.
  pose proof (add_char_to_string_runs (0xDC00 + low) b0) as Hrun.
  destruct (add_char_to_string_result _ _ _ Hrun) as (A & B & C & _).
  assert (D : m_string (after (add_char_to_string (0xDC00 + low)) b0)
              = acc ++ [0x10000 + high * 1024 + low]).
  { apply (add_char_to_string_pair acc high low b0);
      first [assumption | unfold b0; cbn; exact Hacc]. }
  destruct (turn_inside parse fuel IN_STRING_READING_HEX_CHARS NORMAL
              (acc ++ [0xD800 + high]) (acc ++ [0x10000 + high * 1024 + low])
              x y more numbers t _ H Hstep)
    as (t' & E & I & _).
  - change (m_state (after (add_char_to_string (0xDC00 + low)) b0) = IN_STRING).
    rewrite A. exact Hst.
  - reflexivity.
  - exact D.
  - intros F.
    change (m_string_can_converted_to_number
              (after (add_char_to_string (0xDC00 + low)) b0) = false).
    apply C. exact F.
  - exists t'. split; assumption.
Qed.

Lemma hex_value_bounds (d3 d2 d1 : Z) (h3 h2 h1 : Z) :
  hex_digit h3 = Some d3 -> hex_digit h2 = Some d2 -> hex_digit h1 = Some d1 ->
  0 <= 0 * 16 + d3 < 2 ^ 12 /\ 0 <= (0 * 16 + d3) * 16 + d2 < 2 ^ 12
  /\ 0 <= ((0 * 16 + d3) * 16 + d2) * 16 + d1 < 2 ^ 12.
Proof.
  intros H3 H2 H1.
  apply hex_digit_range in H3, H2, H1. lia.
Qed.

(** The six turns that read a [u] escape up to its last digit. *)
Lemma turns_u_escape (fuel : nat) (acc : list Z) (h3 h2 h1 h0 d3 d2 d1 : Z) (y : Z)
      (more : list Z) (numbers : bool) (t : json_tokenizer_sourced) :
  inside NORMAL acc (BACKSLASH :: chr "u" :: h3 :: h2 :: h1 :: h0 :: y :: more) numbers t ->
  hex_digit h3 = Some d3 -> hex_digit h2 = Some d2 -> hex_digit h1 = Some d1 ->
  exists t',
    fetch_token_loop parse (S (S (S (S (S fuel))))) t = fetch_token_loop parse fuel t'
    /\ inside_escape ((d3 * 16 + d2) * 16 + d1) 1 acc (h0 :: y :: more) numbers t'.
Proof.
  intros H H3 H2 H1.
  destruct (hex_value_bounds d3 d2 d1 h3 h2 h1 H3 H2 H1) as (B3 & B2 & B1).
  destruct (turn_backslash parse (S (S (S (S fuel)))) _ _ _ _ _ H) as (t1 & E1 & I1).
  destruct (turn_u parse (S (S (S fuel))) _ _ _ _ _ I1) as (t2 & E2 & I2).
  destruct (turn_hex parse (S (S fuel)) _ _ _ _ _ _ _ _ _ I2 H3 ltac:(lia) ltac:(lia))
    as (t3 & E3 & I3).
  destruct (turn_hex parse (S fuel) _ _ _ _ _ _ _ _ _ I3 H2 ltac:(lia) B3)
    as (t4 & E4 & I4).
  destruct (turn_hex parse fuel _ _ _ _ _ _ _ _ _ I4 H1 ltac:(lia) B2)
    as (t5 & E5 & I5).
  exists t5. split; [rewrite E1, E2, E3, E4, E5; reflexivity |].
  replace ((d3 * 16 + d2) * 16 + d1) with (((0 * 16 + d3) * 16 + d2) * 16 + d1) by lia.
  exact I5.
Qed.

(** The turns of the loop on the encoding of one character. *)
Lemma turns_shape (c : Z) (cs : list Z) :
  encoding_shape c cs ->
  forall (fuel : nat) (acc : list Z) (y : Z) (more : list Z) (numbers : bool)
         (t : json_tokenizer_sourced),
    inside NORMAL acc (cs ++ y :: more) numbers t ->
    exists t',
      fetch_token_loop parse (List.length cs + fuel) t = fetch_token_loop parse fuel t'
      /\ inside NORMAL (acc ++ [c]) (y :: more) numbers t'.
Proof.
  intros Hshape fuel acc y more numbers t H.
  destruct Hshape
    as [H1 H2 H3 Hlow
       | e H1 H2 He Hlow
       | h3 h2 h1 h0 d3 d2 d1 d0 D3 D2 D1 D0 Ev Hlow
       | h3 h2 h1 h0 d3 d2 d1 d0 l3 l2 l1 l0 e3 e2 e1 e0 high low
           D3 D2 D1 D0 L3 L2 L1 L0 Evh Hh Evl Hl Ec];
    cbn [app List.length Nat.add] in *.
  - apply turn_plain; assumption.
  - destruct (turn_backslash parse (S fuel) _ _ _ _ _ H) as (t1 & E1 & I1).
    destruct (turn_escaped parse fuel _ _ _ _ _ _ I1 H1 H2) as (t2 & E2 & I2).
    + rewrite He. exact Hlow.
    + exists t2. split; [rewrite E1, E2; reflexivity |]. rewrite <- He. exact I2.
  - destruct (turns_u_escape (S fuel) _ _ _ _ _ _ _ _ _ _ _ _ H D3 D2 D1) as (t1 & E1 & I1).
    destruct (hex_value_bounds d3 d2 d1 h3 h2 h1 D3 D2 D1) as (_ & _ & B1).
    destruct (turn_hex_last parse fuel _ _ _ _ _ _ _ _ I1 D0) as (t2 & E2 & I2).
    + lia.
    + rewrite <- Ev. exact Hlow.
    + exists t2. split; [rewrite E1, E2; reflexivity |]. rewrite Ev. exact I2.
  - destruct (turns_u_escape (S (S (S (S (S (S (S fuel))))))) _ _ _ _ _ _ _ _ _ _ _ _
                H D3 D2 D1) as (t1 & E1 & I1).
    destruct (hex_value_bounds d3 d2 d1 h3 h2 h1 D3 D2 D1) as (_ & _ & B1).
    destruct (hex_value_bounds e3 e2 e1 l3 l2 l1 L3 L2 L1) as (_ & _ & C1).
    destruct (turn_hex_last parse (S (S (S (S (S (S fuel)))))) _ _ _ _ _ _ _ _ I1 D0)
      as (t2 & E2 & I2).
    + lia.
    + rewrite <- Evh. apply low_surrogate_false; lia.
    + rewrite <- Evh in I2.
      destruct (turns_u_escape (S fuel) _ _ _ _ _ _ _ _ _ _ _ _ I2 L3 L2 L1)
        as (t3 & E3 & I3).
      destruct (turn_hex_last_pair fuel _ high low _ _ _ _ _ _ _ I3 L0) as (t4 & E4 & I4);
        try assumption; try lia.
      exists t4. split; [rewrite E1, E2, E3, E4; reflexivity |]. rewrite Ec. exact I4.
Qed.

(** The turns of the loop on the encoding of a string. *)
Lemma turns_string (str text : list Z) :
  encoded_as str text ->
  forall (fuel : nat) (acc : list Z) (y : Z) (more : list Z) (numbers : bool)
         (t : json_tokenizer_sourced),
    inside NORMAL acc (text ++ y :: more) numbers t ->
    exists t',
      fetch_token_loop parse (List.length text + fuel) t = fetch_token_loop parse fuel t'
      /\ inside NORMAL (acc ++ str) (y :: more) numbers t'.
Proof.
  induction 1 as [| c cs str text Hc Hstr IH]; intros fuel acc y more numbers t H.
  - exists t. split; [reflexivity |]. rewrite app_nil_r. exact H.
  - rewrite <- app_assoc in H.
    destruct text as [| z text'].
    + cbn [app] in H.
      destruct (turns_shape c cs Hc fuel acc y more numbers t H) as (t1 & E1 & I1).
      destruct (IH fuel (acc ++ [c]) y more numbers t1 I1) as (t2 & E2 & I2).
      exists t2. split.
      * rewrite app_nil_r, E1. exact E2.
      * rewrite <- app_assoc in I2. exact I2.
    + cbn [app] in H.
      destruct (turns_shape c cs Hc (List.length (z :: text') + fuel) acc z
                  (text' ++ y :: more) numbers t H) as (t1 & E1 & I1).
      destruct (IH fuel (acc ++ [c]) y more numbers t1 I1) as (t2 & E2 & I2).
      exists t2. split.
      * rewrite length_app, <- Nat.add_assoc, E1. exact E2.
      * rewrite <- app_assoc in I2. exact I2.
Qed.

End WithParse.
End LiteralFacts.
Module LiteralFacts2.
Import JsonTokenizer StringStates BitFacts Utf8Facts StringFacts StringFacts2 LiteralFacts.

Section WithParse.
Variable parse : list Z -> Multinum.multinum.

(** The first turn of the loop on a source that starts with a quote. *)
Lemma turn_opening (fuel : nat) (y : Z) (more : list Z) (flags : Z) :
  exists t1,
    fetch_token_loop parse (S fuel)
      {| base := json_tokenizer_base_new QUOTE flags; m_source := QUOTE :: y :: more |}
    = fetch_token_loop parse fuel t1
    /\ inside NORMAL [] (y :: more) (numbers_in_strings flags) t1.
Proof.
  set (b1 := advanced C_NEED_MORE_CHARS QUOTE y
               (after (set_state IN_STRING;; set_sub_state NORMAL)
                      (after clear (json_tokenizer_base_new QUOTE flags)))).
  assert (Hp : internal_process_char parse y (json_tokenizer_base_new QUOTE flags)
               = Done (C_NEED_MORE_CHARS, b1)) by (vm_compute; reflexivity).
  exists {| base := b1; m_source := y :: more |}. split.
  - cbn [fetch_token_loop].
    unfold bind at 1. unfold tentative_read_char at 1. cbv beta iota.
    cbn [m_source base tl].
    unfold bind at 1. unfold tentative_peek_char at 1. cbv beta iota.
    cbn [m_source base hd_error].
    unfold bind at 1. unfold on_base at 1. cbn [base m_source].
    rewrite Hp. reflexivity.
  - unfold inside, numbers_in_strings. cbn [base m_source hd].
    repeat split. intros E. vm_compute. vm_compute in E. exact E.
Qed.

(** The turn on the closing quote ends the loop with the string. *)
Lemma turn_closing (fuel : nat) (acc tail : list Z) (numbers : bool)
      (t : json_tokenizer_sourced) :
  inside NORMAL acc (QUOTE :: tail) numbers t ->
  exists r t',
    fetch_token_loop parse (S fuel) t = Done (r, t')
    /\ (r = C_STRING \/ r = C_STRING_AND_NUMBER)
    /\ (numbers = false -> r = C_STRING)
    /\ m_string (base t') = acc /\ m_last_process_ret (base t') = r.
Proof.
  intros (Hst & Hsub & Hacc & Hsrc & Hprev & Hnum).
  destruct t as [b src]. cbn [base m_source] in *. subst src. cbn [hd] in Hprev.
  destruct (step_quote parse b Hsub) as (r & b1 & Hstep & Hr & Hplain & Hs1 & _).
  assert (Hend : negb (ret_eqb r C_NEED_MORE_CHARS) && negb (ret_eqb r C_SPACE) = true)
    by (destruct Hr as [-> | ->]; reflexivity).
  destruct tail as [| y more].
  - exists r, {| base := finished r QUOTE b1; m_source := [] |}.
    split; [| repeat split; try assumption].
    + cbn [fetch_token_loop].
      unfold bind at 1. unfold tentative_read_char at 1. cbv beta iota.
      cbn [m_source base tl].
      unfold bind at 1. unfold tentative_peek_char at 1. cbv beta iota.
      cbn [m_source base hd_error].
      unfold bind at 1. unfold on_base at 1. cbn [base m_source].
      rewrite (internal_process_eof_in_string parse QUOTE b b1 r Hst Hprev Hstep).
      rewrite Hend. reflexivity.
    + intros E. apply Hplain, Hnum, E.
    + cbn. rewrite Hs1. exact Hacc.
  - exists r, {| base := advanced r QUOTE y b1; m_source := y :: more |}.
    split; [| repeat split; try assumption].
    + cbn [fetch_token_loop].
      unfold bind at 1. unfold tentative_read_char at 1. cbv beta iota.
      cbn [m_source base tl].
      unfold bind at 1. unfold tentative_peek_char at 1. cbv beta iota.
      cbn [m_source base hd_error].
      unfold bind at 1. unfold on_base at 1. cbn [base m_source].
      rewrite (internal_process_char_in_string parse QUOTE y b b1 r Hst Hprev Hstep).
      rewrite Hend. reflexivity.
    + intros E. apply Hplain, Hnum, E.
    + cbn. rewrite Hs1. exact Hacc.
Qed.

(** [fetch_token] on a literal: the quote, the encoding of a string, the
    quote, and whatever follows. *)
Lemma fetch_token_literal (str text tail : list Z) (flags : Z) :
  encoded_as str text ->
  exists t0 r t1,
    json_tokenizer_sourced_new parse (QUOTE :: text ++ QUOTE :: tail) flags = Done t0
    /\ fetch_token parse t0 = Done (r, t1)
    /\ (r = C_STRING \/ r = C_STRING_AND_NUMBER)
    /\ (numbers_in_strings flags = false -> r = C_STRING)
    /\ m_string (base t1) = str /\ m_last_process_ret (base t1) = r.
Proof.
  intros Henc.
  exists {| base := json_tokenizer_base_new QUOTE flags;
            m_source := QUOTE :: text ++ QUOTE :: tail |}.
  assert (Hs : exists y more, text ++ QUOTE :: tail = y :: more).
  { destruct text as [| z text']; cbn [app]; eauto. }
  destruct Hs as (y & more & Hs).
  destruct (turn_opening (List.length text + S (S (List.length tail + 1))) y more flags)
    as (t1 & E1 & I1).
  rewrite <- Hs in E1, I1.
  destruct (turns_string parse str text Henc (S (S (List.length tail + 1))) [] QUOTE tail
              (numbers_in_strings flags) t1 I1) as (t2 & E2 & I2).
  cbn [app] in I2.
  destruct (turn_closing (S (List.length tail + 1)) str tail (numbers_in_strings flags) t2 I2)
    as (r & t3 & E3 & Hr & Hplain & Hstr & Hlast).
  exists r, t3. split; [reflexivity |]. split.
  - unfold fetch_token. cbn [m_source].
    replace (List.length (QUOTE :: text ++ QUOTE :: tail) + 2)%nat
      with (S (List.length text + S (S (List.length tail + 1))))
      by (cbn [List.length]; rewrite length_app; cbn [List.length]; lia).
    rewrite E1, E2. exact E3.
  - repeat split; assumption.
Qed.

End WithParse.
End LiteralFacts2.

(** ** JSON strings and binary data through encoder, tokenizer and decoder *)

Module TextFacts.
Import JsonTokenizer StringStates StringFacts StringFacts2 EncoderShapes LiteralFacts
       LiteralFacts2.

Lemma encoded_plain (cs : list Z) : Forall plain_char cs -> encoded_as cs cs.
Proof.
  induction 1 as [| c cs Hc _ IH]; [constructor |].
  change (c :: cs) with ([c] ++ cs) at 2.
  constructor; [| exact IH].
  destruct Hc as (Hr & Hq & Hb).
  apply shape_plain; try assumption.
  - change CH32_EOF with 4294967295. lia.
  - apply plain_not_low. exact Hr.
Qed.

Lemma chr_ascii_of_byte (b : byte) : chr (ascii_of_byte b) = byte.unsigned b.
Proof. destruct b; reflexivity. Qed.

Lemma code_points_string_of_bytes (bs : list byte) :
  code_points (string_of_bytes bs) = map byte.unsigned bs.
Proof.
  induction bs as [| b bs IH]; [reflexivity |].
  cbn [string_of_bytes code_points map]. rewrite chr_ascii_of_byte, IH. reflexivity.
Qed.

Section WithParse.
Variable parse : list Z -> Multinum.multinum.

(** The decoder made for a text that holds one string literal, and its
    [fetch_token]. *)
Lemma decoder_fetches_literal (str text : list Z) :
  encoded_as str text ->
  exists d0 d1,
    DecJson.marshal_dec_json_new parse (QUOTE :: text ++ [QUOTE]) = Done d0
    /\ DecJson.m_is_typed d0 = false
    /\ DecJson.fetch_token parse d0 = Done (tt, d1)
    /\ m_last_process_ret (base (DecJson.m_tokenizer d1)) = C_STRING
    /\ m_string (base (DecJson.m_tokenizer d1)) = str.
Proof.
  intros Henc.
  destruct (fetch_token_literal parse str text [] 0 Henc)
    as (t0 & r & t1 & Hnew & Hfetch & _ & Hplain & Hstr & Hlast).
  specialize (Hplain eq_refl). subst r.
  unfold DecJson.marshal_dec_json_new. rewrite Hnew.
  do 2 eexists. split; [reflexivity |]. split; [reflexivity |].
  split; [eapply dec_fetch_token; exact Hfetch |].
  cbn [DecJson.m_tokenizer]. split; assumption.
Qed.

(** A plain character at the end of the input, inside a literal that was
    never closed: the loop ends with [C_NOTHING_MORE]. *)
Lemma turn_unterminated (fuel : nat) (acc : list Z) (x : Z) (numbers : bool)
      (t : json_tokenizer_sourced) :
  inside NORMAL acc [x] numbers t -> plain_char x ->
  exists t', fetch_token_loop parse (S (S fuel)) t = Done (C_NOTHING_MORE, t').
Proof.
  intros (Hst & Hsub & Hacc & Hsrc & Hprev & Hnum) (Hr & Hq & Hb).
  destruct t as [b src]. cbn [base m_source] in *. subst src. cbn [hd] in Hprev.
  assert (Hstep : process_char_string parse x b
                  = Done (C_NEED_MORE_CHARS, after (add_char_to_string x) b)).
  { apply step_plain; try assumption. change CH32_EOF with 4294967295. lia. }
  eexists.
  cbn [fetch_token_loop].
  unfold bind at 1. unfold tentative_read_char at 1. cbv beta iota.
  cbn [m_source base tl].
  unfold bind at 1. unfold tentative_peek_char at 1. cbv beta iota.
  cbn [m_source base hd_error].
  unfold bind at 1. unfold on_base at 1. cbn [base m_source].
  rewrite (internal_process_eof_in_string parse x b _ _ Hst Hprev Hstep).
  cbn [ret_eqb negb andb].
  unfold bind at 1. unfold tentative_read_char at 1. cbv beta iota.
  cbn [m_source base tl].
  unfold bind at 1. unfold tentative_peek_char at 1. cbv beta iota.
  cbn [m_source base hd_error].
  unfold bind at 1. unfold on_base at 1. cbn [base m_source].
  reflexivity.
Qed.

End WithParse.
End TextFacts.

Section JsonTextProperties.
Import JsonTokenizer StringStates StringFacts StringFacts2 EncoderShapes LiteralFacts
       LiteralFacts2 TextFacts.

Variable parse : list Z -> Multinum.multinum.

(** What [json_encode_string] writes for a string of Unicode scalar values,
    put between quotes, is read back by the tokenizer as that string,
    whatever follows the closing quote and whatever the flags: every escape,
    the surrogate pairs included, is undone. *)
Theorem json_string_roundtrip (str tail : list Z) (flags : Z) :
  Forall scalar str ->
  exists text t0 r t1,
    JsonEncoder.json_encode_string str = Done text
    /\ json_tokenizer_sourced_new parse (QUOTE :: code_points text ++ QUOTE :: tail) flags
       = Done t0
    /\ fetch_token parse t0 = Done (r, t1)
    /\ (r = C_STRING \/ r = C_STRING_AND_NUMBER)
    /\ m_string (base t1) = str.
Proof.
  intros Hs.
  destruct (json_encode_string_shape str Hs) as (text & Henc & Hshape).
  destruct (fetch_token_literal parse str (code_points text) tail flags Hshape)
    as (t0 & r & t1 & Hnew & Hfetch & Hr & _ & Hstr & _).
  exists text, t0, r, t1. repeat split; assumption.
Qed.

(** JSON round trip of a u32string: the text a fresh JSON encoder writes for
    a string of Unicode scalar values is decoded by [decode_u32string] of a
    JSON decoder made for that text to the same string. *)
Theorem json_u32string_roundtrip (str : list Z) :
  Forall scalar str ->
  exists text d0 d1,
    EncJson.written (EncJsonText.encode_u32string str EncJson.marshal_enc_json_new)
    = Some text
    /\ DecJson.marshal_dec_json_new parse (code_points text) = Done d0
    /\ DecJson.decode_u32string parse d0 = Done (str, d1).
Proof.
  intros Hs.
  destruct (json_encode_string_shape str Hs) as (body & Henc & Hshape).
  destruct (decoder_fetches_literal parse str (code_points body) Hshape)
    as (d0 & d1 & Hnew & Hty & Hfetch & Hlast & Hstr).
  exists (JsonEncoder.text_of "034"%char ++ body ++ JsonEncoder.text_of "034"%char)%string,
         d0, d1.
  split; [| split].
  - unfold EncJsonText.encode_u32string. rewrite Henc. reflexivity.
  - rewrite !code_points_app. exact Hnew.
  - unfold DecJson.decode_u32string.
    erewrite bind_Done
      by (unfold DecJson.assert_not_typed, bind, get; rewrite Hty; reflexivity).
    erewrite bind_Done by exact Hfetch.
    unfold DecJson.get_last_process_ret, DecJson.get_string, bind, get, ret.
    cbv beta iota. rewrite Hlast. cbn [ret_eqb negb]. cbv beta iota.
    rewrite Hstr. reflexivity.
Qed.

(** JSON round trip of binary data: the text a fresh JSON encoder writes for
    a sequence of bytes, a string literal holding their base-64 form, is
    decoded to the same bytes by the decoder's [internal_decode_varsize_binary],
    and by [internal_decode_binary] when it is asked for their number. *)
Theorem json_binary_roundtrip (data : list byte) :
  exists text d0 d1,
    EncJson.written (EncJsonText.internal_encode_varsize_binary data
                       EncJson.marshal_enc_json_new) = Some text
    /\ EncJson.written (EncJsonText.internal_encode_binary data
                          EncJson.marshal_enc_json_new) = Some text
    /\ DecJson.marshal_dec_json_new parse (code_points text) = Done d0
    /\ DecJsonText.internal_decode_varsize_binary parse d0 = Done (data, d1)
    /\ DecJsonText.internal_decode_binary parse (List.length data) d0 = Done (data, d1).
Proof.
  set (b64 := Base64.base64_encode data).
  pose proof (Base64Facts.base64_encode_chars data) as Hchars. fold b64 in Hchars.
  assert (Hplain : Forall plain_char (map byte.unsigned b64)).
  { apply Forall_map. eapply Forall_impl; [| exact Hchars].
    intros ch (Hr & Hq & Hb). unfold plain_char. repeat split; try lia; assumption. }
  assert (Hseven : Forall seven_bit (map byte.unsigned b64)).
  { apply Forall_map. eapply Forall_impl; [| exact Hchars].
    intros ch (Hr & _). exact Hr. }
  destruct (decoder_fetches_literal parse _ _ (encoded_plain _ Hplain))
    as (d0 & d1 & Hnew & Hty & Hfetch & Hlast & Hstr).
  exists (JsonEncoder.text_of "034"%char ++ string_of_bytes b64
          ++ JsonEncoder.text_of "034"%char)%string, d0, d1.
  assert (Hbytes : utf8_bytes (map byte.unsigned b64) = b64).
  { rewrite (DecBinFacts.utf8_bytes_seven_bit _ Hseven), map_map.
    rewrite (map_ext _ (fun b => b)) by (intros b; apply byte.of_Z_unsigned).
    apply map_id. }
  split; [| split; [| split; [| split]]].
  - reflexivity.
  - reflexivity.
  - rewrite !code_points_app, code_points_string_of_bytes. exact Hnew.
  - unfold DecJsonText.internal_decode_varsize_binary.
    erewrite bind_Done
      by (unfold DecJson.assert_not_typed, bind, get; rewrite Hty; reflexivity).
    erewrite bind_Done by exact Hfetch.
    unfold DecJson.get_last_process_ret, DecJsonText.get_string_utf8, DecJson.get_string,
      bind, get, ret.
    cbv beta iota. rewrite Hlast. cbn [ret_eqb negb]. cbv beta iota. rewrite Hstr, Hbytes.
    unfold Base64.base64_decode, b64.
    rewrite Base64Facts.base64_decode_encode. reflexivity.
  - unfold DecJsonText.internal_decode_binary.
    erewrite bind_Done
      by (unfold DecJson.assert_not_typed, bind, get; rewrite Hty; reflexivity).
    erewrite bind_Done by exact Hfetch.
    unfold DecJson.get_last_process_ret, DecJsonText.get_string_utf8, DecJson.get_string,
      bind, get, ret.
    cbv beta iota. rewrite Hlast. cbn [ret_eqb negb]. cbv beta iota. rewrite Hstr, Hbytes.
    unfold Base64.base64_decode, b64.
    rewrite Base64Facts.base64_decode_encode. cbn [negb].
    rewrite Nat.eqb_refl. reflexivity.
Qed.

(** A string literal that is never closed is not reported as an error: on a
    source that holds a quote and then plain characters only, [fetch_token]
    returns [C_NOTHING_MORE]. *)
Theorem unterminated_string_is_not_an_error (str : list Z) (flags : Z) :
  Forall plain_char str ->
  exists t0 t1,
    json_tokenizer_sourced_new parse (QUOTE :: str) flags = Done t0
    /\ fetch_token parse t0 = Done (C_NOTHING_MORE, t1).
Proof.
  intros Hs.
  exists {| base := json_tokenizer_base_new QUOTE flags; m_source := QUOTE :: str |}.
  destruct (exists_last (l := QUOTE :: str) ltac:(discriminate)) as (front & x & Hsplit).
  destruct front as [| q body].
  - (* the quote alone *)
    cbn [app] in Hsplit. inversion Hsplit; subst.
    eexists. split; [reflexivity |]. vm_compute. reflexivity.
  - cbn [app] in Hsplit. inversion Hsplit; subst q str. clear Hsplit.
    apply Forall_app in Hs. destruct Hs as [Hbody Hx]. apply Forall_inv in Hx.
    assert (Hsrc : exists y more, body ++ [x] = y :: more).
    { destruct body as [| z body']; cbn [app]; eauto. }
    destruct Hsrc as (y & more & Hsrc).
    destruct (turn_opening parse (List.length body + 3) y more flags) as (t1 & E1 & I1).
    rewrite <- Hsrc in E1, I1.
    destruct (turns_string parse body body (encoded_plain body Hbody) 3 [] x []
                (numbers_in_strings flags) t1 I1) as (t2 & E2 & I2).
    cbn [app] in I2.
    destruct (turn_unterminated parse 1 body x _ t2 I2 Hx) as (t3 & E3).
    exists t3. split; [reflexivity |].
    unfold fetch_token. cbn [m_source].
    replace (List.length (QUOTE :: body ++ [x]) + 2)%nat with (S (List.length body + 3))
      by (cbn [List.length]; rewrite length_app; cbn [List.length]; lia).
    rewrite E1, E2. exact E3.
Qed.

End JsonTextProperties.

(** A string of a plain character, a quote, a backslash, U+00E9, U+1F600 and
    a line feed: two escaped characters, a [u] escape, a surrogate pair and
    a control character. *)
Lemma json_string_roundtrip_witness :
  exists text t0 r t1,
    JsonEncoder.json_encode_string [97; 34; 92; 0xE9; 0x1F600; 10] = Done text
    /\ JsonTokenizer.json_tokenizer_sourced_new parse_no_number
         (JsonTokenizer.QUOTE :: JsonTokenizer.code_points text
          ++ JsonTokenizer.QUOTE :: [44; 49]) 0 = Done t0
    /\ JsonTokenizer.fetch_token parse_no_number t0 = Done (r, t1)
    /\ (r = JsonTokenizer.C_STRING \/ r = JsonTokenizer.C_STRING_AND_NUMBER)
    /\ JsonTokenizer.m_string (JsonTokenizer.base t1) = [97; 34; 92; 0xE9; 0x1F600; 10].
Proof.
  apply (json_string_roundtrip parse_no_number [97; 34; 92; 0xE9; 0x1F600; 10] [44; 49] 0).
  repeat constructor; unfold StringStates.scalar; lia.
Defined.

Lemma json_u32string_roundtrip_witness :
  exists text d0 d1,
    EncJson.written (EncJsonText.encode_u32string [97; 34; 0xE9; 0x1F600]
                       EncJson.marshal_enc_json_new) = Some text
    /\ DecJson.marshal_dec_json_new parse_no_number (JsonTokenizer.code_points text) = Done d0
    /\ DecJson.decode_u32string parse_no_number d0 = Done ([97; 34; 0xE9; 0x1F600], d1).
Proof.
  apply (json_u32string_roundtrip parse_no_number [97; 34; 0xE9; 0x1F600]).
  repeat constructor; unfold StringStates.scalar; lia.
Defined.

(** The text [ab] after an opening quote that is never closed. *)
Lemma unterminated_string_is_not_an_error_witness :
  exists t0 t1,
    JsonTokenizer.json_tokenizer_sourced_new parse_no_number
      (JsonTokenizer.QUOTE :: [97; 98]) 0 = Done t0
    /\ JsonTokenizer.fetch_token parse_no_number t0 = Done (JsonTokenizer.C_NOTHING_MORE, t1).
Proof.
  apply (unterminated_string_is_not_an_error parse_no_number [97; 98] 0).
  repeat constructor; unfold StringStates.plain_char, JsonTokenizer.QUOTE,
    JsonTokenizer.BACKSLASH; try lia; vm_compute; discriminate.
Defined.

(** ** time.hpp: composing and decomposing dates *)

Module TimeFacts.
Import BitFacts.

Lemma table_checked : forallb Time.table_row_ok (seq 0 1000) = true.
Proof. vm_compute. reflexivity. Qed.

Lemma table_row (year : Z) :
  1600 <= year <= 2599 ->
  Time.year_day_zero year = Time.gregorian_days_before_year year
  /\ Time.year_is_leap year = Time.gregorian_leap year
  /\ Time.gregorian_days_before_year (year + 1)
     = Time.gregorian_days_before_year year + Time.year_days year.
Proof.
  intros Hy.
  pose proof (Utf8Facts.forallb_range _ 1000 (year - 1600) table_checked ltac:(lia)) as H.
  unfold Time.table_row_ok in H. rewrite Z2Nat.id in H by lia.
  replace (1600 + (year - 1600)) with year in H by lia.
  apply andb_prop in H. destruct H as [H H3].
  apply andb_prop in H. destruct H as [H1 H2].
  apply Z.eqb_eq in H1, H3. apply Bool.eqb_prop in H2. auto.
Qed.

Lemma year_days_pos (year : Z) : 365 <= Time.year_days year <= 366.
Proof. unfold Time.year_days. destruct (Time.gregorian_leap year); lia. Qed.

Lemma days_before_year_mono (a b : Z) :
  1600 <= a -> a <= b -> b <= 2600 ->
  Time.gregorian_days_before_year a + 365 * (b - a) <= Time.gregorian_days_before_year b.
Proof.
  intros Ha Hab Hb.
  replace b with (a + Z.of_nat (Z.to_nat (b - a))) in * by lia.
  induction (Z.to_nat (b - a)) as [| n IH].
  - replace (a + Z.of_nat 0) with a by lia. lia.
  - destruct (Z.eq_dec (a + Z.of_nat n) 2600) as [E | E]; [lia |].
    assert (Hn : a + Z.of_nat n <= 2599) by lia.
    specialize (IH ltac:(lia) ltac:(lia)).
    destruct (table_row (a + Z.of_nat n) ltac:(lia)) as (_ & _ & Hstep).
    pose proof (year_days_pos (a + Z.of_nat n)).
    replace (a + Z.of_nat (S n)) with (a + Z.of_nat n + 1) by lia. lia.
Qed.

Lemma days_before_year_1600 : Time.gregorian_days_before_year 1600 = 0.
Proof. reflexivity. Qed.

Lemma days_before_year_bounds (year : Z) :
  1600 <= year <= 2600 ->
  365 * (year - 1600) <= Time.gregorian_days_before_year year <= 366 * (year - 1600).
Proof.
  intros Hy. unfold Time.gregorian_days_before_year.
  Z.div_mod_to_equations. lia.
Qed.

(** The index [upper_bound] returns, from what the comparison says. *)
Lemma upper_bound_index (comp : Z -> Z -> bool) (range : list Z) (value : Z) (k : nat) :
  (k <= List.length range)%nat ->
  (forall i, (i < k)%nat -> comp value (nth i range 0) = false) ->
  ((k < List.length range)%nat -> comp value (nth k range 0) = true) ->
  Time.upper_bound comp range value = Z.of_nat k.
Proof.
  revert k. induction range as [| e rest IH]; intros k Hk Hbelow Hat.
  - cbn in Hk. replace k with 0%nat by lia. reflexivity.
  - cbn [Time.upper_bound]. destruct k as [| k].
    + pose proof (Hat ltac:(cbn; lia)) as H0. cbn [nth] in H0. rewrite H0. reflexivity.
    + pose proof (Hbelow 0%nat ltac:(lia)) as H0. cbn [nth] in H0. rewrite H0.
      rewrite (IH k).
      * lia.
      * cbn in Hk. lia.
      * intros i Hi. apply (Hbelow (S i)). lia.
      * intros Hlt. apply Hat. cbn. lia.
Qed.

Lemma land_31_small (a : Z) : 0 <= a < 2 ^ 31 -> Z.land a 0x7FFFFFFF = a.
Proof.
  intros Ha. change 0x7FFFFFFF with (Z.ones 31).
  rewrite Z.land_ones by lia. apply Z.mod_small. exact Ha.
Qed.

Lemma year_entry_nth (k : nat) :
  nth k Time.dastd_time_days 0 = Time.year_entry (1600 + Z.of_nat k).
Proof.
  unfold Time.year_entry, Time.dastd_time_YEAR_ZERO.
  replace (Z.to_nat (1600 + Z.of_nat k - 1600)) with k by lia. reflexivity.
Qed.

Lemma length_days : List.length Time.dastd_time_days = 1000%nat.
Proof. reflexivity. Qed.

(** The year [decompose] finds for a day number. *)
Lemma upper_bound_years (year day_no : Z) :
  1600 <= year <= 2599 ->
  Time.gregorian_days_before_year year <= day_no
  < Time.gregorian_days_before_year year + Time.year_days year ->
  Time.upper_bound Time.less_without_leap_bit Time.dastd_time_days day_no
  = year - 1600 + 1.
Proof.
  intros Hy Hd.
  pose proof (days_before_year_bounds year ltac:(lia)) as Hb.
  pose proof (year_days_pos year) as Hyd.
  assert (Hday : Z.land day_no 0x7FFFFFFF = day_no)
    by (apply land_31_small; change (2 ^ 31) with 2147483648; lia).
  rewrite (upper_bound_index _ _ _ (Z.to_nat (year - 1600 + 1))).
  - lia.
  - rewrite length_days. lia.
  - intros i Hi. rewrite year_entry_nth. unfold Time.less_without_leap_bit.
    rewrite Hday. fold (Time.year_day_zero (1600 + Z.of_nat i)).
    destruct (table_row (1600 + Z.of_nat i) ltac:(lia)) as (-> & _ & _).
    pose proof (days_before_year_mono (1600 + Z.of_nat i) year ltac:(lia) ltac:(lia)
                  ltac:(lia)).
    apply Z.ltb_ge. lia.
  - rewrite length_days. intros Hlt. rewrite year_entry_nth.
    unfold Time.less_without_leap_bit.
    rewrite Hday. fold (Time.year_day_zero (1600 + Z.of_nat (Z.to_nat (year - 1600 + 1)))).
    replace (1600 + Z.of_nat (Z.to_nat (year - 1600 + 1))) with (year + 1) by lia.
    destruct (table_row (year + 1) ltac:(lia)) as (-> & _ & _).
    destruct (table_row year ltac:(lia)) as (_ & _ & ->).
    apply Z.ltb_lt. lia.
Qed.

End TimeFacts.

Module TimeFacts2.
Import BitFacts TimeFacts.

Lemma month_cases (m : Z) :
  1 <= m <= 12 ->
  m = 1 \/ m = 2 \/ m = 3 \/ m = 4 \/ m = 5 \/ m = 6 \/ m = 7 \/ m = 8 \/ m = 9 \/ m = 10
  \/ m = 11 \/ m = 12.
Proof. lia. Qed.

Ltac each_month H :=
  destruct (month_cases _ H) as [-> | [-> | [-> | [-> | [-> | [-> | [-> | [-> | [-> | [-> |
    [-> | ->]]]]]]]]]]].

Ltac decide_comparisons :=
  repeat match goal with
         | |- context [?a <? ?b] =>
             first [ replace (a <? b) with true by (symmetry; apply Z.ltb_lt; lia)
                   | replace (a <? b) with false by (symmetry; apply Z.ltb_ge; lia) ]
         | |- context [?a >? ?b] =>
             first [ replace (a >? b) with true by (symmetry; apply Z.gtb_lt; lia)
                   | replace (a >? b) with false
                       by (symmetry; rewrite Z.gtb_ltb; apply Z.ltb_ge; lia) ]
         | |- context [?a <=? ?b] =>
             first [ replace (a <=? b) with true by (symmetry; apply Z.leb_le; lia)
                   | replace (a <=? b) with false by (symmetry; apply Z.leb_gt; lia) ]
         | |- context [?a >=? ?b] =>
             first [ replace (a >=? b) with true
                       by (symmetry; rewrite Z.geb_leb; apply Z.leb_le; lia)
                   | replace (a >=? b) with false
                       by (symmetry; rewrite Z.geb_leb; apply Z.leb_gt; lia) ]
         | |- context [?a =? ?b] =>
             first [ replace (a =? b) with true by (symmetry; apply Z.eqb_eq; lia)
                   | replace (a =? b) with false by (symmetry; apply Z.eqb_neq; lia) ]
         end.

(** The day [compose] refuses for a month: one past its Gregorian length. *)
Lemma compose_day_test (year month day : Z) :
  1 <= month <= 12 -> 1 <= day ->
  (day >? nth (Z.to_nat (month - 1)) Time.time_mon_days 0)
  && (negb (month =? 2) || negb (day =? 29) || negb (Time.gregorian_leap year))
  = (day >? Time.gregorian_month_days year month).
Proof.
  intros Hm Hd. unfold Time.gregorian_month_days.
  each_month Hm;
    match goal with
    | |- context [nth ?n Time.time_mon_days 0] =>
        let v := eval vm_compute in (nth n Time.time_mon_days 0) in
        change (nth n Time.time_mon_days 0) with v
    end;
    cbn [Z.eqb Pos.eqb orb negb];
    try (rewrite andb_true_r; reflexivity).
  (* February *)
  destruct (Time.gregorian_leap year); cbn [negb orb].
  - destruct (Z.eq_dec day 29) as [-> | Hne]; [reflexivity |].
    replace (day =? 29) with false by (symmetry; apply Z.eqb_neq; lia).
    cbn [negb]. rewrite andb_true_r.
    destruct (Z_le_gt_dec day 28); decide_comparisons; reflexivity.
  - rewrite orb_true_r, andb_true_r. reflexivity.
Qed.

(** The month [decompose] finds for a day of the year. *)
Lemma month_lookup (year month day : Z) :
  1 <= month <= 12 -> 1 <= day <= Time.gregorian_month_days year month ->
  let months := if Time.gregorian_leap year then Time.time_mon_leap else Time.time_mon in
  Time.upper_bound Z.ltb months (Time.day_in_year_of year month day) = month
  /\ nth (Z.to_nat (month - 1)) months 0 = Time.day_in_year_of year month day - (day - 1)
  /\ 0 <= Time.day_in_year_of year month day < Time.year_days year.
Proof.
  intros Hm Hd. unfold Time.day_in_year_of, Time.year_days.
  unfold Time.gregorian_month_days in Hd.
  destruct (Time.gregorian_leap year); cbv zeta;
    each_month Hm; cbn [Z.eqb Pos.eqb orb] in Hd;
    repeat match goal with
           | |- context [nth (Z.to_nat ?k) ?l 0] =>
               let v := eval vm_compute in (nth (Z.to_nat k) l 0) in
               change (nth (Z.to_nat k) l 0) with v
           end;
    (split; [| split; [| lia]]); try lia;
    unfold Time.time_mon, Time.time_mon_leap; cbn [Time.upper_bound];
    decide_comparisons; reflexivity.
Qed.

Lemma cast_signed_8_tz (tz : Z) : -128 <= tz < 128 -> cast_signed 8 tz = tz.
Proof.
  intros H. unfold cast_signed. change (2 ^ (8 - 1)) with 128. change (2 ^ 8) with 256.
  rewrite Z.mod_small by lia. lia.
Qed.

Lemma day_in_year_bounds (d : Time.decomposed_time) :
  Time.gregorian_valid d ->
  0 <= Time.day_in_year_of (Time.m_year d) (Time.m_month d) (Time.m_day d)
  < Time.year_days (Time.m_year d).
Proof.
  intros (Hy & Hm & Hd & _).
  apply (month_lookup _ _ _ Hm Hd).
Qed.

Lemma wall_microsecs_bounds (d : Time.decomposed_time) :
  Time.gregorian_valid d ->
  366 * 86400000000 <= Time.wall_microsecs d < (0x5914E + 365) * 86400000000.
Proof.
  intros Hv. pose proof (day_in_year_bounds d Hv) as Hdiy.
  destruct Hv as (Hy & Hm & Hd & Hh & Hmi & Hs & Hus & Htz).
  pose proof (days_before_year_mono 1601 (Time.m_year d) ltac:(lia) ltac:(lia) ltac:(lia)) as H1.
  change (Time.gregorian_days_before_year 1601) with 366 in H1.
  pose proof (days_before_year_mono (Time.m_year d + 1) 2600 ltac:(lia) ltac:(lia)
                ltac:(lia)) as H2.
  change (Time.gregorian_days_before_year 2600) with (0x5914E + 365) in H2.
  destruct (table_row (Time.m_year d) ltac:(lia)) as (_ & _ & Hstep).
  unfold Time.wall_microsecs.
  set (days := Time.gregorian_days_before_year (Time.m_year d)
               + Time.day_in_year_of (Time.m_year d) (Time.m_month d) (Time.m_day d)) in *.
  assert (Hdays : 366 <= days < 0x5914E + 365) by (unfold days; lia).
  clearbody days. clear - Hdays Hh Hmi Hs Hus. nia.
Qed.

(** What [compose] makes of a date that exists. *)
Lemma compose_value (d : Time.decomposed_time) :
  Time.gregorian_valid d ->
  Time.compose d
  = (true, {| Time.m_date_time := 256 * Time.wall_microsecs d + Time.m_tz d mod 256 |}).
Proof.
  intros Hv. pose proof (wall_microsecs_bounds d Hv) as Hw.
  pose proof (day_in_year_bounds d Hv) as Hdiy.
  destruct Hv as (Hy & Hm & Hd & Hh & Hmi & Hs & Hus & Htz).
  assert (Hdim : Time.gregorian_month_days (Time.m_year d) (Time.m_month d) <= 31).
  { unfold Time.gregorian_month_days.
    repeat match goal with |- context [if ?b then _ else _] => destruct b end; lia. }
  unfold Time.compose.
  unfold Time.dastd_time_YEAR_ZERO at 1, Time.dastd_time_YEAR_LAST, Time.dastd_time_TZ_MIN,
    Time.dastd_time_TZ_MAX.
  replace (Time.m_year d <=? 1600) with false by (symmetry; apply Z.leb_gt; lia).
  replace (Time.m_year d >? 2599) with false
    by (symmetry; rewrite Z.gtb_ltb; apply Z.ltb_ge; lia).
  replace (Time.m_month d <? 1) with false by (symmetry; apply Z.ltb_ge; lia).
  replace (Time.m_month d >? 12) with false
    by (symmetry; rewrite Z.gtb_ltb; apply Z.ltb_ge; lia).
  replace (Time.m_day d <? 1) with false by (symmetry; apply Z.ltb_ge; lia).
  replace (Time.m_hours d >=? 24) with false
    by (symmetry; rewrite Z.geb_leb; apply Z.leb_gt; lia).
  replace (Time.m_mins d >=? 60) with false
    by (symmetry; rewrite Z.geb_leb; apply Z.leb_gt; lia).
  replace (Time.m_secs d >=? 60) with false
    by (symmetry; rewrite Z.geb_leb; apply Z.leb_gt; lia).
  replace (Time.m_microsecs d >=? 1000000) with false
    by (symmetry; rewrite Z.geb_leb; apply Z.leb_gt; lia).
  replace (Time.m_tz d <? -95) with false by (symmetry; apply Z.ltb_ge; lia).
  replace (Time.m_tz d >? 95) with false
    by (symmetry; rewrite Z.gtb_ltb; apply Z.ltb_ge; lia).
  cbn [orb]. cbv zeta.
  fold (Time.year_entry (Time.m_year d)).
  fold (Time.year_is_leap (Time.m_year d)). fold (Time.year_day_zero (Time.m_year d)).
  destruct (table_row (Time.m_year d) ltac:(lia)) as (-> & -> & _).
  rewrite compose_day_test by lia.
  replace (Time.m_day d >? Time.gregorian_month_days (Time.m_year d) (Time.m_month d))
    with false by (symmetry; rewrite Z.gtb_ltb; apply Z.ltb_ge; lia).
  f_equal. f_equal.
  rewrite cast_signed_8_tz by lia. change (2 ^ 8) with 256.
  unfold cast_u32. rewrite (Z.mod_small (Time.m_day d - 1)) by lia.
  match goal with
  | |- Z.lor (cast_u64 ?v) _ = _ =>
      replace v with (256 * Time.wall_microsecs d)
        by (unfold Time.wall_microsecs, Time.day_in_year_of, Time.dastd_time_DAY, Time.dastd_time_HOUR,
            Time.dastd_time_MIN, Time.dastd_time_SEC, Time.dastd_time_MICROSEC; ring)
  end.
  unfold cast_u64. rewrite Z.mod_small by lia.
  apply (lor_aligned_add _ _ 8); [lia | | apply Z.mod_pos_bound; lia].
  change (2 ^ 8) with 256. rewrite Z.mul_comm. apply Z.mod_mul. lia.
Qed.

End TimeFacts2.

Module TimeFacts3.
Import BitFacts TimeFacts TimeFacts2.

Lemma div_mod_known (a b q r : Z) :
  0 <= r < b -> a = b * q + r -> a / b = q /\ a mod b = r.
Proof.
  intros Hr E. split.
  - symmetry. apply (Z.div_unique a b q r); [left; exact Hr | exact E].
  - symmetry. apply (Z.mod_unique a b q r); [left; exact Hr | exact E].
Qed.

Ltac constants :=
  repeat match goal with
         | |- context [Time.dastd_time_MIN_PCTIME] =>
             let v := eval vm_compute in Time.dastd_time_MIN_PCTIME in
             change Time.dastd_time_MIN_PCTIME with v
         | |- context [Time.dastd_time_MAX_PCTIME] =>
             let v := eval vm_compute in Time.dastd_time_MAX_PCTIME in
             change Time.dastd_time_MAX_PCTIME with v
         | |- context [Time.dastd_time_DAY] =>
             let v := eval vm_compute in Time.dastd_time_DAY in
             change Time.dastd_time_DAY with v
         | |- context [Time.dastd_time_SEC] =>
             let v := eval vm_compute in Time.dastd_time_SEC in
             change Time.dastd_time_SEC with v
         | |- context [Time.dastd_time_MIN] =>
             let v := eval vm_compute in Time.dastd_time_MIN in
             change Time.dastd_time_MIN with v
         | |- context [Time.dastd_time_MICROSEC] =>
             change Time.dastd_time_MICROSEC with 256
         | |- context [Time.dastd_time_EPOCH_DAY] =>
             change Time.dastd_time_EPOCH_DAY with 135140
         end.

(** The days from January 1st, 1600 to a date. *)
Lemma wall_microsecs_days (d : Time.decomposed_time) :
  Time.wall_microsecs d
  = (Time.gregorian_days_before_year (Time.m_year d)
     + Time.day_in_year_of (Time.m_year d) (Time.m_month d) (Time.m_day d)) * 86400000000
    + ((Time.m_hours d * 60 + Time.m_mins d) * 60 + Time.m_secs d) * 1000000
    + Time.m_microsecs d.
Proof. unfold Time.wall_microsecs. ring. Qed.

Lemma gregorian_leap_2599 : Time.gregorian_leap 2599 = false.
Proof. reflexivity. Qed.

(** [is_valid] on what [compose] makes of a date that exists. *)
Lemma composed_is_valid (d : Time.decomposed_time) :
  Time.gregorian_valid d ->
  Time.is_valid {| Time.m_date_time := 256 * Time.wall_microsecs d + Time.m_tz d mod 256 |}
  = negb (Time.past_the_end d).
Proof.
  intros Hv. pose proof (wall_microsecs_bounds d Hv) as Hw.
  pose proof (day_in_year_bounds d Hv) as Hdiy.
  pose proof (Z.mod_pos_bound (Time.m_tz d) 256 ltac:(lia)) as Hb.
  destruct Hv as (Hy & Hm & Hd & Hh & Hmi & Hs & Hus & Htz).
  unfold Time.is_valid. cbn [Time.m_date_time]. constants.
  replace (256 * Time.wall_microsecs d + Time.m_tz d mod 256 <? 8095334400000000)
    with false by (symmetry; apply Z.ltb_ge; lia).
  destruct (Time.past_the_end d) eqn:E; cbn [negb].
  - unfold Time.past_the_end in E.
    repeat (apply andb_prop in E; destruct E as [E ?]).
    repeat match goal with
           | H : (_ =? _) = true |- _ => apply Z.eqb_eq in H
           | H : (_ <? _) = true |- _ => apply Z.ltb_lt in H
           end.
    rewrite wall_microsecs_days in *.
    assert (Ediy : Time.day_in_year_of (Time.m_year d) (Time.m_month d) (Time.m_day d) = 364).
    { unfold Time.day_in_year_of.
      replace (Time.m_year d) with 2599 by lia. replace (Time.m_month d) with 12 by lia.
      replace (Time.m_day d) with 31 by lia. reflexivity. }
    assert (Eyear : Time.gregorian_days_before_year (Time.m_year d) = 0x5914E).
    { replace (Time.m_year d) with 2599 by lia. reflexivity. }
    rewrite Ediy, Eyear.
    assert (Etz : Time.m_tz d mod 256 = Time.m_tz d + 256).
    { symmetry. apply (Z.mod_unique _ _ (-1)); [left |]; lia. }
    match goal with
    | |- (if ?a >? ?b then _ else _) = _ =>
        replace (a >? b) with true by (symmetry; apply Z.gtb_lt; lia)
    end.
    reflexivity.
  - destruct (Z_le_gt_dec (256 * Time.wall_microsecs d + Time.m_tz d mod 256)
                8078590771199999839) as [Hle | Hgt].
    { match goal with
      | |- (if ?a >? ?b then _ else _) = _ =>
          replace (a >? b) with false
            by (symmetry; rewrite Z.gtb_ltb; apply Z.ltb_ge; lia)
      end.
      reflexivity. }
    exfalso.
    rewrite wall_microsecs_days in *.
    set (days := Time.gregorian_days_before_year (Time.m_year d)
                 + Time.day_in_year_of (Time.m_year d) (Time.m_month d) (Time.m_day d)) in *.
    assert (Hdays : days <= 0x5914E + 364).
    { unfold days.
      pose proof (days_before_year_mono (Time.m_year d + 1) 2600 ltac:(lia) ltac:(lia)
                    ltac:(lia)) as H2.
      change (Time.gregorian_days_before_year 2600) with (0x5914E + 365) in H2.
      destruct (table_row (Time.m_year d) ltac:(lia)) as (_ & _ & Hstep). lia. }
    assert (Hall : days = 0x5914E + 364 /\ Time.m_hours d = 23 /\ Time.m_mins d = 59
                   /\ Time.m_secs d = 59 /\ Time.m_microsecs d = 999999
                   /\ Time.m_tz d mod 256 > 95) by lia.
    destruct Hall as (Edays & Eh & Emi & Es & Eus & Etz).
    assert (Eyear : Time.m_year d = 2599).
    { destruct (Z.eq_dec (Time.m_year d) 2599) as [E' | E']; [exact E' | exfalso].
      pose proof (days_before_year_mono (Time.m_year d + 1) 2599 ltac:(lia) ltac:(lia)
                    ltac:(lia)) as H2.
      change (Time.gregorian_days_before_year 2599) with 0x5914E in H2.
      destruct (table_row (Time.m_year d) ltac:(lia)) as (_ & _ & Hstep).
      unfold days in Edays. lia. }
    assert (Ediy : Time.day_in_year_of 2599 (Time.m_month d) (Time.m_day d) = 364).
    { unfold days in Edays. rewrite Eyear in Edays.
      change (Time.gregorian_days_before_year 2599) with 0x5914E in Edays. lia. }
    rewrite Eyear in Hd.
    assert (Emd : Time.m_month d = 12 /\ Time.m_day d = 31).
    { clear - Hm Hd Ediy. unfold Time.day_in_year_of in Ediy.
      unfold Time.gregorian_month_days in Hd.
      rewrite gregorian_leap_2599 in Ediy, Hd.
      revert Hd Ediy. generalize (Time.m_day d) as day. intros day.
      each_month Hm; cbn [Z.eqb Pos.eqb orb];
        repeat match goal with
               | |- context [nth (Z.to_nat ?k) ?l 0] =>
                   let v := eval vm_compute in (nth (Z.to_nat k) l 0) in
                   change (nth (Z.to_nat k) l 0) with v
               end; lia. }
    destruct Emd as [Emonth Eday].
    assert (Hneg : Time.m_tz d < 0).
    { destruct (Z_lt_ge_dec (Time.m_tz d) 0) as [Hlt | Hge]; [exact Hlt | exfalso].
      rewrite Z.mod_small in Etz by lia. lia. }
    unfold Time.past_the_end in E.
    rewrite Eyear, Emonth, Eday, Eh, Emi, Es, Eus in E. cbn [Z.eqb Pos.eqb andb] in E.
    apply Z.ltb_ge in E. lia.
Qed.

End TimeFacts3.

Module TimeFacts4.
Import BitFacts TimeFacts TimeFacts2 TimeFacts3.

Lemma u32_small (a : Z) : 0 <= a < 2 ^ 32 -> cast_u32 a = a.
Proof. intros H. unfold cast_u32. apply Z.mod_small. exact H. Qed.

Lemma u64_small (a : Z) : 0 <= a < 2 ^ 64 -> cast_u64 a = a.
Proof. intros H. unfold cast_u64. apply Z.mod_small. exact H. Qed.

(** The time of day read back from a composed value. *)
Lemma time_of_day (days hours mins secs us b : Z) :
  0 <= hours < 24 -> 0 <= mins < 60 -> 0 <= secs < 60 -> 0 <= us < 1000000 ->
  0 <= b < 256 ->
  let value := 256 * (days * 86400000000 + ((hours * 60 + mins) * 60 + secs) * 1000000 + us)
               + b in
  value / 22118400000000 = days
  /\ (value / 256) mod 1000000 = us
  /\ (value / 256 / 1000000) mod 60 = secs
  /\ (value / 256 / 1000000 / 60) mod 60 = mins
  /\ (value / 256 / 1000000 / 60 / 60) mod 24 = hours
  /\ value mod 256 = b.
Proof.
  intros Hh Hm Hs Hu Hb value.
  destruct (div_mod_known value 22118400000000 days
              (256 * (((hours * 60 + mins) * 60 + secs) * 1000000 + us) + b))
    as [E1 _]; [lia | unfold value; lia |].
  destruct (div_mod_known value 256
              (days * 86400000000 + ((hours * 60 + mins) * 60 + secs) * 1000000 + us) b)
    as [E2 E2']; [lia | unfold value; lia |].
  rewrite E1, E2, E2'.
  destruct (div_mod_known
              (days * 86400000000 + ((hours * 60 + mins) * 60 + secs) * 1000000 + us)
              1000000 (days * 86400 + (hours * 60 + mins) * 60 + secs) us)
    as [E3 E3']; [lia | lia |].
  rewrite E3, E3'.
  destruct (div_mod_known (days * 86400 + (hours * 60 + mins) * 60 + secs) 60
              (days * 1440 + hours * 60 + mins) secs) as [E4 E4']; [lia | lia |].
  rewrite E4, E4'.
  destruct (div_mod_known (days * 1440 + hours * 60 + mins) 60 (days * 24 + hours) mins)
    as [E5 E5']; [lia | lia |].
  rewrite E5, E5'.
  destruct (div_mod_known (days * 24 + hours) 24 days hours) as [_ E6']; [lia | lia |].
  rewrite E6'. repeat split; reflexivity.
Qed.

(** What [decompose] reads from a composed value that [is_valid] accepts. *)
Lemma decompose_value (d : Time.decomposed_time) (b : Z) :
  Time.gregorian_valid d -> 0 <= b < 256 ->
  Time.is_valid {| Time.m_date_time := 256 * Time.wall_microsecs d + b |} = true ->
  Time.decompose {| Time.m_date_time := 256 * Time.wall_microsecs d + b |}
  = Done {| Time.m_year := Time.m_year d;
            Time.m_month := Time.m_month d;
            Time.m_day := Time.m_day d;
            Time.m_hours := Time.m_hours d;
            Time.m_mins := Time.m_mins d;
            Time.m_secs := Time.m_secs d;
            Time.m_microsecs := Time.m_microsecs d;
            Time.m_tz := cast_signed 8 b;
            Time.m_day_of_year :=
              Time.day_in_year_of (Time.m_year d) (Time.m_month d) (Time.m_day d);
            Time.m_day_of_week :=
              (Time.gregorian_days_before_year (Time.m_year d)
               + Time.day_in_year_of (Time.m_year d) (Time.m_month d) (Time.m_day d) + 6)
              mod 7 |}.
Proof.
  intros Hv Hb Hvalid.
  pose proof (day_in_year_bounds d Hv) as Hdiy.
  pose proof Hv as (Hy & Hm & Hd & Hh & Hmi & Hs & Hus & Htz).
  destruct (month_lookup _ _ _ Hm Hd) as (Hub & Hnth & _). cbv zeta in Hub, Hnth.
  destruct (table_row (Time.m_year d) ltac:(lia)) as (Hzero & Hleap & Hstep).
  pose proof (days_before_year_bounds (Time.m_year d) ltac:(lia)) as Hdb.
  pose proof (year_days_pos (Time.m_year d)) as Hyd.
  assert (Hdim : Time.gregorian_month_days (Time.m_year d) (Time.m_month d) <= 31).
  { unfold Time.gregorian_month_days.
    repeat match goal with |- context [if ?c then _ else _] => destruct c end; lia. }
  unfold Time.decompose. rewrite Hvalid. cbn [negb Time.m_date_time]. cbv zeta.
  rewrite wall_microsecs_days.
  set (diy := Time.day_in_year_of (Time.m_year d) (Time.m_month d) (Time.m_day d)) in *.
  set (dby := Time.gregorian_days_before_year (Time.m_year d)) in *.
  destruct (time_of_day (dby + diy) (Time.m_hours d) (Time.m_mins d) (Time.m_secs d)
              (Time.m_microsecs d) b Hh Hmi Hs Hus Hb)
    as (E1 & Eus & Es & Emi & Eh & Eb).
  constants. rewrite E1, Eus, Es, Emi, Eh.
  rewrite (u32_small (dby + diy)) by (change (2 ^ 32) with 4294967296; lia).
  rewrite (upper_bound_years (Time.m_year d) (dby + diy)) by (fold dby; lia).
  replace (Time.m_year d - 1600 + 1 - 1) with (Time.m_year d - 1600) by lia.
  rewrite (u64_small (Time.m_year d - 1600)) by (change (2 ^ 64) with 18446744073709551616; lia).
  unfold Time.dastd_time_NO_YEARS, Time.dastd_time_YEAR_LAST.
  change (nth (Z.to_nat (Time.m_year d - 1600)) Time.dastd_time_days 0)
    with (Time.year_entry (Time.m_year d)).
  fold (Time.year_day_zero (Time.m_year d)). fold (Time.year_is_leap (Time.m_year d)).
  rewrite Hzero, Hleap. fold dby. fold (Time.year_days (Time.m_year d)).
  replace (dby + diy - dby) with diy by lia.
  rewrite (u32_small diy) by (change (2 ^ 32) with 4294967296; lia).
  rewrite (u32_small (dby + Time.year_days (Time.m_year d)))
    by (change (2 ^ 32) with 4294967296; lia).
  replace (Time.m_year d - 1600 <? 2599 + 1 - Time.dastd_time_YEAR_ZERO) with true
    by (symmetry; apply Z.ltb_lt; unfold Time.dastd_time_YEAR_ZERO; lia).
  replace (dby <=? dby + diy) with true by (symmetry; apply Z.leb_le; lia).
  replace (dby + Time.year_days (Time.m_year d) >? dby + diy) with true
    by (symmetry; apply Z.gtb_lt; lia).
  replace (diy <? Time.year_days (Time.m_year d)) with true
    by (symmetry; apply Z.ltb_lt; lia).
  cbn [negb]. rewrite Hub.
  rewrite (u64_small (Time.m_month d - 1)) by (change (2 ^ 64) with 18446744073709551616; lia).
  replace (Time.m_month d - 1 <? 12) with true by (symmetry; apply Z.ltb_lt; lia).
  cbn [negb]. rewrite Hnth.
  unfold Time.dastd_time_TZ, Time.dastd_time_YEAR_ZERO, Time.dastd_time_DAY_OF_WEEK_0.
  change 0xFF with (Z.ones 8). rewrite Z.land_ones by lia. change (2 ^ 8) with 256.
  rewrite Eb.
  f_equal. f_equal; try (rewrite u32_small; change (2 ^ 32) with 4294967296; lia).
Qed.

End TimeFacts4.

Module TimeFacts5.
Import BitFacts TimeFacts TimeFacts2 TimeFacts3 TimeFacts4.

(** [m_date_time & ~0xFF] drops the timezone byte. *)
Lemma without_tz_value (w b : Z) :
  0 <= w < 2 ^ 56 -> 0 <= b < 256 -> Time.without_tz (256 * w + b) = 256 * w.
Proof.
  intros Hw Hb. unfold Time.without_tz.
  change (2 ^ 64 - 256) with (Z.shiftl (Z.ones 56) 8).
  replace (256 * w + b) with (Z.lor (Z.shiftl w 8) b).
  2: { rewrite Z.shiftl_mul_pow2 by lia. change (2 ^ 8) with 256.
       rewrite (lor_aligned_add _ _ 8); [lia | lia | | exact Hb].
       change (2 ^ 8) with 256. apply Z.mod_mul. lia. }
  replace (256 * w) with (Z.shiftl w 8)
    by (rewrite Z.shiftl_mul_pow2 by lia; change (2 ^ 8) with 256; lia).
  rewrite Z.land_lor_distr_l, <- Z.shiftl_land.
  rewrite Z.land_ones by lia. rewrite (Z.mod_small w) by lia.
  replace (Z.land b (Z.shiftl (Z.ones 56) 8)) with 0; [apply Z.lor_0_r |].
  symmetry. apply Z.bits_inj'. intros n Hn. rewrite Z.land_spec, Z.bits_0.
  destruct (Z_lt_ge_dec n 8) as [Hlt | Hge].
  - rewrite Z.shiftl_spec_low by lia. apply andb_false_r.
  - replace (Z.testbit b n) with false; [reflexivity |].
    symmetry. rewrite <- (Z.mod_small b (2 ^ 8)) by (change (2 ^ 8) with 256; lia).
    apply Z.mod_pow2_bits_high. lia.
Qed.

(** The tables of month offsets hold the Gregorian sums. *)
Lemma day_in_year_gregorian (year month day : Z) :
  1 <= month <= 12 ->
  Time.day_in_year_of year month day
  = Time.gregorian_days_before_month year month + (day - 1).
Proof.
  intros Hm. unfold Time.day_in_year_of, Time.gregorian_days_before_month.
  f_equal.
  each_month Hm;
    match goal with
    | |- context [Z.to_nat ?k] =>
        let v := eval vm_compute in (Z.to_nat k) in change (Z.to_nat k) with v
    end;
    cbn [Time.gregorian_days_before_month_loop]; unfold Time.gregorian_month_days;
    destruct (Time.gregorian_leap year); reflexivity.
Qed.

Lemma tz_byte (tz : Z) : -128 <= tz < 128 -> cast_signed 8 (tz mod 256) = tz.
Proof.
  intros H. unfold cast_signed. change (2 ^ (8 - 1)) with 128. change (2 ^ 8) with 256.
  Z.div_mod_to_equations. lia.
Qed.

(** [get_epoch64] on a value from 1970 on. *)
Lemma get_epoch64_value (w b : Z) :
  135140 * 86400000000 <= w < 2 ^ 55 -> 0 <= b < 256 ->
  Time.is_valid {| Time.m_date_time := 256 * w + b |} = true ->
  Time.get_epoch64 {| Time.m_date_time := 256 * w + b |} = w / 1000000 - 11676096000.
Proof.
  intros Hw Hb Hvalid. change (2 ^ 55) with 36028797018963968 in Hw.
  unfold Time.get_epoch64. rewrite Hvalid. cbn [negb Time.m_date_time].
  rewrite without_tz_value by (change (2 ^ 56) with 72057594037927936; lia).
  constants.
  rewrite u64_small by (change (2 ^ 64) with 18446744073709551616; lia).
  replace (256 * w - 135140 * 22118400000000)
    with ((w + (- 11676096000) * 1000000) * 256) by lia.
  change 256000000 with (1000000 * 256).
  rewrite Z.div_mul_cancel_r by lia.
  rewrite Z.div_add by lia.
  pose proof (Z.div_pos w 1000000 ltac:(lia) ltac:(lia)).
  assert (w / 1000000 <= w) by (apply Z.div_le_upper_bound; lia).
  assert (11676096000 <= w / 1000000) by (apply Z.div_le_lower_bound; lia).
  unfold cast_signed.
  change (2 ^ (64 - 1)) with 9223372036854775808.
  change (2 ^ 64) with 18446744073709551616.
  rewrite Z.mod_small by lia. lia.
Qed.

(** [dastd_time_TZ_usec]: a step of the timezone is a quarter of an hour. *)
Lemma dastd_time_TZ_usec_value (tz : Z) :
  -128 <= tz < 128 -> Time.dastd_time_TZ_usec tz = 256 * (900000000 * tz).
Proof.
  intros H. unfold Time.dastd_time_TZ_usec, cast_u64. constants.
  rewrite Z.mul_mod_idemp_r by lia.
  unfold cast_signed.
  change (2 ^ (64 - 1)) with 9223372036854775808.
  change (2 ^ 64) with 18446744073709551616.
  rewrite Zplus_mod_idemp_l.
  rewrite Z.mod_small by lia. lia.
Qed.

End TimeFacts5.

Section TimeProperties.
Import BitFacts TimeFacts TimeFacts2 TimeFacts3 TimeFacts4 TimeFacts5.

(** [compose] followed by [decompose] gives back every date and time of day
    that exists, from 1601 to 2599, with its microseconds and timezone; one
    composed value apart: the last microsecond of 2599 in a timezone west of
    Greenwich, which [compose] accepts and [is_valid] refuses, so that
    [decompose] returns the cleared date. *)
Theorem compose_decompose_roundtrip (d : Time.decomposed_time) :
  Time.gregorian_valid d ->
  exists t d',
    Time.compose d = (true, t)
    /\ Time.is_valid t = negb (Time.past_the_end d)
    /\ Time.decompose t = Done d'
    /\ (Time.past_the_end d = false -> Time.same_date_time d' d)
    /\ (Time.past_the_end d = true -> d' = Time.decomposed_clear).
Proof.
  intros Hv.
  pose proof (composed_is_valid d Hv) as Hvalid.
  pose proof Hv as (Hy & Hm & Hd & Hh & Hmi & Hs & Hus & Htz).
  pose proof (Z.mod_pos_bound (Time.m_tz d) 256 ltac:(lia)) as Hb.
  destruct (Time.past_the_end d) eqn:E; cbn [negb] in Hvalid.
  - do 2 eexists. split; [apply compose_value; exact Hv |].
    split; [exact Hvalid |]. split.
    + unfold Time.decompose. rewrite Hvalid. reflexivity.
    + split; [discriminate | reflexivity].
  - do 2 eexists. split; [apply compose_value; exact Hv |].
    split; [exact Hvalid |]. split.
    + apply (decompose_value d _ Hv Hb Hvalid).
    + split; [| discriminate]. intros _.
      unfold Time.same_date_time. cbn.
      repeat split. apply tz_byte. lia.
Qed.

(** [compose] returns true exactly on the dates of the Gregorian calendar from
    1601 to 2599 with a time of day and a timezone in range: February 29th is
    accepted in the leap years of the calendar and in no other year, and the
    year 1600, which the table holds, is refused. *)
Theorem compose_accepts_gregorian (d : Time.decomposed_time) :
  0 <= Time.m_hours d -> 0 <= Time.m_mins d -> 0 <= Time.m_secs d ->
  0 <= Time.m_microsecs d ->
  fst (Time.compose d) = true <-> Time.gregorian_valid d.
Proof.
  intros Hh0 Hmi0 Hs0 Hus0. split.
  - unfold Time.compose. intros H.
    destruct (_ || _) eqn:E in H; [discriminate |].
    repeat (apply orb_false_elim in E; destruct E as [E ?]).
    repeat match goal with
           | H : (_ <=? _) = false |- _ => apply Z.leb_gt in H
           | H : (_ <? _) = false |- _ => apply Z.ltb_ge in H
           | H : (_ >? _) = false |- _ => rewrite Z.gtb_ltb in H; apply Z.ltb_ge in H
           | H : (_ >=? _) = false |- _ => rewrite Z.geb_leb in H; apply Z.leb_gt in H
           end.
    unfold Time.dastd_time_YEAR_ZERO, Time.dastd_time_YEAR_LAST, Time.dastd_time_TZ_MIN,
      Time.dastd_time_TZ_MAX in *.
    cbv zeta in H.
    change (nth (Z.to_nat (Time.m_year d - 1600)) Time.dastd_time_days 0)
      with (Time.year_entry (Time.m_year d)) in H.
    fold (Time.year_is_leap (Time.m_year d)) in H.
    destruct (table_row (Time.m_year d) ltac:(lia)) as (_ & Hleap & _).
    rewrite Hleap in H. rewrite compose_day_test in H by lia.
    destruct (Time.m_day d >? _) eqn:Eday in H; [discriminate |].
    rewrite Z.gtb_ltb in Eday. apply Z.ltb_ge in Eday.
    unfold Time.gregorian_valid. lia.
  - intros Hv. rewrite (compose_value d Hv). reflexivity.
Qed.

(** [get_epoch64] of a composed date from 1970 on is the POSIX count of the
    seconds of its wall-clock time, the timezone being ignored.  For a date
    before 1970 the subtraction of the epoch wraps around on [uint64_t]: the
    result is not the negative count but that count plus 72057594037, or one
    more from the microsecond 72064 on. *)
Theorem get_epoch64_of_composed (d : Time.decomposed_time) :
  Time.gregorian_valid d -> Time.past_the_end d = false ->
  let posix :=
    86400 * Time.gregorian_days_from_1970 (Time.m_year d) (Time.m_month d) (Time.m_day d)
    + 3600 * Time.m_hours d + 60 * Time.m_mins d + Time.m_secs d in
  Time.get_epoch64 (snd (Time.compose d))
  = if 1970 <=? Time.m_year d then posix
    else posix + 72057594037 + (if 72064 <=? Time.m_microsecs d then 1 else 0).
Proof.
  intros Hv Hend posix.
  pose proof (composed_is_valid d Hv) as Hvalid. rewrite Hend in Hvalid. cbn [negb] in Hvalid.
  pose proof (wall_microsecs_bounds d Hv) as Hw.
  pose proof (day_in_year_bounds d Hv) as Hdiy.
  pose proof Hv as (Hy & Hm & Hd & Hh & Hmi & Hs & Hus & Htz).
  pose proof (Z.mod_pos_bound (Time.m_tz d) 256 ltac:(lia)) as Hb.
  destruct (table_row (Time.m_year d) ltac:(lia)) as (_ & _ & Hstep).
  pose proof (year_days_pos (Time.m_year d)) as Hyd.
  rewrite (compose_value d Hv). cbn [snd].
  unfold Time.get_epoch64. rewrite Hvalid. cbn [negb Time.m_date_time].
  rewrite without_tz_value by (change (2 ^ 56) with 72057594037927936; lia).
  constants.
  unfold posix, Time.gregorian_days_from_1970.
  replace (Time.gregorian_days_before_year (Time.m_year d)
           - Time.gregorian_days_before_year 1970
           + Time.gregorian_days_before_month (Time.m_year d) (Time.m_month d)
           + (Time.m_day d - 1))
    with (Time.gregorian_days_before_year (Time.m_year d) - 135140
          + Time.day_in_year_of (Time.m_year d) (Time.m_month d) (Time.m_day d))
    by (rewrite day_in_year_gregorian by exact Hm;
        change (Time.gregorian_days_before_year 1970) with 135140; lia).
  rewrite wall_microsecs_days in *.
  set (diy := Time.day_in_year_of (Time.m_year d) (Time.m_month d) (Time.m_day d)) in *.
  set (dby := Time.gregorian_days_before_year (Time.m_year d)) in *.
  destruct (1970 <=? Time.m_year d) eqn:E.
  - apply Z.leb_le in E.
    pose proof (days_before_year_mono 1970 (Time.m_year d) ltac:(lia) E ltac:(lia)) as Hmono.
    change (Time.gregorian_days_before_year 1970) with 135140 in Hmono. fold dby in Hmono.
    rewrite u64_small by (change (2 ^ 64) with 18446744073709551616; lia).
    destruct (div_mod_known
                (256 * ((dby + diy) * 86400000000
                        + ((Time.m_hours d * 60 + Time.m_mins d) * 60 + Time.m_secs d)
                          * 1000000 + Time.m_microsecs d) - 135140 * 22118400000000)
                256000000
                (86400 * (dby - 135140 + diy) + 3600 * Time.m_hours d + 60 * Time.m_mins d
                 + Time.m_secs d)
                (256 * Time.m_microsecs d)) as [Ediv _]; [lia | lia |].
    rewrite Ediv. unfold cast_signed.
    change (2 ^ (64 - 1)) with 9223372036854775808.
    change (2 ^ 64) with 18446744073709551616.
    rewrite Z.mod_small by lia. lia.
  - apply Z.leb_gt in E.
    pose proof (days_before_year_mono (Time.m_year d + 1) 1970 ltac:(lia) ltac:(lia)
                  ltac:(lia)) as Hmono.
    change (Time.gregorian_days_before_year 1970) with 135140 in Hmono.
    rewrite Hstep in Hmono. fold dby in Hmono.
    set (value := 256 * ((dby + diy) * 86400000000
                         + ((Time.m_hours d * 60 + Time.m_mins d) * 60 + Time.m_secs d)
                           * 1000000 + Time.m_microsecs d) - 135140 * 22118400000000).
    assert (Ewrap : cast_u64 value = value + 18446744073709551616).
    { unfold cast_u64. change (2 ^ 64) with 18446744073709551616.
      symmetry. apply (Z.mod_unique _ _ (-1)); [left; unfold value; lia | lia]. }
    rewrite Ewrap.
    set (count := 86400 * (dby - 135140 + diy) + 3600 * Time.m_hours d
                  + 60 * Time.m_mins d + Time.m_secs d).
    destruct (72064 <=? Time.m_microsecs d) eqn:Eus.
    + apply Z.leb_le in Eus.
      destruct (div_mod_known (value + 18446744073709551616) 256000000
                  (count + 72057594037 + 1)
                  (256 * Time.m_microsecs d - 18448384)) as [Ediv _];
        [lia | unfold value, count; lia |].
      rewrite Ediv. unfold cast_signed.
      change (2 ^ (64 - 1)) with 9223372036854775808.
      change (2 ^ 64) with 18446744073709551616.
      rewrite Z.mod_small by (unfold count; lia). lia.
    + apply Z.leb_gt in Eus.
      destruct (div_mod_known (value + 18446744073709551616) 256000000
                  (count + 72057594037)
                  (256 * Time.m_microsecs d + 237551616)) as [Ediv _];
        [lia | unfold value, count; lia |].
      rewrite Ediv. unfold cast_signed.
      change (2 ^ (64 - 1)) with 9223372036854775808.
      change (2 ^ 64) with 18446744073709551616.
      rewrite Z.mod_small by (unfold count; lia). lia.
Qed.

(** [set_timezone] keeps the instant: a composed date from 1971 to 2598 moved
    to another timezone has that timezone, and its wall-clock time has moved
    by a quarter of an hour for each step between the two zones, so that the
    count of seconds less 900 for each step of the zone is unchanged. *)
Theorem set_timezone_keeps_instant (d : Time.decomposed_time) (tz : Z) :
  Time.gregorian_valid d -> 1971 <= Time.m_year d <= 2598 -> -95 <= tz <= 95 ->
  let t := snd (Time.compose d) in
  Time.is_valid (Time.set_timezone tz t) = true
  /\ Time.get_timezone (Time.set_timezone tz t) = tz
  /\ Time.get_epoch64 (Time.set_timezone tz t) - 900 * tz
     = Time.get_epoch64 t - 900 * Time.m_tz d.
Proof.
  intros Hv Hyear Htz' t.
  pose proof (composed_is_valid d Hv) as Hvalid.
  pose proof (day_in_year_bounds d Hv) as Hdiy.
  pose proof Hv as (Hy & Hm & Hd & Hh & Hmi & Hs & Hus & Htz).
  pose proof (Z.mod_pos_bound (Time.m_tz d) 256 ltac:(lia)) as Hb.
  pose proof (Z.mod_pos_bound tz 256 ltac:(lia)) as Hb'.
  assert (Hend : Time.past_the_end d = false).
  { unfold Time.past_the_end.
    replace (Time.m_year d =? 2599) with false by (symmetry; apply Z.eqb_neq; lia).
    reflexivity. }
  rewrite Hend in Hvalid. cbn [negb] in Hvalid.
  destruct (table_row (Time.m_year d) ltac:(lia)) as (_ & _ & Hstep).
  pose proof (year_days_pos (Time.m_year d)) as Hyd.
  pose proof (days_before_year_mono 1971 (Time.m_year d) ltac:(lia) ltac:(lia) ltac:(lia))
    as Hlow.
  change (Time.gregorian_days_before_year 1971) with 135505 in Hlow.
  pose proof (days_before_year_mono (Time.m_year d + 1) 2599 ltac:(lia) ltac:(lia)
                ltac:(lia)) as Hhigh.
  change (Time.gregorian_days_before_year 2599) with 364878 in Hhigh.
  unfold t. rewrite (compose_value d Hv). cbn [snd].
  set (w := Time.wall_microsecs d) in *.
  assert (Hw : 135505 * 86400000000 <= w < 364878 * 86400000000).
  { unfold w. rewrite wall_microsecs_days. lia. }
  set (w' := w + 900000000 * (tz - Time.m_tz d)).
  assert (Eset : Time.set_timezone tz {| Time.m_date_time := 256 * w + Time.m_tz d mod 256 |}
                 = {| Time.m_date_time := 256 * w' + tz mod 256 |}).
  { unfold Time.set_timezone. rewrite Hvalid. cbn [negb Time.m_date_time]. cbv zeta.
    rewrite without_tz_value by (change (2 ^ 56) with 72057594037927936; lia).
    unfold Time.dastd_time_TZ. change 0xFF with (Z.ones 8).
    rewrite Z.land_ones by lia. change (2 ^ 8) with 256.
    replace ((256 * w + Time.m_tz d mod 256) mod 256) with (Time.m_tz d mod 256)
      by (apply (Z.mod_unique _ _ w); [left; lia | lia]).
    rewrite tz_byte by lia.
    rewrite !dastd_time_TZ_usec_value by lia.
    rewrite (cast_signed_8_tz tz) by lia.
    replace (256 * w - 256 * (900000000 * Time.m_tz d) + 256 * (900000000 * tz))
      with (256 * w') by (unfold w'; lia).
    rewrite u64_small by (change (2 ^ 64) with 18446744073709551616; unfold w'; lia).
    f_equal. apply (lor_aligned_add _ _ 8); [lia | | exact Hb'].
    change (2 ^ 8) with 256. rewrite Z.mul_comm. apply Z.mod_mul. lia. }
  rewrite Eset.
  assert (Hvalid' : Time.is_valid {| Time.m_date_time := 256 * w' + tz mod 256 |} = true).
  { unfold Time.is_valid. cbn [Time.m_date_time]. constants.
    replace (256 * w' + tz mod 256 <? 8095334400000000) with false
      by (symmetry; apply Z.ltb_ge; unfold w'; lia).
    replace (256 * w' + tz mod 256 >? 8078590771199999839) with false
      by (symmetry; rewrite Z.gtb_ltb; apply Z.ltb_ge; unfold w'; lia).
    reflexivity. }
  split; [exact Hvalid' |]. split.
  - unfold Time.get_timezone. rewrite Hvalid'. cbn [negb Time.m_date_time].
    unfold Time.dastd_time_TZ. change 0xFF with (Z.ones 8).
    rewrite Z.land_ones by lia. change (2 ^ 8) with 256.
    replace ((256 * w' + tz mod 256) mod 256) with (tz mod 256)
      by (apply (Z.mod_unique _ _ w'); [left; lia | lia]).
    apply tz_byte. lia.
  - rewrite (get_epoch64_value w' _)
      by (try exact Hvalid'; try exact Hb';
          change (2 ^ 55) with 36028797018963968; unfold w'; lia).
    rewrite (get_epoch64_value w _)
      by (try exact Hvalid; try exact Hb; change (2 ^ 55) with 36028797018963968; lia).
    unfold w'.
    replace (w + 900000000 * (tz - Time.m_tz d))
      with (w + (900 * (tz - Time.m_tz d)) * 1000000) by lia.
    rewrite Z.div_add by lia. lia.
Qed.

End TimeProperties.

(** February 29th, 2024, one microsecond before midnight, an hour west of
    Greenwich. *)
Lemma compose_decompose_roundtrip_witness :
  exists t d',
    Time.compose {| Time.m_year := 2024; Time.m_month := 2; Time.m_day := 29;
                    Time.m_hours := 23; Time.m_mins := 59; Time.m_secs := 59;
                    Time.m_microsecs := 999999; Time.m_tz := -4;
                    Time.m_day_of_year := 0; Time.m_day_of_week := 0 |} = (true, t)
    /\ Time.decompose t = Done d'
    /\ Time.m_year d' = 2024 /\ Time.m_month d' = 2 /\ Time.m_day d' = 29
    /\ Time.m_microsecs d' = 999999 /\ Time.m_tz d' = -4.
Proof.
  destruct (compose_decompose_roundtrip
              {| Time.m_year := 2024; Time.m_month := 2; Time.m_day := 29;
                 Time.m_hours := 23; Time.m_mins := 59; Time.m_secs := 59;
                 Time.m_microsecs := 999999; Time.m_tz := -4;
                 Time.m_day_of_year := 0; Time.m_day_of_week := 0 |})
    as (t & d' & Hc & _ & Hd & Hsame & _).
  - repeat split; vm_compute; first [reflexivity | discriminate].
  - exists t, d'. split; [exact Hc |]. split; [exact Hd |].
    destruct (Hsame eq_refl) as (H1 & H2 & H3 & _ & _ & _ & H7 & H8).
    repeat split; assumption.
Defined.

(** February 29th of 1900, which was no leap year, and of 2000, which was. *)
Lemma compose_accepts_gregorian_witness :
  (fst (Time.compose (Time.decomposed_time_new 1900 2 29 0 0 0 0)) = true
   <-> Time.gregorian_valid (Time.decomposed_time_new 1900 2 29 0 0 0 0))
  /\ (fst (Time.compose (Time.decomposed_time_new 2000 2 29 0 0 0 0)) = true
      <-> Time.gregorian_valid (Time.decomposed_time_new 2000 2 29 0 0 0 0)).
Proof.
  split; apply compose_accepts_gregorian; cbn; lia.
Defined.

(** The last second of 1969 and the first of 1970. *)
Lemma get_epoch64_of_composed_witness :
  Time.get_epoch64 (snd (Time.compose (Time.decomposed_time_new 1969 12 31 23 59 59 0)))
  = 72057594036
  /\ Time.get_epoch64 (snd (Time.compose (Time.decomposed_time_new 1970 1 1 0 0 0 0))) = 0.
Proof.
  split.
  - refine (get_epoch64_of_composed (Time.decomposed_time_new 1969 12 31 23 59 59 0) _ _).
    + repeat split; vm_compute; first [reflexivity | discriminate].
    + reflexivity.
  - refine (get_epoch64_of_composed (Time.decomposed_time_new 1970 1 1 0 0 0 0) _ _).
    + repeat split; vm_compute; first [reflexivity | discriminate].
    + reflexivity.
Defined.

(** Half past eleven in the evening an hour west of Greenwich, moved two hours
    east of it. *)
Lemma set_timezone_keeps_instant_witness :
  Time.get_timezone
    (Time.set_timezone 8 (snd (Time.compose (Time.decomposed_time_new 2026 10 30 23 30 0 (-4)))))
  = 8.
Proof.
  refine (proj1 (proj2 (set_timezone_keeps_instant
                          (Time.decomposed_time_new 2026 10 30 23 30 0 (-4)) 8 _ _ _))).
  - repeat split; vm_compute; first [reflexivity | discriminate].
  - cbn. lia.
  - lia.
Defined.

(** ** bit_manip.hpp: bits and integers in a buffer *)

Module BitManipFacts.
Import BitManip.

Lemma land_pow2 (x k : Z) :
  0 <= k -> Z.land x (2 ^ k) = if Z.testbit x k then 2 ^ k else 0.
Proof.
  intros Hk. apply Z.bits_inj'. intros n Hn.
  rewrite Z.land_spec, Z.pow2_bits_eqb by assumption.
  destruct (Z.eqb_spec k n) as [-> | Hne].
  - destruct (Z.testbit x n); cbn [andb].
    + rewrite Z.pow2_bits_true by assumption. reflexivity.
    + rewrite Z.bits_0. reflexivity.
  - rewrite andb_false_r.
    destruct (Z.testbit x k).
    + rewrite Z.pow2_bits_false by assumption. reflexivity.
    + rewrite Z.bits_0. reflexivity.
Qed.

Lemma bit_in_octet_pow2 (pos : Z) :
  0 <= pos -> bit_in_octet pos = 2 ^ (7 - pos mod 8) /\ 0 <= 7 - pos mod 8 < 8.
Proof.
  intros Hp. unfold bit_in_octet. change 7 with (Z.ones 3) at 2.
  rewrite Z.land_ones by lia. change (2 ^ 3) with 8.
  pose proof (Z.mod_pos_bound pos 8 ltac:(lia)).
  rewrite Z.shiftl_1_l. split; [reflexivity | lia].
Qed.

Lemma nth_error_nth_byte (l : list byte) (i : nat) :
  (i < List.length l)%nat -> nth_error l i = Some (nth i l Byte.x00).
Proof. intros H. apply nth_error_nth'. exact H. Qed.

Lemma octet_index (len pos : Z) :
  0 <= pos < 8 * len -> (Z.to_nat (Z.shiftr pos 3) < Z.to_nat len)%nat
                        /\ Z.shiftr pos 3 = pos / 8.
Proof.
  intros H. rewrite Z.shiftr_div_pow2 by lia. change (2 ^ 3) with 8.
  split; [| reflexivity].
  assert (0 <= pos / 8 < len) by (split; [apply Z.div_pos | apply Z.div_lt_upper_bound]; lia).
  lia.
Qed.

(** What [get_bit_MSb0] reads inside the buffer. *)
Lemma get_bit_MSb0_spec (src : list byte) (pos : Z) :
  0 <= pos < 8 * Z.of_nat (List.length src) ->
  get_bit_MSb0 src pos = Done (bit_at src pos).
Proof.
  intros H. destruct (octet_index _ _ H) as [Hi Hs]. rewrite Nat2Z.id in Hi.
  unfold get_bit_MSb0, bit_at. rewrite (nth_error_nth_byte _ _ Hi), Hs.
  destruct (bit_in_octet_pow2 pos ltac:(lia)) as [-> Hk].
  rewrite land_pow2 by lia.
  destruct (Z.testbit _ _); [| reflexivity].
  replace (2 ^ (7 - pos mod 8) =? 0) with false; [reflexivity |].
  symmetry. apply Z.eqb_neq. pose proof (Z.pow_pos_nonneg 2 (7 - pos mod 8)). lia.
Qed.

Lemma length_store (l : list byte) (i : nat) (b : byte) :
  List.length (store l i b) = List.length l.
Proof.
  revert i. induction l as [| x l IH]; intros i; [destruct i; reflexivity |].
  destruct i; cbn; [reflexivity | rewrite IH; reflexivity].
Qed.

Lemma nth_store (l : list byte) (i j : nat) (b : byte) :
  (i < List.length l)%nat ->
  nth j (store l i b) Byte.x00 = if Nat.eqb i j then b else nth j l Byte.x00.
Proof.
  revert i j. induction l as [| x l IH]; intros i j Hi; [cbn in Hi; lia |].
  destruct i, j; cbn [store nth Nat.eqb]; try reflexivity.
  apply IH. cbn in Hi. lia.
Qed.

(** What [set_bit_MSb0] leaves: the bit written, every other bit as it was. *)
Lemma set_bit_MSb0_spec (dst : list byte) (pos : Z) (bitval : bool) :
  0 <= pos < 8 * Z.of_nat (List.length dst) ->
  exists dst',
    set_bit_MSb0 pos bitval dst = Done (tt, dst')
    /\ List.length dst' = List.length dst
    /\ forall q, 0 <= q ->
         bit_at dst' q = if q =? pos then bitval else bit_at dst q.
Proof.
  intros H. destruct (octet_index _ _ H) as [Hi Hs]. rewrite Nat2Z.id in Hi.
  unfold set_bit_MSb0. rewrite (nth_error_nth_byte _ _ Hi). cbv zeta.
  eexists. split; [reflexivity |]. split; [apply length_store |].
  intros q Hq. unfold bit_at. rewrite nth_store by exact Hi. rewrite Hs.
  destruct (bit_in_octet_pow2 pos ltac:(lia)) as [-> Hk].
  pose proof (Z.mod_pos_bound q 8 ltac:(lia)) as Hq8.
  pose proof (Z.mod_pos_bound pos 8 ltac:(lia)) as Hp8.
  pose proof (Z.div_mod q 8 ltac:(lia)) as Eq.
  pose proof (Z.div_mod pos 8 ltac:(lia)) as Ep.
  assert (0 <= pos / 8) by (apply Z.div_pos; lia).
  assert (0 <= q / 8) by (apply Z.div_pos; lia).
  destruct (Nat.eqb_spec (Z.to_nat (pos / 8)) (Z.to_nat (q / 8))) as [Esame | Hdiff].
  - assert (E8 : q / 8 = pos / 8) by lia. rewrite E8.
    rewrite byte.unsigned_of_Z. unfold byte.wrap.
    rewrite Z.mod_pow2_bits_low by lia.
    destruct bitval.
    + rewrite Z.lor_spec, Z.pow2_bits_eqb by lia.
      destruct (Z.eqb_spec q pos) as [-> | Hne].
      * rewrite Z.eqb_refl. apply orb_true_r.
      * replace (7 - pos mod 8 =? 7 - q mod 8) with false
          by (symmetry; apply Z.eqb_neq; lia).
        apply orb_false_r.
    + rewrite Z.land_spec, Z.lnot_spec, Z.pow2_bits_eqb by lia.
      destruct (Z.eqb_spec q pos) as [-> | Hne].
      * rewrite Z.eqb_refl. apply andb_false_r.
      * replace (7 - pos mod 8 =? 7 - q mod 8) with false
          by (symmetry; apply Z.eqb_neq; lia).
        apply andb_true_r.
  - replace (q =? pos) with false by (symmetry; apply Z.eqb_neq; intros ->; lia).
    reflexivity.
Qed.

(** The loop of [set_integral_MSb0] from the bit [i] on. *)
Lemma set_integral_MSb0_loop_spec (remaining : nat) (i pos src n : Z) (dst : list byte) :
  0 <= i -> 0 <= pos -> i + Z.of_nat remaining = n ->
  pos + n <= 8 * Z.of_nat (List.length dst) ->
  exists dst',
    set_integral_MSb0_loop remaining i pos src n dst = Done (tt, dst')
    /\ List.length dst' = List.length dst
    /\ forall q, 0 <= q ->
         bit_at dst' q
         = if (pos + i <=? q) && (q <? pos + n) then Z.testbit src (n - 1 - (q - pos))
           else bit_at dst q.
Proof.
  revert i dst. induction remaining as [| r IH]; intros i dst Hi Hpos Hn Hlen.
  - exists dst. split; [reflexivity |]. split; [reflexivity |].
    intros q Hq. replace ((pos + i <=? q) && (q <? pos + n)) with false; [reflexivity |].
    symmetry. apply andb_false_iff.
    destruct (Z_le_gt_dec (pos + i) q); [right; apply Z.ltb_ge | left; apply Z.leb_gt]; lia.
  - cbn [set_integral_MSb0_loop].
    destruct (set_bit_MSb0_spec dst (pos + i)
                (Z.land (Z.shiftr src (n - 1 - i)) 1 =? 1) ltac:(lia))
      as (dst1 & E1 & L1 & B1).
    destruct (IH (i + 1) dst1 ltac:(lia) Hpos ltac:(lia) ltac:(lia))
      as (dst' & E2 & L2 & B2).
    exists dst'. split; [| split].
    + erewrite bind_Done by exact E1. exact E2.
    + congruence.
    + intros q Hq. rewrite (B2 q Hq), (B1 q Hq).
      destruct (Z.eqb_spec q (pos + i)) as [-> | Hne].
      * replace ((pos + (i + 1) <=? pos + i) && (pos + i <? pos + n)) with false
          by (symmetry; apply andb_false_iff; left; apply Z.leb_gt; lia).
        replace ((pos + i <=? pos + i) && (pos + i <? pos + n)) with true
          by (symmetry; apply andb_true_iff; split; [apply Z.leb_le | apply Z.ltb_lt]; lia).
        replace (n - 1 - (pos + i - pos)) with (n - 1 - i) by lia.
        change 1 with (Z.ones 1) at 2. rewrite Z.land_ones by lia.
        rewrite Z.shiftr_div_pow2 by lia. change (2 ^ 1) with 2.
        rewrite Z.testbit_eqb by lia. reflexivity.
      * replace (pos + (i + 1) <=? q) with (pos + i <=? q); [reflexivity |].
        destruct (Z.leb_spec (pos + i) q); symmetry;
          [apply Z.leb_le | apply Z.leb_gt]; lia.
Qed.

(** The loop of [get_integral_MSb0] on bits that are those of [src]. *)
Lemma get_integral_MSb0_loop_spec (w : Z) (remaining : nat) (i pos src n : Z)
      (buffer : list byte) :
  0 <= i -> 0 <= pos -> i + Z.of_nat remaining = n -> n <= w ->
  pos + n <= 8 * Z.of_nat (List.length buffer) ->
  (forall q, pos <= q < pos + n -> bit_at buffer q = Z.testbit src (n - 1 - (q - pos))) ->
  get_integral_MSb0_loop w remaining i ((src / 2 ^ (n - i)) mod 2 ^ i) buffer pos
  = Done (src mod 2 ^ n).
Proof.
  revert i. induction remaining as [| r IH]; intros i Hi Hpos Hn Hw Hlen Hbits.
  - cbn [get_integral_MSb0_loop]. replace (n - i) with 0 by lia.
    replace i with n by lia. rewrite Z.pow_0_r, Z.div_1_r. reflexivity.
  - cbn [get_integral_MSb0_loop].
    rewrite get_bit_MSb0_spec by lia.
    rewrite (Hbits (pos + i)) by lia.
    replace (n - 1 - (pos + i - pos)) with (n - i - 1) by lia.
    pose proof (Z.mod_pos_bound (src / 2 ^ (n - i)) (2 ^ i) ltac:(apply Z.pow_pos_nonneg; lia))
      as Hacc.
    set (acc := (src / 2 ^ (n - i)) mod 2 ^ i) in *.
    assert (Hpow : 2 ^ (i + 1) <= 2 ^ w) by (apply Z.pow_le_mono_r; lia).
    assert (E2 : 2 ^ (i + 1) = 2 * 2 ^ i)
      by (rewrite Z.pow_add_r by lia; change (2 ^ 1) with 2; lia).
    rewrite Z.shiftl_mul_pow2 by lia. change (2 ^ 1) with 2.
    rewrite (Z.mod_small (acc * 2)) by lia.
    assert (Enext : (src / 2 ^ (n - (i + 1))) mod 2 ^ (i + 1)
                    = acc * 2 + (if Z.testbit src (n - i - 1) then 1 else 0)).
    { unfold acc. replace (n - (i + 1)) with (n - i - 1) by lia.
      set (t := src / 2 ^ (n - i - 1)).
      assert (Et : src / 2 ^ (n - i) = t / 2).
      { unfold t. replace (n - i) with (n - i - 1 + 1) at 1 by lia.
        rewrite Z.pow_add_r by lia. change (2 ^ 1) with 2.
        rewrite Z.div_div by (try apply Z.pow_pos_nonneg; lia). reflexivity. }
      rewrite Et, E2.
      rewrite Z.testbit_eqb by lia. fold t.
      rewrite Z.rem_mul_r by (try apply Z.pow_nonzero; lia).
      pose proof (Z.mod_pos_bound t 2 ltac:(lia)).
      destruct (Z.eqb_spec (t mod 2) 1); lia. }
    rewrite <- (IH (i + 1)) by (assumption || lia).
    rewrite Enext. f_equal.
    destruct (Z.testbit src (n - i - 1)); [| lia].
    apply BitFacts.lor_add.
    apply Z.bits_inj'. intros k Hk. rewrite Z.land_spec, Z.bits_0.
    destruct (Z.eq_dec k 0) as [-> | Hne].
    + rewrite Z.mul_comm, Z.testbit_even_0. reflexivity.
    + change 1 with (2 ^ 0) at 1. rewrite Z.pow2_bits_false by lia. apply andb_false_r.
Qed.

End BitManipFacts.

Section BitManipProperties.
Import BitManip BitManipFacts.

(** What [set_integral_MSb0] writes, [get_integral_MSb0] reads back: the
    lowest [bits_count] bits of the value, for a field that lies inside the
    buffer, at any bit position, aligned or not; and every bit of the buffer
    outside the field is left as it was. *)
Theorem set_get_integral_MSb0 (w pos src bits_count : Z) (dst : list byte) :
  0 <= bits_count <= w -> 0 <= pos ->
  pos + bits_count <= 8 * Z.of_nat (List.length dst) ->
  exists dst',
    set_integral_MSb0 w pos src bits_count dst = Done (tt, dst')
    /\ List.length dst' = List.length dst
    /\ get_integral_MSb0 w dst' pos bits_count = Done (src mod 2 ^ bits_count)
    /\ forall q, 0 <= q < 8 * Z.of_nat (List.length dst) ->
                 q < pos \/ pos + bits_count <= q ->
                 get_bit_MSb0 dst' q = get_bit_MSb0 dst q.
Proof.
  intros Hn Hpos Hlen.
  destruct (set_integral_MSb0_loop_spec (Z.to_nat bits_count) 0 pos src bits_count dst
              ltac:(lia) Hpos ltac:(lia) Hlen) as (dst' & E & L & B).
  exists dst'. split; [| split; [| split]].
  - unfold set_integral_MSb0.
    replace (bits_count <=? w) with true by (symmetry; apply Z.leb_le; lia).
    exact E.
  - exact L.
  - unfold get_integral_MSb0.
    replace (bits_count <=? w) with true by (symmetry; apply Z.leb_le; lia).
    cbn [negb].
    rewrite <- (get_integral_MSb0_loop_spec w (Z.to_nat bits_count) 0 pos src bits_count dst').
    + rewrite Z.pow_0_r, Z.mod_1_r. reflexivity.
    + lia.
    + exact Hpos.
    + lia.
    + lia.
    + rewrite L. exact Hlen.
    + intros q Hq. rewrite (B q ltac:(lia)).
      replace ((pos + 0 <=? q) && (q <? pos + bits_count)) with true; [reflexivity |].
      symmetry. apply andb_true_iff. split; [apply Z.leb_le | apply Z.ltb_lt]; lia.
  - intros q Hq Hout.
    rewrite !get_bit_MSb0_spec by (rewrite ?L; lia).
    rewrite (B q ltac:(lia)).
    replace ((pos + 0 <=? q) && (q <? pos + bits_count)) with false; [reflexivity |].
    symmetry. apply andb_false_iff.
    destruct Hout; [left; apply Z.leb_gt | right; apply Z.ltb_ge]; lia.
Qed.

End BitManipProperties.

(** Ten bits written at the bit 5 of three bytes. *)
Lemma set_get_integral_MSb0_witness :
  exists dst',
    BitManip.set_integral_MSb0 16 5 0x2AB 10 [Byte.xff; Byte.x00; Byte.xff] = Done (tt, dst')
    /\ BitManip.get_integral_MSb0 16 dst' 5 10 = Done 0x2AB.
Proof.
  destruct (set_get_integral_MSb0 16 5 0x2AB 10 [Byte.xff; Byte.x00; Byte.xff])
    as (dst' & E & _ & G & _).
  - lia.
  - lia.
  - cbn. lia.
  - exists dst'. split; [exact E | exact G].
Defined.
